(* ===== verification/_CoqProject ===== *)
-Q . S2P
Prelude.v
JsString.v
JsRegex.v
JsNumber.v
JsMap.v
JsValue.v
HashlineHash.v
EditDiff.v
HashlineApply.v
HashlineApplySpec.v
HashlineAbsorb.v
HashlineApplyProps.v
HashlineParser.v
HashlineRoundTrip.v
HashlineAnchors.v
HashlinePrefixes.v
HashlineInput.v
HashlineStream.v
FileReadCache.v
HashlineRecovery.v
EditNormalize.v
EditFuzzy.v
PromptFraming.v
EditGuards.v
HashlineExecute.v
Notebook.v
VimBuffer.v
VimCommands.v
VimEngine.v
PathLock.v
FallbackChain.v
ToolChoiceQueue.v
YieldQueue.v
EventStream.v
RateLimitPool.v
Harness.v
Goals.v
Compaction.v
SessionTree.v
SessionContext.v
Recap.v
WorkflowManifest.v
BashRestriction.v
ConflictDetect.v
TodoWrite.v
ReverseLeases.v
AppendOnlyContext.v
RunLedger.v
