(* ===== verification/Prelude.v ===== *)
(** * Verification of the gajae-code coding agent

    gajae-code is a terminal coding agent: a model edits files through tools, and a session around it queues
    work, retries providers, talks to clients and supervises other sessions.  This library models the parts
    of the repository that carry its own logic and proves what they promise.  Every definition is a
    translation of the TypeScript named with it, in the source's names; all are executable.

    ** The program's parts and their files

    The edit path (packages/coding-agent/src/hashline, edit, tools).  The model is shown files with every line
    under an anchor, line number plus a two-letter hash, and edits them by programs that name anchors.

    - [HashlineHash]: hash.ts, types.ts, constants.ts: anchors, edits, errors, line hashes.
    - [HashlineParser]: parser.ts: edit programs to edits.  [HashlineRoundTrip]: their printed syntax and meaning.
    - [HashlineApply]: apply.ts: anchor validation, absorption of duplicated boundary lines, the bottom-up
      splice loop.  [HashlineApplySpec]: the declarative rendering of a batch; [HashlineAbsorb], [HashlineApplyProps]:
      absorption is safe, the loop refines the rendering.
    - [HashlineAnchors]: anchors.ts: references, stale-anchor reports.  [HashlinePrefixes]: prefixes.ts: read output
      echoed as content.  [HashlineInput]: input.ts: sections of a call.  [HashlineStream]: stream.ts: printing
      a file in chunks.
    - [FileReadCache]: file-read-cache.ts: snapshots of what the model was shown.  [HashlineRecovery]: recovery.ts:
      replaying an edit on an old snapshot and merging it.
    - [EditDiff]: diff.ts ([generateDiffString]) and diff-preview.ts.  [EditNormalize]: normalize.ts: line
      endings, byte order marks, indentation.  [EditFuzzy]: the edit distance and the searches for a context line
      and a similar run of lines of edit/modes/replace.ts.  [Notebook]: notebook.ts.  [PathLock]: path-mutation-lock.ts.
    - [EditGuards]: plan-mode-guard.ts and auto-generated-guard.ts.
    - [HashlineExecute]: execute.ts and read-file.ts: the tool call, which composes all of the above over a map
      of files and the read cache.

    - [ConflictDetect]: tools/conflict-detect.ts and the conflict branch of tools/write.ts: the scanner of merge
      conflicts, their ids, and writes that resolve one or all of them.

    Vim mode (src/vim): [VimBuffer]: buffer.ts: lines, cursor, offsets.  [VimCommands]: commands.ts: ex commands.
    [VimEngine]: engine.ts: insert mode, ex execution, registers, undo and redo, and the auto-save of tools/vim.ts.

    Prompts: [PromptFraming]: the escapes and frames of session/messages.ts, transform-messages.ts,
    xml-escape.ts and goals/runtime.ts that keep untrusted text inside its tags.

    What a session may run: [WorkflowManifest]: gjc-runtime/workflow-manifest.ts with the phase gates of state-writer.ts,
    state-runtime.ts and ralplan-runtime.ts: the phases of the workflows, their transitions, commands and artifacts.
    [BashRestriction]: tools/bash-allowed-prefixes.ts and state-argv.ts: the commands of a restricted session, as words the
    shell takes literally; it reads the typed arguments of the manifest.  [TodoWrite]: tools/todo-write.ts: the todo list
    and its Markdown form.

    The session and its clients:
    - [FallbackChain]: fallback-chain-controller.ts: which model is asked next, and when to stop.
    - [ToolChoiceQueue]: tool-choice-queue.ts.  [YieldQueue]: yield-queue.ts.
    - [EventStream]: sdk/host/events.ts: numbered events with replay.  [RateLimitPool]: sdk/bus/rate-limit-pool.ts.
      [ReverseLeases]: sdk/host/reverse-leases.ts: providers that lease a capability and the requests sent to them.
    - [AppendOnlyContext] (packages/agent/src/append-only-context.ts): the prefix and the log of messages that are sent
      unchanged turn after turn, with the JSON text that is compared.  [RunLedger] (packages/agent/src/run-resource-ledger.ts):
      the resources of a run, the leases of its producers and the waiters for its end.
    - [Harness]: harness-control-plane: lifecycle table, next actions, recovery classifier, reconciliation.
    - [Goals]: goals: stored goals, the accounting runtime, the timeout guard.
    - [Compaction] (packages/agent/src/compaction): thresholds, cut points, the preparation of a compaction.
    - [SessionTree]: session-manager.ts: the append-only tree of entries, branches, labels, reopening.
      [SessionContext]: the context a branch gives the model, and what a compaction makes of it: the two compose
      with [Compaction].  [Recap]: recap.ts and sdk/session-recap.ts on top of the tree.

    Shared: this file (results, JavaScript arrays, sorting, automation), [JsString] (UTF-16 strings), [JsRegex]
    (a backtracking matcher with the semantics of ECMA-262, in which the sources' patterns are transcribed),
    [JsNumber], [JsMap] (insertion-ordered maps and sets), [JsValue] (parsed JSON).

    ** How code becomes definitions

    Strings are lists of 16-bit code units ([jstring]); line numbers are [Z]; objects are records and tagged unions
    inductive types.  A function that throws returns [result E A], with a constructor per throw site that
    carries what the message interpolates.  Mutable classes are records passed through their methods; where
    the code mutates objects it shares (the edits a recovery replays, the waiters of a mutex) the model returns
    the mutated objects too.  [HashlineExecute] threads files and cache through a state and error monad;
    [PathLock], [FallbackChain], [YieldQueue], [RateLimitPool], [VimEngine], [Goals] and [SessionTree] have step
    relations or traces and invariants by induction on them, as have [TodoWrite], [ReverseLeases], [AppendOnlyContext] and
    [RunLedger]; what a callback or a promise is given is a log in the state.  Code outside the repository is a class with what the code relies on as laws, and
    an instance that satisfies them: the hash function ([LineHasher]), the LRU cache ([LRUCache]), the line diff and
    patch libraries ([NativeDiff], [PatchLib]), Node's path module ([NodePath], [GuardEnv]), the file
    system ([EditIO]).

    ** What the theorems show

    - Edits: parsing inverts printing and its results are well formed; a batch is applied exactly when every
      anchor holds, the result is the declarative rendering, absorption deletes only lines the batch
      inserts again, and without warnings the edit is exactly what was written; recovery is vouched for by one
      snapshot and lands in one place; a failed call writes nothing unless its dry run passed, a batch that
      passed is applied whole, and plan mode protects every other file.
    - What the model reads back: previews, rejections and retry messages print anchors that hold and parse; read
      output echoed as content is recovered; streaming prints every line once within its limits.
    - Text: byte order marks and line endings survive, indentation follows the matched text and nothing else
      changes, notebooks survive a round trip.
    - Locking: no two running edits share a path, and calls that lock several paths all finish.
    - Prompts: wrapped text cannot close its frame, reserved tags are gone, metadata is inert, escapes lose
      nothing.
    - Session: the fallback chain asks its entries in order within budget and stops; queues serve in order and
      deliver everything; event replay is complete or says what is missing; grants stay within the token
      bucket and lanes are served; the recovery classifier never endangers work in the tree.
    - Vim: the buffer stays well formed, edits by offset are splices of the text, undo and redo are inverse.
    - Conflicts: resolving all of them replaces exactly the scanned blocks, ids stay unique and stable, a region is found
      again at its closest place.
    - Restrictions: a command that may run is a sequence of literal words that begins with an allowed one, what is run is what was
      checked, and a gjc command stays bound to its session; workflows move along declared transitions and can always
      finish.
    - Todo lists: one task is active while any is open, texts stay distinct, the Markdown form reads back.
    - Leases and runs: requests and waiters are answered exactly once, an answer says what the run is, leases are exclusive and
      keep their run from settling, a quarantined run stays so.
    - Append-only context: the log has the text of the messages and what was sent is never written anew while it is still the
      beginning; a fork accepts the snapshot of its parent.
    - Goals: stored goals are typed, tokens and time are booked once and reach the disk, status moves forward.
    - Sessions: branches never change, a reopened session is the same, a session split off a branch keeps it; a
      compaction cuts between turns' calls and results, loses no message since the last one, and the model then
      sees the summary and what was kept; the chosen model stays; the recap found is the one of the last turn.

    ** Bounds and fuel

    The parser loop takes the number of lines as fuel and consumes one per round ([parser_loop_terminates]); the
    regular-expression star takes the length of the rest of the input, since an iteration that consumes
    nothing is refused; [replace_all] and [split_str] take the length of the text; the absorption loop of
    [HashlineApply] takes the number of edits; [gcd] takes its second argument, which decreases; the loops
    over ex addresses and segments of [VimCommands] and the walks back of [VimEngine] take the length of what
    they read; the walk from a leaf takes the number of entries, one more than it can visit ([walk_fuel]); a 32-bit
    number has at most eight digits to base 36; three transitions finish any workflow.  Where a
    theorem concludes that an operation returns, it is proved for these definitions, not assumed.

    ** Not modelled

    Provider protocols, authentication, the terminal interface, language servers, daemons and the command line are
    input and output around these parts.  Inside modelled files: the wording of error messages,
    language-server diagnostics of a write, JSON reading and writing of notebooks, the sanitising of fallback
    summaries, previews of a call that is still streaming, the native fuzzy matcher, the keys of vim's normal and
    visual mode, summaries written by a model, the footers and summaries of conflicts and todo lists, the lookup of
    executables and repositories by a restricted session, values with a [toJSON] method or fractional numbers in the
    append-only context, and of sessions the file itself, cold storage and blobs. *)
From stdpp Require Export base tactics list gmap sets sorting strings.
From Stdlib Require Export ZArith Lia.

(** ** Results: a value or a thrown error *)

Inductive result (E A : Type) : Type :=
| Ok (a : A)
| Throw (e : E).
Arguments Ok {E A} a.
Arguments Throw {E A} e.

#[global] Instance result_ret {E} : MRet (result E) := fun A a => Ok a.
#[global] Instance result_bind {E} : MBind (result E) :=
  fun A B f m => match m with Ok a => f a | Throw e => Throw e end.
#[global] Instance result_fmap {E} : FMap (result E) :=
  fun A B f m => match m with Ok a => Ok (f a) | Throw e => Throw e end.

(** [try m catch h]: run the handler on the error of [m]. *)
Definition try_catch {E A} (m : result E A) (h : E -> result E A) : result E A :=
  match m with Ok a => Ok a | Throw e => h e end.

(** A left fold whose body may throw. *)
Fixpoint foldM {E A B} (f : B -> A -> result E B) (b : B) (l : list A) : result E B :=
  match l with
  | [] => Ok b
  | a :: l' => b' ← f b a; foldM f b' l'
  end.

(** ** JavaScript arrays: integer indices, reads outside the range give [undefined] *)

(** [arr[i]] *)
Definition arr_at {A} (l : list A) (i : Z) : option A :=
  if (i <? 0)%Z then None else l !! Z.to_nat i.

(** [arr.slice(start, end)] for [0 <= start]; an end past the length is the length. *)
Definition arr_slice {A} (l : list A) (start stop : Z) : list A :=
  take (Z.to_nat stop - Z.to_nat start) (drop (Z.to_nat start) l).

(** [arr.splice(start, deleteCount, ...items)]: a negative start counts from the end, a start
    past the length is the length. *)
Definition arr_splice {A} (l : list A) (start del : Z) (items : list A) : list A :=
  let n := Z.of_nat (length l) in
  let at_ := if (start <? 0)%Z then Z.max 0 (n + start) else Z.min start n in
  take (Z.to_nat at_) l ++ items ++ drop (Z.to_nat at_ + Z.to_nat del) l.

Definition zlength {A} (l : list A) : Z := Z.of_nat (length l).

(** [Array.prototype.sort] with a comparator is a stable sort: the stable sorted permutation is
    unique, and insertion sort computes it. *)
Fixpoint insert_by {A} (cmp : A -> A -> Z) (x : A) (l : list A) : list A :=
  match l with
  | [] => [x]
  | y :: l' => if (cmp x y <=? 0)%Z then x :: y :: l' else y :: insert_by cmp x l'
  end.

Fixpoint sort_by {A} (cmp : A -> A -> Z) (l : list A) : list A :=
  match l with
  | [] => []
  | x :: l' => insert_by cmp x (sort_by cmp l')
  end.

(** [for (let i = lo; i <= hi; i++)]: the values of [i]. *)
Definition zseq (start : Z) (count : nat) : list Z :=
  (fun i : nat => (start + Z.of_nat i)%Z) <$> seq 0 count.

Definition zrange (lo hi : Z) : list Z := zseq lo (Z.to_nat (hi - lo + 1)).

(** ** Automation *)

Create HintDb gajae.
Create Rewrite HintDb gajae.

(** Split every [if] and [match] of the goal, close what is immediate. *)
Ltac break_match_goal :=
  repeat (case_match || case_decide); simplify_eq/=; try done.

(** Turn boolean integer comparisons into propositions. *)
Ltac zify_bool :=
  repeat match goal with
  | H : (_ <? _)%Z = true |- _ => apply Z.ltb_lt in H
  | H : (_ <? _)%Z = false |- _ => apply Z.ltb_ge in H
  | H : (_ <=? _)%Z = true |- _ => apply Z.leb_le in H
  | H : (_ <=? _)%Z = false |- _ => apply Z.leb_gt in H
  | H : (_ =? _)%Z = true |- _ => apply Z.eqb_eq in H
  | H : (_ =? _)%Z = false |- _ => apply Z.eqb_neq in H
  | H : (_ && _)%bool = true |- _ => apply andb_true_iff in H as [??]
  | H : (_ || _)%bool = false |- _ => apply orb_false_iff in H as [??]
  | H : bool_decide _ = true |- _ => apply bool_decide_eq_true in H
  | H : bool_decide _ = false |- _ => apply bool_decide_eq_false in H
  | H : negb _ = true |- _ => apply negb_true_iff in H
  | H : negb _ = false |- _ => apply negb_false_iff in H
  end.

(** ** Lemmas *)

Lemma zlength_nonneg {A} (l : list A) : (0 <= zlength l)%Z.
Proof. unfold zlength. lia. Qed.

Lemma zlength_app {A} (l k : list A) : zlength (l ++ k) = (zlength l + zlength k)%Z.
Proof. unfold zlength. rewrite length_app. lia. Qed.

Lemma arr_at_Some {A} (l : list A) i x :
  arr_at l i = Some x <-> (0 <= i)%Z /\ l !! Z.to_nat i = Some x.
Proof.
  unfold arr_at. destruct (Z.ltb_spec i 0); [|naive_solver].
  split; [done | intros [? _]; lia].
Qed.

Lemma arr_at_is_Some {A} (l : list A) i :
  is_Some (arr_at l i) <-> (0 <= i < zlength l)%Z.
Proof.
  unfold arr_at, zlength. destruct (Z.ltb_spec i 0).
  - split; [by intros [??] | lia].
  - rewrite lookup_lt_is_Some. lia.
Qed.

Lemma arr_at_split {A} (l : list A) i x :
  arr_at l i = Some x ->
  l = take (Z.to_nat i) l ++ x :: drop (S (Z.to_nat i)) l.
Proof. intros [_ H]%arr_at_Some. by rewrite take_drop_middle. Qed.

Lemma arr_splice_split {A} (pre post : list A) x items :
  arr_splice (pre ++ x :: post) (zlength pre) 1 items = pre ++ items ++ post.
Proof.
  unfold arr_splice, zlength. rewrite length_app. simpl.
  destruct (Z.ltb_spec (Z.of_nat (length pre)) 0); [lia|].
  rewrite Z.min_l by lia. rewrite Nat2Z.id.
  rewrite take_app_length. f_equal. f_equal.
  rewrite drop_app_ge by (simpl; lia).
  by replace (length pre + _ - length pre) with 1 by (simpl; lia).
Qed.

Lemma length_arr_splice {A B} (l : list A) (k : list B) s d items items' :
  length l = length k -> length items = length items' ->
  length (arr_splice l s d items) = length (arr_splice k s d items').
Proof.
  intros H1 H2. unfold arr_splice. rewrite !length_app, !length_take, !length_drop, H1, H2. done.
Qed.

Lemma insert_by_perm {A} (cmp : A -> A -> Z) x l : insert_by cmp x l ≡ₚ x :: l.
Proof.
  induction l as [|y l IH]; simpl; [done|]. case_match; [done|].
  rewrite IH. constructor.
Qed.

Lemma sort_by_perm {A} (cmp : A -> A -> Z) l : sort_by cmp l ≡ₚ l.
Proof. induction l as [|x l IH]; simpl; [done|]. by rewrite insert_by_perm, IH. Qed.

Lemma insert_by_sorted {A} (cmp : A -> A -> Z) (x : A) l :
  (forall a b c, cmp a b <= 0 -> cmp b c <= 0 -> cmp a c <= 0)%Z ->
  (forall a b, 0 < cmp a b -> cmp b a <= 0)%Z ->
  StronglySorted (fun a b => cmp a b <= 0)%Z l ->
  StronglySorted (fun a b => cmp a b <= 0)%Z (insert_by cmp x l).
Proof.
  intros Htr Htot. induction 1 as [|y l Hs IH Hy]; simpl.
  - repeat constructor.
  - destruct (Z.leb_spec (cmp x y) 0).
    + constructor; [by constructor|]. constructor; [done|].
      eapply Forall_impl; [exact Hy|]. intros z. by apply Htr.
    + constructor; [done|]. rewrite insert_by_perm. constructor; [by apply Htot | done].
Qed.

Lemma sort_by_sorted {A} (cmp : A -> A -> Z) l :
  (forall a b c, cmp a b <= 0 -> cmp b c <= 0 -> cmp a c <= 0)%Z ->
  (forall a b, 0 < cmp a b -> cmp b a <= 0)%Z ->
  StronglySorted (fun a b => cmp a b <= 0)%Z (sort_by cmp l).
Proof.
  intros Htr Htot. induction l; simpl; [constructor|]. by apply insert_by_sorted.
Qed.

(** Sorting a sorted array changes nothing. *)
Lemma sort_by_id {A} (cmp : A -> A -> Z) l :
  StronglySorted (fun a b => cmp a b <= 0)%Z l -> sort_by cmp l = l.
Proof.
  induction 1 as [|x l Hs IH Hx]; simpl; [done|]. rewrite IH.
  destruct Hx as [|y l Hy _]; simpl; [done|]. by apply Z.leb_le in Hy as ->.
Qed.

Lemma length_zseq s n : length (zseq s n) = n.
Proof. unfold zseq. by rewrite length_fmap, length_seq. Qed.

Lemma elem_of_zseq s n x : x ∈ zseq s n <-> (s <= x < s + Z.of_nat n)%Z.
Proof.
  unfold zseq. rewrite list_elem_of_fmap. split.
  - intros (i & -> & [? ?]%elem_of_seq). lia.
  - intros H. exists (Z.to_nat (x - s)). rewrite elem_of_seq. lia.
Qed.

Lemma elem_of_zrange lo hi x : x ∈ zrange lo hi <-> (lo <= x <= hi)%Z.
Proof. unfold zrange. rewrite elem_of_zseq. lia. Qed.

Lemma zseq_S s n : zseq s (S n) = s :: zseq (s + 1) n.
Proof.
  unfold zseq. simpl. f_equal; [lia|]. rewrite <- fmap_S_seq, <- list_fmap_compose.
  apply list_fmap_ext. intros i x _. simpl. lia.
Qed.

Lemma zseq_snoc s n : zseq s (S n) = zseq s n ++ [(s + Z.of_nat n)%Z].
Proof. unfold zseq. rewrite seq_S, fmap_app. done. Qed.

Lemma zseq_app s n m : zseq s (n + m) = zseq s n ++ zseq (s + Z.of_nat n) m.
Proof.
  revert s. induction n as [|n IH]; intros s; [simpl; by rewrite Z.add_0_r|].
  change (S n + m)%nat with (S (n + m)). rewrite !zseq_S, IH. cbn [app]. do 3 f_equal. lia.
Qed.

Lemma foldM_app {E A B} (f : B -> A -> result E B) b l l' :
  foldM f b (l ++ l') = (b' ← foldM f b l; foldM f b' l').
Proof. revert b. induction l as [|a l IH]; intros b; [done|]. cbn [app foldM]. destruct (f b a); [apply IH|done]. Qed.

Lemma Forall_filter {A} (Q P : A -> Prop) `{!forall x, Decision (P x)} l : Forall Q l -> Forall Q (filter P l).
Proof. rewrite !Forall_forall. intros HQ x [_ Hx]%list_elem_of_filter. auto. Qed.

Lemma filter_all {A} (P : A -> Prop) `{!forall x, Decision (P x)} l : Forall P l -> filter P l = l.
Proof. induction 1 as [|x l Hx _ IH]; [done|]. rewrite filter_cons_True by done. by rewrite IH. Qed.

(** Keys stay distinct when entries are dropped. *)
Lemma NoDup_fst_filter {A B} (P : A * B -> Prop) `{!forall x, Decision (P x)} l : NoDup l.*1 -> NoDup (filter P l).*1.
Proof.
  induction l as [|[a b] l IH]; [done|]. cbn [fmap list_fmap fst]. intros [H1 H2]%NoDup_cons. rewrite filter_cons. case_decide; [|by apply IH].
  cbn. constructor; [|by apply IH]. intros (x & -> & Hx)%list_elem_of_fmap. apply list_elem_of_filter in Hx as [_ Hx]. apply H1, list_elem_of_fmap. eauto.
Qed.

Lemma StronglySorted_filter {A} (R : A -> A -> Prop) (P : A -> Prop) `{!forall x, Decision (P x)} l :
  StronglySorted R l -> StronglySorted R (filter P l).
Proof.
  induction 1 as [|x l Hs IH Hx]; [constructor|]. rewrite filter_cons. case_decide; [|done].
  constructor; [done|]. rewrite Forall_forall in *. intros y [_ Hy]%list_elem_of_filter. eauto.
Qed.

Lemma zrange_sorted lo hi : StronglySorted Z.lt (zrange lo hi).
Proof.
  unfold zrange. generalize (Z.to_nat (hi - lo + 1)). intros n. revert lo. induction n as [|n IH]; intros lo; [constructor|].
  rewrite zseq_S. constructor; [apply IH|]. apply Forall_forall. intros x Hx%elem_of_zseq. lia.
Qed.

Lemma bind_Ok {E A B} (m : result E A) (f : A -> result E B) b :
  (m ≫= f) = Ok b <-> exists a, m = Ok a /\ f a = Ok b.
Proof. destruct m; simpl; naive_solver. Qed.

#[export] Hint Resolve zlength_nonneg : gajae.

Lemma NoDup_zrange lo hi : NoDup (zrange lo hi).
Proof. apply NoDup_fmap_2; [intros x y Hxy; lia|]. apply NoDup_seq. Qed.

Lemma filter_singleton_iff {A} (P : A -> Prop) `{!forall x, Decision (P x)} (l : list A) x :
  NoDup l -> filter P l = [x] <-> (x ∈ l /\ P x) /\ forall y, y ∈ l -> P y -> y = x.
Proof.
  intros Hnd. split.
  - intros E. assert (forall y, y ∈ filter P l <-> y = x) as Hin.
    { intros y. by rewrite E, list_elem_of_singleton. }
    setoid_rewrite list_elem_of_filter in Hin. split; [|intros y ? ?; by apply Hin].
    by destruct (proj2 (Hin x) eq_refl).
  - intros [[Hx Px] Hu]. apply Permutation_singleton_r. apply NoDup_Permutation.
    + by apply NoDup_filter.
    + apply NoDup_singleton.
    + intros y. rewrite list_elem_of_filter, list_elem_of_singleton.
      split; [intros [? ?]; by apply Hu|by intros ->].
Qed.
