(* ===== verification/JsString.v ===== *)
(** * JavaScript strings

    A JavaScript string is a sequence of UTF-16 code units; here it is a [list N].  This file
    holds the string operations the modelled sources call: [split], [join], [trim], [slice],
    [startsWith], [indexOf], decimal printing and [Number.parseInt(_, 10)]. *)
From S2P Require Import Prelude.
From Stdlib Require Import Ascii Decimal DecimalN DecimalFacts.
From Stdlib Require Import ZifyBool ZifyN.

(** ** Code units and literals *)

Abbreviation jstring := (list N).

Fixpoint js (s : string) : jstring :=
  match s with
  | EmptyString => []
  | String c s' => N_of_ascii c :: js s'
  end.

Definition c_lf : N := 10.
Definition c_cr : N := 13.
Definition c_space : N := 32.

(** The code units of ECMAScript [WhiteSpace] and [LineTerminator]: the class [\s], and what
    [trim] strips. *)
Definition is_ws (c : N) : bool :=
  ((9 <=? c) && (c <=? 13) || (c =? 32) || (c =? 160) || (c =? 5760)
   || (8192 <=? c) && (c <=? 8202) || (c =? 8232) || (c =? 8233) || (c =? 8239)
   || (c =? 8287) || (c =? 12288) || (c =? 65279))%N.

Definition is_digit (c : N) : bool := ((48 <=? c) && (c <=? 57))%N.
Definition is_lower (c : N) : bool := ((97 <=? c) && (c <=? 122))%N.
Definition is_upper (c : N) : bool := ((65 <=? c) && (c <=? 90))%N.

(** [\w] *)
Definition is_word (c : N) : bool := is_digit c || is_lower c || is_upper c || (c =? 95)%N.

(** The units [.] does not match. *)
Definition is_line_terminator (c : N) : bool :=
  ((c =? 10) || (c =? 13) || (c =? 8232) || (c =? 8233))%N.

(** ** Splitting and joining *)

(** Put [c] in front of the first piece. *)
Definition cons_head (c : N) (l : list jstring) : list jstring :=
  match l with [] => [[c]] | x :: l' => (c :: x) :: l' end.

(** [s.split(sep)] for a one-unit separator. *)
Fixpoint split_on (sep : N) (s : jstring) : list jstring :=
  match s with
  | [] => [[]]
  | c :: s' => if (c =? sep)%N then [] :: split_on sep s' else cons_head c (split_on sep s')
  end.

(** [s.split(/\r?\n/)] *)
Fixpoint split_crlf (s : jstring) : list jstring :=
  match s with
  | [] => [[]]
  | c :: s' =>
      if (c =? c_lf)%N then [] :: split_crlf s'
      else match s' with
           | d :: s'' =>
               if ((c =? c_cr) && (d =? c_lf))%N then [] :: split_crlf s''
               else cons_head c (split_crlf s')
           | [] => [[c]]
           end
  end.

(** [l.join(sep)] *)
Fixpoint join (sep : jstring) (l : list jstring) : jstring :=
  match l with
  | [] => []
  | [x] => x
  | x :: l' => x ++ sep ++ join sep l'
  end.

(** ** Trimming *)

Fixpoint trim_start (s : jstring) : jstring :=
  match s with
  | [] => []
  | c :: s' => if is_ws c then trim_start s' else s
  end.

(** [trimEnd], by recursion from the left: a run of white space survives only when something
    else follows it. *)
Fixpoint trim_end (s : jstring) : jstring :=
  match s with
  | [] => []
  | c :: s' => match trim_end s' with
               | [] => if is_ws c then [] else [c]
               | t => c :: t
               end
  end.

Definition trim (s : jstring) : jstring := trim_end (trim_start s).

(** ** Searching *)

Fixpoint starts_with (p s : jstring) : bool :=
  match p, s with
  | [], _ => true
  | c :: p', d :: s' => (c =? d)%N && starts_with p' s'
  | _ :: _, [] => false
  end.

(** [s.endsWith(c)] for a one-unit suffix. *)
Definition ends_with_unit (c : N) (s : jstring) : bool :=
  match last s with Some d => (d =? c)%N | None => false end.

(** [s.slice(0, -1)] *)
Definition drop_last (s : jstring) : jstring := take (length s - 1) s.

(** [s.includes(p)] *)
Fixpoint includes (p s : jstring) : bool :=
  starts_with p s || match s with [] => false | _ :: s' => includes p s' end.

(** [s.indexOf(c)] for a one-unit pattern; [None] is [-1]. *)
Fixpoint index_of (c : N) (s : jstring) : option nat :=
  match s with
  | [] => None
  | d :: s' => if (d =? c)%N then Some 0%nat else S <$> index_of c s'
  end.

(** [s.replace(/c/g, "")] for one unit. *)
Definition remove_unit (c : N) (s : jstring) : jstring := filter (fun d => d ≠ c) s.

(** [s.split(sep)] for a non-empty separator of any length. *)
Fixpoint split_str_fuel (fuel : nat) (sep s : jstring) : list jstring :=
  match fuel, s with
  | O, _ => [s]
  | S f, [] => [[]]
  | S f, c :: s' =>
      if starts_with sep s then [] :: split_str_fuel f sep (drop (length sep) s)
      else cons_head c (split_str_fuel f sep s')
  end.

(** Every step drops at least one unit, so the length plus one is enough fuel. *)
Definition split_str (sep s : jstring) : list jstring := split_str_fuel (S (length s)) sep s.

(** ** Decimal numbers *)

Fixpoint uint_str (d : Decimal.uint) : jstring :=
  match d with
  | Nil => []
  | D0 d => 48%N :: uint_str d | D1 d => 49%N :: uint_str d | D2 d => 50%N :: uint_str d
  | D3 d => 51%N :: uint_str d | D4 d => 52%N :: uint_str d | D5 d => 53%N :: uint_str d
  | D6 d => 54%N :: uint_str d | D7 d => 55%N :: uint_str d | D8 d => 56%N :: uint_str d
  | D9 d => 57%N :: uint_str d
  end.

(** [String(n)] for an integer. *)
Definition z_str (z : Z) : jstring :=
  if (z <? 0)%Z then 45%N :: uint_str (N.to_uint (Z.to_N (- z))) else uint_str (N.to_uint (Z.to_N z)).

Definition digit_cons (c : N) (d : Decimal.uint) : Decimal.uint :=
  match c with
  | 48 => D0 d | 49 => D1 d | 50 => D2 d | 51 => D3 d | 52 => D4 d
  | 53 => D5 d | 54 => D6 d | 55 => D7 d | 56 => D8 d | _ => D9 d
  end%N.

(** The leading run of digits, as a decimal. *)
Fixpoint digits_uint (s : jstring) : Decimal.uint :=
  match s with
  | [] => Nil
  | c :: s' => if is_digit c then digit_cons c (digits_uint s') else Nil
  end.

(** [Number.parseInt(s, 10)] on a string that starts with a digit.  Doubles are exact up to
    2^53; the model is exact everywhere. *)
Definition parse_int (s : jstring) : Z := Z.of_N (N.of_uint (digits_uint s)).

(** ** Lemmas: splitting *)

Lemma split_on_nonempty sep s : split_on sep s ≠ [].
Proof. induction s as [|c s IH]; simpl; [done|]. case_match; [done|]. by destruct (split_on sep s). Qed.

Lemma join_cons sep x l : l ≠ [] -> join sep (x :: l) = x ++ sep ++ join sep l.
Proof. by destruct l. Qed.

Lemma join_cons_head c l sep : l ≠ [] -> join sep (cons_head c l) = c :: join sep l.
Proof. destruct l as [|x [|y l]]; done. Qed.

(** [s.split("\n").join("\n") === s] *)
Lemma join_split_on sep s : join [sep] (split_on sep s) = s.
Proof.
  induction s as [|c s IH]; simpl; [done|].
  destruct (N.eqb_spec c sep) as [->|Hne].
  - rewrite join_cons by apply split_on_nonempty. simpl. by rewrite IH.
  - rewrite join_cons_head by apply split_on_nonempty. by rewrite IH.
Qed.

Lemma split_on_no_sep sep s : sep ∉ s -> split_on sep s = [s].
Proof.
  induction s as [|c s IH]; intros Hs; simpl; [done|]. apply not_elem_of_cons in Hs as [Hc Hs].
  destruct (N.eqb_spec c sep); [congruence|]. by rewrite IH.
Qed.

Lemma split_on_app sep s t :
  sep ∉ s -> split_on sep (s ++ sep :: t) = s :: split_on sep t.
Proof.
  induction s as [|c s IH]; intros Hs; simpl.
  - by rewrite N.eqb_refl.
  - apply not_elem_of_cons in Hs as [Hc Hs]. destruct (N.eqb_spec c sep); [congruence|].
    by rewrite IH.
Qed.

(** [l.join("\n").split("\n")] gives [l] back when [l] is not empty and no line has a newline. *)
Lemma split_on_join sep l :
  l ≠ [] -> Forall (fun x => sep ∉ x) l -> split_on sep (join [sep] l) = l.
Proof.
  induction l as [|x l IH]; [done|]. intros _ [Hx Hl]%Forall_cons.
  destruct l as [|y l]; [by apply split_on_no_sep|].
  rewrite join_cons by done.
  change (x ++ [sep] ++ join [sep] (y :: l)) with (x ++ sep :: join [sep] (y :: l)).
  rewrite split_on_app by done. by rewrite IH.
Qed.

Lemma cons_head_Forall (P : jstring -> Prop) c l :
  Forall (fun x => P (c :: x)) l -> Forall P l -> l ≠ [] -> Forall P (cons_head c l).
Proof. destruct l; [done|]. intros [? _]%Forall_cons [_ ?]%Forall_cons _. by constructor. Qed.

Lemma split_on_pieces sep s : Forall (fun x => sep ∉ x) (split_on sep s).
Proof.
  induction s as [|c s IH]; simpl.
  - constructor; [apply not_elem_of_nil|constructor].
  - destruct (N.eqb_spec c sep).
    + constructor; [apply not_elem_of_nil|done].
    + apply cons_head_Forall; [|done|apply split_on_nonempty].
      eapply Forall_impl; [exact IH|]. intros x Hx. by apply not_elem_of_cons.
Qed.

Lemma split_on_snoc sep s : split_on sep (s ++ [sep]) = split_on sep s ++ [[]].
Proof.
  induction s as [|c s IH]; simpl; [by rewrite N.eqb_refl|]. rewrite IH.
  destruct (c =? sep)%N; [done|]. pose proof (split_on_nonempty sep s). by destruct (split_on sep s).
Qed.

Lemma elem_of_join c sep l x : x ∈ l -> c ∈ x -> c ∈ join sep l.
Proof.
  intros Hx Hc. induction l as [|y l IH]; [by apply elem_of_nil in Hx|].
  apply elem_of_cons in Hx as [->|Hx].
  - destruct l; [done|]. rewrite join_cons by done. apply elem_of_app. by left.
  - destruct l; [by apply elem_of_nil in Hx|]. rewrite join_cons by done.
    rewrite !elem_of_app. right. right. by apply IH.
Qed.

(** Text that comes in pieces: what follows the last separator is split again with the next piece. *)
Lemma split_on_more sep s t :
  exists done p, split_on sep s = done ++ [p] /\ split_on sep (s ++ t) = done ++ split_on sep (p ++ t).
Proof.
  induction s as [|c s (done & p & E1 & E2)]; [by exists [], []|].
  change ((c :: s) ++ t) with (c :: (s ++ t)). cbn [split_on]. rewrite E1, E2. destruct (c =? sep)%N eqn:Ec; [by exists ([] :: done), p|].
  destruct done as [|x done].
  - exists [], (c :: p). change ((c :: p) ++ t) with (c :: (p ++ t)). split; [done|].
    cbn [split_on]. by rewrite Ec.
  - by exists ((c :: x) :: done), p.
Qed.

Lemma index_of_Some c s n :
  index_of c s = Some n -> s = take n s ++ c :: drop (S n) s /\ (c ∉ take n s).
Proof.
  revert n. induction s as [|d s IH]; intros n; [done|]. cbn [index_of].
  destruct (N.eqb_spec d c) as [->|Hne].
  - intros [= <-]. split; [done|apply not_elem_of_nil].
  - destruct (index_of c s) as [k|] eqn:E; [|done]. intros [= <-].
    destruct (IH k eq_refl) as [E' Hk]. split; [exact (f_equal (cons d) E')|].
    cbn [take]. apply not_elem_of_cons. by split; [congruence|].
Qed.

Lemma index_of_None c s : index_of c s = None -> (c ∉ s).
Proof.
  induction s as [|d s IH]; [intros _; apply not_elem_of_nil|]. cbn [index_of].
  destruct (N.eqb_spec d c) as [->|Hne]; [done|].
  destruct (index_of c s); [done|]. intros _. apply not_elem_of_cons. split; [congruence|by apply IH].
Qed.

Lemma join_snoc sep l x : l ≠ [] -> join sep (l ++ [x]) = join sep l ++ sep ++ x.
Proof.
  induction l as [|y l IH]; [done|]. intros _. destruct l as [|z l]; [done|].
  change ((y :: z :: l) ++ [x]) with (y :: (z :: l) ++ [x]).
  rewrite !join_cons by done. rewrite IH by done. by rewrite <- !app_assoc.
Qed.

(** A line that splitting leaves alone: no line feed, no final carriage return. *)
Definition plain_line (l : jstring) : Prop := (c_lf ∉ l) /\ last l ≠ Some c_cr.

Lemma split_crlf_line l s :
  (c_lf ∉ l) -> last l ≠ Some c_cr -> split_crlf (l ++ c_lf :: s) = l :: split_crlf s.
Proof.
  induction l as [|c l IH]; [done|]. intros [Hc Hl]%not_elem_of_cons Hcr. simpl.
  destruct (N.eqb_spec c c_lf); [congruence|].
  assert (split_crlf (l ++ c_lf :: s) = l :: split_crlf s) as E.
  { apply IH; [done|]. destruct l; [done|]. exact Hcr. }
  destruct l as [|d l]; simpl in *.
  - destruct (N.eqb_spec c c_cr); [congruence|]. done.
  - apply not_elem_of_cons in Hl as [Hd _]. destruct (N.eqb_spec d c_lf); [congruence|].
    rewrite andb_false_r. rewrite E. done.
Qed.

Lemma split_crlf_plain l : plain_line l -> split_crlf l = [l].
Proof.
  intros [Hlf _]. induction l as [|c l IH]; [done|]. apply not_elem_of_cons in Hlf as [Hc Hlf]. simpl.
  destruct (N.eqb_spec c c_lf); [congruence|]. rewrite (IH Hlf). destruct l as [|d l]; [done|].
  apply not_elem_of_cons in Hlf as [Hd _]. destruct (N.eqb_spec d c_lf); [congruence|].
  by rewrite andb_false_r.
Qed.

Lemma split_crlf_join ls : ls ≠ [] -> Forall plain_line ls -> split_crlf (join [c_lf] ls) = ls.
Proof.
  intros Hne Hls. induction Hls as [|l ls Hl Hls IH]; [done|].
  destruct ls as [|l' ls]; [by apply split_crlf_plain|].
  rewrite join_cons by done. change ([c_lf] ++ ?s) with (c_lf :: s). destruct Hl as [H1 H2].
  by rewrite split_crlf_line, IH.
Qed.

(** ** Lemmas: decimal numbers *)

Lemma uint_str_digits d : Forall (fun c => is_digit c = true) (uint_str d).
Proof. induction d; simpl; constructor; done. Qed.

Lemma digits_uint_str d s :
  match s with c :: _ => is_digit c = false | [] => True end ->
  digits_uint (uint_str d ++ s) = d.
Proof.
  intros Hs. induction d; simpl; try (by f_equal). destruct s; simpl; [done|]. by rewrite Hs.
Qed.

Lemma digits_uint_str_nil d : digits_uint (uint_str d) = d.
Proof. rewrite <- (List.app_nil_r (uint_str d)). by apply digits_uint_str. Qed.

(** [parseInt(String(n))] is [n]. *)
Lemma parse_int_z_str z : (0 <= z)%Z -> parse_int (z_str z) = z.
Proof.
  intros Hz. unfold parse_int, z_str. destruct (Z.ltb_spec z 0); [lia|].
  rewrite digits_uint_str_nil, DecimalN.Unsigned.of_to. lia.
Qed.

Lemma z_str_digits z : (0 <= z)%Z -> Forall (fun c => is_digit c = true) (z_str z).
Proof. intros Hz. unfold z_str. destruct (Z.ltb_spec z 0); [lia|]. apply uint_str_digits. Qed.

(** A positive number is printed without a leading zero. *)
Lemma z_str_head z :
  (0 < z)%Z -> exists c s, z_str z = c :: s /\ (49 <= c <= 57)%N /\
    Forall (fun c => is_digit c = true) s.
Proof.
  intros Hz. unfold z_str. destruct (Z.ltb_spec z 0); [lia|].
  assert (unorm (N.to_uint (Z.to_N z)) = N.to_uint (Z.to_N z)) as Hn.
  { by rewrite <- DecimalN.Unsigned.to_of, DecimalN.Unsigned.of_to. }
  assert (N.to_uint (Z.to_N z) <> D0 Nil) as Hnz.
  { intros E. apply (f_equal N.of_uint) in E. rewrite DecimalN.Unsigned.of_to in E.
    simpl in E. lia. }
  destruct (N.to_uint (Z.to_N z)) as [|u|u|u|u|u|u|u|u|u|u]; simpl in *; [done| |..];
    try (eexists _, _; split_and!; [done|lia|lia|apply uint_str_digits]).
  exfalso. clear -Hn Hnz. unfold unorm in Hn. simpl in Hn.
  destruct (nzhead u) eqn:E; try done. by apply (nzhead_nonzero u u0).
Qed.

Lemma z_str_nonempty z :
  (0 <= z)%Z -> exists c s, z_str z = c :: s /\ is_digit c = true /\
    Forall (fun c => is_digit c = true) s.
Proof.
  intros Hz. pose proof (z_str_digits z Hz) as Hd. destruct (z_str z) as [|c s] eqn:E.
  - destruct (Z.eq_dec z 0) as [->|]; [done|].
    destruct (z_str_head z ltac:(lia)) as (c & s & E' & _). congruence.
  - apply Forall_cons in Hd as [? ?]. eauto.
Qed.

(** ** Lemmas: trimming *)

Lemma trim_end_app_nonws s c : is_ws c = false -> trim_end (s ++ [c]) = s ++ [c].
Proof.
  intros Hc. induction s as [|d s IH]; simpl; [by rewrite Hc|]. rewrite IH.
  by destruct (s ++ [c]) eqn:E; [destruct s|].
Qed.

Lemma trim_end_ws s : Forall (fun c => is_ws c = true) s -> trim_end s = [].
Proof. induction 1 as [|c s Hc _ IH]; simpl; [done|]. by rewrite IH, Hc. Qed.

(** ** The order of strings: [<] and [Array.prototype.sort] compare code units *)

Fixpoint compareUnits (a b : jstring) : Z :=
  match a, b with
  | [], [] => 0
  | [], _ :: _ => -1
  | _ :: _, [] => 1
  | c :: a', d :: b' => if (c <? d)%N then -1 else if (d <? c)%N then 1 else compareUnits a' b'
  end%Z.

Lemma compareUnits_refl a : compareUnits a a = 0%Z.
Proof. induction a as [|c a IH]; [done|]. cbn [compareUnits]. by rewrite N.ltb_irrefl. Qed.

Lemma compareUnits_eq a b : compareUnits a b = 0%Z -> a = b.
Proof.
  revert b. induction a as [|c a IH]; intros [|d b]; try done. cbn [compareUnits].
  destruct (N.ltb_spec c d), (N.ltb_spec d c); try done. intros ->%IH. f_equal. lia.
Qed.

Lemma compareUnits_antisym a b : compareUnits b a = (- compareUnits a b)%Z.
Proof.
  revert b. induction a as [|c a IH]; intros [|d b]; try done. cbn [compareUnits].
  destruct (N.ltb_spec c d), (N.ltb_spec d c); try lia; done || apply IH.
Qed.

Lemma compareUnits_trans a b c : (compareUnits a b <= 0 -> compareUnits b c <= 0 -> compareUnits a c <= 0)%Z.
Proof.
  revert b c. induction a as [|x a IH]; intros [|y b] [|z c]; try done; cbn [compareUnits]; try lia.
  destruct (N.ltb_spec x y), (N.ltb_spec y x), (N.ltb_spec y z), (N.ltb_spec z y), (N.ltb_spec x z), (N.ltb_spec z x);
    try lia; apply IH.
Qed.
