(* ===== verification/JsRegex.v ===== *)
(** * ECMAScript regular expressions

    The backtracking semantics of the regular expressions the sources use: classes, sequence,
    alternation, greedy and lazy quantifiers, capture groups, back references, the assertions
    [^], [$], [\b], and negative lookahead, as a continuation-passing matcher (ECMA-262 22.2.2).
    None of the modelled expressions puts a capture group under a quantifier, so captures are
    never reset.  A pattern is transcribed constructor by constructor from its source text. *)
From S2P Require Import Prelude JsString.

Inductive regex : Type :=
| rx_class (p : N -> bool)
| rx_empty
| rx_seq (a b : regex)
| rx_alt (a b : regex)
| rx_star (a : regex)
| rx_star_lazy (a : regex)
| rx_group (n : nat) (a : regex)
| rx_backref (n : nat)
| rx_bol
| rx_eol
| rx_wordb
| rx_neg_look (a : regex).

(** Where the matcher is: the units already consumed (last first), the units left, the captures. *)
Record mstate := MState {
  consumed : jstring;
  rest : jstring;
  caps : list (nat * jstring)
}.

Abbreviation cont := (mstate -> option mstate).

Definition advance (st : mstate) (c : N) (s : jstring) : mstate :=
  MState (c :: consumed st) s (caps st).

(** [RepeatMatcher]: an iteration that consumes nothing is refused, so the length of the rest
    of the input bounds the number of iterations. *)
Definition star_loop (body : mstate -> cont -> option mstate) (k : cont) : nat -> cont :=
  fix loop (fuel : nat) (st : mstate) : option mstate :=
    match fuel with
    | O => k st
    | S f =>
        match body st (fun st' => if length (rest st') <? length (rest st) then loop f st' else None) with
        | Some r => Some r
        | None => k st
        end
    end.

Definition star_lazy_loop (body : mstate -> cont -> option mstate) (k : cont) : nat -> cont :=
  fix loop (fuel : nat) (st : mstate) : option mstate :=
    match k st with
    | Some r => Some r
    | None =>
        match fuel with
        | O => None
        | S f => body st (fun st' => if length (rest st') <? length (rest st) then loop f st' else None)
        end
    end.

(** The text of capture group [n]; [None] when the group did not take part. *)
Definition capture (n : nat) (st : mstate) : option jstring :=
  snd <$> List.find (fun c => fst c =? n) (caps st).

Fixpoint strip_prefix (p s : jstring) : option jstring :=
  match p, s with
  | [], _ => Some s
  | c :: p', d :: s' => if (c =? d)%N then strip_prefix p' s' else None
  | _ :: _, [] => None
  end.

(** The units consumed between two states, in order. *)
Definition consumed_since (st st' : mstate) : jstring :=
  reverse (take (length (rest st) - length (rest st')) (consumed st')).

Definition at_word_boundary (st : mstate) : bool :=
  xorb (match consumed st with c :: _ => is_word c | [] => false end)
       (match rest st with c :: _ => is_word c | [] => false end).

Fixpoint rmatch (r : regex) (st : mstate) (k : cont) : option mstate :=
  match r with
  | rx_class p => match rest st with
                  | c :: s => if p c then k (advance st c s) else None
                  | [] => None
                  end
  | rx_empty => k st
  | rx_seq a b => rmatch a st (fun st' => rmatch b st' k)
  | rx_alt a b => match rmatch a st k with Some x => Some x | None => rmatch b st k end
  | rx_star a => star_loop (rmatch a) k (length (rest st)) st
  | rx_star_lazy a => star_lazy_loop (rmatch a) k (length (rest st)) st
  | rx_group n a =>
      rmatch a st (fun st' =>
        k (MState (consumed st') (rest st') ((n, consumed_since st st') :: caps st')))
  | rx_backref n =>
      match capture n st with
      | None => k st
      | Some p => match strip_prefix p (rest st) with
                  | Some s => k (MState (reverse p ++ consumed st) s (caps st))
                  | None => None
                  end
      end
  | rx_bol => match consumed st with [] => k st | _ => None end
  | rx_eol => match rest st with [] => k st | _ => None end
  | rx_wordb => if at_word_boundary st then k st else None
  | rx_neg_look a => match rmatch a st Some with Some _ => None | None => k st end
  end.

(** Matching at a given place. *)
Definition match_at (r : regex) (st : mstate) : option mstate := rmatch r st Some.

(** [re.exec(s)]: the first place, from the left, where the pattern matches. *)
Fixpoint exec_from (r : regex) (before s : jstring) : option (mstate * mstate) :=
  match match_at r (MState before s []) with
  | Some st => Some (MState before s [], st)
  | None => match s with [] => None | c :: s' => exec_from r (c :: before) s' end
  end.

Definition exec (r : regex) (s : jstring) : option mstate := snd <$> exec_from r [] s.

(** [re.test(s)] *)
Definition test (r : regex) (s : jstring) : bool :=
  match exec r s with Some _ => true | None => false end.

(** [s.replace(re, "")] for a pattern that starts with [^]: what is left after the match. *)
Definition replace_prefix (r : regex) (s : jstring) : jstring :=
  match match_at r (MState [] s []) with Some st => rest st | None => s end.

(** ** Derived forms *)

Definition rx_char (c : N) : regex := rx_class (N.eqb c).
Definition rx_opt (a : regex) : regex := rx_alt a rx_empty.
Definition rx_plus (a : regex) : regex := rx_seq a (rx_star a).
Definition rx_plus_lazy (a : regex) : regex := rx_seq a (rx_star_lazy a).
Definition rx_any : regex := rx_class (fun c => negb (is_line_terminator c)).
Definition rx_ws : regex := rx_class is_ws.
Definition rx_nonws : regex := rx_class (fun c => negb (is_ws c)).
Definition rx_digit : regex := rx_class is_digit.
Definition rx_lower : regex := rx_class is_lower.
(** [[abc]] for a list of units *)
Definition rx_one_of (s : jstring) : regex := rx_class (fun c => existsb (N.eqb c) s).
Fixpoint rx_lit (s : jstring) : regex :=
  match s with [] => rx_empty | [c] => rx_char c | c :: s' => rx_seq (rx_char c) (rx_lit s') end.
Fixpoint rx_seqs (l : list regex) : regex :=
  match l with [] => rx_empty | [a] => a | a :: l' => rx_seq a (rx_seqs l') end.
Fixpoint rx_alts (l : list regex) : regex :=
  match l with [] => rx_empty | [a] => a | a :: l' => rx_alt a (rx_alts l') end.

(** ** Lemmas *)

(** A pattern that begins with [^] matches at the start or nowhere. *)
Lemma exec_from_bol r before s c :
  exec_from (rx_seq rx_bol r) (c :: before) s = None.
Proof. revert before c. induction s as [|d s IH]; intros before c; simpl; [done|]. apply IH. Qed.

Lemma exec_bol r s : exec (rx_seq rx_bol r) s = match_at (rx_seq rx_bol r) (MState [] s []).
Proof.
  unfold exec. destruct s as [|c s]; simpl.
  - destruct (match_at _ _); done.
  - destruct (match_at _ _); [done|]. by rewrite exec_from_bol.
Qed.

Section star_class.
Context (p : N -> bool) (cs : list (nat * jstring)) (k : cont).

Definition stops (b : jstring) : Prop := match b with c :: _ => p c = false | [] => True end.

Lemma star_loop_class_stop fuel bef b :
  stops b -> star_loop (rmatch (rx_class p)) k fuel (MState bef b cs) = k (MState bef b cs).
Proof. destruct fuel, b; simpl; intros Hb; try done. by rewrite Hb. Qed.

Lemma star_loop_class_step f bef c s :
  p c = true ->
  star_loop (rmatch (rx_class p)) k (S f) (MState bef (c :: s) cs) =
  match star_loop (rmatch (rx_class p)) k f (MState (c :: bef) s cs) with
  | Some x => Some x
  | None => k (MState bef (c :: s) cs)
  end.
Proof.
  intros Hc. cbn -[Nat.ltb]. rewrite Hc. unfold advance. simpl.
  by rewrite (proj2 (Nat.ltb_lt (length s) (S (length s))) (Nat.lt_succ_diag_r _)).
Qed.

(** Greedy: the longest run is tried first. *)
Lemma star_class_greedy bef a b x :
  Forall (fun c => p c = true) a -> stops b ->
  k (MState (reverse a ++ bef) b cs) = Some x ->
  rmatch (rx_star (rx_class p)) (MState bef (a ++ b) cs) k = Some x.
Proof.
  intros Ha Hb Hk. cbn [rmatch rest].
  assert (length a <= length (a ++ b)) as Hf by (rewrite length_app; lia).
  revert Hf. generalize (length (a ++ b)) as fuel. revert bef Hk.
  induction Ha as [|c a Hc Ha IH]; intros bef Hk fuel Hf.
  - simpl app. by rewrite star_loop_class_stop.
  - destruct fuel as [|f]; simpl in Hf; [lia|]. simpl app.
    rewrite star_loop_class_step by done. rewrite IH; [done| |lia].
    by rewrite reverse_cons, <- app_assoc in Hk.
Qed.

(** When the continuation fails after every prefix of the run, the star fails. *)
Lemma star_class_none bef a b :
  Forall (fun c => p c = true) a -> stops b ->
  (forall a1 a2, a = a1 ++ a2 -> k (MState (reverse a1 ++ bef) (a2 ++ b) cs) = None) ->
  rmatch (rx_star (rx_class p)) (MState bef (a ++ b) cs) k = None.
Proof.
  intros Ha Hb Hk. cbn [rmatch rest].
  assert (length a <= length (a ++ b)) as Hf by (rewrite length_app; lia).
  revert Hf. generalize (length (a ++ b)) as fuel. revert bef Hk.
  induction Ha as [|c a Hc Ha IH]; intros bef Hk fuel Hf.
  - simpl app. rewrite star_loop_class_stop by done. by apply (Hk [] []).
  - destruct fuel as [|f]; simpl in Hf; [lia|]. simpl app.
    rewrite star_loop_class_step by done. rewrite IH; [by apply (Hk [] (c :: a))| |lia].
    intros a1 a2 ->. specialize (Hk (c :: a1) a2 eq_refl).
    by rewrite reverse_cons, <- app_assoc in Hk.
Qed.
End star_class.

Lemma consumed_since_run st a s cs :
  rest st = a ++ s ->
  consumed_since st (MState (reverse a ++ consumed st) s cs) = a.
Proof.
  intros Hr. unfold consumed_since. rewrite Hr. cbn [rest consumed]. rewrite length_app, Nat.add_sub.
  replace (length a) with (length (reverse a)) by apply length_reverse.
  rewrite take_app_length. apply reverse_involutive.
Qed.

(** ** What a match means

    [rsem r st st']: the pattern can take the matcher from [st] to [st'].  A match that the
    backtracking matcher finds is one of these. *)

Fixpoint rsem (r : regex) (st st' : mstate) : Prop :=
  match r with
  | rx_class p => exists c s, rest st = c :: s /\ p c = true /\ st' = advance st c s
  | rx_empty => st' = st
  | rx_seq a b => exists m, rsem a st m /\ rsem b m st'
  | rx_alt a b => rsem a st st' \/ rsem b st st'
  | rx_star a | rx_star_lazy a => rtc (rsem a) st st'
  | rx_group n a => exists m, rsem a st m /\
      st' = MState (consumed m) (rest m) ((n, consumed_since st m) :: caps m)
  | rx_backref n =>
      match capture n st with
      | None => st' = st
      | Some p => exists s, strip_prefix p (rest st) = Some s /\
                    st' = MState (reverse p ++ consumed st) s (caps st)
      end
  | rx_bol => consumed st = [] /\ st' = st
  | rx_eol => rest st = [] /\ st' = st
  | rx_wordb => at_word_boundary st = true /\ st' = st
  | rx_neg_look a => rmatch a st Some = None /\ st' = st
  end.

Definition sound_body (body : mstate -> cont -> option mstate) (R : mstate -> mstate -> Prop) : Prop :=
  forall st k x, body st k = Some x -> exists st', R st st' /\ k st' = Some x.

Lemma star_loop_sound body R k fuel st x :
  sound_body body R -> star_loop body k fuel st = Some x ->
  exists st', rtc R st st' /\ k st' = Some x.
Proof.
  intros Hb. revert st. induction fuel as [|f IH]; intros st Hl; simpl in Hl; [by exists st|].
  destruct (body st _) as [y|] eqn:E; [|by exists st]. injection Hl as ->.
  apply Hb in E as (m & Hm & Hk). case_match; [|done].
  apply IH in Hk as (st' & Hr & Hk'). exists st'. split; [by eapply rtc_l|done].
Qed.

Lemma star_lazy_loop_sound body R k fuel st x :
  sound_body body R -> star_lazy_loop body k fuel st = Some x ->
  exists st', rtc R st st' /\ k st' = Some x.
Proof.
  intros Hb. revert st. induction fuel as [|f IH]; intros st Hl; simpl in Hl.
  - destruct (k st) eqn:E; [|done]. exists st. by simplify_eq.
  - destruct (k st) as [y|] eqn:E; [exists st; by simplify_eq|].
    apply Hb in Hl as (m & Hm & Hk). case_match; [|done].
    apply IH in Hk as (st' & Hr & Hk'). exists st'. split; [by eapply rtc_l|done].
Qed.

Lemma rmatch_sound r : sound_body (rmatch r) (rsem r).
Proof.
  induction r; intros st k x Hm; simpl in Hm |- *.
  - destruct (rest st) as [|c s] eqn:E; [done|]. destruct (p c) eqn:Hp; [|done]. eauto 8.
  - eauto.
  - apply IHr1 in Hm as (m & H1 & H2). apply IHr2 in H2 as (st' & H3 & H4). eauto.
  - destruct (rmatch r1 st k) as [y|] eqn:E.
    + injection Hm as ->. apply IHr1 in E as (st' & ? & ?). eauto.
    + apply IHr2 in Hm as (st' & ? & ?). eauto.
  - by eapply star_loop_sound.
  - by eapply star_lazy_loop_sound.
  - apply IHr in Hm as (m & H1 & H2). eauto 8.
  - destruct (capture n st) as [p|]; [|eauto].
    destruct (strip_prefix p (rest st)) as [s|] eqn:E; [|done]. eauto 8.
  - destruct (consumed st) eqn:E; [eauto|done].
  - destruct (rest st) eqn:E; [eauto|done].
  - destruct (at_word_boundary st) eqn:E; [eauto|done].
  - destruct (rmatch r st Some) eqn:E; [done|eauto].
Qed.

Lemma exec_bol_sound r s st :
  exec (rx_seq rx_bol r) s = Some st -> rsem r (MState [] s []) st.
Proof.
  rewrite exec_bol. unfold match_at. intros Hm.
  apply rmatch_sound in Hm as (st' & (m & (_ & ->) & Hr) & [= ->]). done.
Qed.

(** A match moves a piece of text from the rest to what is consumed. *)
Definition eats (st : mstate) (w : jstring) (st' : mstate) : Prop :=
  rest st = w ++ rest st' /\ consumed st' = reverse w ++ consumed st.

Lemma eats_refl st : eats st [] st.
Proof. done. Qed.

Lemma eats_trans st w m v st' : eats st w m -> eats m v st' -> eats st (w ++ v) st'.
Proof.
  intros [H1 H2] [H3 H4]. split; [by rewrite H1, H3, app_assoc|].
  by rewrite H4, H2, reverse_app, app_assoc.
Qed.

Lemma eats_caps st w st' cs : eats st w st' -> eats st w (MState (consumed st') (rest st') cs).
Proof. done. Qed.

Lemma eats_consumed_since st w st' : eats st w st' -> consumed_since st st' = w.
Proof.
  intros [H1 H2]. destruct st' as [c r cs]. simpl in *. subst c. by apply consumed_since_run.
Qed.

Lemma strip_prefix_app p s t : strip_prefix p s = Some t -> s = p ++ t.
Proof.
  revert s. induction p as [|c p IH]; intros [|d s]; simpl; try naive_solver.
  destruct (N.eqb_spec c d) as [->|]; [|done]. intros ->%IH. done.
Qed.

Lemma rsem_eats r st st' : rsem r st st' -> exists w, eats st w st'.
Proof.
  revert st st'. induction r; intros st st' Hr; simpl in Hr;
    try (destruct Hr as (_ & ->); exists []; apply eats_refl).
  - destruct Hr as (c & s & E & _ & ->). exists [c]. by split.
  - subst. exists []. apply eats_refl.
  - destruct Hr as (m & H1 & H2). apply IHr1 in H1 as [w ?]. apply IHr2 in H2 as [v ?].
    exists (w ++ v). by eapply eats_trans.
  - destruct Hr; eauto.
  - induction Hr as [st|st m st' H1 _ [v ?]]; [exists []; apply eats_refl|].
    apply IHr in H1 as [w ?]. exists (w ++ v). by eapply eats_trans.
  - induction Hr as [st|st m st' H1 _ [v ?]]; [exists []; apply eats_refl|].
    apply IHr in H1 as [w ?]. exists (w ++ v). by eapply eats_trans.
  - destruct Hr as (m & H1 & ->). apply IHr in H1 as [w ?]. exists w. by apply eats_caps.
  - destruct (capture n st) as [p|]; [|subst; exists []; apply eats_refl].
    destruct Hr as (s & E & ->). exists p. split; simpl; [by apply strip_prefix_app|done].
Qed.

(** A run of units of one class: a star over a class eats such a run and captures nothing. *)
Lemma rsem_star_class p st st' :
  rtc (rsem (rx_class p)) st st' ->
  exists w, eats st w st' /\ Forall (fun c => p c = true) w /\ caps st' = caps st.
Proof.
  induction 1 as [st|st m st' (c & s & E & Hc & ->) _ (w & He & Hw & Hcs)].
  - exists []. split_and!; [apply eats_refl|constructor|done].
  - exists ([c] ++ w). split_and!; [|by constructor|done].
    eapply eats_trans; [|done]. by split.
Qed.

(** Patterns without capture groups leave the captures alone. *)
Fixpoint no_groups (r : regex) : bool :=
  match r with
  | rx_seq a b | rx_alt a b => no_groups a && no_groups b
  | rx_star a | rx_star_lazy a => no_groups a
  | rx_group _ _ => false
  | _ => true
  end.

Lemma rsem_no_groups r st st' : no_groups r = true -> rsem r st st' -> caps st' = caps st.
Proof.
  revert st st'. induction r; intros st st' Hn Hr; simpl in Hn, Hr;
    try (destruct Hr as (_ & ->); done); try done.
  - by destruct Hr as (c & s & _ & _ & ->).
  - by subst.
  - apply andb_true_iff in Hn as [Ha Hb]. destruct Hr as (m & H1 & H2).
    rewrite (IHr2 _ _ Hb H2). by apply IHr1.
  - apply andb_true_iff in Hn as [Ha Hb]. destruct Hr; [by apply IHr1|by apply IHr2].
  - induction Hr as [|st m st' H1 _ IH]; [done|]. rewrite IH. by apply IHr.
  - induction Hr as [|st m st' H1 _ IH]; [done|]. rewrite IH. by apply IHr.
  - destruct (capture n st); [|by subst]. by destruct Hr as (s & _ & ->).
Qed.

(** ** Finding a match: one step of the matcher at a time *)

Lemma seq_match a b st k x :
  rmatch a st (fun st' => rmatch b st' k) = Some x -> rmatch (rx_seq a b) st k = Some x.
Proof. done. Qed.

Lemma class_match p bef c s cs k x :
  p c = true -> k (MState (c :: bef) s cs) = Some x ->
  rmatch (rx_class p) (MState bef (c :: s) cs) k = Some x.
Proof. intros Hp Hk. simpl. by rewrite Hp. Qed.

Lemma alt_match_l a b st k x : rmatch a st k = Some x -> rmatch (rx_alt a b) st k = Some x.
Proof. intros H. simpl. by rewrite H. Qed.

Lemma alt_match_r a b st k x :
  rmatch a st k = None -> rmatch b st k = Some x -> rmatch (rx_alt a b) st k = Some x.
Proof. intros H1 H2. simpl. by rewrite H1. Qed.

Lemma group_match n a st k x :
  rmatch a st (fun st' =>
    k (MState (consumed st') (rest st') ((n, consumed_since st st') :: caps st'))) = Some x ->
  rmatch (rx_group n a) st k = Some x.
Proof. done. Qed.

Lemma eol_match bef cs k x : k (MState bef [] cs) = Some x -> rmatch rx_eol (MState bef [] cs) k = Some x.
Proof. done. Qed.

(** A star over a class that the next unit is not in, or at the end, matches nothing. *)
Lemma star_class_skip p bef s cs k x :
  stops p s -> k (MState bef s cs) = Some x ->
  rmatch (rx_star (rx_class p)) (MState bef s cs) k = Some x.
Proof. intros Hs Hk. by apply (star_class_greedy p cs k bef [] s x). Qed.

(** A class fails on a unit outside it and at the end. *)
Lemma class_fail p bef s cs k : stops p s -> rmatch (rx_class p) (MState bef s cs) k = None.
Proof. destruct s; simpl; [done|]. by intros ->. Qed.

Lemma seq_fail a b st k :
  rmatch a st (fun st' => rmatch b st' k) = None -> rmatch (rx_seq a b) st k = None.
Proof. done. Qed.

Lemma alt_fail a b st k :
  rmatch a st k = None -> rmatch b st k = None -> rmatch (rx_alt a b) st k = None.
Proof. intros H1 H2. simpl. by rewrite H1. Qed.
