(* ===== verification/JsNumber.v ===== *)
(** * JavaScript numbers

    The finite numbers are exact rationals: the program's quantities are counts, milliseconds and
    token budgets far below 2^53, and rounding of fractions is not modelled. The non-finite
    values, which the source tests for, are constructors of their own. *)
From S2P Require Import Prelude.
From Stdlib Require Export QArith Qminmax Qround Lqa.

Inductive number : Type :=
| Fin (q : Q)
| PosInf
| NegInf
| NaN.

(** [Number.isFinite(x)] *)
Definition isFinite (x : number) : bool := match x with Fin _ => true | _ => false end.

Definition Q_is_integer (q : Q) : bool := Pos.eqb (Qden (Qred q)) 1.

(** [Number.isInteger(x)] *)
Definition isInteger (x : number) : bool := match x with Fin q => Q_is_integer q | _ => false end.

Definition Qltb (x y : Q) : bool := negb (Qle_bool y x).

(** [2 ** n] for an integer [n >= 0]. *)
Definition Qpow2 (n : Z) : Q := inject_Z (2 ^ n).

Lemma Qltb_lt x y : Qltb x y = true <-> (x < y)%Q.
Proof.
  unfold Qltb. rewrite negb_true_iff. split.
  - intros H. apply Qnot_le_lt. rewrite <- Qle_bool_iff. congruence.
  - intros H. apply not_true_iff_false. rewrite Qle_bool_iff. by apply Qlt_not_le.
Qed.

Lemma Qltb_ge x y : Qltb x y = false <-> (y <= x)%Q.
Proof. unfold Qltb. rewrite negb_false_iff. apply Qle_bool_iff. Qed.

Lemma Q_is_integer_inject z : Q_is_integer (inject_Z z) = true.
Proof.
  unfold Q_is_integer, inject_Z, Qred. pose proof (Z.ggcd_gcd z 1) as Hg.
  pose proof (Z.ggcd_correct_divisors z 1) as Hd.
  destruct (Z.ggcd z 1) as [g [a b]]. cbn [fst snd] in Hg. rewrite Z.gcd_1_r in Hg.
  assert (b = 1%Z) as -> by lia. done.
Qed.

Lemma Qpow2_pos n : (0 <= n)%Z -> (1 <= Qpow2 n)%Q.
Proof. intros Hn. unfold Qpow2. change 1%Q with (inject_Z 1). rewrite <- Zle_Qle. lia. Qed.
