(* ===== verification/JsMap.v ===== *)
(** * JavaScript Maps

    A [Map] iterates its entries in the order in which their keys were first set: [set] of a
    present key keeps its place, [delete] forgets it. Entries are a list of pairs with distinct
    keys. *)
From S2P Require Import Prelude.

Section JsMap.
Context {K : Type} `{EqDecision K} {V : Type}.

Fixpoint m_get (k : K) (m : list (K * V)) : option V :=
  match m with
  | [] => None
  | (k', v) :: m' => if decide (k' = k) then Some v else m_get k m'
  end.

Fixpoint m_set (k : K) (v : V) (m : list (K * V)) : list (K * V) :=
  match m with
  | [] => [(k, v)]
  | (k', v') :: m' => if decide (k' = k) then (k, v) :: m' else (k', v') :: m_set k v m'
  end.

Definition m_delete (k : K) (m : list (K * V)) : list (K * V) := filter (fun e => e.1 <> k) m.

Definition m_has (k : K) (m : list (K * V)) : bool := bool_decide (is_Some (m_get k m)).

Lemma m_get_set_eq k v m : m_get k (m_set k v m) = Some v.
Proof.
  induction m as [|[k' v'] m IH]; simpl; [by rewrite decide_True|].
  case_decide; simpl; [by rewrite decide_True|]. by rewrite decide_False.
Qed.

Lemma m_get_set_ne k k' v m : k <> k' -> m_get k' (m_set k v m) = m_get k' m.
Proof.
  intros Hne. induction m as [|[j w] m IH]; simpl; [by rewrite decide_False|].
  destruct (decide (j = k)) as [->|]; simpl; [by rewrite !decide_False|]. by rewrite IH.
Qed.

Lemma m_get_delete_eq k m : m_get k (m_delete k m) = None.
Proof.
  unfold m_delete. induction m as [|[j w] m IH]; [done|]. rewrite filter_cons. simpl.
  case_decide; simpl; [by rewrite decide_False|done].
Qed.

Lemma m_get_delete_ne k k' m : k <> k' -> m_get k' (m_delete k m) = m_get k' m.
Proof.
  unfold m_delete. intros Hne. induction m as [|[j w] m IH]; [done|]. rewrite filter_cons. simpl.
  destruct (decide (j = k)) as [->|].
  - rewrite decide_False by auto. rewrite decide_False by done. done.
  - rewrite decide_True by done. simpl. by rewrite IH.
Qed.

Lemma m_get_Some_key k m : is_Some (m_get k m) <-> k ∈ m.*1.
Proof.
  induction m as [|[j w] m IH]; simpl; [rewrite elem_of_nil; by split; [intros [? ?]|]|].
  rewrite elem_of_cons. case_decide; [subst; naive_solver|]. rewrite IH. naive_solver.
Qed.

Lemma m_has_spec k m : m_has k m = true <-> k ∈ m.*1.
Proof. unfold m_has. rewrite bool_decide_eq_true. apply m_get_Some_key. Qed.

Lemma m_set_keys k v m k' : k' ∈ (m_set k v m).*1 <-> k' = k \/ k' ∈ m.*1.
Proof.
  rewrite <- !m_get_Some_key. destruct (decide (k = k')) as [->|].
  - rewrite m_get_set_eq. naive_solver.
  - rewrite m_get_set_ne by done. naive_solver.
Qed.

Lemma m_delete_keys k m k' : k' ∈ (m_delete k m).*1 <-> k' <> k /\ k' ∈ m.*1.
Proof.
  rewrite <- !m_get_Some_key. destruct (decide (k = k')) as [->|].
  - rewrite m_get_delete_eq. split; [by intros [? ?]|naive_solver].
  - rewrite m_get_delete_ne by done. naive_solver.
Qed.

Lemma m_set_NoDup k v m : NoDup m.*1 -> NoDup (m_set k v m).*1.
Proof.
  induction m as [|[j w] m IH]; simpl; intros Hnd; [by apply NoDup_singleton|].
  apply NoDup_cons in Hnd as [Hj Hnd]. case_decide as E; simpl.
  - subst. by constructor.
  - constructor; [|by apply IH]. by rewrite m_set_keys; intros [?|?].
Qed.

Lemma m_delete_NoDup k m : NoDup m.*1 -> NoDup (m_delete k m).*1.
Proof.
  unfold m_delete. induction m as [|[j w] m IH]; [done|]. intros Hnd.
  apply NoDup_cons in Hnd as [Hj Hnd]. rewrite filter_cons. case_decide; simpl; [|by apply IH].
  constructor; [|by apply IH]. intros Hin. apply Hj. by apply (m_delete_keys k m j).
Qed.

Lemma m_get_elem k v m : NoDup m.*1 -> (k, v) ∈ m -> m_get k m = Some v.
Proof.
  induction m as [|[j w] m IH]; intros Hnd Hin; [by apply elem_of_nil in Hin|]. simpl.
  apply NoDup_cons in Hnd as [Hj Hnd]. apply elem_of_cons in Hin as [[= -> ->]|Hin].
  - by rewrite decide_True.
  - rewrite decide_False; [by apply IH|]. intros ->. apply Hj. by apply (list_elem_of_fmap_2 fst) in Hin.
Qed.

Lemma m_get_elem_1 k v m : m_get k m = Some v -> (k, v) ∈ m.
Proof.
  induction m as [|[j w] m IH]; simpl; [done|]. case_decide; [|right; by apply IH].
  subst. intros [= ->]. left.
Qed.

Lemma m_set_Forall (P : K * V -> Prop) k v m : Forall P m -> P (k, v) -> Forall P (m_set k v m).
Proof.
  intros H0 Hk. induction H0 as [|[k' v'] m Hx Hm IH]; simpl; [by apply Forall_singleton|]. case_decide; by constructor.
Qed.

(** A new key goes to the end, and taking it out again leaves the map as it was. *)
Lemma m_set_fresh k v m : k ∉ m.*1 -> m_set k v m = m ++ [(k, v)].
Proof.
  induction m as [|[j w] m IH]; simpl; [done|]. rewrite not_elem_of_cons. intros [Hj Hm]. rewrite decide_False by done. by rewrite IH.
Qed.

Lemma m_delete_fresh k m : k ∉ m.*1 -> m_delete k m = m.
Proof.
  unfold m_delete. induction m as [|[j w] m IH]; [done|]. cbn [fmap list_fmap fst]. rewrite not_elem_of_cons. intros [Hj Hm].
  rewrite filter_cons_True by (simpl; auto). by rewrite IH.
Qed.

Lemma m_delete_snoc k v m : k ∉ m.*1 -> m_delete k (m ++ [(k, v)]) = m.
Proof.
  intros Hk. unfold m_delete. rewrite filter_app. fold (m_delete k m). rewrite m_delete_fresh by done.
  rewrite filter_cons_False by (simpl; auto). by rewrite filter_nil, app_nil_r.
Qed.

Lemma m_get_app k m m' : m_get k (m ++ m') = match m_get k m with Some v => Some v | None => m_get k m' end.
Proof. induction m as [|[j w] m IH]; simpl; [done|]. by case_decide. Qed.

End JsMap.

Abbreviation jsmap K V := (list (K * V)).

(** ** Sets: the distinct elements in the order in which they were added *)

Section JsSet.
Context {A : Type} `{EqDecision A}.

Definition s_add (s : list A) (x : A) : list A := if decide (x ∈ s) then s else s ++ [x].

Lemma elem_of_s_add s x y : y ∈ s_add s x <-> y ∈ s \/ y = x.
Proof.
  unfold s_add. case_decide; [naive_solver|]. by rewrite elem_of_app, list_elem_of_singleton.
Qed.

Lemma s_add_NoDup s x : NoDup s -> NoDup (s_add s x).
Proof.
  unfold s_add. intros Hs. case_decide; [done|]. apply NoDup_app. split_and!; [done| |by apply NoDup_singleton].
  by intros y Hy ->%list_elem_of_singleton.
Qed.

Lemma elem_of_s_adds l s y : y ∈ foldl s_add s l <-> y ∈ s \/ y ∈ l.
Proof.
  revert s. induction l as [|x l IH]; intros s; simpl; [rewrite elem_of_nil; tauto|].
  rewrite IH, elem_of_s_add, elem_of_cons. tauto.
Qed.

Lemma s_adds_NoDup l s : NoDup s -> NoDup (foldl s_add s l).
Proof. revert s. induction l as [|x l IH]; intros s Hs; simpl; [done|]. by apply IH, s_add_NoDup. Qed.

End JsSet.
