(* ===== verification/JsValue.v ===== *)
(** * JavaScript values of unknown type

    What a parser of JSON returns, with the property reads of the code that checks it.  Numbers are integers. *)
From S2P Require Import Prelude JsString JsMap.

Inductive value : Type :=
| v_undefined
| v_null
| v_bool (b : bool)
| v_number (z : Z)
| v_string (s : jstring)
| v_array (l : list value)
| v_object (fields : list (jstring * value)).

(** [value.key] on an object; arrays have none of the keys asked for. *)
Definition prop (k : jstring) (v : value) : value :=
  match v with v_object fs => default v_undefined (m_get k fs) | _ => v_undefined end.

(** [typeof value === "object" && value !== null] *)
Definition isObject (v : value) : bool := match v with v_array _ | v_object _ => true | _ => false end.

Lemma prop_object k fs v : prop k (v_object fs) = v -> v ≠ v_undefined -> m_get k fs = Some v.
Proof. simpl. by destruct (m_get k fs) as [w|]; simpl; intros ->. Qed.
