(* ===== verification/HashlineHash.v ===== *)
(** * Hashline: data and line hashes

    The data of [hashline/types.ts], the markers of [hashline/constants.ts] and the line hashes
    of [hashline/hash.ts].  The 32-bit hash itself is [Bun.hash.xxHash32], code of the Bun
    runtime: it is the parameter of class [LineHasher], an unsigned number for every string. *)
From S2P Require Import Prelude JsString JsRegex.

(** ** Data (types.ts) *)

Record HashMismatch := { mm_line : Z; mm_expected : jstring; mm_actual : jstring }.

Record Anchor := { line : Z; hash : jstring; contentHint : option jstring }.

Inductive HashlineCursor :=
| bof
| eof
| before_anchor (anchor : Anchor)
| after_anchor (anchor : Anchor).

(** [Extract<HashlineEdit, { kind: "delete" }>] *)
Record HashlineDeleteEdit := {
  del_anchor : Anchor; del_lineNum : Z; del_index : Z; del_oldAssertion : option jstring }.

Inductive HashlineEdit :=
| Insert (cursor : HashlineCursor) (text : jstring) (lineNum : Z) (index : Z)
| Delete (d : HashlineDeleteEdit).

#[global] Instance Anchor_eq_dec : EqDecision Anchor.
Proof. solve_decision. Defined.
#[global] Instance HashlineCursor_eq_dec : EqDecision HashlineCursor.
Proof. solve_decision. Defined.
#[global] Instance HashlineDeleteEdit_eq_dec : EqDecision HashlineDeleteEdit.
Proof. solve_decision. Defined.
#[global] Instance HashlineEdit_eq_dec : EqDecision HashlineEdit.
Proof. solve_decision. Defined.
#[global] Instance HashMismatch_eq_dec : EqDecision HashMismatch.
Proof. solve_decision. Defined.

Definition mkAnchor (l : Z) (h : jstring) : Anchor :=
  {| line := l; hash := h; contentHint := None |}.

Definition edit_lineNum (e : HashlineEdit) : Z :=
  match e with Insert _ _ n _ => n | Delete d => del_lineNum d end.

Definition edit_index (e : HashlineEdit) : Z :=
  match e with Insert _ _ _ i => i | Delete d => del_index d end.

(** Every throw site of the hashline sources: an error value carries what the source
    interpolates into its message, or the fields of its error class. *)
Inductive HashlineError :=
(* apply.ts, anchors.ts *)
| LineDoesNotExist (n count : Z)
| HashlineMismatchError (mismatches : list HashMismatch) (fileLines : list jstring)
| InvalidLineReference (ref : jstring)
| LineNumberNotPositive (n : Z) (ref : jstring)
(* parser.ts *)
| HashlineMissingHashError (lineNum : Z) (raw : jstring) (start stop : Z) (opSigil : N)
    (rangeRaw : option (jstring * jstring))
| HashlineMissingLineError (h : jstring) (lineNum : option Z) (opSigil : N)
    (rangeRaw : option (jstring * jstring))
| ExpectedFullAnchor (lineNum : Z) (raw : jstring)
| RangeNeedsTwoAnchors (lineNum : Z)
| RangeEndsBeforeStart (lineNum : Z) (startRaw endRaw : jstring)
| RangeTwoHashes (lineNum : Z) (startRaw endRaw : jstring)
| EmptyInsert (lineNum : Z) (op : jstring) (echoedAnchorText : bool)
| UnrecognizedOp (lineNum : Z) (l : jstring)
| PayloadWithoutOp (lineNum : Z) (l : jstring)
(* input.ts *)
| EmptyHeader
| MissingHeader (preview : jstring).

#[global] Instance HashlineError_eq_dec : EqDecision HashlineError.
Proof. solve_decision. Defined.

(** ** Markers (constants.ts, hash.ts) *)

Definition MISMATCH_CONTEXT : Z := 2.
Definition MISMATCH_RELOCATE_WINDOW : Z := 20.
Definition RANGE_INTERIOR_HASH : jstring := js "**".
Definition BEGIN_PATCH_MARKER : jstring := js "*** Begin Patch".
Definition END_PATCH_MARKER : jstring := js "*** End Patch".
Definition ABORT_MARKER : jstring := js "*** Abort".
Definition ABORT_WARNING : jstring :=
  js "Tool stream truncated mid-call due to detected output corruption. Applied ops above are valid. Re-issue any remaining edits.".

(** The sigils [«] (U+00AB), [»] (U+00BB), [≔] (U+2254) and [§] (U+00A7). *)
Definition HL_OP_INSERT_BEFORE : N := 171.
Definition HL_OP_INSERT_AFTER : N := 187.
Definition HL_OP_REPLACE : N := 8788.
Definition HL_OP_CHARS : jstring := [HL_OP_INSERT_BEFORE; HL_OP_INSERT_AFTER; HL_OP_REPLACE].
Definition HL_FILE_PREFIX : N := 167.
(** [|] *)
Definition HL_BODY_SEP : N := 124.

(** ** Anchor patterns (hash.ts) *)

(** [\s*[>+\-*]*\s*] *)
Definition HL_ANCHOR_DECORATION_RE_RAW : regex :=
  rx_seqs [rx_star rx_ws; rx_star (rx_one_of (js ">+-*")); rx_star rx_ws].

(** [\s*[>+\-*]*\s*(\d+)([a-z]{2})] *)
Definition HL_ANCHOR_RE_RAW : regex :=
  rx_seqs [HL_ANCHOR_DECORATION_RE_RAW; rx_group 1 (rx_plus rx_digit);
           rx_group 2 (rx_seq rx_lower rx_lower)].

(** [[1-9]] *)
Definition rx_nonzero_digit : regex := rx_class (fun c => (49 <=? c)%N && (c <=? 57)%N).

(** [( [1-9] \d* ) ( [a-z]{2} )] *)
Definition HL_HASH_CAPTURE_RE_RAW : regex :=
  rx_seqs [rx_group 1 (rx_seq rx_nonzero_digit (rx_star rx_digit));
           rx_group 2 (rx_seq rx_lower rx_lower)].

(** ** Bigrams and line hashes (hash.ts) *)

(** The entries of [bigrams.json], in order. *)
Definition HL_BIGRAMS : list jstring :=
  mjoin ((fun row => split_on c_space (js row)) <$> [
   "aa ab ac ad ae af ag ah ai aj ak al am an ao ap aq ar as at au av aw ax";
   "ay az ba bb bc bd be bf bg bh bi bj bk bl bm bn bo bp br bs bt bu bv bw";
   "bx by bz ca cb cc cd ce cf cg ch ci cj ck cl cm cn co cp cq cr cs ct cu";
   "cv cw cx cy cz da db dc dd de df dg dh di dj dk dl dm dn do dp dq dr ds";
   "dt du dv dw dx dy dz ea eb ec ed ee ef eg eh ei ej ek el em en eo ep eq";
   "er es et eu ev ew ex ey ez fa fb fc fd fe ff fg fh fi fj fk fl fm fn fo";
   "fp fq fr fs ft fu fv fw fx fy fz ga gb gc gd ge gf gg gh gi gj gl gm gn";
   "go gp gr gs gt gu gv gw gx gy gz ha hb hc hd he hf hg hh hi hj hk hl hm";
   "hn ho hp hq hr hs ht hu hv hw hx hy hz ia ib ic id ie if ig ih ii ij ik";
   "il im in io ip iq ir is it iu iv iw ix iy iz ja jb jc jd je jf jg jh ji";
   "jj jk jl jm jn jo jp jq jr js jt ju jw jx jy ka kb kc kd ke kf kg kh ki";
   "kj kk kl km kn ko kp kr ks kt ku kv kw kx ky la lb lc ld le lf lg lh li";
   "lj lk ll lm ln lo lp lr ls lt lu lv lw lx ly lz ma mb mc md me mf mg mh";
   "mi mj mk ml mm mn mo mp mq mr ms mt mu mv mw mx my mz na nb nc nd ne nf";
   "ng nh ni nj nk nl nm nn no np nr ns nt nu nv nw nx ny nz oa ob oc od oe";
   "of og oh oi oj ok ol om on oo op oq or os ot ou ov ow ox oy oz pa pb pc";
   "pd pe pf pg ph pi pj pk pl pm pn po pp pq pr ps pt pu pv pw px py pz qa";
   "qb qc qd qe qh qi ql qm qn qo qp qq qr qs qt qu qw qx qy ra rb rc rd re";
   "rf rg rh ri rk rl rm rn ro rp rq rr rs rt ru rv rw rx ry rz sa sb sc sd";
   "se sf sg sh si sj sk sl sm sn so sp sq sr ss st su sv sw sx sy sz ta tb";
   "tc td te tf tg th ti tj tk tl tm tn to tp tr ts tt tu tv tw tx ty tz ua";
   "ub uc ud ue uf ug uh ui uj uk ul um un uo up uq ur us ut uu uv uw ux uy";
   "uz va vb vc vd ve vf vg vh vi vj vk vl vm vn vo vp vq vr vs vt vu vv vw";
   "vx vy vz wa wb wc wd we wf wg wh wi wj wk wl wm wn wo wp wr ws wt wu wv";
   "ww wx wy xa xb xc xd xe xf xh xi xl xm xn xo xp xr xs xt xu xx xy xz ya";
   "yb yc yd ye yf yg yh yi yj yk yl ym yn yo yp yr ys yt yu yv yw yx yy yz";
   "za zb zc zd ze zf zg zh zi zk zl zm zn zo zp zr zs zt zu zw zx zy zz"
  ]%string).

#[global] Arguments HL_BIGRAMS : simpl never.

Definition HL_BIGRAMS_COUNT : N := N.of_nat (length HL_BIGRAMS).

(** [Bun.hash.xxHash32(line, 0)] *)
Class LineHasher := { xxHash32 : jstring -> N }.

Section hash.
Context `{LineHasher}.

Definition computeLineHash (idx : Z) (l : jstring) : jstring :=
  let l := trim_end (remove_unit c_cr l) in
  default [] (HL_BIGRAMS !! N.to_nat (xxHash32 l `mod` HL_BIGRAMS_COUNT)).

(** [LINE+ID] *)
Definition formatLineHash (n : Z) (l : jstring) : jstring := z_str n ++ computeLineHash n l.

(** [LINE+ID|TEXT] *)
Definition formatHashLine (lineNumber : Z) (l : jstring) : jstring :=
  z_str lineNumber ++ computeLineHash lineNumber l ++ HL_BODY_SEP :: l.

Definition formatHashLines (text : jstring) (startLine : Z) : jstring :=
  let lines := split_on c_lf text in
  join [c_lf] (imap (fun i l => formatHashLine (startLine + Z.of_nat i) l) lines).

End hash.

(** ** Facts *)

Definition is_bigram (s : jstring) : bool :=
  match s with [a; b] => is_lower a && is_lower b | _ => false end.

(** The table has 647 entries, all different, each of two lower-case letters. *)
Lemma HL_BIGRAMS_facts :
  length HL_BIGRAMS = 647 /\ forallb is_bigram HL_BIGRAMS = true /\
  bool_decide (NoDup HL_BIGRAMS) = true.
Proof. vm_compute. done. Qed.

Section hash_facts.
Context `{LineHasher}.

Lemma computeLineHash_bigram i l : is_bigram (computeLineHash i l) = true.
Proof.
  destruct HL_BIGRAMS_facts as (Hlen & Hall & _). unfold computeLineHash.
  set (x := xxHash32 _).
  assert (N.to_nat (x `mod` HL_BIGRAMS_COUNT) < length HL_BIGRAMS) as Hlt.
  { unfold HL_BIGRAMS_COUNT. rewrite Hlen. pose proof (N.mod_lt x 647 ltac:(lia)). simpl. lia. }
  apply lookup_lt_is_Some in Hlt as [s Hs]. rewrite Hs. simpl.
  apply list_elem_of_lookup_2 in Hs. apply forallb_forall with (x := s) in Hall; [done|].
  by apply list_elem_of_In.
Qed.

(** A hash is always two lower-case letters. *)
Lemma computeLineHash_letters i l :
  exists a b, computeLineHash i l = [a; b] /\ is_lower a = true /\ is_lower b = true.
Proof.
  pose proof (computeLineHash_bigram i l) as Hb. destruct (computeLineHash i l) as [|a [|b [|]]]; try done.
  simpl in Hb. apply andb_true_iff in Hb as [??]. eauto.
Qed.

(** A hash is never the filler of range interiors. *)
Lemma computeLineHash_not_interior i l : computeLineHash i l ≠ RANGE_INTERIOR_HASH.
Proof. pose proof (computeLineHash_bigram i l) as Hb. by intros E; rewrite E in Hb. Qed.

(** Hashes do not depend on the line number. *)
Lemma computeLineHash_idx i j l : computeLineHash i l = computeLineHash j l.
Proof. unfold computeLineHash. reflexivity. Qed.

End hash_facts.

(** Proofs use the facts above, never the table; evaluation by [vm_compute] is not affected. *)
#[global] Opaque computeLineHash.

(** A concrete hasher, for examples: a polynomial hash of the units modulo 2^32. *)
Definition demoHasher : LineHasher :=
  {| xxHash32 := fun s => fold_left (fun h c => (h * 31 + c) `mod` 4294967296)%N s 7%N |}.
