(* ===== verification/EditDiff.v ===== *)
(** * Diffs of edited files (edit/diff.ts, hashline/diff-preview.ts)

    [generateDiffString] prints the changes between two texts with line numbers and a few lines of
    context; [buildCompactHashlineDiffPreview] turns such a diff into fresh anchors of the edited
    file.  The native line diff is a parameter. *)
From S2P Require Import Prelude JsString HashlineHash.
From Stdlib Require Import ZifyBool ZifyN.
Open Scope Z_scope.

Record NativeDiffChange : Type := { value : jstring; added : bool; removed : bool }.

(** [getNativeDiffBindings().diffLines] *)
Class NativeDiff := { diffLines : jstring -> jstring -> list NativeDiffChange }.

(** A line of the diff: its sign, its number, its text; [filler] marks the [...] of skipped lines. *)
Record diffLine : Type := { prefix : N; lineNum : Z; content : jstring; filler : bool }.

Definition formatNumberedDiffLine (l : diffLine) : jstring :=
  prefix l :: z_str (lineNum l) ++ HL_BODY_SEP :: content l.

Definition c_plus : N := 43.
Definition c_minus : N := 45.

(** [value.split("\n")] without the empty string after a final line feed. *)
Definition rawLines (v : jstring) : list jstring :=
  let raw := split_on c_lf v in
  if bool_decide (last raw = Some []) then removelast raw else raw.

(** Lines numbered from [n]. *)
Definition numberedLines (p : N) (n : Z) (ls : list jstring) : list diffLine :=
  imap (fun i l => {| prefix := p; lineNum := n + Z.of_nat i; content := l; filler := false |}) ls.

Definition fillerLine (n : Z) : diffLine :=
  {| prefix := c_space; lineNum := n; content := js "..."; filler := true |}.

(** The lines shown for an unchanged part between changes, and how far the numbers move. *)
Definition contextPart (raw : list jstring) (contextLines oldLineNum : Z)
    (lastWasChange nextPartIsChange : bool) : list diffLine * Z :=
  let contextLimit := Z.max 0 contextLines in
  let len := zlength raw in
  let '(leadingSkip, middleSkip, trailingSkip, linesToShow) :=
    if lastWasChange && nextPartIsChange then
      if contextLimit * 2 <? len then
        let leadingContext := arr_slice raw 0 contextLimit in
        let trailingContext := arr_slice raw (len - contextLimit) len in
        (0, len - zlength leadingContext - zlength trailingContext, 0, leadingContext ++ trailingContext)
      else (0, 0, 0, raw)
    else if nextPartIsChange then
      let leadingSkip := Z.max 0 (len - contextLimit) in
      (leadingSkip, 0, 0, arr_slice raw leadingSkip len)
    else (0, 0, Z.max 0 (len - contextLimit), arr_slice raw 0 contextLimit) in
  let n0 := oldLineNum in
  let out0 := if 0 <? leadingSkip then [fillerLine n0] else [] in
  let n1 := n0 + (if 0 <? leadingSkip then leadingSkip else 0) in
  let firstChunkLength := if 0 <? middleSkip then contextLimit else zlength linesToShow in
  let firstChunk := arr_slice linesToShow 0 firstChunkLength in
  let out1 := numberedLines c_space n1 firstChunk in
  let n2 := n1 + zlength firstChunk in
  let secondChunk := arr_slice linesToShow firstChunkLength (zlength linesToShow) in
  let out2 := if 0 <? middleSkip
              then fillerLine n2 :: numberedLines c_space (n2 + middleSkip) secondChunk else [] in
  let n3 := n2 + (if 0 <? middleSkip then middleSkip + zlength secondChunk else 0) in
  let out3 := if 0 <? trailingSkip then [fillerLine n3] else [] in
  let n4 := n3 + (if 0 <? trailingSkip then trailingSkip else 0) in
  (out0 ++ out1 ++ out2 ++ out3, n4 - n0).

(** The variables of the loop of [generateDiffString]. *)
Record diffState : Type := {
  output : list diffLine; oldLineNum : Z; newLineNum : Z; lastWasChange : bool; firstChangedLine : option Z }.

Definition isChange (p : NativeDiffChange) : bool := added p || removed p.

Definition diffPart (contextLines : Z) (st : diffState) (part : NativeDiffChange) (nextPartIsChange : bool)
    : diffState :=
  let raw := rawLines (value part) in
  if isChange part then
    let first := match firstChangedLine st with None => Some (newLineNum st) | f => f end in
    if added part then
      {| output := output st ++ numberedLines c_plus (newLineNum st) raw;
         oldLineNum := oldLineNum st; newLineNum := newLineNum st + zlength raw;
         lastWasChange := true; firstChangedLine := first |}
    else
      {| output := output st ++ numberedLines c_minus (oldLineNum st) raw;
         oldLineNum := oldLineNum st + zlength raw; newLineNum := newLineNum st;
         lastWasChange := true; firstChangedLine := first |}
  else
    let '(shown, moved) :=
      if lastWasChange st || nextPartIsChange
      then contextPart raw contextLines (oldLineNum st) (lastWasChange st) nextPartIsChange
      else ([], zlength raw) in
    {| output := output st ++ shown; oldLineNum := oldLineNum st + moved;
       newLineNum := newLineNum st + moved; lastWasChange := false; firstChangedLine := firstChangedLine st |}.

Fixpoint diffParts (contextLines : Z) (st : diffState) (parts : list NativeDiffChange) : diffState :=
  match parts with
  | [] => st
  | part :: rest =>
      let nextPartIsChange := match rest with next :: _ => isChange next | [] => false end in
      diffParts contextLines (diffPart contextLines st part nextPartIsChange) rest
  end.

Definition generateDiff `{NativeDiff} (oldContent newContent : jstring) (contextLines : Z) : diffState :=
  diffParts contextLines
    {| output := []; oldLineNum := 1; newLineNum := 1; lastWasChange := false; firstChangedLine := None |}
    (diffLines oldContent newContent).

Record DiffResult : Type := { diff : jstring; diff_firstChangedLine : option Z }.

Definition generateDiffString `{NativeDiff} (oldContent newContent : jstring) (contextLines : Z) : DiffResult :=
  let st := generateDiff oldContent newContent contextLines in
  {| diff := join [c_lf] (formatNumberedDiffLine <$> output st); diff_firstChangedLine := firstChangedLine st |}.

(** ** The preview *)

Record CompactHashlineDiffPreview : Type := { preview : jstring; addedLines : Z; removedLines : Z }.

(** [Number.parseInt(s, 10)]: white space, a sign, digits; [NaN] is [None]. *)
Definition parseNumber (s : jstring) : option Z :=
  let '(sign, digits) :=
    match trim_start s with
    | 45%N :: s' => (-1, s')
    | 43%N :: s' => (1, s')
    | s' => (1, s')
    end in
  match digits with
  | c :: _ => if is_digit c then Some (sign * parse_int digits) else None
  | [] => None
  end.

Definition number_str (n : option Z) : jstring := match n with Some z => z_str z | None => js "NaN" end.

Section preview.
Context `{LineHasher}.

(** One turn of [lines.map]: the counts so far, and the line. *)
Definition previewLine (counts : Z * Z) (l : jstring) : (Z * Z) * jstring :=
  let '(a, r) := counts in
  match l with
  | kind :: body =>
      if negb ((kind =? c_plus) || (kind =? c_minus) || (kind =? c_space))%N then (counts, l)
      else match index_of HL_BODY_SEP body with
      | None => (counts, l)
      | Some sep =>
          let lineNumber := parseNumber (take sep body) in
          let text := drop (S sep) body in
          if (kind =? c_plus)%N then
            ((a + 1, r), c_plus :: number_str lineNumber
               ++ computeLineHash (default 0 lineNumber) text ++ HL_BODY_SEP :: text)
          else if (kind =? c_minus)%N then
            ((a, r + 1), c_minus :: number_str lineNumber ++ js "--" ++ HL_BODY_SEP :: text)
          else
            let newLineNumber := (fun n => n + a - r) <$> lineNumber in
            (counts, c_space :: number_str newLineNumber
               ++ computeLineHash (default 0 newLineNumber) text ++ HL_BODY_SEP :: text)
      end
  | [] => (counts, l)
  end.

Fixpoint previewLines (counts : Z * Z) (ls : list jstring) : (Z * Z) * list jstring :=
  match ls with
  | [] => (counts, [])
  | l :: ls' =>
      let '(counts', out) := previewLine counts l in
      let '(counts'', outs) := previewLines counts' ls' in (counts'', out :: outs)
  end.

Definition buildCompactHashlineDiffPreview (d : jstring) : CompactHashlineDiffPreview :=
  let lines := if (length d =? 0)%nat then [] else split_on c_lf d in
  let '((a, r), formatted) := previewLines (0, 0) lines in
  {| preview := join [c_lf] formatted; addedLines := a; removedLines := r |}.

End preview.

(** ** Lines of the two texts *)

Fixpoint whole_lines (vs : list jstring) : Prop :=
  match vs with
  | [] => True
  | v :: rest => (rest = [] \/ last v = Some c_lf) /\ whole_lines rest
  end.

Definition oldSide (parts : list NativeDiffChange) : list jstring :=
  value <$> filter (fun p => added p = false) parts.
Definition newSide (parts : list NativeDiffChange) : list jstring :=
  value <$> filter (fun p => removed p = false) parts.

(** What a line diff is: its parts spell out the old text without the added ones and the new text
    without the removed ones, and consist of whole lines. *)
Class NativeDiffLaws (D : NativeDiff) : Prop := {
  diff_old : forall a b, concat (oldSide (diffLines a b)) = a;
  diff_new : forall a b, concat (newSide (diffLines a b)) = b;
  diff_old_whole : forall a b, whole_lines (oldSide (diffLines a b));
  diff_new_whole : forall a b, whole_lines (newSide (diffLines a b));
  diff_one_sign : forall a b, Forall (fun p => added p && removed p = false) (diffLines a b)
}.

Lemma split_on_app_sep sep a b : split_on sep (a ++ sep :: b) = split_on sep a ++ split_on sep b.
Proof.
  induction a as [|c a IH]; cbn [app split_on]; [by rewrite N.eqb_refl|].
  change ((c :: a) ++ sep :: b) with (c :: (a ++ sep :: b)). cbn [split_on]. rewrite IH.
  destruct (c =? sep)%N; [done|]. pose proof (split_on_nonempty sep a). by destruct (split_on sep a).
Qed.

Lemma rawLines_app v w : last v = Some c_lf -> rawLines (v ++ w) = rawLines v ++ rawLines w.
Proof.
  intros [s ->]%last_Some. unfold rawLines. rewrite <- app_assoc. cbn [app].
  rewrite split_on_app_sep, split_on_snoc, last_snoc, removelast_last.
  rewrite (bool_decide_true (Some [] = Some [])) by done.
  pose proof (split_on_nonempty c_lf w) as Hne. rewrite last_app.
  destruct (last (split_on c_lf w)) as [x|] eqn:E; [|by apply last_None in E].
  case_match; [|done]. by rewrite removelast_app.
Qed.

Lemma rawLines_concat vs : whole_lines vs -> rawLines (concat vs) = concat (rawLines <$> vs).
Proof.
  induction vs as [|v vs IH]; [done|]. cbn [whole_lines]. intros [[->|Hv] Hvs].
  - cbn [concat fmap list_fmap]. by rewrite !app_nil_r.
  - rewrite fmap_cons. cbn [concat]. rewrite rawLines_app by done. by rewrite IH.
Qed.

(** ** The lines of a part *)

(** The line that stands for skipped ones. *)
Definition is_filler (e : diffLine) : Prop := filler e = true /\ content e = js "...".

Section part.
Context (raw : list jstring) (o : Z) (Ho : 1 <= o).

(** A line of an unchanged part that starts at line [o] of the old text. *)
Definition context_ok (e : diffLine) : Prop :=
  prefix e = c_space /\ o <= lineNum e /\ (is_filler e \/ arr_at raw (lineNum e - o) = Some (content e)).

Lemma numberedLines_elem p n ls e :
  e ∈ numberedLines p n ls ->
  exists i l, e = {| prefix := p; lineNum := n + Z.of_nat i; content := l; filler := false |} /\ ls !! i = Some l.
Proof. intros (i & l & -> & Hl)%elem_of_lookup_imap. eauto. Qed.

Lemma slice_shown a b : 0 <= a -> Forall context_ok (numberedLines c_space (o + a) (arr_slice raw a b)).
Proof.
  intros Ha. apply Forall_forall. intros e (i & l & -> & Hl)%numberedLines_elem.
  split_and!; cbn [prefix lineNum content filler]; [done|lia|right].
  unfold arr_slice in Hl. apply lookup_take_Some in Hl as [Hl _]. rewrite lookup_drop in Hl.
  apply arr_at_Some. split; [lia|]. by replace (Z.to_nat (o + a + Z.of_nat i - o)) with (Z.to_nat a + i)%nat by lia.
Qed.

Lemma filler_ok n : o <= n -> context_ok (fillerLine n).
Proof. intros Hn. split_and!; [done|done|by left]. Qed.

Lemma length_slice (l : list jstring) a b :
  0 <= a -> a <= b -> b <= zlength l -> zlength (arr_slice l a b) = b - a.
Proof. unfold arr_slice, zlength. rewrite length_take, length_drop. lia. Qed.

Lemma slice_all (l : list jstring) b : zlength l <= b -> arr_slice l 0 b = l.
Proof. intros Hb. unfold arr_slice. simpl. rewrite drop_0. apply take_ge. unfold zlength in Hb. lia. Qed.

Lemma slice_app_l (a b : list jstring) n : zlength a = n -> arr_slice (a ++ b) 0 n = a.
Proof.
  intros <-. unfold arr_slice, zlength. simpl. rewrite drop_0, Nat.sub_0_r, Nat2Z.id. apply take_app_length.
Qed.

Lemma slice_app_r (a b : list jstring) n : zlength a = n -> arr_slice (a ++ b) n (zlength (a ++ b)) = b.
Proof.
  intros <-. unfold arr_slice, zlength. rewrite !Nat2Z.id, drop_app_length, length_app.
  apply take_ge. lia.
Qed.

(** Between two changes, more lines than twice the limit: both ends are shown. *)
Lemma context_both limit :
  Z.max 0 limit * 2 < zlength raw ->
  let '(shown, moved) := contextPart raw limit o true true in
  Forall context_ok shown /\ moved = zlength raw.
Proof.
  intros Hlt. unfold contextPart. set (L := Z.max 0 limit) in *. assert (0 <= L) as HL by lia.
  cbn [andb]. replace (L * 2 <? zlength raw) with true by lia. cbv iota zeta.
  pose proof (length_slice raw 0 L ltac:(lia) HL ltac:(lia)) as Hl.
  pose proof (length_slice raw (zlength raw - L) (zlength raw) ltac:(lia) ltac:(lia) ltac:(lia)) as Ht.
  change (0 <? 0) with false. cbv iota.
  replace (0 <? _) with true by lia. rewrite slice_app_l, slice_app_r by lia.
  split; [|lia]. cbn [app]. rewrite app_nil_r, Z.add_0_r.
  apply Forall_app. split; [rewrite <- (Z.add_0_r o); by apply slice_shown|].
  apply Forall_cons. split; [apply filler_ok; lia|].
  rewrite Hl, Ht. replace (o + (L - 0) + _) with (o + (zlength raw - L)) by lia. apply slice_shown. lia.
Qed.

(** The lines of one slice, with a filler on one side. *)
Lemma slice_run skip a b n :
  0 <= a -> o <= n ->
  Forall context_ok ((if 0 <? skip then [fillerLine n] else []) ++ numberedLines c_space (o + a) (arr_slice raw a b)) /\
  Forall context_ok (numberedLines c_space (o + a) (arr_slice raw a b) ++ (if 0 <? skip then [fillerLine n] else [])).
Proof.
  intros Ha Hn. pose proof (slice_shown a b Ha). pose proof (filler_ok n Hn).
  split; apply Forall_app; (split; [|]); try done; case_match; try done; by apply Forall_singleton.
Qed.

Lemma contextPart_ok limit lastChange nextChange :
  let '(shown, moved) := contextPart raw limit o lastChange nextChange in
  Forall context_ok shown /\ moved = zlength raw.
Proof.
  pose proof (zlength_nonneg raw) as Hraw.
  destruct (lastChange && nextChange) eqn:Eb.
  { apply andb_true_iff in Eb as [-> ->].
    destruct (Z.ltb_spec (Z.max 0 limit * 2) (zlength raw)) as [Hlt|Hge]; [by apply context_both|].
    unfold contextPart. replace (_ <? zlength raw) with false by lia. cbn [andb]. cbv iota zeta.
    change (0 <? 0) with false. cbv iota. cbn [app]. rewrite !app_nil_r, slice_all by lia.
    split; [|lia]. rewrite <- (slice_all raw (zlength raw)) by lia. by apply slice_shown. }
  unfold contextPart. rewrite Eb. set (L := Z.max 0 limit). assert (0 <= L) as HL by lia.
  destruct nextChange; cbv iota zeta; change (0 <? 0) with false; cbv iota.
  - set (k := Z.max 0 (zlength raw - L)).
    pose proof (length_slice raw k (zlength raw) ltac:(lia) ltac:(lia) ltac:(lia)) as Hs.
    rewrite slice_all by lia. rewrite !app_nil_r. split.
    + replace (o + (if 0 <? k then k else 0)) with (o + k) by (case_match; lia). apply slice_run; lia.
    + rewrite Hs. case_match; lia.
  - set (k := Z.max 0 (zlength raw - L)). rewrite slice_all by lia. cbn [app].
    assert (zlength (arr_slice raw 0 L) = zlength raw - k) as Hs.
    { unfold arr_slice, zlength in *. rewrite length_take, length_drop. lia. }
    split; [|rewrite Hs; case_match; lia]. apply slice_run; lia.
Qed.
End part.

(** ** The whole diff *)

Section whole.
Context (Old New : list jstring).

(** The lines of a diff, read with [d] more lines added than removed before them. *)
Fixpoint entries_ok (d : Z) (es : list diffLine) : Prop :=
  match es with
  | [] => True
  | e :: es' =>
      0 <= lineNum e /\
      if (prefix e =? c_plus)%N then
        filler e = false /\ arr_at New (lineNum e - 1) = Some (content e) /\ entries_ok (d + 1) es'
      else if (prefix e =? c_minus)%N then
        filler e = false /\ arr_at Old (lineNum e - 1) = Some (content e) /\ entries_ok (d - 1) es'
      else prefix e = c_space /\ 0 <= lineNum e + d /\
           (is_filler e \/ arr_at New (lineNum e + d - 1) = Some (content e)) /\ entries_ok d es'
  end.

(** Added lines less removed lines. *)
Definition net (es : list diffLine) : Z :=
  foldr (fun e n => (if (prefix e =? c_plus)%N then 1 else if (prefix e =? c_minus)%N then -1 else 0) + n) 0 es.

Lemma entries_ok_app d es es' : entries_ok d es -> entries_ok (d + net es) es' -> entries_ok d (es ++ es').
Proof.
  revert d. induction es as [|e es IH]; intros d He He'; cbn [app entries_ok net foldr] in *.
  { by rewrite Z.add_0_r in He'. }
  fold (net es) in *.
  repeat case_match; destruct He as (? & He); (split; [done|]).
  - destruct He as (? & ? & ?). split_and!; [done|done|]. apply IH; [done|]. by replace (d + 1 + net es) with (d + (1 + net es)) by lia.
  - destruct He as (? & ? & ?). split_and!; [done|done|]. apply IH; [done|]. by replace (d - 1 + net es) with (d + (-1 + net es)) by lia.
  - destruct He as (? & ? & ? & ?). split_and!; [done|done|done|]. by apply IH.
Qed.

Lemma net_app es es' : net (es ++ es') = net es + net es'.
Proof. induction es as [|e es IH]; cbn [app net foldr] in *; [done|]. fold (net es) (net (es ++ es')) in *. lia. Qed.

Lemma net_numbered p n ls :
  net (numberedLines p n ls) = (if (p =? c_plus)%N then 1 else if (p =? c_minus)%N then -1 else 0) * zlength ls.
Proof.
  unfold numberedLines. revert n. induction ls as [|l ls IH]; intros n; [by rewrite Z.mul_0_r|].
  cbn [imap net foldr prefix]. fold (net (imap (fun i l => {| prefix := p; lineNum := n + Z.of_nat (S i); content := l; filler := false |}) ls)).
  assert (imap (fun i l => {| prefix := p; lineNum := n + Z.of_nat (S i); content := l; filler := false |}) ls
        = imap (fun i l => {| prefix := p; lineNum := (n + 1) + Z.of_nat i; content := l; filler := false |}) ls) as E.
  { apply imap_ext. intros i l' _. f_equal. lia. }
  unfold compose. rewrite E, IH. unfold zlength. simpl length. case_match; [|case_match]; lia.
Qed.

Lemma drop_lookup {A} (full part rest : list A) n i x :
  1 <= n -> drop (Z.to_nat (n - 1)) full = part ++ rest -> part !! i = Some x ->
  arr_at full (n + Z.of_nat i - 1) = Some x.
Proof.
  intros Hn E Hx. apply arr_at_Some. split; [lia|].
  replace (Z.to_nat (n + Z.of_nat i - 1)) with (Z.to_nat (n - 1) + i)%nat by lia.
  rewrite <- lookup_drop, E. apply lookup_app_l_Some. done.
Qed.

(** The text from line [n] on. *)
Definition from_line {A} (full : list A) (n : Z) (rest : list A) : Prop :=
  1 <= n <= zlength full + 1 /\ drop (Z.to_nat (n - 1)) full = rest.

Lemma from_line_next {A} (full part rest : list A) n :
  from_line full n (part ++ rest) -> from_line full (n + zlength part) rest.
Proof.
  intros [Hn E]. unfold from_line, zlength in *. split.
  - apply (f_equal length) in E. rewrite length_drop, length_app in E. lia.
  - replace (Z.to_nat (n + Z.of_nat (length part) - 1)) with (Z.to_nat (n - 1) + length part)%nat by lia.
    by rewrite <- drop_drop, E, drop_app_length.
Qed.

Lemma from_line_end {A} (full : list A) n : from_line full n [] -> n = zlength full + 1.
Proof.
  intros [Hn E]. apply (f_equal length) in E. rewrite length_drop in E. unfold zlength in *. simpl in E. lia.
Qed.

Lemma plus_lines n d ls rest :
  1 <= n -> drop (Z.to_nat (n - 1)) New = ls ++ rest -> entries_ok d (numberedLines c_plus n ls).
Proof.
  intros Hn E. unfold numberedLines.
  assert (forall i l, ls !! i = Some l -> arr_at New (n + Z.of_nat i - 1) = Some l) as Hl
    by (intros; by eapply drop_lookup).
  clear E. revert n d Hn Hl. induction ls as [|l ls IH]; intros n d Hn Hl; [done|].
  cbn [imap entries_ok prefix lineNum filler content]. change (c_plus =? c_plus)%N with true. cbv iota.
  split_and!; [lia|done|by apply (Hl 0%nat)|].
  erewrite imap_ext; [apply (IH (n + 1))|]; [lia|..].
  - intros i x Hx. replace (n + 1 + Z.of_nat i - 1) with (n + Z.of_nat (S i) - 1) by lia. by apply Hl.
  - intros i x _. unfold compose. f_equal. lia.
Qed.

Lemma minus_lines n d ls rest :
  1 <= n -> drop (Z.to_nat (n - 1)) Old = ls ++ rest -> entries_ok d (numberedLines c_minus n ls).
Proof.
  intros Hn E. unfold numberedLines.
  assert (forall i l, ls !! i = Some l -> arr_at Old (n + Z.of_nat i - 1) = Some l) as Hl
    by (intros; by eapply drop_lookup).
  clear E. revert n d Hn Hl. induction ls as [|l ls IH]; intros n d Hn Hl; [done|].
  cbn [imap entries_ok prefix lineNum filler content]. change (c_minus =? c_plus)%N with false.
  change (c_minus =? c_minus)%N with true. cbv iota.
  split_and!; [lia|done|by apply (Hl 0%nat)|].
  erewrite imap_ext; [apply (IH (n + 1))|]; [lia|..].
  - intros i x Hx. replace (n + 1 + Z.of_nat i - 1) with (n + Z.of_nat (S i) - 1) by lia. by apply Hl.
  - intros i x _. unfold compose. f_equal. lia.
Qed.

Lemma context_lines raw o n es rest :
  1 <= o -> 1 <= n -> drop (Z.to_nat (n - 1)) New = raw ++ rest ->
  Forall (context_ok raw o) es -> entries_ok (n - o) es /\ net es = 0.
Proof.
  intros Ho Hn E. induction 1 as [|e es (Hp & Hge & Hf) _ IH]; [done|].
  cbn [entries_ok net foldr]. fold (net es). destruct IH as [IH1 IH2]. rewrite Hp.
  change (c_space =? c_plus)%N with false. change (c_space =? c_minus)%N with false. cbv iota.
  split; [|lia]. split_and!; [lia|done|lia| |done].
  destruct Hf as [?|Hf]; [by left|right]. apply arr_at_Some in Hf as [? Hf].
  replace (lineNum e + (n - o) - 1) with (n + Z.of_nat (Z.to_nat (lineNum e - o)) - 1) by lia.
  by eapply drop_lookup.
Qed.
End whole.

Lemma oldSide_cons p ps : oldSide (p :: ps) = if added p then oldSide ps else value p :: oldSide ps.
Proof. unfold oldSide. rewrite filter_cons. by destruct (added p). Qed.

Lemma newSide_cons p ps : newSide (p :: ps) = if removed p then newSide ps else value p :: newSide ps.
Proof. unfold newSide. rewrite filter_cons. by destruct (removed p). Qed.

Section diff_parts.
Context (Old New : list jstring) (limit : Z).

(** The rest of both texts, from the lines the loop has reached. *)
Definition reached (st : diffState) (parts : list NativeDiffChange) : Prop :=
  from_line Old (oldLineNum st) (concat (rawLines <$> oldSide parts)) /\
  from_line New (newLineNum st) (concat (rawLines <$> newSide parts)).

Lemma diffPart_ok st part parts next :
  added part && removed part = false -> reached st (part :: parts) ->
  let st' := diffPart limit st part next in
  reached st' parts /\
  exists es, output st' = output st ++ es /\
    entries_ok Old New (newLineNum st - oldLineNum st) es /\
    newLineNum st' - oldLineNum st' = newLineNum st - oldLineNum st + net es.
Proof.
  intros Hsign (Ho & Hn). unfold diffPart, isChange, reached.
  rewrite oldSide_cons in Ho. rewrite newSide_cons in Hn.
  destruct (added part) eqn:Ea, (removed part) eqn:Er; try done; cbn [orb];
    rewrite ?fmap_cons in Ho, Hn; cbn [concat] in Ho, Hn.
  - split; [split; [exact Ho|by apply from_line_next]|].
    eexists. split; [done|]. split; [eapply plus_lines; apply Hn|]. rewrite net_numbered. cbn. lia.
  - split; [split; [by apply from_line_next|exact Hn]|].
    eexists. split; [done|]. split; [eapply minus_lines; apply Ho|]. rewrite net_numbered. cbn. lia.
  - assert (exists shown, (if lastWasChange st || next
       then contextPart (rawLines (value part)) limit (oldLineNum st) (lastWasChange st) next
       else ([], zlength (rawLines (value part)))) = (shown, zlength (rawLines (value part))) /\
       Forall (context_ok (rawLines (value part)) (oldLineNum st)) shown) as (shown & -> & Hs).
    { case_match; [|by exists []].
      pose proof (contextPart_ok (rawLines (value part)) (oldLineNum st) limit (lastWasChange st) next) as Hc.
      destruct (contextPart _ _ _ _ _) as [shown moved]. destruct Hc as [? ->]. by exists shown. }
    split; [split; by apply from_line_next|].
    exists shown. split; [done|]. eapply context_lines in Hs as [Hs1 Hs2]; [|apply Ho|apply Hn|apply Hn].
    split; [exact Hs1|]. cbn. lia.
Qed.

Lemma diffParts_ok parts st :
  Forall (fun p => added p && removed p = false) parts -> reached st parts ->
  let st' := diffParts limit st parts in
  reached st' [] /\
  exists es, output st' = output st ++ es /\
    entries_ok Old New (newLineNum st - oldLineNum st) es /\
    newLineNum st' - oldLineNum st' = newLineNum st - oldLineNum st + net es.
Proof.
  intros Hp. revert st. induction Hp as [|part parts Hp _ IH]; intros st Hr.
  { split; [done|]. exists []. rewrite app_nil_r. cbn. split_and!; [done|done|lia]. }
  cbn [diffParts]. set (next := match parts with [] => _ | _ => _ end).
  destruct (diffPart_ok st part parts next Hp Hr) as (Hr1 & es1 & E1 & Hok1 & Hn1).
  destruct (IH _ Hr1) as (Hr2 & es2 & E2 & Hok2 & Hn2). split; [done|].
  exists (es1 ++ es2). rewrite E2, E1, app_assoc, net_app. split_and!; [done| |lia].
  apply entries_ok_app; [done|]. by rewrite <- Hn1.
Qed.
End diff_parts.

(** ** The preview of a diff *)

Lemma index_of_app c s t : (c ∉ s) -> index_of c (s ++ c :: t) = Some (length s).
Proof.
  induction s as [|d s IH]; intros Hs; cbn [app index_of]; [by rewrite N.eqb_refl|].
  apply not_elem_of_cons in Hs as [Hd Hs]. change ((d :: s) ++ c :: t) with (d :: (s ++ c :: t)).
  cbn [index_of]. rewrite (proj2 (N.eqb_neq d c)) by congruence. by rewrite IH.
Qed.

Lemma parseNumber_z_str n : 0 <= n -> parseNumber (z_str n) = Some n.
Proof.
  intros Hn. pose proof (parse_int_z_str n Hn) as Hp. unfold parseNumber.
  destruct (z_str_nonempty n Hn) as (c & s & E & Hc & _). rewrite E in *.
  assert (trim_start (c :: s) = c :: s) as ->.
  { cbn [trim_start]. assert (is_ws c = false) as ->; [|done]. unfold is_digit, is_ws in *. simpl. lia. }
  assert (c ≠ 45%N /\ c ≠ 43%N) as [H1 H2] by (unfold is_digit in Hc; lia).
  replace (match c :: s with 45%N :: s' => (-1, s') | 43%N :: s' => (1, s') | s' => (1, s') end)
    with (1, c :: s).
  2: { repeat (match goal with |- context [match ?x with _ => _ end] => destruct x; try done end). }
  rewrite Hc. by rewrite Z.mul_1_l, Hp.
Qed.

Section preview_facts.
Context `{LineHasher}.

Lemma previewLine_format a r e :
  0 <= lineNum e ->
  previewLine (a, r) (formatNumberedDiffLine e) =
    if (prefix e =? c_plus)%N then ((a + 1, r), c_plus :: formatHashLine (lineNum e) (content e))
    else if (prefix e =? c_minus)%N
    then ((a, r + 1), c_minus :: z_str (lineNum e) ++ js "--|" ++ content e)
    else if (prefix e =? c_space)%N
    then ((a, r), c_space :: formatHashLine (lineNum e + a - r) (content e))
    else ((a, r), formatNumberedDiffLine e).
Proof.
  intros Hn. unfold previewLine, formatNumberedDiffLine at 1.
  assert (HL_BODY_SEP ∉ z_str (lineNum e)) as Hsep.
  { intros Hin. pose proof (z_str_digits _ Hn) as F. rewrite Forall_forall in F. by apply F in Hin. }
  rewrite index_of_app by done. rewrite take_app_length.
  replace (drop (S (length (z_str (lineNum e)))) (z_str (lineNum e) ++ HL_BODY_SEP :: content e)) with (content e).
  2: { change (S ?n) with (1 + n)%nat. rewrite Nat.add_comm, <- drop_drop, drop_app_length. done. }
  rewrite parseNumber_z_str by done.
  destruct (prefix e =? c_plus)%N eqn:E1; cbn [orb negb number_str default].
  { done. }
  destruct (prefix e =? c_minus)%N eqn:E2; cbn [orb negb]; [done|].
  destruct (prefix e =? c_space)%N eqn:E3; cbn [orb negb]; [|done]. done.
Qed.

Definition count_prefix (p : N) (es : list diffLine) : Z :=
  zlength (filter (fun e => prefix e = p) es).

Lemma net_counts es : net es = count_prefix c_plus es - count_prefix c_minus es.
Proof.
  unfold count_prefix, zlength. induction es as [|e es IH]; [done|].
  cbn [net foldr]. fold (net es). rewrite IH, !filter_cons.
  destruct (N.eqb_spec (prefix e) c_plus) as [E|E].
  { rewrite decide_True, decide_False by (rewrite ?E; done). simpl length. lia. }
  destruct (N.eqb_spec (prefix e) c_minus) as [E'|E'].
  { rewrite decide_False, decide_True by (rewrite ?E'; done). simpl length. lia. }
  rewrite !decide_False by done. lia.
Qed.

(** What the preview prints for a line of the diff. *)
Definition shows (Old New : list jstring) (e : diffLine) (out : jstring) : Prop :=
  if (prefix e =? c_minus)%N then
    out = c_minus :: z_str (lineNum e) ++ js "--|" ++ content e /\
    arr_at Old (lineNum e - 1) = Some (content e)
  else exists n, out = prefix e :: formatHashLine n (content e) /\
    (is_filler e \/ arr_at New (n - 1) = Some (content e)).

Lemma previewLines_ok Old New es a r :
  entries_ok Old New (a - r) es ->
  exists outs, previewLines (a, r) (formatNumberedDiffLine <$> es) =
      ((a + count_prefix c_plus es, r + count_prefix c_minus es), outs) /\
    Forall2 (shows Old New) es outs.
Proof.
  unfold count_prefix, zlength. revert a r. induction es as [|e es IH]; intros a r.
  { intros _. exists []. split; [cbn; do 2 f_equal; lia|constructor]. }
  cbn [entries_ok]. intros [Hn He]. rewrite fmap_cons. cbn [previewLines].
  rewrite previewLine_format by done. rewrite !filter_cons.
  destruct (N.eqb_spec (prefix e) c_plus) as [E|E].
  { destruct He as (Hf & Ht & He). replace (a - r + 1) with (a + 1 - r) in He by lia.
    destruct (IH _ _ He) as (outs & -> & Ho). rewrite decide_True, decide_False by (rewrite ?E; done).
    eexists. split; [simpl length; apply f_equal2; [apply f_equal2; lia|reflexivity]|]. constructor; [|done].
    unfold shows. rewrite E. change (c_plus =? c_minus)%N with false. cbv iota.
    exists (lineNum e). split; [done|by right]. }
  destruct (N.eqb_spec (prefix e) c_minus) as [E'|E'].
  { destruct He as (Hf & Ht & He). replace (a - r - 1) with (a - (r + 1)) in He by lia.
    destruct (IH _ _ He) as (outs & -> & Ho). rewrite decide_False, decide_True by (rewrite ?E'; done).
    eexists. split; [simpl length; apply f_equal2; [apply f_equal2; lia|reflexivity]|]. constructor; [|done].
    unfold shows. rewrite E'. done. }
  destruct He as (E3 & Hge & Ht & He). rewrite (proj2 (N.eqb_eq (prefix e) c_space) E3).
  destruct (IH _ _ He) as (outs & -> & Ho). rewrite !decide_False by done.
  eexists. split; [done|]. constructor; [|done]. unfold shows. rewrite E3.
  change (c_space =? c_minus)%N with false. cbv iota. exists (lineNum e + a - r). split; [done|].
  destruct Ht as [?|Ht]; [by left|right]. by replace (lineNum e + a - r - 1) with (lineNum e + (a - r) - 1) by lia.
Qed.
End preview_facts.

Lemma rawLines_no_lf v : Forall (fun l => c_lf ∉ l) (rawLines v).
Proof.
  pose proof (split_on_pieces c_lf v) as Hp. unfold rawLines. case_match; [|done].
  pose proof (split_on_nonempty c_lf v) as Hne. rewrite (app_removelast_last [] Hne) in Hp.
  by apply Forall_app in Hp as [? _].
Qed.

Lemma arr_at_Forall {A} (P : A -> Prop) l i x : Forall P l -> arr_at l i = Some x -> P x.
Proof. intros Hl [_ Hx]%arr_at_Some. by eapply Forall_lookup_1. Qed.

Lemma entries_no_lf old new d es :
  entries_ok (rawLines old) (rawLines new) d es ->
  Forall (fun l => c_lf ∉ l) (formatNumberedDiffLine <$> es).
Proof.
  pose proof (rawLines_no_lf old) as Ho. pose proof (rawLines_no_lf new) as Hn.
  revert d. induction es as [|e es IH]; intros d He; [constructor|].
  cbn [entries_ok] in He. destruct He as [Hnum He]. rewrite fmap_cons.
  assert (forall p, p ≠ c_lf -> (c_lf ∉ content e) -> (c_lf ∉ p :: z_str (lineNum e) ++ HL_BODY_SEP :: content e)) as Hgen.
  { intros p Hp Hc. rewrite not_elem_of_cons, not_elem_of_app, not_elem_of_cons. split_and!; [done| |done|done].
    intros Hin. pose proof (z_str_digits _ Hnum) as F. rewrite Forall_forall in F. by apply F in Hin. }
  unfold formatNumberedDiffLine at 1.
  destruct (N.eqb_spec (prefix e) c_plus) as [E|E].
  { destruct He as (_ & Ht & He). constructor; [|by eapply IH]. apply Hgen; [by rewrite E|].
    apply (arr_at_Forall (fun l => c_lf ∉ l) _ _ _ Hn Ht). }
  destruct (N.eqb_spec (prefix e) c_minus) as [E'|E'].
  { destruct He as (_ & Ht & He). constructor; [|by eapply IH]. apply Hgen; [by rewrite E'|].
    apply (arr_at_Forall (fun l => c_lf ∉ l) _ _ _ Ho Ht). }
  destruct He as (E3 & _ & Ht & He). constructor; [|by eapply IH]. apply Hgen; [by rewrite E3|].
  destruct Ht as [[_ ->]|Ht]; [|apply (arr_at_Forall (fun l => c_lf ∉ l) _ _ _ Hn Ht)].
  apply (bool_decide_unpack _). done.
Qed.

Section preview_theorem.
Context `{LineHasher} `{D : NativeDiff} {L : NativeDiffLaws D}.

(** Functional. The preview of an edit hands out valid anchors: for every line of the diff the
    preview prints, added lines and context lines alike, the anchor of that text at its position in
    the edited file (the [...] lines apart), and for a removed line its number and text in the old
    file; the counts are those of the diff and account for the change in length. *)
Theorem preview_prints_fresh_anchors old new limit :
  let st := generateDiff old new limit in
  let p := buildCompactHashlineDiffPreview (diff (generateDiffString old new limit)) in
  exists outs,
    preview p = join [c_lf] outs /\
    Forall2 (shows (rawLines old) (rawLines new)) (output st) outs /\
    addedLines p = count_prefix c_plus (output st) /\
    removedLines p = count_prefix c_minus (output st) /\
    addedLines p - removedLines p = zlength (rawLines new) - zlength (rawLines old).
Proof.
  intros st p. unfold generateDiff in st.
  set (st0 := {| output := []; oldLineNum := 1; newLineNum := 1 |}) in st.
  destruct (diffParts_ok (rawLines old) (rawLines new) limit (diffLines old new) st0) as (Hr & es & Eo & Hok & Hn).
  { apply diff_one_sign. }
  { split; (split; [pose proof (@zlength_nonneg jstring); cbn; split; [lia|]|]).
    - pose proof (zlength_nonneg (rawLines old)). lia.
    - rewrite <- rawLines_concat by apply diff_old_whole. by rewrite diff_old.
    - pose proof (zlength_nonneg (rawLines new)). lia.
    - rewrite <- rawLines_concat by apply diff_new_whole. by rewrite diff_new. }
  fold st in Hr, Eo, Hn. change (output st0 ++ es) with es in Eo. cbn in Hok.
  pose proof (entries_no_lf old new _ _ Hok) as Hlf.
  destruct (previewLines_ok _ _ es 0 0 Hok) as (outs & Ep & Hsh). rewrite !Z.add_0_l in Ep.
  assert (p = {| preview := join [c_lf] outs; addedLines := count_prefix c_plus es;
                 removedLines := count_prefix c_minus es |}) as ->.
  { unfold p, buildCompactHashlineDiffPreview, generateDiffString. cbn [diff].
    fold (generateDiff old new limit). change (generateDiff old new limit) with st. rewrite Eo.
    replace (if (length _ =? 0)%nat then [] else _) with (formatNumberedDiffLine <$> es); [by rewrite Ep|].
    destruct es as [|e es]; [done|]. rewrite split_on_join by done. rewrite fmap_cons.
    by destruct (formatNumberedDiffLine <$> es). }
  exists outs. cbn [preview addedLines removedLines]. rewrite Eo. split_and!; try done.
  rewrite <- net_counts. destruct Hr as [Ho%from_line_end Hn'%from_line_end]. cbn in Hn. lia.
Qed.
End preview_theorem.

(** The coarsest line diff: everything old goes, everything new comes. *)
Definition wholeDiff : NativeDiff :=
  {| diffLines := fun a b => [{| value := a; added := false; removed := true |};
                              {| value := b; added := true; removed := false |}] |}.

#[local] Instance wholeDiffLaws : NativeDiffLaws wholeDiff.
Proof.
  split; intros a b; cbn [diffLines wholeDiff]; rewrite ?oldSide_cons, ?newSide_cons;
    cbn [added removed value oldSide newSide filter list_filter fmap list_fmap concat whole_lines].
  - by rewrite app_nil_r.
  - by rewrite app_nil_r.
  - by split; [left|].
  - by split; [left|].
  - by repeat constructor.
Qed.

Lemma preview_prints_fresh_anchors_witness :
  let p := buildCompactHashlineDiffPreview (H := demoHasher)
             (diff (generateDiffString (H := wholeDiff) (js "a") (js "b" ++ c_lf :: js "c") 4)) in
  exists outs, preview p = join [c_lf] outs /\ length outs = 3%nat /\ addedLines p = 2 /\ removedLines p = 1.
Proof.
  intros p.
  destruct (preview_prints_fresh_anchors (H := demoHasher) (D := wholeDiff) (js "a") (js "b" ++ c_lf :: js "c") 4)
    as (outs & E & Hs & Ha & Hr & _).
  exists outs. split; [exact E|]. apply Forall2_length in Hs. split; [rewrite <- Hs; reflexivity|].
  split; [exact Ha|exact Hr].
Defined.

(** A run of skipped lines is printed as a numbered line [...], and the preview gives that line an
    anchor although no line of the file has this text. *)
Lemma skipped_lines_get_an_anchor :
  let same := mjoin (replicate 6 (js "a" ++ [c_lf])) in
  let st := diffParts 4
    {| output := []; oldLineNum := 1; newLineNum := 1; lastWasChange := false; firstChangedLine := None |}
    [{| value := same; added := false; removed := false |};
     {| value := js "x" ++ [c_lf]; added := true; removed := false |}] in
  (previewLines (H := demoHasher) (0, 0) (take 1 (formatNumberedDiffLine <$> output st))).2 =
  [js " " ++ formatHashLine (H := demoHasher) 1 (js "...")].
Proof. vm_compute. reflexivity. Qed.
