(* ===== verification/HashlineApply.v ===== *)
(** * Hashline: applying a batch of edits

    The model of [hashline/apply.ts], function by function: anchor validation, the absorption
    of duplicated boundary lines, the normalisation of [after_anchor] cursors and the
    bottom-up splice loop.  [applyHashlineEdits] also returns the caller's edits as the call
    leaves them, because the source assigns [edit.cursor] on objects it shares with its caller. *)
From S2P Require Import Prelude JsString JsRegex HashlineHash.

Record HashlineNoopEdit := {
  noop_editIndex : Z; noop_loc : jstring; noop_reason : jstring; noop_current : jstring }.

Record HashlineApplyResult := {
  ar_lines : jstring;
  ar_firstChangedLine : option Z;
  ar_warnings : option (list jstring);
  ar_noopEdits : option (list HashlineNoopEdit) }.

Record HashlineApplyOptions := { autoDropPureInsertDuplicates : option bool }.

Inductive HashlineLineOrigin := original | inserted | replacement_.

Record IndexedEdit := { ie_edit : HashlineEdit; ie_idx : nat }.

Record HashlineReplacementGroup := {
  rg_startIndex : nat;
  rg_endIndex : nat;
  rg_sourceLineNum : Z;
  rg_replacement : list jstring;
  rg_deletes : list HashlineDeleteEdit }.

Record HashlinePureInsertGroup := {
  pg_startIndex : nat;
  pg_endIndex : nat;
  pg_sourceLineNum : Z;
  pg_cursor : HashlineCursor;
  pg_payload : list jstring }.

Record DelimiterBalance := { paren : Z; bracket : Z; brace : Z }.

#[global] Instance DelimiterBalance_eq_dec : EqDecision DelimiterBalance.
Proof. solve_decision. Defined.

(** ** Anchors of an edit *)

Definition getHashlineEditAnchors (edit : HashlineEdit) : list Anchor :=
  match edit with
  | Delete d => [del_anchor d]
  | Insert (before_anchor a) _ _ _ => [a]
  | Insert (after_anchor a) _ _ _ => [a]
  | Insert _ _ _ _ => []
  end.

Definition getAnchorTargetLine (edit : HashlineEdit) : option Z :=
  match edit with
  | Delete d => Some (line (del_anchor d))
  | Insert (before_anchor a) _ _ _ => Some (line a)
  | Insert (after_anchor a) _ _ _ => Some (line a)
  | Insert _ _ _ _ => None
  end.

Definition collectAnchorTargetLines (edits : list HashlineEdit) : gset Z :=
  foldl (fun lines edit =>
    match getAnchorTargetLine edit with Some n => lines ∪ {[n]} | None => lines end) ∅ edits.

Section validate.
Context `{LineHasher}.

(** One turn of the inner loop of [validateHashlineAnchors]. *)
Definition validateAnchor (fileLines : list jstring) (mismatches : list HashMismatch) (anchor : Anchor)
    : result HashlineError (list HashMismatch) :=
  if (line anchor <? 1)%Z || (zlength fileLines <? line anchor)%Z then
    Throw (LineDoesNotExist (line anchor) (zlength fileLines))
  else if decide (hash anchor = RANGE_INTERIOR_HASH) then Ok mismatches
  else
    let actualHash :=
      computeLineHash (line anchor) (default [] (arr_at fileLines (line anchor - 1))) in
    if decide (actualHash = hash anchor) then Ok mismatches
    else Ok (mismatches ++ [{| mm_line := line anchor; mm_expected := hash anchor;
                               mm_actual := actualHash |}]).

Definition validateHashlineAnchors (edits : list HashlineEdit) (fileLines : list jstring)
    : result HashlineError (list HashMismatch) :=
  foldM (fun ms edit => foldM (validateAnchor fileLines) ms (getHashlineEditAnchors edit)) [] edits.
End validate.

(** ** Inserting at the ends of the file: lines and their origins *)

Abbreviation tracked := (list jstring * list HashlineLineOrigin)%type.

Definition insertAtStart (f : tracked) (lines : list jstring) : tracked :=
  let '(fileLines, lineOrigins) := f in
  match lines with
  | [] => f
  | _ =>
      let origins := (fun _ => inserted) <$> lines in
      if decide (fileLines = [[]]) then
        (arr_splice fileLines 0 1 lines, arr_splice lineOrigins 0 1 origins)
      else (arr_splice fileLines 0 0 lines, arr_splice lineOrigins 0 0 origins)
  end.

Definition insertAtEnd (f : tracked) (lines : list jstring) : tracked * option Z :=
  let '(fileLines, lineOrigins) := f in
  match lines with
  | [] => (f, None)
  | _ =>
      let origins := (fun _ => inserted) <$> lines in
      if decide (fileLines = [[]]) then
        ((arr_splice fileLines 0 1 lines, arr_splice lineOrigins 0 1 origins), Some 1%Z)
      else
        let hasTrailingNewline :=
          (0 <? zlength fileLines)%Z &&
          bool_decide (arr_at fileLines (zlength fileLines - 1) = Some []) in
        let insertIndex := if hasTrailingNewline then (zlength fileLines - 1)%Z else zlength fileLines in
        ((arr_splice fileLines insertIndex 0 lines, arr_splice lineOrigins insertIndex 0 origins),
         Some (insertIndex + 1)%Z)
  end.

(** ** Replacement groups *)

(** The run of [insert] edits with a [before_anchor] cursor and the given source line. *)
Fixpoint replacementRun (sourceLineNum : Z) (edits : list HashlineEdit)
    : list jstring * list HashlineEdit :=
  match edits with
  | Insert (before_anchor _) text n _ :: rest =>
      if (n =? sourceLineNum)%Z then
        let '(texts, rest') := replacementRun sourceLineNum rest in (text :: texts, rest')
      else ([], edits)
  | _ => ([], edits)
  end.

(** The run of [delete] edits of the given source line. *)
Fixpoint deleteRun (sourceLineNum : Z) (edits : list HashlineEdit) : list HashlineDeleteEdit :=
  match edits with
  | Delete d :: rest =>
      if (del_lineNum d =? sourceLineNum)%Z then d :: deleteRun sourceLineNum rest else []
  | _ => []
  end.

Definition findReplacementGroup (edits : list HashlineEdit) (startIndex : nat)
    : option HashlineReplacementGroup :=
  match edits !! startIndex with
  | Some (Insert (before_anchor first) _ sourceLineNum _) =>
      let '(replacement, rest) := replacementRun sourceLineNum (drop startIndex edits) in
      let deletes := deleteRun sourceLineNum rest in
      match deletes with
      | [] => None
      | d0 :: _ =>
          let startLine := line (del_anchor d0) in
          if negb (forallb (fun p => (line (del_anchor (snd p)) =? startLine + fst p)%Z)
                     (zip (zseq 0 (length deletes)) deletes)) then None
          else if negb (line first =? startLine)%Z then None
          else Some {| rg_startIndex := startIndex;
                       rg_endIndex := startIndex + length replacement + length deletes - 1;
                       rg_sourceLineNum := sourceLineNum;
                       rg_replacement := replacement;
                       rg_deletes := deletes |}
      end
  | _ => None
  end.

(** ** Counting duplicated boundary lines *)

(** [count] consecutive entries of [a] from [i] are those of [b] from [j]. *)
Definition blocksMatch (a : list jstring) (i : Z) (b : list jstring) (j : Z) (count : nat) : bool :=
  forallb (fun offset => bool_decide (arr_at a (i + offset) = arr_at b (j + offset)))
    (zseq 0 count).

(** [for (let count = max; count >= 2; count--)]: the first count that passes, or 0. *)
Fixpoint firstFrom (ok : nat -> bool) (max : nat) : nat :=
  match max with
  | O => 0
  | S max' => if (max <? 2)%nat then 0 else if ok max then max else firstFrom ok max'
  end.

Definition countMatchingPrefixBlock (fileLines : list jstring) (startLine : Z)
    (replacement : list jstring) : nat :=
  firstFrom (fun count => blocksMatch fileLines (startLine - Z.of_nat count - 1) replacement 0 count)
    (Z.to_nat (Z.min (zlength replacement) (startLine - 1))).

Definition countMatchingSuffixBlock (fileLines : list jstring) (endLine : Z)
    (replacement : list jstring) : nat :=
  firstFrom (fun count => blocksMatch fileLines endLine replacement
                            (zlength replacement - Z.of_nat count) count)
    (Z.to_nat (Z.min (zlength replacement) (zlength fileLines - endLine))).

(** [/^\s*[\])}]+[;,]?\s*$/] *)
Definition STRUCTURAL_CLOSING_BOUNDARY_RE : regex :=
  rx_seqs [rx_bol; rx_star rx_ws; rx_plus (rx_one_of (js "])}")); rx_opt (rx_one_of (js ";,"));
           rx_star rx_ws; rx_eol].

Definition isStructuralClosingBoundaryLine (l : jstring) : bool :=
  test STRUCTURAL_CLOSING_BOUNDARY_RE l.

Definition ZERO_DELIMITER_BALANCE : DelimiterBalance := {| paren := 0; bracket := 0; brace := 0 |}.

Definition balanceChar (b : DelimiterBalance) (c : N) : DelimiterBalance :=
  match c with
  | 40 => {| paren := paren b + 1; bracket := bracket b; brace := brace b |}
  | 41 => {| paren := paren b - 1; bracket := bracket b; brace := brace b |}
  | 91 => {| paren := paren b; bracket := bracket b + 1; brace := brace b |}
  | 93 => {| paren := paren b; bracket := bracket b - 1; brace := brace b |}
  | 123 => {| paren := paren b; bracket := bracket b; brace := brace b + 1 |}
  | 125 => {| paren := paren b; bracket := bracket b; brace := brace b - 1 |}
  | _ => b
  end%N%Z.

Definition computeDelimiterBalance (lines : list jstring) : DelimiterBalance :=
  foldl (fun b l => foldl balanceChar b l) ZERO_DELIMITER_BALANCE lines.

Definition delimiterBalancesEqual (a b : DelimiterBalance) : bool :=
  (paren a =? paren b)%Z && (bracket a =? bracket b)%Z && (brace a =? brace b)%Z.

Definition shouldDropSingleStructuralBoundary (fullPayload keptPayload : list jstring)
    (expectedBalance : DelimiterBalance) : bool :=
  delimiterBalancesEqual (computeDelimiterBalance keptPayload) expectedBalance &&
  negb (delimiterBalancesEqual (computeDelimiterBalance fullPayload) expectedBalance).

Definition countMatchingSingleStructuralPrefixBoundary (fileLines : list jstring) (startLine : Z)
    (replacement : list jstring) (expectedBalance : DelimiterBalance) : nat :=
  match replacement with
  | [] => 0
  | l :: kept =>
      if (startLine <=? 1)%Z then 0
      else if negb (isStructuralClosingBoundaryLine l) then 0
      else if negb (bool_decide (arr_at fileLines (startLine - 2) = Some l)) then 0
      else if shouldDropSingleStructuralBoundary replacement kept expectedBalance then 1 else 0
  end.

Definition countMatchingSingleStructuralSuffixBoundary (fileLines : list jstring) (endLine : Z)
    (replacement : list jstring) (expectedBalance : DelimiterBalance) : nat :=
  match last replacement with
  | None => 0
  | Some l =>
      if (zlength fileLines <=? endLine)%Z then 0
      else if negb (isStructuralClosingBoundaryLine l) then 0
      else if negb (bool_decide (arr_at fileLines endLine = Some l)) then 0
      else if shouldDropSingleStructuralBoundary replacement
                (take (length replacement - 1) replacement) expectedBalance then 1 else 0
  end.

Definition hasExternalTargets (lines : list Z) (externalTargetLines : gset Z) : bool :=
  existsb (fun n => bool_decide (n ∈ externalTargetLines)) lines.

Definition contiguousRange (start : Z) (count : nat) : list Z := zseq start count.

(** ** Pure insert groups *)

Definition cursorMatches (a b : HashlineCursor) : bool :=
  match a, b with
  | bof, bof => true
  | eof, eof => true
  | before_anchor x, before_anchor y | after_anchor x, after_anchor y =>
      (line x =? line y)%Z && bool_decide (hash x = hash y)
  | _, _ => false
  end.

Fixpoint pureInsertRun (sourceLineNum : Z) (cursor : HashlineCursor) (edits : list HashlineEdit)
    : list jstring * list HashlineEdit :=
  match edits with
  | Insert c text n _ :: rest =>
      if (n =? sourceLineNum)%Z && cursorMatches c cursor then
        let '(texts, rest') := pureInsertRun sourceLineNum cursor rest in (text :: texts, rest')
      else ([], edits)
  | _ => ([], edits)
  end.

Definition findPureInsertGroup (edits : list HashlineEdit) (startIndex : nat)
    : option HashlinePureInsertGroup :=
  match edits !! startIndex with
  | Some (Insert cursor _ sourceLineNum _) =>
      let '(payload, rest) := pureInsertRun sourceLineNum cursor (drop startIndex edits) in
      let group := {| pg_startIndex := startIndex;
                      pg_endIndex := startIndex + length payload - 1;
                      pg_sourceLineNum := sourceLineNum;
                      pg_cursor := cursor;
                      pg_payload := payload |} in
      match rest with
      | Delete d :: _ => if (del_lineNum d =? sourceLineNum)%Z then None else Some group
      | _ => Some group
      end
  | _ => None
  end.

(** [(aboveEndIdx, belowStartIdx)] *)
Definition pureInsertNeighborhood (cursor : HashlineCursor) (fileLines : list jstring) : Z * Z :=
  match cursor with
  | bof => (-1, 0)
  | eof => (zlength fileLines - 1, zlength fileLines)
  | before_anchor a => (line a - 2, line a - 1)
  | after_anchor a => (line a - 1, line a)
  end%Z.

Record PureInsertAbsorbResult := {
  pa_keptPayload : list jstring;
  pa_absorbedLeading : nat;
  pa_absorbedTrailing : nat;
  pa_leadingFileRange : option (Z * Z);
  pa_trailingFileRange : option (Z * Z) }.

Definition isAfterAnchor (c : HashlineCursor) : bool := match c with after_anchor _ => true | _ => false end.
Definition isBeforeAnchor (c : HashlineCursor) : bool := match c with before_anchor _ => true | _ => false end.

(** The leading half of [tryAbsorbPureInsertGroup]. *)
Definition pureInsertLeading (cursor : HashlineCursor) (payload fileLines : list jstring)
    (aboveEndIdx : Z) (allowGenericBoundaryAbsorb : bool) : nat :=
  let block :=
    if allowGenericBoundaryAbsorb then
      firstFrom (fun count => blocksMatch payload 0 fileLines (aboveEndIdx - Z.of_nat count + 1) count)
        (Z.to_nat (Z.min (zlength payload) (aboveEndIdx + 1)))
    else 0 in
  match payload with
  | [] => block
  | p0 :: kept =>
      let single1 :=
        if (block =? 0)%nat && allowGenericBoundaryAbsorb && isAfterAnchor cursor
           && (0 <=? aboveEndIdx)%Z && negb (isStructuralClosingBoundaryLine p0)
           && bool_decide (arr_at fileLines aboveEndIdx = Some p0)
        then 1 else block in
      if (single1 =? 0)%nat && (0 <=? aboveEndIdx)%Z && isStructuralClosingBoundaryLine p0
         && bool_decide (arr_at fileLines aboveEndIdx = Some p0)
         && shouldDropSingleStructuralBoundary payload kept ZERO_DELIMITER_BALANCE
      then 1 else single1
  end.

(** The trailing half, on what the leading half left. *)
Definition pureInsertTrailing (cursor : HashlineCursor) (payload remainingPayload fileLines : list jstring)
    (belowStartIdx : Z) (allowGenericBoundaryAbsorb : bool) : nat :=
  let block :=
    if allowGenericBoundaryAbsorb then
      firstFrom (fun count => blocksMatch payload (zlength payload - Z.of_nat count)
                                fileLines belowStartIdx count)
        (Z.to_nat (Z.min (zlength remainingPayload) (zlength fileLines - belowStartIdx)))
    else 0 in
  match last remainingPayload with
  | None => block
  | Some pl =>
      let single1 :=
        if (block =? 0)%nat && isBeforeAnchor cursor && allowGenericBoundaryAbsorb
           && (belowStartIdx <? zlength fileLines)%Z && negb (isStructuralClosingBoundaryLine pl)
           && bool_decide (arr_at fileLines belowStartIdx = Some pl)
        then 1 else block in
      if (single1 =? 0)%nat && (belowStartIdx <? zlength fileLines)%Z
         && isStructuralClosingBoundaryLine pl
         && bool_decide (arr_at fileLines belowStartIdx = Some pl)
         && shouldDropSingleStructuralBoundary remainingPayload
              (take (length remainingPayload - 1) remainingPayload) ZERO_DELIMITER_BALANCE
      then 1 else single1
  end.

Definition tryAbsorbPureInsertGroup (group : HashlinePureInsertGroup) (fileLines : list jstring)
    (allowGenericBoundaryAbsorb : bool) : PureInsertAbsorbResult :=
  let payload := pg_payload group in
  let empty := {| pa_keptPayload := payload; pa_absorbedLeading := 0; pa_absorbedTrailing := 0;
                  pa_leadingFileRange := None; pa_trailingFileRange := None |} in
  match payload with
  | [] => empty
  | _ =>
      let '(aboveEndIdx, belowStartIdx) := pureInsertNeighborhood (pg_cursor group) fileLines in
      let absorbedLeading :=
        pureInsertLeading (pg_cursor group) payload fileLines aboveEndIdx allowGenericBoundaryAbsorb in
      let remainingPayload := drop absorbedLeading payload in
      let absorbedTrailing :=
        pureInsertTrailing (pg_cursor group) payload remainingPayload fileLines belowStartIdx
          allowGenericBoundaryAbsorb in
      if (absorbedLeading =? 0)%nat && (absorbedTrailing =? 0)%nat then empty
      else
        {| pa_keptPayload :=
             arr_slice payload (Z.of_nat absorbedLeading) (zlength payload - Z.of_nat absorbedTrailing);
           pa_absorbedLeading := absorbedLeading;
           pa_absorbedTrailing := absorbedTrailing;
           pa_leadingFileRange :=
             if (0 <? absorbedLeading)%nat
             then Some (aboveEndIdx - Z.of_nat absorbedLeading + 2, aboveEndIdx + 1)%Z else None;
           pa_trailingFileRange :=
             if (0 <? absorbedTrailing)%nat
             then Some (belowStartIdx + 1, belowStartIdx + Z.of_nat absorbedTrailing)%Z else None |}
  end.

(** ** Absorbing duplicated boundaries *)

(** [cloneCursor] of parser.ts: a fresh cursor object with a fresh anchor. *)
Definition cloneAnchor (a : Anchor) : Anchor :=
  {| line := line a; hash := hash a; contentHint := contentHint a |}.

Definition cloneCursor (cursor : HashlineCursor) : HashlineCursor :=
  match cursor with
  | before_anchor a => before_anchor (cloneAnchor a)
  | after_anchor a => after_anchor (cloneAnchor a)
  | _ => cursor
  end.

(** An entry of the [absorbed] array: the object [edits[i]] of the caller ([Some i]) or an
    object made here ([None]). *)
Record EditRef := { er_origin : option nat; er_edit : HashlineEdit }.

Definition sharedEdits (edits : list HashlineEdit) (first last : nat) : list EditRef :=
  imap (fun i e => {| er_origin := Some (first + i); er_edit := e |})
    (take (last + 1 - first) (drop first edits)).

Record AbsorbState := {
  ab_nextSyntheticIndex : Z;
  ab_absorbed : list EditRef;
  ab_warnings : list jstring;
  ab_emittedAbsorbKeys : gset jstring }.

(** [if (!emittedAbsorbKeys.has(key)) { emittedAbsorbKeys.add(key); warnings.push(message); }] *)
Definition warnOnce (key message : jstring) (st : AbsorbState) : AbsorbState :=
  if decide (key ∈ ab_emittedAbsorbKeys st) then st
  else {| ab_nextSyntheticIndex := ab_nextSyntheticIndex st;
          ab_absorbed := ab_absorbed st;
          ab_warnings := ab_warnings st ++ [message];
          ab_emittedAbsorbKeys := ab_emittedAbsorbKeys st ∪ {[key]} |}.

(** Push fresh edits, numbered by [nextSyntheticIndex++]. *)
Fixpoint pushFresh {A} (mk : A -> Z -> HashlineEdit) (items : list A) (st : AbsorbState) : AbsorbState :=
  match items with
  | [] => st
  | a :: items' =>
      pushFresh mk items'
        {| ab_nextSyntheticIndex := ab_nextSyntheticIndex st + 1;
           ab_absorbed := ab_absorbed st ++
             [{| er_origin := None; er_edit := mk a (ab_nextSyntheticIndex st) |}];
           ab_warnings := ab_warnings st;
           ab_emittedAbsorbKeys := ab_emittedAbsorbKeys st |}
  end.

Definition pushShared (edits : list HashlineEdit) (first last : nat) (st : AbsorbState) : AbsorbState :=
  {| ab_nextSyntheticIndex := ab_nextSyntheticIndex st;
     ab_absorbed := ab_absorbed st ++ sharedEdits edits first last;
     ab_warnings := ab_warnings st;
     ab_emittedAbsorbKeys := ab_emittedAbsorbKeys st |}.

Definition rangeKey (kind : string) (start stop : Z) : jstring :=
  js kind ++ z_str start ++ js ".." ++ z_str stop.

Definition pureInsertWarning (edge matched : string) (count : nat) (sourceLineNum start stop : Z) : jstring :=
  js "Auto-dropped " ++ z_str (Z.of_nat count) ++ js " duplicate line(s) at the " ++ js edge
  ++ js " of insert at line " ++ z_str sourceLineNum ++ js " (file lines " ++ z_str start ++ js ".."
  ++ z_str stop ++ js " already match the payload's " ++ js matched ++ js " lines).".

Definition replacementWarning (side matched : string) (count : nat) (sourceLineNum start stop : Z) : jstring :=
  js "Auto-absorbed " ++ z_str (Z.of_nat count) ++ js " duplicate line(s) " ++ js side
  ++ js " replacement at line " ++ z_str sourceLineNum ++ js " (file lines " ++ z_str start ++ js ".."
  ++ z_str stop ++ js " matched the payload's " ++ js matched
  ++ js " lines; widened the deletion to absorb them).".

Section absorb.
Context `{LineHasher}.

Definition deleteEditForAutoAbsorbedLine (n sourceLineNum index : Z) (fileLines : list jstring)
    : HashlineEdit :=
  Delete {| del_anchor := mkAnchor n (computeLineHash n (default [] (arr_at fileLines (n - 1))));
            del_lineNum := sourceLineNum; del_index := index; del_oldAssertion := None |}.

Context (edits : list HashlineEdit) (fileLines : list jstring) (options : HashlineApplyOptions).

(** The branch of the loop body for a pure insert group. *)
Definition absorbPureInsert (pureInsert : HashlinePureInsertGroup) (st : AbsorbState) : AbsorbState :=
  let res := tryAbsorbPureInsertGroup pureInsert fileLines
               (bool_decide (autoDropPureInsertDuplicates options = Some true)) in
  if (0 <? pa_absorbedLeading res)%nat || (0 <? pa_absorbedTrailing res)%nat then
    let st := match pa_leadingFileRange res with
              | Some (start, stop) =>
                  warnOnce (rangeKey "pure-insert-leading:" start stop)
                    (pureInsertWarning "start" "leading" (pa_absorbedLeading res)
                       (pg_sourceLineNum pureInsert) start stop) st
              | None => st
              end in
    let st := match pa_trailingFileRange res with
              | Some (start, stop) =>
                  warnOnce (rangeKey "pure-insert-trailing:" start stop)
                    (pureInsertWarning "end" "trailing" (pa_absorbedTrailing res)
                       (pg_sourceLineNum pureInsert) start stop) st
              | None => st
              end in
    pushFresh (fun text i => Insert (cloneCursor (pg_cursor pureInsert)) text
                               (pg_sourceLineNum pureInsert) i)
      (pa_keptPayload res) st
  else pushShared edits (pg_startIndex pureInsert) (pg_endIndex pureInsert) st.

(** [a || b] on counts *)
Definition orCount (a b : nat) : nat := if (a =? 0)%nat then b else a.

Definition groupStartLine (group : HashlineReplacementGroup) : Z :=
  match rg_deletes group with d :: _ => line (del_anchor d) | [] => 0 end.

Definition groupEndLine (group : HashlineReplacementGroup) : Z :=
  match last (rg_deletes group) with Some d => line (del_anchor d) | None => 0 end.

Definition groupDeletedBalance (group : HashlineReplacementGroup) : DelimiterBalance :=
  computeDelimiterBalance
    ((fun d => default [] (arr_at fileLines (line (del_anchor d) - 1))) <$> rg_deletes group).

Definition safePrefixCount (allTargetLines : gset Z) (group : HashlineReplacementGroup) : nat :=
  let startLine := groupStartLine group in
  let prefixCount :=
    orCount (countMatchingPrefixBlock fileLines startLine (rg_replacement group))
            (countMatchingSingleStructuralPrefixBoundary fileLines startLine (rg_replacement group)
               (groupDeletedBalance group)) in
  if hasExternalTargets (contiguousRange (startLine - Z.of_nat prefixCount) prefixCount) allTargetLines
  then 0 else prefixCount.

Definition safeSuffixCount (allTargetLines : gset Z) (group : HashlineReplacementGroup) : nat :=
  let endLine := groupEndLine group in
  let suffixCount :=
    orCount (countMatchingSuffixBlock fileLines endLine (rg_replacement group))
            (countMatchingSingleStructuralSuffixBoundary fileLines endLine (rg_replacement group)
               (groupDeletedBalance group)) in
  if hasExternalTargets (contiguousRange (endLine + 1) suffixCount) allTargetLines
  then 0 else suffixCount.

(** The branch of the loop body for a replacement group. *)
Definition absorbReplacement (allTargetLines : gset Z) (group : HashlineReplacementGroup)
    (st : AbsorbState) : AbsorbState :=
  let startLine := groupStartLine group in
  let endLine := groupEndLine group in
  let prefix := safePrefixCount allTargetLines group in
  let suffix := safeSuffixCount allTargetLines group in
  let src := rg_sourceLineNum group in
  let st := if (0 <? prefix)%nat then
              let absorbStart := (startLine - Z.of_nat prefix)%Z in
              warnOnce (rangeKey "prefix:" absorbStart (startLine - 1))
                (replacementWarning "above" "leading" prefix src absorbStart (startLine - 1)) st
            else st in
  let st := if (0 <? suffix)%nat then
              let absorbEnd := (endLine + Z.of_nat suffix)%Z in
              warnOnce (rangeKey "suffix:" (endLine + 1) absorbEnd)
                (replacementWarning "below" "trailing" suffix src (endLine + 1) absorbEnd) st
            else st in
  let absorbLine n i := deleteEditForAutoAbsorbedLine n src i fileLines in
  let st := pushFresh absorbLine (contiguousRange (startLine - Z.of_nat prefix) prefix) st in
  let st := pushShared edits (rg_startIndex group) (rg_endIndex group) st in
  pushFresh absorbLine (contiguousRange (endLine + 1) suffix) st.

(** One turn of the loop: the index the next turn starts from, and the state. *)
Definition absorbStep (allTargetLines : gset Z) (index : nat) (st : AbsorbState) : nat * AbsorbState :=
  match findReplacementGroup edits index with
  | Some group => (S (rg_endIndex group), absorbReplacement allTargetLines group st)
  | None =>
      match findPureInsertGroup edits index with
      | Some pureInsert => (S (pg_endIndex pureInsert), absorbPureInsert pureInsert st)
      | None => (S index, pushShared edits index index st)
      end
  end.

(** Every turn moves the index forward, so one unit of fuel per edit is enough. *)
Fixpoint absorbLoop (fuel : nat) (allTargetLines : gset Z) (index : nat) (st : AbsorbState) : AbsorbState :=
  match fuel with
  | O => st
  | S f => if (index <? length edits)%nat then
             let '(index', st') := absorbStep allTargetLines index st in
             absorbLoop f allTargetLines index' st'
           else st
  end.

Definition absorbReplacementBoundaryDuplicates (warnings : list jstring) : AbsorbState :=
  absorbLoop (length edits) (collectAnchorTargetLines edits) 0
    {| ab_nextSyntheticIndex := zlength edits; ab_absorbed := []; ab_warnings := warnings;
       ab_emittedAbsorbKeys := ∅ |}.
End absorb.

(** ** Applying *)

Definition bucketLine (edit : HashlineEdit) : Z :=
  match edit with
  | Delete d => line (del_anchor d)
  | Insert (before_anchor a) _ _ _ => line a
  | Insert _ _ _ _ => 0
  end.

(** One turn of the loop of [bucketAnchorEditsByLine]. *)
Definition bucketEntry (byLine : gmap Z (list IndexedEdit)) (entry : IndexedEdit)
    : gmap Z (list IndexedEdit) :=
  let n := bucketLine (ie_edit entry) in
  match byLine !! n with
  | Some bucket => <[n := bucket ++ [entry]]> byLine
  | None => <[n := [entry]]> byLine
  end.

Definition bucketAnchorEditsByLine (edits : list IndexedEdit) : gmap Z (list IndexedEdit) :=
  foldl bucketEntry ∅ edits.

Definition trackFirstChanged (first : option Z) (n : Z) : option Z :=
  match first with
  | None => Some n
  | Some f => if (n <? f)%Z then Some n else first
  end.

(** The [bofLines], [eofLines] and [anchorEdits] of a list of normalised edits. *)
Definition bofTexts (edits : list HashlineEdit) : list jstring :=
  omap (fun e => match e with Insert bof text _ _ => Some text | _ => None end) edits.
Definition eofTexts (edits : list HashlineEdit) : list jstring :=
  omap (fun e => match e with Insert eof text _ _ => Some text | _ => None end) edits.
Definition isAnchorEdit (e : HashlineEdit) : bool :=
  match e with Insert bof _ _ _ | Insert eof _ _ _ => false | _ => true end.
Fixpoint anchorEditsFrom (idx : nat) (edits : list HashlineEdit) : list IndexedEdit :=
  match edits with
  | [] => []
  | e :: rest =>
      if isAnchorEdit e then {| ie_edit := e; ie_idx := idx |} :: anchorEditsFrom (S idx) rest
      else anchorEditsFrom (S idx) rest
  end.
Definition anchorEditsOf (edits : list HashlineEdit) : list IndexedEdit := anchorEditsFrom 0 edits.

(** The texts a bucket inserts and whether it deletes its line. *)
Definition bucketBeforeLines (bucket : list IndexedEdit) : list jstring :=
  omap (fun entry => match ie_edit entry with Insert _ text _ _ => Some text | Delete _ => None end) bucket.
Definition bucketDeletes (bucket : list IndexedEdit) : bool :=
  existsb (fun entry => match ie_edit entry with Delete _ => true | Insert _ _ _ _ => false end) bucket.

(** One turn of the bottom-up loop. *)
Definition applyBucket (byLine : gmap Z (list IndexedEdit)) (s : tracked * option Z) (n : Z)
    : tracked * option Z :=
  let '((fileLines, lineOrigins), firstChangedLine) := s in
  match byLine !! n with
  | None => s
  | Some bucket =>
      let bucket := sort_by (fun a b => Z.of_nat (ie_idx a) - Z.of_nat (ie_idx b))%Z bucket in
      let idx := (n - 1)%Z in
      let currentLine := default [] (arr_at fileLines idx) in
      let beforeLines := bucketBeforeLines bucket in
      let deleteLine := bucketDeletes bucket in
      if bool_decide (beforeLines = []) && negb deleteLine then s
      else
        let replacement := if deleteLine then beforeLines else beforeLines ++ [currentLine] in
        let origins :=
          if deleteLine then (fun _ => replacement_) <$> replacement
          else ((fun _ => inserted) <$> beforeLines) ++ [default original (arr_at lineOrigins idx)] in
        ((arr_splice fileLines idx 1 replacement, arr_splice lineOrigins idx 1 origins),
         trackFirstChanged firstChangedLine n)
  end.

Definition sortedKeysDescending (byLine : gmap Z (list IndexedEdit)) : list Z :=
  sort_by (fun a b => b - a)%Z ((map_to_list byLine).*1).

Section apply.
Context `{LineHasher}.

(** The assignment to [edit.cursor] of the normalisation loop. *)
Definition normalizeCursor (fileLines : list jstring) (edit : HashlineEdit) : HashlineEdit :=
  match edit with
  | Insert (after_anchor a) text lineNum index =>
      if (zlength fileLines <=? line a)%Z then Insert eof text lineNum index
      else
        let nextLineNum := (line a + 1)%Z in
        let nextContent := default [] (arr_at fileLines (nextLineNum - 1)) in
        Insert (before_anchor (mkAnchor nextLineNum (computeLineHash nextLineNum nextContent)))
          text lineNum index
  | _ => edit
  end.

(** What the caller's edits look like after the shared objects of [absorbed] were normalised. *)
Definition editsAfter (fileLines : list jstring) (edits : list HashlineEdit) (absorbed : list EditRef)
    : list HashlineEdit :=
  imap (fun i e => if existsb (fun r => bool_decide (er_origin r = Some i)) absorbed
                   then normalizeCursor fileLines e else e) edits.

Definition applyHashlineEdits (text : jstring) (edits : list HashlineEdit) (options : HashlineApplyOptions)
    : result HashlineError (HashlineApplyResult * list HashlineEdit) :=
  match edits with
  | [] => Ok ({| ar_lines := text; ar_firstChangedLine := None; ar_warnings := None;
                 ar_noopEdits := None |}, edits)
  | _ =>
      let fileLines := split_on c_lf text in
      let lineOrigins := (fun _ => original) <$> fileLines in
      mismatches ← validateHashlineAnchors edits fileLines;
      match mismatches with
      | _ :: _ => Throw (HashlineMismatchError mismatches fileLines)
      | [] =>
          let absorbed := absorbReplacementBoundaryDuplicates edits fileLines options [] in
          let normalizedEdits := normalizeCursor fileLines <$> (er_edit <$> ab_absorbed absorbed) in
          let bofLines := bofTexts normalizedEdits in
          let eofLines := eofTexts normalizedEdits in
          let byLine := bucketAnchorEditsByLine (anchorEditsOf normalizedEdits) in
          let '(f, first) :=
            foldl (applyBucket byLine) ((fileLines, lineOrigins), None) (sortedKeysDescending byLine) in
          let '(f, first) := match bofLines with
                             | [] => (f, first)
                             | _ => (insertAtStart f bofLines, trackFirstChanged first 1)
                             end in
          let '(f, eofChangedLine) := insertAtEnd f eofLines in
          let first := match eofChangedLine with Some n => trackFirstChanged first n | None => first end in
          Ok ({| ar_lines := join [c_lf] (fst f);
                 ar_firstChangedLine := first;
                 ar_warnings := match ab_warnings absorbed with [] => None | w => Some w end;
                 ar_noopEdits := None |},
              editsAfter fileLines edits (ab_absorbed absorbed))
      end
  end.
End apply.
