(* ===== verification/HashlineApplySpec.v ===== *)
(** * Hashline: what applying a batch means

    A declarative reading of a batch of edits (for every line of the file: the texts inserted
    before it, then the line itself unless it is deleted; then the texts at the two ends of the
    file) and the proof that the splice loop of [applyHashlineEdits] computes it. *)
From S2P Require Import Prelude JsString JsRegex HashlineHash HashlineApply.

(** ** The specification *)

(** The texts a batch inserts before line [n], in order. *)
Definition insertsAt (edits : list HashlineEdit) (n : Z) : list jstring :=
  omap (fun e => match e with
                 | Insert (before_anchor a) text _ _ => if (line a =? n)%Z then Some text else None
                 | _ => None
                 end) edits.

Definition deletedAt (edits : list HashlineEdit) (n : Z) : bool :=
  existsb (fun e => match e with Delete d => (line (del_anchor d) =? n)%Z | _ => false end) edits.

Definition renderLine (edits : list HashlineEdit) (n : Z) (l : jstring) : list jstring :=
  insertsAt edits n ++ (if deletedAt edits n then [] else [l]).

Fixpoint renderFrom (edits : list HashlineEdit) (n : Z) (lines : list jstring) : list jstring :=
  match lines with
  | [] => []
  | l :: rest => renderLine edits n l ++ renderFrom edits (n + 1) rest
  end.

(** Text at the start of the file; the one empty line of an empty file is replaced. *)
Definition withBof (texts lines : list jstring) : list jstring :=
  match texts with
  | [] => lines
  | _ => if decide (lines = [[]]) then texts else texts ++ lines
  end.

(** Text at the end of the file, before the final newline when there is one. *)
Definition withEof (texts lines : list jstring) : list jstring :=
  match texts with
  | [] => lines
  | _ => if decide (lines = [[]]) then texts
         else match last lines with
              | Some [] => take (length lines - 1) lines ++ texts ++ [[]]
              | _ => lines ++ texts
              end
  end.

Definition renderBatch (edits : list HashlineEdit) (lines : list jstring) : list jstring :=
  withEof (eofTexts edits) (withBof (bofTexts edits) (renderFrom edits 1 lines)).

(** Every anchor of an edit names a line of a file of [n] lines. *)
Definition inRange (n : Z) (e : HashlineEdit) : Prop :=
  Forall (fun a => 1 <= line a <= n)%Z (getHashlineEditAnchors e).

(** An anchor names an existing line whose hash it carries; range interiors carry no hash. *)
Definition anchorHolds `{LineHasher} (fileLines : list jstring) (a : Anchor) : Prop :=
  (1 <= line a <= zlength fileLines)%Z /\
  (hash a = RANGE_INTERIOR_HASH \/
   exists l, arr_at fileLines (line a - 1) = Some l /\ computeLineHash (line a) l = hash a).

(** ** Validation *)

Section validation.
Context `{LineHasher}.

Lemma foldM_bind {E A B C} (f : C -> B -> result E C) (g : A -> list B) (l : list A) c :
  foldM (fun c a => foldM f c (g a)) c l = foldM f c (l ≫= g).
Proof.
  revert c. induction l as [|a l IH]; intros c; [done|]. rewrite bind_cons. simpl.
  transitivity (foldM f c (g a) ≫= fun c' => foldM f c' (l ≫= g)).
  { destruct (foldM f c (g a)); simpl; [apply IH|done]. }
  clear. revert c. induction (g a) as [|b bs IHb]; intros c; simpl; [done|].
  destruct (f c b); simpl; [apply IHb|done].
Qed.

Lemma validateAnchor_ok fl ms a ms' :
  validateAnchor fl ms a = Ok ms' ->
  (1 <= line a <= zlength fl)%Z /\
  ((ms' = ms /\ anchorHolds fl a) \/ (exists m, ms' = ms ++ [m] /\ ~ anchorHolds fl a)).
Proof.
  unfold validateAnchor. case_match eqn:Hr; [done|]. zify_bool. intros Hm.
  assert (1 <= line a <= zlength fl)%Z as Hin by lia. split; [done|].
  assert (is_Some (arr_at fl (line a - 1))) as [l Hl] by (apply arr_at_is_Some; lia).
  rewrite Hl in Hm. simpl in Hm.
  case_decide as Hh; simplify_eq; [left; split; [done|split; [done|by left]]|].
  case_decide as Hc; simplify_eq.
  - left. split; [done|]. split; [done|]. right. eauto.
  - right. eexists. split; [done|]. intros [_ [?|(l' & Hl' & ?)]]; [done|]. congruence.
Qed.

Lemma validateAnchor_holds fl ms a : anchorHolds fl a -> validateAnchor fl ms a = Ok ms.
Proof.
  intros [Hr Hh]. unfold validateAnchor. case_match eqn:Hb.
  { apply orb_true_iff in Hb as [?|?]; zify_bool; lia. }
  case_decide; [done|]. destruct Hh as [?|(l & -> & Hc)]; [done|]. simpl. by rewrite decide_True.
Qed.

Lemma foldM_validate fl ms l :
  foldM (validateAnchor fl) ms l = Ok [] <-> ms = [] /\ Forall (anchorHolds fl) l.
Proof.
  revert ms. induction l as [|a l IH]; intros ms; simpl.
  - split; [intros; simplify_eq; auto | by intros [-> _]].
  - rewrite bind_Ok. setoid_rewrite IH. rewrite Forall_cons. split.
    + intros (ms' & Hv & -> & Hl). apply validateAnchor_ok in Hv as [_ [[<- ?]|(m & Hm & _)]]; [done|].
      by destruct ms.
    + intros (-> & Ha & Hl). exists []. split; [by apply validateAnchor_holds|done].
Qed.

(** Validation reports nothing exactly when every anchor of the batch holds. *)
Lemma validate_ok_iff edits fl :
  validateHashlineAnchors edits fl = Ok [] <->
  Forall (anchorHolds fl) (edits ≫= getHashlineEditAnchors).
Proof.
  unfold validateHashlineAnchors. rewrite foldM_bind, foldM_validate. naive_solver.
Qed.

Lemma anchorsHold_inRange edits fl :
  Forall (anchorHolds fl) (edits ≫= getHashlineEditAnchors) -> Forall (inRange (zlength fl)) edits.
Proof.
  rewrite !Forall_forall. intros Ha e He. unfold inRange. apply Forall_forall. intros a Hin.
  apply (Ha a). apply list_elem_of_bind. eauto.
Qed.
End validation.

(** ** Buckets *)

Lemma bucket_lookup_app es byLine n :
  foldl bucketEntry byLine es !! n =
  match filter (fun e => bucketLine (ie_edit e) = n) es with
  | [] => byLine !! n
  | l => Some (default [] (byLine !! n) ++ l)
  end.
Proof.
  revert byLine. induction es as [|e es IH]; intros byLine; [done|].
  simpl foldl. rewrite IH. clear IH. rewrite filter_cons. unfold bucketEntry.
  destruct (decide (bucketLine (ie_edit e) = n)) as [<-|Hne].
  - destruct (byLine !! bucketLine (ie_edit e)) as [b|] eqn:Hb;
      rewrite lookup_insert_eq; simpl; destruct (filter _ es); simpl; rewrite <- ?app_assoc; done.
  - destruct (byLine !! bucketLine (ie_edit e)); by rewrite lookup_insert_ne.
Qed.

Lemma bucket_lookup es n :
  bucketAnchorEditsByLine es !! n =
  match filter (fun e => bucketLine (ie_edit e) = n) es with [] => None | l => Some l end.
Proof. unfold bucketAnchorEditsByLine. rewrite bucket_lookup_app, lookup_empty. done. Qed.

(** The entries keep the order of the edits. *)
Lemma anchorEdits_idx k edits : Forall (fun a => k <= ie_idx a) (anchorEditsFrom k edits).
Proof.
  revert k. induction edits as [|e edits IH]; intros k; simpl; [constructor|].
  assert (Forall (fun a => k <= ie_idx a) (anchorEditsFrom (S k) edits)) as Hr.
  { eapply Forall_impl; [apply IH|]. simpl. lia. }
  case_match; [|done]. constructor; [done|exact Hr].
Qed.

Lemma anchorEdits_sorted k edits :
  StronglySorted (fun a b => Z.of_nat (ie_idx a) - Z.of_nat (ie_idx b) <= 0)%Z (anchorEditsFrom k edits).
Proof.
  revert k. induction edits as [|e edits IH]; intros k; simpl; [constructor|].
  case_match; [|done]. constructor; [done|].
  eapply Forall_impl; [apply anchorEdits_idx|]. simpl. lia.
Qed.

Definition bucketOf (edits : list HashlineEdit) (n : Z) : list IndexedEdit :=
  filter (fun e => bucketLine (ie_edit e) = n) (anchorEditsOf edits).

Lemma bucketOf_sorted edits n :
  sort_by (fun a b => Z.of_nat (ie_idx a) - Z.of_nat (ie_idx b))%Z (bucketOf edits n) = bucketOf edits n.
Proof. apply sort_by_id, StronglySorted_filter, anchorEdits_sorted. Qed.

(** No [after_anchor] cursor is left: what the normalisation loop establishes. *)
Definition normalized (e : HashlineEdit) : Prop :=
  match e with Insert (after_anchor _) _ _ _ => False | _ => True end.

Lemma bucketFrom_contents k edits n :
  Forall normalized edits ->
  let b := filter (fun e => bucketLine (ie_edit e) = n) (anchorEditsFrom k edits) in
  bucketBeforeLines b = insertsAt edits n /\ bucketDeletes b = deletedAt edits n.
Proof.
  intros Hn. revert k. induction Hn as [|e edits He Hes IH]; intros k; [done|].
  specialize (IH (S k)) as [IH1 IH2]. cbv zeta in *.
  destruct e as [[| |a|a] text ln idx|d]; [done|done| |done|];
    cbn [anchorEditsFrom isAnchorEdit]; rewrite filter_cons; cbn [bucketLine ie_edit];
    case_decide as Hd; unfold insertsAt, deletedAt; simpl;
    first [rewrite (proj2 (Z.eqb_eq _ _) Hd)|rewrite (proj2 (Z.eqb_neq _ _) Hd)]; simpl;
    split; try done; by f_equal.
Qed.

Lemma bucketOf_contents edits n :
  Forall normalized edits ->
  bucketBeforeLines (bucketOf edits n) = insertsAt edits n /\
  bucketDeletes (bucketOf edits n) = deletedAt edits n.
Proof. apply bucketFrom_contents. Qed.

(** ** The bottom-up loop *)

Lemma renderFrom_app edits n a b :
  renderFrom edits n (a ++ b) = renderFrom edits n a ++ renderFrom edits (n + zlength a) b.
Proof.
  revert n. induction a as [|x a IH]; intros n; simpl.
  - by rewrite Z.add_0_r.
  - rewrite IH, <- app_assoc. do 3 f_equal. unfold zlength. simpl. lia.
Qed.

(** A line no edit of the batch names is left alone. *)
Lemma renderLine_untouched edits n l :
  Forall normalized edits -> bucketOf edits n = [] -> renderLine edits n l = [l].
Proof.
  intros Hn Hb. destruct (bucketOf_contents edits n Hn) as [Hi Hd].
  unfold renderLine. by rewrite <- Hi, <- Hd, Hb.
Qed.

Lemma renderFrom_untouched edits n lines :
  Forall normalized edits ->
  (forall k, (n <= k < n + zlength lines)%Z -> bucketOf edits k = []) ->
  renderFrom edits n lines = lines.
Proof.
  intros Hn. revert n. induction lines as [|l lines IH]; intros n Hb; simpl; [done|].
  assert (zlength (l :: lines) = zlength lines + 1)%Z as Hl by (unfold zlength; simpl; lia).
  rewrite renderLine_untouched by (done || (apply Hb; unfold zlength in *; lia)).
  simpl. f_equal. apply IH. intros k Hk. apply Hb. lia.
Qed.

Lemma bucketOf_nonempty edits n b :
  Forall normalized edits -> bucketOf edits n = b -> b ≠ [] ->
  bucketBeforeLines b = [] -> bucketDeletes b = true.
Proof.
  intros _ <-. unfold bucketOf. induction (anchorEditsOf edits) as [|e es IH]; [done|].
  rewrite filter_cons. case_decide; [|done]. unfold bucketBeforeLines, bucketDeletes. simpl.
  by destruct (ie_edit e).
Qed.

Section loop.
Context (edits : list HashlineEdit) (Hnorm : Forall normalized edits).

Let byLine := bucketAnchorEditsByLine (anchorEditsOf edits).

Lemma byLine_lookup n :
  byLine !! n = match bucketOf edits n with [] => None | b => Some b end.
Proof. apply bucket_lookup. Qed.

Lemma applyBucket_lines p x q o first n :
  is_Some (byLine !! n) -> zlength p = (n - 1)%Z ->
  fst (fst (applyBucket byLine ((p ++ x :: q, o), first) n)) = p ++ renderLine edits n x ++ q.
Proof.
  intros [b Hb] Hp. rewrite byLine_lookup in Hb.
  unfold applyBucket. rewrite byLine_lookup.
  destruct (bucketOf edits n) as [|e b'] eqn:Hbk; [done|]. simplify_eq. rewrite <- Hbk.
  rewrite bucketOf_sorted. destruct (bucketOf_contents edits n Hnorm) as [Hi Hd].
  pose proof (bucketOf_nonempty edits n _ Hnorm eq_refl ltac:(by rewrite Hbk)) as Hne.
  replace (arr_at (p ++ x :: q) (n - 1)) with (Some x).
  2:{ symmetry. apply arr_at_Some. rewrite <- Hp. unfold zlength. split; [lia|].
      rewrite Nat2Z.id. by rewrite list_lookup_middle. }
  simpl default. rewrite Hi, Hd in Hne. rewrite Hi, Hd.
  case_match eqn:Hc.
  { apply andb_true_iff in Hc as [Hc1%bool_decide_eq_true Hc2%negb_true_iff].
    rewrite (Hne Hc1) in Hc2. done. }
  simpl. rewrite <- Hp, arr_splice_split. unfold renderLine.
  destruct (deletedAt edits n); simpl; by rewrite <- ?app_assoc, ?app_nil_r.
Qed.

Lemma split_at_line {A} (l : list A) k :
  (1 <= k <= zlength l)%Z -> exists p x r, l = p ++ x :: r /\ zlength p = (k - 1)%Z.
Proof.
  intros Hk. assert (is_Some (arr_at l (k - 1))) as [x Hx] by (apply arr_at_is_Some; lia).
  apply arr_at_split in Hx. eexists _, x, _. split; [exact Hx|].
  unfold zlength in *. rewrite length_take. lia.
Qed.

(** The loop over the keys, highest line first, renders every line. *)
Lemma bucket_loop_lines ks pre suf o first :
  StronglySorted (fun a b => b < a)%Z ks ->
  (forall k, k ∈ ks -> 1 <= k <= zlength pre)%Z ->
  (forall k, (1 <= k <= zlength pre)%Z -> is_Some (byLine !! k) -> k ∈ ks) ->
  (forall k, k ∈ ks -> is_Some (byLine !! k)) ->
  fst (fst (foldl (applyBucket byLine) ((pre ++ suf, o), first) ks)) = renderFrom edits 1 pre ++ suf.
Proof.
  intros Hs. revert pre suf o first. induction Hs as [|k ks Hs IH Hk]; intros pre suf o first Hr Hall Hsome.
  - simpl. f_equal. symmetry. apply renderFrom_untouched; [done|]. intros k Hk.
    destruct (bucketOf edits k) as [|e b] eqn:Hb; [done|]. exfalso.
    apply (not_elem_of_nil k). apply Hall; [lia|]. by rewrite byLine_lookup, Hb.
  - destruct (Hr k ltac:(left)) as [Hk1 Hk2].
    destruct (split_at_line pre k ltac:(lia)) as (p & x & r & -> & Hp).
    assert (zlength (p ++ x :: r) = k + zlength r)%Z as Hpr.
    { rewrite zlength_app, Hp. unfold zlength. simpl. lia. }
    cbn [foldl]. rewrite <- app_assoc. cbn [app].
    destruct (applyBucket byLine (p ++ x :: (r ++ suf), o, first) k) as [[f' o'] first'] eqn:Hab.
    pose proof (applyBucket_lines p x (r ++ suf) o first k (Hsome k ltac:(left)) Hp) as Hl.
    rewrite Hab in Hl. simpl in Hl. rewrite Hl. rewrite Forall_forall in Hk.
    rewrite IH.
    + rewrite renderFrom_app, Hp. replace (1 + (k - 1))%Z with k by lia. simpl.
      rewrite (renderFrom_untouched edits (k + 1) r); [by rewrite <- !app_assoc|done|].
      intros k' Hk'. destruct (bucketOf edits k') as [|e b] eqn:Hb; [done|]. exfalso.
      assert (k' ∈ k :: ks) as [->|Hin]%elem_of_cons.
      { apply Hall; [lia|]. by rewrite byLine_lookup, Hb. }
      * lia.
      * specialize (Hk k' Hin). lia.
    + intros k' Hin. specialize (Hk k' Hin). specialize (Hr k' ltac:(by right)). lia.
    + intros k' Hk' Hs'. assert (k' ∈ k :: ks) as [->|Hin]%elem_of_cons; [apply Hall; [lia|done]|lia|done].
    + intros k' Hin. apply Hsome. by right.
Qed.

Lemma sortedKeysDescending_spec :
  StronglySorted (fun a b => b < a)%Z (sortedKeysDescending byLine) /\
  (forall k, k ∈ sortedKeysDescending byLine <-> is_Some (byLine !! k)).
Proof.
  unfold sortedKeysDescending.
  assert (forall k, k ∈ sort_by (fun a b => b - a)%Z ((map_to_list byLine).*1) <-> is_Some (byLine !! k)) as Hel.
  { intros k. rewrite sort_by_perm, list_elem_of_fmap. split.
    - intros ([k' b] & -> & Hin%elem_of_map_to_list). simpl. eauto.
    - intros [b Hb]. exists (k, b). by rewrite elem_of_map_to_list. }
  split; [|done].
  assert (NoDup (sort_by (fun a b => b - a)%Z ((map_to_list byLine).*1))) as Hnd.
  { rewrite sort_by_perm. apply NoDup_fst_map_to_list. }
  pose proof (sort_by_sorted (fun a b => b - a)%Z ((map_to_list byLine).*1) ltac:(lia) ltac:(lia)) as Hs.
  clear Hel. revert Hnd. induction Hs as [|k l Hs IH Hk]; [constructor|].
  intros [Hni Hnd]%NoDup_cons. constructor; [by apply IH|].
  rewrite Forall_forall in *. intros y Hy. specialize (Hk y Hy). assert (k ≠ y) by (by intros ->). lia.
Qed.

Lemma bucket_loop_render lines o :
  Forall (inRange (zlength lines)) edits ->
  fst (fst (foldl (applyBucket byLine) ((lines, o), None) (sortedKeysDescending byLine)))
  = renderFrom edits 1 lines.
Proof.
  intros Hr. destruct sortedKeysDescending_spec as [Hs Hel].
  rewrite <- (List.app_nil_r lines) at 1. rewrite bucket_loop_lines; [by rewrite app_nil_r|done| | |].
  - intros k [b Hb]%Hel. rewrite byLine_lookup in Hb. unfold bucketOf in Hb.
    assert (exists e, e ∈ edits /\ isAnchorEdit e = true /\ bucketLine e = k) as (e & He & Ha & <-).
    { clear -Hb. unfold anchorEditsOf in Hb. revert Hb. generalize 0.
      induction edits as [|e es IH]; intros i Hb; [done|]. simpl in Hb.
      destruct (isAnchorEdit e) eqn:Ha.
      - rewrite filter_cons in Hb. case_decide.
        + exists e. repeat split; [left|done|done].
        + destruct (IH _ Hb) as (e' & ? & ?). exists e'. split; [by right|done].
      - destruct (IH _ Hb) as (e' & ? & ?). exists e'. split; [by right|done]. }
    rewrite Forall_forall in Hr. specialize (Hr e He). rewrite Forall_forall in Hnorm.
    specialize (Hnorm e He). unfold inRange in Hr.
    destruct e as [[| |a|a] ? ? ?|d]; try done; simpl in *; by apply Forall_cons in Hr as [? _].
  - intros k _ Hk. by apply Hel.
  - intros k Hk. by apply Hel.
Qed.
End loop.

(** ** The ends of the file *)

Lemma insertAtStart_lines f texts : fst (insertAtStart f texts) = withBof texts (fst f).
Proof.
  destruct f as [lines o]. unfold insertAtStart, withBof. destruct texts as [|t ts]; [done|].
  simpl fst. case_decide as Hd; simpl fst.
  - subst lines. unfold arr_splice. simpl. by rewrite app_nil_r.
  - unfold arr_splice, zlength. simpl. rewrite Z.min_l by lia. by rewrite drop_0.
Qed.

Lemma arr_splice_end {A} (l items : list A) : arr_splice l (zlength l) 0 items = l ++ items.
Proof.
  unfold arr_splice, zlength. destruct (Z.ltb_spec (Z.of_nat (length l)) 0); [lia|].
  rewrite Z.min_id, Nat2Z.id, Nat.add_0_r, take_ge, drop_ge by done. by rewrite app_nil_r.
Qed.

Lemma insertAtEnd_lines f texts : fst (fst (insertAtEnd f texts)) = withEof texts (fst f).
Proof.
  destruct f as [lines o]. unfold insertAtEnd, withEof. destruct texts as [|t ts]; [done|].
  cbn [fst]. case_decide as Hd; cbn [fst].
  - subst lines. unfold arr_splice. simpl. by rewrite app_nil_r.
  - destruct lines as [|l lines _] using rev_ind; [unfold arr_splice; simpl; by rewrite app_nil_r|].
    assert (arr_at (lines ++ [l]) (zlength (lines ++ [l]) - 1) = Some l) as ->.
    { apply arr_at_Some. rewrite zlength_app. unfold zlength. simpl. split; [lia|].
      replace (Z.to_nat _) with (length lines) by lia. by rewrite list_lookup_middle. }
    rewrite last_snoc.
    assert ((0 <? zlength (lines ++ [l]))%Z = true) as ->.
    { apply Z.ltb_lt. rewrite zlength_app. unfold zlength. simpl. lia. }
    destruct l as [|c l].
    + rewrite bool_decide_eq_true_2 by done. simpl andb. cbv iota.
      unfold arr_splice. rewrite zlength_app. unfold zlength. rewrite length_app. simpl length.
      destruct (Z.ltb_spec (Z.of_nat (length lines) + Z.of_nat 1 - 1) 0); [lia|].
      rewrite Z.min_l by lia. replace (Z.to_nat _) with (length lines) by lia.
      replace (length lines + 1 - 1) with (length lines) by lia.
      rewrite take_app_length. by rewrite Nat.add_0_r, drop_app_length.
    + rewrite bool_decide_eq_false_2 by naive_solver. simpl andb. cbv iota.
      by rewrite arr_splice_end.
Qed.
