(* ===== verification/HashlineAbsorb.v ===== *)
(** * Hashline: the absorption of duplicated boundary lines is safe

    Facts about the groups [absorbReplacementBoundaryDuplicates] finds and about the edits it
    adds: they stay inside the file, never name a line another operation names, and delete
    only lines that the batch inserts again verbatim.  With them, the refinement theorem of
    [applyHashlineEdits]. *)
From S2P Require Import Prelude JsString JsRegex HashlineHash HashlineApply HashlineApplySpec.

(** ** Runs and groups *)

Lemma replacementRun_spec src l texts rest :
  replacementRun src l = (texts, rest) ->
  exists ins, l = ins ++ rest /\
    Forall2 (fun e t => exists a i, e = Insert (before_anchor a) t src i) ins texts.
Proof.
  revert texts rest. induction l as [|e l IH]; intros texts rest Hr; simpl in Hr.
  { simplify_eq. exists []. by split. }
  destruct e as [[| |a|a] t n i|d]; simplify_eq; try (by exists []).
  destruct (Z.eqb_spec n src) as [->|]; [|simplify_eq; by exists []].
  destruct (replacementRun src l) as [texts' rest'] eqn:Hrun. simplify_eq.
  destruct (IH _ _ eq_refl) as (ins & -> & Hf). eexists (_ :: ins). split; [done|].
  constructor; [eauto|done].
Qed.

Lemma deleteRun_spec src l : exists rest, l = (Delete <$> deleteRun src l) ++ rest.
Proof.
  induction l as [|e l IH]; simpl; [by exists []|]. destruct e as [|d]; [by eexists|].
  case_match; [|by eexists]. destruct IH as [rest IH]. exists rest. simpl. by f_equal.
Qed.

Lemma pureInsertRun_spec src cur l texts rest :
  pureInsertRun src cur l = (texts, rest) ->
  exists ins, l = ins ++ rest /\
    Forall2 (fun e t => exists c i, e = Insert c t src i /\ cursorMatches c cur = true) ins texts.
Proof.
  revert texts rest. induction l as [|e l IH]; intros texts rest Hr; simpl in Hr.
  { simplify_eq. exists []. by split. }
  destruct e as [c t n i|d]; [|simplify_eq; by exists []].
  destruct ((n =? src)%Z && cursorMatches c cur) eqn:Hc; [|simplify_eq; by exists []].
  apply andb_true_iff in Hc as [->%Z.eqb_eq Hc].
  destruct (pureInsertRun src cur l) as [texts' rest'] eqn:Hrun. simplify_eq.
  destruct (IH _ _ eq_refl) as (ins & -> & Hf). eexists (_ :: ins). split; [done|].
  constructor; [eauto|done].
Qed.

Lemma zip_zseq_lookup {A} (f : Z -> A -> bool) s (l : list A) :
  forallb (fun p => f (fst p) (snd p)) (zip (zseq s (length l)) l) = true ->
  forall (i : nat) x, l !! i = Some x -> f (s + Z.of_nat i)%Z x = true.
Proof.
  revert s. induction l as [|y l IH]; intros s Hf i x Hx; [done|].
  simpl length in Hf. rewrite zseq_S in Hf. simpl in Hf. apply andb_true_iff in Hf as [Hy Hf].
  destruct i as [|i]; simpl in Hx.
  - simplify_eq. by rewrite Z.add_0_r.
  - replace (s + Z.of_nat (S i))%Z with (s + 1 + Z.of_nat i)%Z by lia. by apply IH.
Qed.

(** A replacement group is a run of insertions followed by the deletion of consecutive lines. *)
Lemma findReplacementGroup_spec edits i g :
  findReplacementGroup edits i = Some g ->
  rg_startIndex g = i /\ rg_deletes g ≠ [] /\ i <= rg_endIndex g < length edits /\
  (exists ins, take (rg_endIndex g + 1 - i) (drop i edits) = ins ++ (Delete <$> rg_deletes g) /\
     Forall2 (fun e t => exists a k, e = Insert (before_anchor a) t (rg_sourceLineNum g) k)
       ins (rg_replacement g)) /\
  (forall (k : nat) d, rg_deletes g !! k = Some d ->
     line (del_anchor d) = (groupStartLine g + Z.of_nat k)%Z).
Proof.
  unfold findReplacementGroup. destruct (edits !! i) as [[[| |a|a] t src n|]|] eqn:Hi; try done.
  destruct (replacementRun src (drop i edits)) as [texts rest] eqn:Hrun.
  destruct (deleteRun src rest) as [|d0 ds] eqn:Hd; [done|].
  destruct (forallb _ _) eqn:Hall; [|done]. destruct (line a =? _)%Z; [|done].
  intros Hg. simpl in Hg. injection Hg as <-. cbn [rg_startIndex rg_endIndex rg_deletes rg_sourceLineNum rg_replacement].
  destruct (replacementRun_spec _ _ _ _ Hrun) as (ins & Hdrop & Hins).
  destruct (deleteRun_spec src rest) as (rest' & Hrest). rewrite Hd in Hrest.
  pose proof (Forall2_length _ _ _ Hins) as Hlen.
  assert (length (drop i edits) = length ins + S (length ds) + length rest') as Hl.
  { rewrite Hdrop, Hrest, !length_app, length_fmap. simpl. lia. }
  rewrite length_drop in Hl. split_and!; [done|done|simpl; lia|simpl; lia| |].
  - exists ins. split; [|done]. rewrite Hdrop, Hrest, app_assoc.
    rewrite take_app_length'; [done|]. rewrite length_app, length_fmap. simpl. lia.
  - intros k d Hk. apply (zip_zseq_lookup (fun o d => line (del_anchor d) =? line (del_anchor d0) + o)%Z) 
      with (i := k) (x := d) in Hall; [|done]. apply Z.eqb_eq in Hall. unfold groupStartLine. simpl. lia.
Qed.

(** A pure insert group is a run of insertions at one cursor. *)
Lemma findPureInsertGroup_spec edits i g :
  findPureInsertGroup edits i = Some g ->
  pg_startIndex g = i /\ i <= pg_endIndex g < length edits /\
  (exists t k, edits !! i = Some (Insert (pg_cursor g) t (pg_sourceLineNum g) k)) /\
  Forall2 (fun e t => exists c k, e = Insert c t (pg_sourceLineNum g) k /\ cursorMatches c (pg_cursor g) = true)
    (take (pg_endIndex g + 1 - i) (drop i edits)) (pg_payload g).
Proof.
  unfold findPureInsertGroup. destruct (edits !! i) as [[cur t src n|]|] eqn:Hi; try done.
  destruct (pureInsertRun src cur (drop i edits)) as [texts rest] eqn:Hrun.
  intros Hg.
  assert (g = {| pg_startIndex := i; pg_endIndex := i + length texts - 1; pg_sourceLineNum := src;
                 pg_cursor := cur; pg_payload := texts |}) as ->.
  { destruct rest as [|[|d] ?]; simplify_eq; try done. destruct (del_lineNum d =? src)%Z; naive_solver. }
  clear Hg. simpl.
  destruct (pureInsertRun_spec _ _ _ _ _ Hrun) as (ins & Hdrop & Hins).
  pose proof (Forall2_length _ _ _ Hins) as Hlen.
  assert (texts ≠ []) as Hne.
  { rewrite (drop_S _ _ _ Hi) in Hrun. simpl in Hrun. rewrite Z.eqb_refl in Hrun.
    assert (cursorMatches cur cur = true) as Hc.
    { destruct cur; simpl; try done; rewrite Z.eqb_refl; by rewrite bool_decide_eq_true_2. }
    rewrite Hc in Hrun. simpl in Hrun. destruct (pureInsertRun _ _ _) in Hrun. by simplify_eq. }
  assert (length texts ≠ 0) by (by destruct texts).
  apply (f_equal length) in Hdrop as Hl. rewrite length_app, length_drop in Hl.
  split_and!; [done|lia|lia|eauto|]. rewrite Hdrop, take_app_length' by lia. done.
Qed.

(** ** What the state operations append *)

Lemma pushFresh_absorbed {A} (mk : A -> Z -> HashlineEdit) items st :
  ab_absorbed (pushFresh mk items st) =
  ab_absorbed st ++ imap (fun i a => {| er_origin := None;
                                        er_edit := mk a (ab_nextSyntheticIndex st + Z.of_nat i)%Z |}) items.
Proof.
  revert st. induction items as [|a items IH]; intros st; simpl; [by rewrite app_nil_r|].
  rewrite IH. simpl. rewrite <- app_assoc, Z.add_0_r. simpl. do 2 f_equal.
  apply imap_ext. intros i x _. simpl. do 2 f_equal. lia.
Qed.

Lemma warnOnce_absorbed key m st : ab_absorbed (warnOnce key m st) = ab_absorbed st.
Proof. unfold warnOnce. by case_decide. Qed.

Lemma pushShared_absorbed edits i j st :
  ab_absorbed (pushShared edits i j st) = ab_absorbed st ++ sharedEdits edits i j.
Proof. done. Qed.

#[export] Hint Rewrite @pushFresh_absorbed warnOnce_absorbed pushShared_absorbed : gajae.

Lemma sharedEdits_edits edits i j :
  er_edit <$> sharedEdits edits i j = take (j + 1 - i) (drop i edits).
Proof.
  unfold sharedEdits. generalize (take (j + 1 - i) (drop i edits)). intros l. apply list_eq. intros k.
  rewrite list_lookup_fmap, list_lookup_imap. by destruct (l !! k).
Qed.

Lemma sharedEdits_elem edits i j r :
  r ∈ sharedEdits edits i j -> exists k, er_origin r = Some k /\ edits !! k = Some (er_edit r).
Proof.
  unfold sharedEdits. intros [k Hk]%list_elem_of_lookup. rewrite list_lookup_imap in Hk.
  apply fmap_Some in Hk as (e & He & ->). exists (i + k). split; [done|]. simpl.
  apply lookup_take_Some in He as [He _]. by rewrite lookup_drop in He.
Qed.

(** ** Counting *)

Lemma firstFrom_spec ok max :
  firstFrom ok max <= max /\ (firstFrom ok max = 0 \/ (2 <= firstFrom ok max /\ ok (firstFrom ok max) = true)).
Proof.
  induction max as [|m IH]; [by split; [|left]|]. cbn [firstFrom].
  destruct (Nat.ltb_spec (S m) 2); [split; [lia|by left]|].
  destruct (ok (S m)) eqn:Hok; [split; [done|by right]|].
  destruct IH as [? ?]. split; [lia|done].
Qed.

Lemma blocksMatch_lookup a i b j count k :
  blocksMatch a i b j count = true -> (0 <= k < Z.of_nat count)%Z ->
  arr_at a (i + k) = arr_at b (j + k).
Proof.
  unfold blocksMatch. intros Hm Hk. rewrite forallb_forall in Hm.
  specialize (Hm k). rewrite <- list_elem_of_In, elem_of_zseq in Hm.
  eapply bool_decide_eq_true_1, Hm. lia.
Qed.

Lemma countMatchingPrefixBlock_spec fl s r c :
  countMatchingPrefixBlock fl s r = c ->
  c <= Z.to_nat (Z.min (zlength r) (s - 1)) /\
  (c = 0 \/ (2 <= c /\ blocksMatch fl (s - Z.of_nat c - 1) r 0 c = true)).
Proof. intros <-. apply firstFrom_spec. Qed.

Lemma countMatchingSuffixBlock_spec fl e r c :
  countMatchingSuffixBlock fl e r = c ->
  c <= Z.to_nat (Z.min (zlength r) (zlength fl - e)) /\
  (c = 0 \/ (2 <= c /\ blocksMatch fl e r (zlength r - Z.of_nat c) c = true)).
Proof. intros <-. apply firstFrom_spec. Qed.

Lemma last_arr_at {A} (l : list A) x : last l = Some x -> arr_at l (zlength l - 1) = Some x.
Proof.
  destruct l as [|y l _] using rev_ind; [done|]. rewrite last_snoc. intros [= ->].
  apply arr_at_Some. rewrite zlength_app. unfold zlength. simpl. split; [lia|].
  replace (Z.to_nat _) with (length l) by lia. by rewrite list_lookup_middle.
Qed.

Section counts.
Context (fl : list jstring) (targets : gset Z) (g : HashlineReplacementGroup).

Lemma hasExternalTargets_false ls n : hasExternalTargets ls targets = false -> n ∈ ls -> n ∉ targets.
Proof.
  unfold hasExternalTargets. intros He Hn Hin. apply not_true_iff_false in He. apply He.
  apply existsb_exists. exists n. rewrite <- list_elem_of_In. by rewrite bool_decide_eq_true.
Qed.

(** Every line absorbed above a replacement exists, is nobody else's target and holds a text of
    the replacement. *)
Lemma safePrefix_lines n :
  (groupStartLine g <= zlength fl + 1)%Z ->
  n ∈ contiguousRange (groupStartLine g - Z.of_nat (safePrefixCount fl targets g)) (safePrefixCount fl targets g) ->
  (1 <= n < groupStartLine g)%Z /\ (n ∉ targets) /\
  exists t, arr_at fl (n - 1) = Some t /\ t ∈ rg_replacement g.
Proof.
  intros Hs. unfold safePrefixCount.
  set (block := countMatchingPrefixBlock _ _ _). set (single := countMatchingSingleStructuralPrefixBoundary _ _ _ _).
  case_match eqn:Hext; [unfold contiguousRange; by intros ?%elem_of_nil|].
  intros Hn. pose proof (hasExternalTargets_false _ _ Hext Hn) as Hnt.
  unfold contiguousRange in Hn. apply elem_of_zseq in Hn. unfold orCount in *.
  destruct (Nat.eqb_spec block 0) as [Hb|Hb].
  - unfold single, countMatchingSingleStructuralPrefixBoundary in Hn.
    destruct (rg_replacement g) as [|t kept] eqn:Hr; [simpl in Hn; lia|].
    destruct (Z.leb_spec (groupStartLine g) 1); [simpl in Hn; lia|].
    case_match; [simpl in Hn; lia|]. case_match eqn:Ha; [simpl in Hn; lia|]. zify_bool.
    case_match; [|simpl in Hn; lia]. assert (n = groupStartLine g - 1)%Z as -> by lia.
    split; [lia|]. split; [done|]. exists t. split; [|left].
    by replace (groupStartLine g - 1 - 1)%Z with (groupStartLine g - 2)%Z by lia.
  - destruct (countMatchingPrefixBlock_spec fl _ _ block eq_refl) as [Hle [Hz|[H2 Hok]]]; [done|].
    split; [lia|]. split; [done|].
    apply blocksMatch_lookup with (k := (n - (groupStartLine g - Z.of_nat block))%Z) in Hok; [|lia].
    replace (groupStartLine g - Z.of_nat block - 1 + (n - (groupStartLine g - Z.of_nat block)))%Z
      with (n - 1)%Z in Hok by lia.
    assert (is_Some (arr_at fl (n - 1))) as [t Ht] by (apply arr_at_is_Some; lia).
    exists t. split; [done|]. rewrite Ht in Hok. symmetry in Hok. apply arr_at_Some in Hok as [_ Hok].
    by apply list_elem_of_lookup_2 in Hok.
Qed.

Lemma safeSuffix_lines n :
  (0 <= groupEndLine g)%Z ->
  n ∈ contiguousRange (groupEndLine g + 1) (safeSuffixCount fl targets g) ->
  (groupEndLine g < n <= zlength fl)%Z /\ (n ∉ targets) /\
  exists t, arr_at fl (n - 1) = Some t /\ t ∈ rg_replacement g.
Proof.
  intros He. unfold safeSuffixCount.
  set (block := countMatchingSuffixBlock _ _ _). set (single := countMatchingSingleStructuralSuffixBoundary _ _ _ _).
  case_match eqn:Hext; [unfold contiguousRange; by intros ?%elem_of_nil|].
  intros Hn. pose proof (hasExternalTargets_false _ _ Hext Hn) as Hnt.
  unfold contiguousRange in Hn. apply elem_of_zseq in Hn. unfold orCount in *.
  destruct (Nat.eqb_spec block 0) as [Hb|Hb].
  - unfold single, countMatchingSingleStructuralSuffixBoundary in Hn.
    destruct (last (rg_replacement g)) as [t|] eqn:Hr; [|simpl in Hn; lia].
    destruct (Z.leb_spec (zlength fl) (groupEndLine g)); [simpl in Hn; lia|].
    case_match; [simpl in Hn; lia|]. case_match eqn:Ha; [simpl in Hn; lia|]. zify_bool.
    case_match; [|simpl in Hn; lia]. assert (n = groupEndLine g + 1)%Z as -> by lia.
    split; [lia|]. split; [done|]. exists t. rewrite Z.add_simpl_r. split; [done|].
    apply last_arr_at, arr_at_Some in Hr as [_ Hr]. by apply list_elem_of_lookup_2 in Hr.
  - destruct (countMatchingSuffixBlock_spec fl _ _ block eq_refl) as [Hle [Hz|[H2 Hok]]]; [done|].
    split; [lia|]. split; [done|].
    apply blocksMatch_lookup with (k := (n - (groupEndLine g + 1))%Z) in Hok; [|lia].
    replace (groupEndLine g + (n - (groupEndLine g + 1)))%Z with (n - 1)%Z in Hok by lia.
    assert (is_Some (arr_at fl (n - 1))) as [t Ht] by (apply arr_at_is_Some; lia).
    exists t. split; [done|]. rewrite Ht in Hok. symmetry in Hok. apply arr_at_Some in Hok as [_ Hok].
    by apply list_elem_of_lookup_2 in Hok.
Qed.
End counts.

(** ** The loop *)

(** What an entry of [absorbed] may be: an edit of the caller; a fresh insertion of a text of
    the batch at a cursor of the batch; or a fresh deletion of a line of the file which no edit
    of the batch names and whose content the batch inserts. *)
Definition entryOk (edits : list HashlineEdit) (fl : list jstring) (r : EditRef) : Prop :=
  match er_origin r, er_edit r with
  | Some k, e => edits !! k = Some e
  | None, Insert c t ln _ =>
      (exists t' i, Insert c t' ln i ∈ edits) /\ (exists c' i, Insert c' t ln i ∈ edits)
  | None, Delete d =>
      (1 <= line (del_anchor d) <= zlength fl)%Z /\
      (line (del_anchor d) ∉ collectAnchorTargetLines edits) /\
      exists t c ln i, arr_at fl (line (del_anchor d) - 1) = Some t /\ Insert c t ln i ∈ edits
  end.

Lemma cloneCursor_id c : cloneCursor c = c.
Proof. by destruct c as [| |[]|[]]. Qed.

Lemma arr_slice_elem {A} (l : list A) i j x : x ∈ arr_slice l i j -> x ∈ l.
Proof.
  unfold arr_slice. intros [k Hk]%list_elem_of_lookup. apply lookup_take_Some in Hk as [Hk _].
  rewrite lookup_drop in Hk. by apply list_elem_of_lookup_2 in Hk.
Qed.

Lemma keptPayload_elem g fl b t :
  t ∈ pa_keptPayload (tryAbsorbPureInsertGroup g fl b) -> t ∈ pg_payload g.
Proof.
  unfold tryAbsorbPureInsertGroup. destruct (pg_payload g) as [|p ps] eqn:Hp; [done|].
  destruct (pureInsertNeighborhood _ _). case_match; simpl; [done|]. apply arr_slice_elem.
Qed.

Lemma elem_of_imap {A B} (f : nat -> A -> B) l b : b ∈ imap f l -> exists i a, a ∈ l /\ b = f i a.
Proof.
  intros [k Hk]%list_elem_of_lookup. rewrite list_lookup_imap in Hk.
  apply fmap_Some in Hk as (a & Ha & ->). exists k, a. split; [by eapply list_elem_of_lookup_2|done].
Qed.

Section loop.
Context `{LineHasher}.
Context (edits : list HashlineEdit) (fl : list jstring) (options : HashlineApplyOptions).
Context (Hrange : Forall (inRange (zlength fl)) edits).

Let targets := collectAnchorTargetLines edits.

Lemma segment_elem i n e : e ∈ take n (drop i edits) -> e ∈ edits.
Proof.
  intros [k Hk]%list_elem_of_lookup. apply lookup_take_Some in Hk as [Hk _].
  rewrite lookup_drop in Hk. by apply list_elem_of_lookup_2 in Hk.
Qed.

Lemma shared_entries_ok i j : Forall (entryOk edits fl) (sharedEdits edits i j).
Proof.
  apply Forall_forall. intros r (k & Ho & Hk)%sharedEdits_elem. unfold entryOk. by rewrite Ho.
Qed.

(** The lines of a replacement group lie in the file. *)
Lemma group_lines_in_range i g :
  findReplacementGroup edits i = Some g ->
  (1 <= groupStartLine g <= groupEndLine g)%Z /\ (groupEndLine g <= zlength fl)%Z.
Proof.
  intros (_ & Hne & _ & (ins & Hseg & _) & Hlines)%findReplacementGroup_spec.
  assert (forall d, d ∈ rg_deletes g -> (1 <= line (del_anchor d) <= zlength fl)%Z) as Hin.
  { intros d Hd. assert (Delete d ∈ edits) as He.
    { eapply segment_elem. rewrite Hseg. apply elem_of_app. right. by apply list_elem_of_fmap_2. }
    rewrite Forall_forall in Hrange. specialize (Hrange _ He). by apply Forall_cons in Hrange as [? _]. }
  unfold groupStartLine, groupEndLine in *.
  destruct (rg_deletes g) as [|d0 ds] eqn:Hd; [done|].
  destruct (last (d0 :: ds)) as [dl|] eqn:Hl; [|by apply last_None in Hl].
  rewrite last_lookup in Hl. apply list_elem_of_lookup_2 in Hl as Hel.
  specialize (Hlines _ _ Hl). pose proof (Hin d0 ltac:(left)). pose proof (Hin dl Hel). lia.
Qed.

Lemma absorbed_delete_ok i g n k :
  findReplacementGroup edits i = Some g ->
  (1 <= n <= zlength fl)%Z -> n ∉ targets ->
  (exists t, arr_at fl (n - 1) = Some t /\ t ∈ rg_replacement g) ->
  entryOk edits fl {| er_origin := None;
                      er_edit := deleteEditForAutoAbsorbedLine n (rg_sourceLineNum g) k fl |}.
Proof.
  intros (_ & _ & _ & (ins & Hseg & Hins) & _)%findReplacementGroup_spec Hn Hnt (t & Ht & Hin).
  simpl. split; [done|]. split; [done|]. exists t.
  apply list_elem_of_lookup in Hin as [m Hm]. destruct (Forall2_lookup_r _ _ _ _ _ Hins Hm) as (e & He & a & k' & ->).
  eexists _, _, _. split; [done|]. eapply segment_elem. rewrite Hseg. apply elem_of_app. left.
  by apply list_elem_of_lookup_2 in He.
Qed.

Lemma shared_keeps i j k e :
  i <= k <= j -> edits !! k = Some e -> e ∈ er_edit <$> sharedEdits edits i j.
Proof.
  intros Hk He. rewrite sharedEdits_edits. eapply list_elem_of_lookup_2 with (i := k - i).
  rewrite lookup_take_lt, lookup_drop by lia. by replace (i + (k - i)) with k by lia.
Qed.

(** What the two branches of the loop body append. *)
Lemma absorbReplacement_absorbed g st : exists k1 k2,
  let mk k := imap (fun i n => {| er_origin := None;
    er_edit := deleteEditForAutoAbsorbedLine n (rg_sourceLineNum g) (k + Z.of_nat i) fl |}) in
  ab_absorbed (absorbReplacement edits fl targets g st) = ab_absorbed st ++
    mk k1 (contiguousRange (groupStartLine g - Z.of_nat (safePrefixCount fl targets g)) (safePrefixCount fl targets g)) ++
    sharedEdits edits (rg_startIndex g) (rg_endIndex g) ++
    mk k2 (contiguousRange (groupEndLine g + 1) (safeSuffixCount fl targets g)).
Proof.
  unfold absorbReplacement. cbv zeta. eexists _, _.
  rewrite pushFresh_absorbed, pushShared_absorbed, pushFresh_absorbed, <- !app_assoc. f_equal.
  by repeat case_match; rewrite ?warnOnce_absorbed.
Qed.

Lemma absorbPureInsert_absorbed g st :
  ab_absorbed (absorbPureInsert edits fl options g st) =
    ab_absorbed st ++ sharedEdits edits (pg_startIndex g) (pg_endIndex g) \/
  exists b k, ab_absorbed (absorbPureInsert edits fl options g st) = ab_absorbed st ++
    imap (fun i t => {| er_origin := None; er_edit := Insert (cloneCursor (pg_cursor g)) t
                                             (pg_sourceLineNum g) (k + Z.of_nat i) |})
      (pa_keptPayload (tryAbsorbPureInsertGroup g fl b)).
Proof.
  unfold absorbPureInsert. cbv zeta. case_match; [right|by left].
  eexists _, _. rewrite pushFresh_absorbed. f_equal.
  by repeat case_match; rewrite ?warnOnce_absorbed.
Qed.

Lemma absorbReplacement_ok i g st :
  findReplacementGroup edits i = Some g ->
  exists chunk, ab_absorbed (absorbReplacement edits fl targets g st) = ab_absorbed st ++ chunk /\
    Forall (entryOk edits fl) chunk /\
    (forall k e, i <= k <= rg_endIndex g -> edits !! k = Some e -> e ∈ er_edit <$> chunk).
Proof.
  intros Hg. destruct (group_lines_in_range i g Hg) as [Hs He].
  pose proof (findReplacementGroup_spec _ _ _ Hg) as (Hst & _).
  destruct (absorbReplacement_absorbed g st) as (k1 & k2 & Heq). cbv zeta in Heq.
  eexists. split; [exact Heq|]. split.
  - rewrite !Forall_app. split_and!; [|apply shared_entries_ok|];
      apply Forall_forall; intros r (m & n & Hn & ->)%elem_of_imap.
    + apply safePrefix_lines in Hn as (? & ? & ?); [|lia]. by apply (absorbed_delete_ok i); [|lia|..].
    + apply safeSuffix_lines in Hn as (? & ? & ?); [|lia]. by apply (absorbed_delete_ok i); [|lia|..].
  - intros k e Hk He'. rewrite !fmap_app, !elem_of_app. right; left.
    apply (shared_keeps _ _ k); [lia|done].
Qed.

Lemma absorbPureInsert_ok i g st :
  findPureInsertGroup edits i = Some g ->
  exists chunk, ab_absorbed (absorbPureInsert edits fl options g st) = ab_absorbed st ++ chunk /\
    Forall (entryOk edits fl) chunk /\
    (forall k d, i <= k <= pg_endIndex g -> edits !! k = Some (Delete d) -> Delete d ∈ er_edit <$> chunk).
Proof.
  intros Hg. pose proof (findPureInsertGroup_spec _ _ _ Hg) as (Hst & Hend & (t0 & k0 & Hfirst) & Hf).
  destruct (absorbPureInsert_absorbed g st) as [Heq|(b & k & Heq)]; eexists; (split; [exact Heq|]); split.
  - apply shared_entries_ok.
  - intros k d Hk. apply shared_keeps. lia.
  - apply Forall_forall. intros r (m & t & Ht%keptPayload_elem & ->)%elem_of_imap. simpl.
    rewrite cloneCursor_id. split; [eexists _, _; by eapply list_elem_of_lookup_2|].
    apply list_elem_of_lookup in Ht as [m' Ht].
    destruct (Forall2_lookup_r _ _ _ _ _ Hf Ht) as (e & He & c & k' & -> & _).
    eexists _, _. eapply segment_elem. by eapply list_elem_of_lookup_2.
  - intros k' d Hk Hd. exfalso.
    assert (take (pg_endIndex g + 1 - i) (drop i edits) !! (k' - i) = Some (Delete d)) as Hin.
    { rewrite lookup_take_lt, lookup_drop by lia. by replace (i + (k' - i)) with k' by lia. }
    destruct (Forall2_lookup_l _ _ _ _ _ Hf Hin) as (t & _ & c & ? & ? & _). done.
Qed.

(** One turn appends well-formed entries, moves the index forward and keeps every deletion. *)
Lemma absorbStep_spec i st next st' :
  absorbStep edits fl options targets i st = (next, st') -> i < length edits ->
  i < next /\ exists chunk, ab_absorbed st' = ab_absorbed st ++ chunk /\ Forall (entryOk edits fl) chunk /\
    (forall k d, i <= k < next -> edits !! k = Some (Delete d) -> Delete d ∈ er_edit <$> chunk).
Proof.
  unfold absorbStep. intros Hstep Hi. destruct (findReplacementGroup edits i) as [g|] eqn:Hg.
  - simplify_eq. pose proof (findReplacementGroup_spec _ _ _ Hg) as (_ & _ & ? & _). split; [lia|].
    destruct (absorbReplacement_ok i g st Hg) as (chunk & ? & ? & Hk). exists chunk. split_and!; [done..|].
    intros k d Hkd. apply Hk. lia.
  - destruct (findPureInsertGroup edits i) as [g|] eqn:Hp; simplify_eq.
    + pose proof (findPureInsertGroup_spec _ _ _ Hp) as (_ & ? & _). split; [lia|].
      destruct (absorbPureInsert_ok i g st Hp) as (chunk & ? & ? & Hk). exists chunk. split_and!; [done..|].
      intros k d Hkd. apply Hk. lia.
    + split; [lia|]. eexists. split; [apply pushShared_absorbed|]. split; [apply shared_entries_ok|].
      intros k d Hkd. apply shared_keeps. lia.
Qed.

Lemma absorbLoop_spec fuel i st :
  length edits - i <= fuel ->
  exists chunk, ab_absorbed (absorbLoop edits fl options fuel targets i st) = ab_absorbed st ++ chunk /\
    Forall (entryOk edits fl) chunk /\
    (forall k d, i <= k -> edits !! k = Some (Delete d) -> Delete d ∈ er_edit <$> chunk).
Proof.
  assert (forall i st, length edits <= i -> exists chunk, ab_absorbed st = ab_absorbed st ++ chunk /\
    Forall (entryOk edits fl) chunk /\
    (forall k d, i <= k -> edits !! k = Some (Delete d) -> Delete d ∈ er_edit <$> chunk)) as Hdone.
  { intros j s Hj. exists []. rewrite app_nil_r. split_and!; [done|constructor|].
    intros k d Hk Hd%lookup_lt_Some. lia. }
  revert i st. induction fuel as [|f IH]; intros i st Hf; simpl; [apply Hdone; lia|].
  destruct (Nat.ltb_spec i (length edits)) as [Hi|Hi]; [|by apply Hdone].
  destruct (absorbStep edits fl options targets i st) as [next st'] eqn:Hs.
  apply absorbStep_spec in Hs as (Hn & c1 & Hc1 & Hok1 & Hk1); [|done].
  destruct (IH next st' ltac:(lia)) as (c2 & Hc2 & Hok2 & Hk2).
  exists (c1 ++ c2). rewrite Hc2, Hc1, <- app_assoc. split; [done|].
  split; [by apply Forall_app|]. intros k d Hk Hd. rewrite fmap_app, elem_of_app.
  destruct (Nat.lt_ge_cases k next); [left; by apply (Hk1 k)|right; by apply (Hk2 k)].
Qed.

(** Every entry of the absorbed batch is well formed, and no deletion of the caller is lost. *)
Lemma absorbed_spec w :
  let absorbed := ab_absorbed (absorbReplacementBoundaryDuplicates edits fl options w) in
  Forall (entryOk edits fl) absorbed /\
  (forall d, Delete d ∈ edits -> Delete d ∈ er_edit <$> absorbed).
Proof.
  unfold absorbReplacementBoundaryDuplicates. cbv zeta.
  edestruct (absorbLoop_spec (length edits) 0) as (chunk & Heq & Hok & Hk); [lia|].
  rewrite Heq. simpl. split; [done|]. intros d [k Hd]%list_elem_of_lookup. apply (Hk k); [lia|done].
Qed.
End loop.
