(* ===== verification/HashlineApplyProps.v ===== *)
(** * Hashline: the contract of [applyHashlineEdits]

    A batch is applied if and only if every anchor still holds; what is applied is the
    declarative rendering of the batch; without warnings it is exactly the batch the caller
    wrote; the reported first changed line is right; and the edits are left normalised. *)
From S2P Require Import Prelude JsString JsRegex HashlineHash HashlineApply HashlineApplySpec HashlineAbsorb.

Section contract.
Context `{LineHasher}.

(** ** Normalised edits stay inside the file *)

Lemma normalizeCursor_normalized fl e : normalized (normalizeCursor fl e).
Proof. destruct e as [[| |a|a] ? ? ?|d]; simpl; try done. by case_match. Qed.

Lemma normalizeCursor_inRange fl e :
  inRange (zlength fl) e -> inRange (zlength fl) (normalizeCursor fl e).
Proof.
  destruct e as [[| |a|a] ? ? ?|d]; simpl; try done. unfold inRange. simpl.
  intros [Ha _]%Forall_cons. case_match eqn:Hl; [constructor|]. zify_bool. repeat constructor; simpl; lia.
Qed.

Lemma entryOk_inRange edits fl r :
  Forall (inRange (zlength fl)) edits -> entryOk edits fl r -> inRange (zlength fl) (er_edit r).
Proof.
  intros Hr. unfold entryOk. destruct (er_origin r) as [k|].
  - intros Hk%list_elem_of_lookup_2. rewrite Forall_forall in Hr. by apply Hr.
  - destruct (er_edit r) as [c t ln i|d].
    + intros [(t' & i' & Hin) _]. rewrite Forall_forall in Hr. by specialize (Hr _ Hin).
    + intros (? & _). repeat constructor; lia.
Qed.

Definition normalizedBatch (fl : list jstring) (edits : list HashlineEdit) (options : HashlineApplyOptions)
    : list HashlineEdit :=
  normalizeCursor fl <$> (er_edit <$> ab_absorbed (absorbReplacementBoundaryDuplicates edits fl options [])).

Lemma normalizedBatch_ok fl edits options :
  Forall (anchorHolds fl) (edits ≫= getHashlineEditAnchors) ->
  Forall normalized (normalizedBatch fl edits options) /\
  Forall (inRange (zlength fl)) (normalizedBatch fl edits options).
Proof.
  intros Ha. pose proof (anchorsHold_inRange _ _ Ha) as Hr.
  destruct (absorbed_spec edits fl options Hr []) as [Hok _].
  unfold normalizedBatch. rewrite !Forall_fmap. split; eapply Forall_impl; try exact Hok; intros r Hr'; simpl.
  - apply normalizeCursor_normalized.
  - by apply normalizeCursor_inRange, (entryOk_inRange edits).
Qed.

(** ** The first changed line *)

Lemma trackFirstChanged_min first n :
  exists m, trackFirstChanged first n = Some m /\ (m <= n)%Z /\
    (m = n \/ first = Some m) /\ (forall f, first = Some f -> m <= f)%Z.
Proof.
  unfold trackFirstChanged. destruct first as [f|]; [|exists n; naive_solver lia].
  destruct (Z.ltb_spec n f); [exists n|exists f]; split_and!; naive_solver lia.
Qed.

Section first_changed.
Context (edits : list HashlineEdit) (Hnorm : Forall normalized edits).
Let byLine := bucketAnchorEditsByLine (anchorEditsOf edits).

Lemma applyBucket_first f first n :
  is_Some (byLine !! n) -> snd (applyBucket byLine (f, first) n) = trackFirstChanged first n.
Proof.
  intros [b Hb]. unfold applyBucket. destruct f as [lines o]. unfold byLine in *. rewrite byLine_lookup in *.
  destruct (bucketOf edits n) as [|e b'] eqn:Hbk; [done|]. simplify_eq.
  rewrite <- Hbk, bucketOf_sorted.
  pose proof (bucketOf_nonempty edits n _ Hnorm eq_refl ltac:(by rewrite Hbk)) as Hne.
  case_match eqn:Hc; [|done]. zify_bool. rewrite Hne in * by done. done.
Qed.

(** After the loop, the first changed line is at or below every key; it is unset only when there
    was no key. *)
Lemma bucket_loop_first ks f first :
  (forall k, k ∈ ks -> is_Some (byLine !! k)) ->
  (forall k m, k ∈ ks -> snd (foldl (applyBucket byLine) (f, first) ks) = Some m -> (m <= k)%Z) /\
  (forall m m0, first = Some m0 -> snd (foldl (applyBucket byLine) (f, first) ks) = Some m -> (m <= m0)%Z) /\
  (snd (foldl (applyBucket byLine) (f, first) ks) = None -> ks = [] /\ first = None).
Proof.
  revert f first. induction ks as [|k ks IH]; intros f first Hk; cbn [foldl].
  { simpl. split_and!; [by intros ? ? ?%not_elem_of_nil|naive_solver|done]. }
  destruct (applyBucket byLine (f, first) k) as [f' first'] eqn:Hb.
  pose proof (applyBucket_first f first k (Hk k ltac:(left))) as Hf. rewrite Hb in Hf. simpl in Hf.
  destruct (trackFirstChanged_min first k) as (m1 & Hm1 & Hle & _ & Hmin). rewrite Hm1 in Hf. subst first'.
  destruct (IH f' (Some m1)) as (I1 & I2 & I3); [intros; apply Hk; by right|].
  split_and!.
  - intros k' m [->|Hin]%elem_of_cons Hm; [specialize (I2 m m1 eq_refl Hm); lia|eauto].
  - intros m m0 Hm0 Hm. specialize (I2 m m1 eq_refl Hm). specialize (Hmin m0 Hm0). lia.
  - intros Hn. by apply I3 in Hn as [_ ?].
Qed.

Lemma bucketOf_above_keys lines o first k :
  snd (foldl (applyBucket byLine) ((lines, o), None) (sortedKeysDescending byLine)) = first ->
  match first with Some m => (k < m)%Z | None => True end -> bucketOf edits k = [].
Proof.
  intros Hf Hk. destruct (sortedKeysDescending_spec edits) as [_ Hel].
  destruct (bucketOf edits k) as [|e b] eqn:Hb; [done|]. exfalso.
  assert (k ∈ sortedKeysDescending byLine) as Hin.
  { apply Hel. rewrite byLine_lookup. by rewrite Hb. }
  destruct (bucket_loop_first (sortedKeysDescending byLine) (lines, o) None) as (I1 & _ & I3).
  { intros k' Hk'. by apply Hel. }
  fold byLine in Hin. destruct first as [m|].
  - specialize (I1 k m Hin Hf). lia.
  - destruct (I3 Hf) as [Hnil _]. rewrite Hnil in Hin. by apply not_elem_of_nil in Hin.
Qed.

(** Lines above the first changed line are those of the file. *)
Lemma render_prefix lines m :
  (0 <= m)%Z -> (forall k, (k <= m)%Z -> bucketOf edits k = []) ->
  take (Z.to_nat m) (renderFrom edits 1 lines) = take (Z.to_nat m) lines.
Proof.
  intros Hm Hb. rewrite <- (take_drop (Z.to_nat m) lines) at 1. rewrite renderFrom_app.
  rewrite (renderFrom_untouched edits 1 (take (Z.to_nat m) lines)); [|done|].
  2:{ intros k Hk. apply Hb. unfold zlength in Hk. rewrite length_take in Hk. lia. }
  destruct (decide (Z.to_nat m <= length lines)) as [Hl|Hl].
  - rewrite take_app_le by (rewrite length_take; lia). by rewrite take_idemp.
  - rewrite (take_ge lines) by lia. rewrite drop_ge by lia. simpl. rewrite app_nil_r. apply take_ge. lia.
Qed.
End first_changed.

Lemma take_arr_splice {A} (l items : list A) idx d :
  (0 <= idx <= zlength l)%Z -> take (Z.to_nat idx) (arr_splice l idx d items) = take (Z.to_nat idx) l.
Proof.
  intros Hi. unfold arr_splice, zlength in *. destruct (Z.ltb_spec idx 0); [lia|].
  rewrite Z.min_l by lia. rewrite take_app_le by (rewrite length_take; lia).
  by rewrite take_idemp.
Qed.

Lemma insertAtEnd_prefix f texts f' ec :
  insertAtEnd f texts = (f', Some ec) ->
  take (Z.to_nat (ec - 1)) (fst f') = take (Z.to_nat (ec - 1)) (fst f).
Proof.
  destruct f as [lines o]. unfold insertAtEnd. destruct texts as [|t ts]; [done|].
  case_decide; [by intros [= <- <-]|]. intros [= <- <-]. cbn [fst].
  rewrite Z.add_simpl_r. apply take_arr_splice. case_match eqn:Hc; zify_bool; unfold zlength in *; lia.
Qed.

Lemma insertAtEnd_none f texts f' : insertAtEnd f texts = (f', None) -> f' = f.
Proof.
  destruct f as [lines o]. unfold insertAtEnd. destruct texts; [naive_solver|]. by case_decide.
Qed.

(** ** The run of a valid batch *)

(** What a first changed line promises: the lines above it did not change, and none means that
    nothing changed. *)
Definition unchangedAbove (first : option Z) (new old : list jstring) : Prop :=
  match first with
  | None => new = old
  | Some m => take (Z.to_nat (m - 1)) new = take (Z.to_nat (m - 1)) old
  end.

Lemma take_le_eq {A} (l k : list A) n m : m <= n -> take n l = take n k -> take m l = take m k.
Proof.
  intros Hm Hn. replace m with (m `min` n) by lia. by rewrite <- !take_take, Hn.
Qed.

Lemma unchangedAbove_track first n a b old :
  unchangedAbove first a old -> take (Z.to_nat (n - 1)) b = take (Z.to_nat (n - 1)) a ->
  unchangedAbove (trackFirstChanged first n) b old.
Proof.
  intros Ha Hb. destruct (trackFirstChanged_min first n) as (m & -> & Hm & _ & Hmin). simpl.
  rewrite (take_le_eq b a (Z.to_nat (n - 1))) by (done || lia).
  destruct first as [f|]; simpl in Ha; [|by subst]. specialize (Hmin f eq_refl).
  apply (take_le_eq a old (Z.to_nat (f - 1))); [lia|done].
Qed.

Lemma loop_run norm fl o :
  Forall normalized norm -> Forall (inRange (zlength fl)) norm ->
  let byLine := bucketAnchorEditsByLine (anchorEditsOf norm) in
  exists o' f1,
    foldl (applyBucket byLine) ((fl, o), None) (sortedKeysDescending byLine)
      = ((renderFrom norm 1 fl, o'), f1) /\
    unchangedAbove f1 (renderFrom norm 1 fl) fl.
Proof.
  intros Hn Hr byLine.
  pose proof (bucket_loop_render norm Hn fl o Hr) as HL. fold byLine in HL.
  pose proof (bucketOf_above_keys norm Hn fl o) as Hab. fold byLine in Hab.
  destruct (foldl _ _ _) as [[L1 o1] f1]. simpl in *. subst L1. exists o1, f1. split; [done|].
  destruct f1 as [m|]; simpl.
  - destruct (decide (m <= 1)%Z); [by replace (Z.to_nat (m - 1)) with 0 by lia|].
    apply render_prefix; [done|lia|]. intros k Hk. apply (Hab (Some m)); [done|lia].
  - apply renderFrom_untouched; [done|]. intros k _. by apply (Hab None).
Qed.

(** The outcome of the stages after validation. *)
Lemma apply_run text edits options :
  edits ≠ [] ->
  Forall (anchorHolds (split_on c_lf text)) (edits ≫= getHashlineEditAnchors) ->
  let fl := split_on c_lf text in
  let ab := absorbReplacementBoundaryDuplicates edits fl options [] in
  let new := renderBatch (normalizedBatch fl edits options) fl in
  exists first,
    applyHashlineEdits text edits options =
      Ok ({| ar_lines := join [c_lf] new; ar_firstChangedLine := first;
             ar_warnings := match ab_warnings ab with [] => None | w => Some w end;
             ar_noopEdits := None |}, editsAfter fl edits (ab_absorbed ab)) /\
    unchangedAbove first new fl.
Proof.
  intros Hne Ha fl ab. set (norm := normalizedBatch fl edits options).
  destruct (normalizedBatch_ok fl edits options Ha) as [Hn Hr]. fold norm in Hn, Hr.
  destruct (loop_run norm fl ((fun _ => original) <$> fl) Hn Hr) as (o1 & f1 & Hloop & Hu1).
  unfold applyHashlineEdits. destruct edits as [|e0 es]; [done|].
  rewrite (proj2 (validate_ok_iff _ _) Ha). cbn [mbind result_bind]. cbv zeta.
  fold fl ab. change (normalizeCursor fl <$> (er_edit <$> ab_absorbed ab)) with norm.
  rewrite Hloop. unfold renderBatch.
  set (b := match bofTexts norm with [] => _ | _ => _ end).
  assert (fst (fst b) = withBof (bofTexts norm) (renderFrom norm 1 fl) /\
          unchangedAbove (snd b) (withBof (bofTexts norm) (renderFrom norm 1 fl)) fl) as [Hb Hu2].
  { unfold b. destruct (bofTexts norm) as [|t ts]; [done|]. split; [apply insertAtStart_lines|].
    by apply (unchangedAbove_track _ 1 (renderFrom norm 1 fl)). }
  clearbody b. destruct b as [t2 f2]. simpl in Hb, Hu2. rewrite <- Hb, <- insertAtEnd_lines in *.
  destruct (insertAtEnd t2 (eofTexts norm)) as [t3 [n|]] eqn:He; eexists; (split; [done|]).
  - apply insertAtEnd_prefix in He. by apply (unchangedAbove_track _ n (fst t2)).
  - apply insertAtEnd_none in He as ->. done.
Qed.

(** ** No warning, no absorption *)

Lemma pushFresh_warnings {A} (mk : A -> Z -> HashlineEdit) items st :
  ab_warnings (pushFresh mk items st) = ab_warnings st /\
  ab_emittedAbsorbKeys (pushFresh mk items st) = ab_emittedAbsorbKeys st.
Proof. revert st. induction items as [|a items IH]; intros st; simpl; [done|]. by rewrite !(proj1 (IH _)), !(proj2 (IH _)). Qed.

(** A key is recorded only together with a warning. *)
Definition keysWarned (st : AbsorbState) : Prop := ab_warnings st = [] -> ab_emittedAbsorbKeys st = ∅.

Lemma warnOnce_warned key m st : keysWarned st -> ab_warnings (warnOnce key m st) ≠ [].
Proof.
  unfold keysWarned, warnOnce. intros Hk. case_decide as Hd; simpl; [|by destruct (ab_warnings st)].
  intros Hw. rewrite (Hk Hw) in Hd. set_solver.
Qed.

Lemma keysWarned_warnOnce key m st : keysWarned st -> keysWarned (warnOnce key m st).
Proof. intros Hk Hw. by apply (warnOnce_warned key m st) in Hk. Qed.

Lemma quiet_app {A} (w v : list A) : w ++ v = [] -> w = [].
Proof. by destruct w. Qed.

Lemma warnOnce_quiet key m st : ab_warnings (warnOnce key m st) = [] -> ab_warnings st = [].
Proof. unfold warnOnce. case_decide; [done|]. simpl. apply quiet_app. Qed.

Section quiet.
Context (edits : list HashlineEdit) (fl : list jstring) (options : HashlineApplyOptions) (targets : gset Z).

(** What a stage that ends without warnings did: it started without warnings and pushed the
    caller's edits [i..j] as they are. *)
Definition quietStage (i j : nat) (st st' : AbsorbState) : Prop :=
  keysWarned st' /\
  (ab_warnings st' = [] -> ab_warnings st = [] /\ ab_absorbed st' = ab_absorbed st ++ sharedEdits edits i j).

Lemma absorbReplacement_quiet g st :
  keysWarned st -> quietStage (rg_startIndex g) (rg_endIndex g) st (absorbReplacement edits fl targets g st).
Proof.
  intros Hk. unfold quietStage, keysWarned, absorbReplacement. cbv zeta.
  rewrite !(proj1 (pushFresh_warnings _ _ _)), !(proj2 (pushFresh_warnings _ _ _)).
  cbn [pushShared ab_warnings ab_emittedAbsorbKeys].
  rewrite !(proj1 (pushFresh_warnings _ _ _)), !(proj2 (pushFresh_warnings _ _ _)).
  rewrite pushFresh_absorbed, pushShared_absorbed, pushFresh_absorbed.
  destruct (safePrefixCount fl targets g) as [|p], (safeSuffixCount fl targets g) as [|s]; cbn [Nat.ltb Nat.leb].
  - split; [exact Hk|]. intros Hw. split; [done|]. by rewrite !app_nil_r.
  - split; intros Hw; by apply warnOnce_warned in Hw.
  - split; intros Hw; by apply warnOnce_warned in Hw.
  - split; intros Hw; apply warnOnce_warned in Hw; try done; by apply keysWarned_warnOnce.
Qed.

Lemma tryAbsorb_ranges g b :
  let r := tryAbsorbPureInsertGroup g fl b in
  (0 <? pa_absorbedLeading r) || (0 <? pa_absorbedTrailing r) = true ->
  pa_leadingFileRange r ≠ None \/ pa_trailingFileRange r ≠ None.
Proof.
  unfold tryAbsorbPureInsertGroup. destruct (pg_payload g); [done|].
  destruct (pureInsertNeighborhood _ _). cbv zeta. case_match; [done|].
  cbn [pa_absorbedLeading pa_absorbedTrailing pa_leadingFileRange pa_trailingFileRange].
  intros [->| ->]%orb_true_iff; [by left|by right].
Qed.

Lemma absorbPureInsert_quiet g st :
  keysWarned st -> quietStage (pg_startIndex g) (pg_endIndex g) st (absorbPureInsert edits fl options g st).
Proof.
  intros Hk. unfold quietStage, keysWarned, absorbPureInsert. cbv zeta.
  case_match eqn:Hc; [|split; [exact Hk|]; done].
  rewrite !(proj1 (pushFresh_warnings _ _ _)), !(proj2 (pushFresh_warnings _ _ _)).
  apply tryAbsorb_ranges in Hc.
  destruct (pa_leadingFileRange _) as [[a b]|], (pa_trailingFileRange _) as [[c d]|];
    (split; intros Hw; [|exfalso]); try (by destruct Hc);
    apply warnOnce_warned in Hw; try done; by apply keysWarned_warnOnce.
Qed.

Lemma absorbStep_quiet i st next st' :
  absorbStep edits fl options targets i st = (next, st') -> i < length edits -> keysWarned st ->
  i < next /\ next <= length edits /\ quietStage i (next - 1) st st'.
Proof.
  unfold absorbStep. intros Hs Hi Hk. destruct (findReplacementGroup edits i) as [g|] eqn:Hg.
  - simplify_eq. apply findReplacementGroup_spec in Hg as (<- & _ & ? & _).
    split_and!; [lia..|]. simpl. rewrite Nat.sub_0_r. by apply absorbReplacement_quiet.
  - destruct (findPureInsertGroup edits i) as [g|] eqn:Hp; simplify_eq.
    + apply findPureInsertGroup_spec in Hp as (<- & ? & _).
      split_and!; [lia..|]. simpl. rewrite Nat.sub_0_r. by apply absorbPureInsert_quiet.
    + split_and!; [lia..|]. simpl. rewrite Nat.sub_0_r. split; [exact Hk|]. done.
Qed.

Lemma absorbLoop_quiet fuel i st :
  length edits - i <= fuel -> keysWarned st ->
  ab_warnings (absorbLoop edits fl options fuel targets i st) = [] ->
  ab_warnings st = [] /\
  er_edit <$> ab_absorbed (absorbLoop edits fl options fuel targets i st)
    = (er_edit <$> ab_absorbed st) ++ drop i edits /\
  (forall k, i <= k < length edits ->
     existsb (fun r => bool_decide (er_origin r = Some k))
       (ab_absorbed (absorbLoop edits fl options fuel targets i st)) = true) /\
  (forall k, existsb (fun r => bool_decide (er_origin r = Some k)) (ab_absorbed st) = true ->
     existsb (fun r => bool_decide (er_origin r = Some k))
       (ab_absorbed (absorbLoop edits fl options fuel targets i st)) = true).
Proof.
  revert i st. induction fuel as [|f IH]; intros i st Hf Hk; simpl.
  { intros Hw. rewrite drop_ge, app_nil_r by lia. split_and!; try done. lia. }
  destruct (Nat.ltb_spec i (length edits)) as [Hi|Hi].
  2:{ intros Hw. rewrite drop_ge, app_nil_r by lia. split_and!; try done. lia. }
  destruct (absorbStep edits fl options targets i st) as [next st'] eqn:Hs. intros Hw.
  apply absorbStep_quiet in Hs as (Hn & Hle & Hk' & Hq); [|done|done].
  destruct (IH next st' ltac:(lia) Hk' Hw) as (Hw' & Heq & Hall & Hkeep).
  destruct (Hq Hw') as [Hw0 Hab]. split; [done|]. split_and!.
  - rewrite Heq, Hab, fmap_app, sharedEdits_edits, <- app_assoc. f_equal.
    replace (next - 1 + 1 - i) with (next - i) by lia.
    rewrite <- (take_drop (next - i) (drop i edits)) at 2. rewrite drop_drop. by replace (i + (next - i)) with next by lia.
  - intros k Hki. destruct (Nat.lt_ge_cases k next); [|apply Hall; lia]. apply Hkeep.
    rewrite Hab, existsb_app. apply orb_true_iff. right. apply existsb_exists.
    destruct (lookup_lt_is_Some_2 edits k ltac:(lia)) as [e He].
    exists {| er_origin := Some k; er_edit := e |}. rewrite <- list_elem_of_In. split; [|by apply bool_decide_eq_true].
    apply (list_elem_of_lookup_2 _ (k - i)). unfold sharedEdits.
    rewrite list_lookup_imap, lookup_take_lt, lookup_drop by lia.
    replace (i + (k - i)) with k by lia. by rewrite He.
  - intros k Hk0. apply Hkeep. rewrite Hab, existsb_app. by rewrite Hk0.
Qed.

Lemma absorb_quiet :
  targets = collectAnchorTargetLines edits ->
  ab_warnings (absorbReplacementBoundaryDuplicates edits fl options []) = [] ->
  er_edit <$> ab_absorbed (absorbReplacementBoundaryDuplicates edits fl options []) = edits /\
  editsAfter fl edits (ab_absorbed (absorbReplacementBoundaryDuplicates edits fl options []))
    = normalizeCursor fl <$> edits.
Proof.
  intros Ht. unfold absorbReplacementBoundaryDuplicates. rewrite <- Ht. intros Hw.
  apply absorbLoop_quiet in Hw as (_ & Heq & Hall & _); [|lia|done].
  split; [by rewrite Heq|]. unfold editsAfter. apply list_eq. intros k.
  rewrite list_lookup_imap, list_lookup_fmap. destruct (edits !! k) as [e|] eqn:Hk; [|done]. simpl.
  rewrite Hall; [done|]. apply lookup_lt_Some in Hk. lia.
Qed.
End quiet.
End contract.

(** ** The theorems *)

Section theorems.
Context `{LineHasher}.

Lemma apply_ok_anchors text edits options r :
  applyHashlineEdits text edits options = Ok r -> edits ≠ [] ->
  Forall (anchorHolds (split_on c_lf text)) (edits ≫= getHashlineEditAnchors).
Proof.
  intros Hr Hne. unfold applyHashlineEdits in Hr. destruct edits as [|e es]; [done|].
  apply bind_Ok in Hr as (ms & Hv & Hr). destruct ms; [|done]. by apply validate_ok_iff.
Qed.

(** C1: refinement.  On a batch whose anchors all hold, the bottom-up splice loop of
    [applyHashlineEdits] returns the declarative rendering of the batch after absorption and
    cursor normalisation: for each line of the file, the texts inserted before it in the order
    of the edits, then the line itself unless it is deleted; then the texts at the start and at
    the end of the file. *)
Theorem apply_refines_render text edits options :
  edits ≠ [] ->
  Forall (anchorHolds (split_on c_lf text)) (edits ≫= getHashlineEditAnchors) ->
  exists res after,
    applyHashlineEdits text edits options = Ok (res, after) /\
    ar_lines res = join [c_lf] (renderBatch (normalizedBatch (split_on c_lf text) edits options)
                                  (split_on c_lf text)).
Proof.
  intros Hne Ha. destruct (apply_run text edits options Hne Ha) as (first & -> & _). by eexists _, _.
Qed.

(** C2: safety.  A batch is applied exactly when every anchor names an existing line whose
    current content has the anchor's hash (range interiors carry no hash); a single stale
    anchor makes the whole batch throw. *)
Theorem apply_ok_iff_anchors_hold text edits options :
  edits ≠ [] ->
  (exists r, applyHashlineEdits text edits options = Ok r) <->
  Forall (anchorHolds (split_on c_lf text)) (edits ≫= getHashlineEditAnchors).
Proof.
  intros Hne. split.
  - intros [r Hr]. by apply (apply_ok_anchors _ _ options r).
  - intros Ha. destruct (apply_run text edits options Hne Ha) as (first & -> & _). eauto.
Qed.

(** C17: functional.  When the result carries no warning, nothing was absorbed: the new text is
    the rendering of exactly the edits the caller wrote, with every [after_anchor] insertion
    read as an insertion before the next line (or at the end of the file), and the caller's
    edits are left normalised in place. *)
Theorem apply_without_warnings_is_exact text edits options res after :
  applyHashlineEdits text edits options = Ok (res, after) ->
  edits ≠ [] -> ar_warnings res = None ->
  let fl := split_on c_lf text in
  ar_lines res = join [c_lf] (renderBatch (normalizeCursor fl <$> edits) fl) /\
  after = normalizeCursor fl <$> edits.
Proof.
  intros Hr Hne Hw fl.
  pose proof (apply_ok_anchors _ _ _ _ Hr Hne) as Ha.
  destruct (apply_run text edits options Hne Ha) as (first & Heq & _). fold fl in Heq.
  rewrite Heq in Hr. simplify_eq. simpl in *.
  destruct (ab_warnings _) eqn:Hq; [|done].
  destruct (absorb_quiet edits fl options _ eq_refl Hq) as [He Haft].
  unfold normalizedBatch. by rewrite He, Haft.
Qed.


(** functional.  [firstChangedLine] is right: the lines above it are those of the old file,
    and when it is unset the text did not change. *)
Theorem apply_first_changed_line text edits options res after :
  applyHashlineEdits text edits options = Ok (res, after) ->
  match ar_firstChangedLine res with
  | None => ar_lines res = text
  | Some m => exists new, ar_lines res = join [c_lf] new /\
      take (Z.to_nat (m - 1)) new = take (Z.to_nat (m - 1)) (split_on c_lf text)
  end.
Proof.
  intros Hr. destruct (decide (edits = [])) as [->|Hne]; [by simplify_eq/=|].
  pose proof (apply_ok_anchors _ _ _ _ Hr Hne) as Ha.
  destruct (apply_run text edits options Hne Ha) as (first & Heq & Hu). rewrite Heq in Hr. simplify_eq. simpl.
  destruct first; simpl in Hu; [eauto|rewrite Hu; apply join_split_on].
Qed.

End theorems.

(** ** Replaying a batch *)

Section replay.
#[local] Existing Instance demoHasher.

Definition replayEdits : list HashlineEdit :=
  [Insert (after_anchor (mkAnchor 1 (computeLineHash 1 (js "a")))) (js "x") 1 0].

Definition resultLines (r : result HashlineError (HashlineApplyResult * list HashlineEdit))
    : option (list jstring) :=
  match r with Ok (res, _) => Some (split_on c_lf (ar_lines res)) | Throw _ => None end.

(** error.  [applyHashlineEdits] rewrites the cursors of the edits it is given, so a batch
    cannot be replayed: an insertion after the last line of one version of a file turns into an
    insertion at the end, and replaying the same edits on a longer version puts the text at the
    end of the file instead of after the anchored line. *)
Theorem apply_replay_moves_insertion :
  let options := {| autoDropPureInsertDuplicates := None |} in
  let version1 := js "a" in
  let version2 := join [c_lf] [js "a"; js "b"] in
  resultLines (applyHashlineEdits version2 replayEdits options) = Some [js "a"; js "x"; js "b"] /\
  exists res after,
    applyHashlineEdits version1 replayEdits options = Ok (res, after) /\
    resultLines (applyHashlineEdits version2 after options) = Some [js "a"; js "b"; js "x"].
Proof.
  cbv zeta. split; [vm_compute; done|].
  exists {| ar_lines := join [c_lf] [js "a"; js "x"]; ar_firstChangedLine := Some 2%Z;
            ar_warnings := None; ar_noopEdits := None |}, [Insert eof (js "x") 1 0].
  split; vm_compute; done.
Qed.
End replay.

(** ** Witnesses: the theorems at a concrete batch *)

Section witnesses.
#[local] Existing Instance demoHasher.

Definition demoFile : list jstring := js <$> ["f() {"; "  a;"; "  b;"; "}"; "end"]%string.
Definition demoAnchor (n : Z) : Anchor :=
  mkAnchor n (computeLineHash n (default [] (arr_at demoFile (n - 1)))).
Definition demoDelete (n src i : Z) : HashlineEdit :=
  Delete {| del_anchor := demoAnchor n; del_lineNum := src; del_index := i; del_oldAssertion := None |}.

(** Replace line 3 by itself changed and a repeated closing brace; insert after line 5. *)
Definition demoEdits : list HashlineEdit :=
  [Insert (before_anchor (demoAnchor 3)) (js "  c;") 1 0;
   Insert (before_anchor (demoAnchor 3)) (js "}") 1 1;
   demoDelete 3 1 2;
   Insert (after_anchor (demoAnchor 5)) (js "tail") 2 3].

(** Insert after line 1 and delete line 5: nothing to absorb. *)
Definition plainEdits : list HashlineEdit :=
  [Insert (after_anchor (demoAnchor 1)) (js "  z;") 1 0; demoDelete 5 2 1].

Definition demoText : jstring := join [c_lf] demoFile.
Definition noOptions : HashlineApplyOptions := {| autoDropPureInsertDuplicates := None |}.

Lemma apply_refines_render_witness : exists res after,
  applyHashlineEdits demoText demoEdits noOptions = Ok (res, after) /\
  ar_lines res = join [c_lf] (renderBatch (normalizedBatch (split_on c_lf demoText) demoEdits noOptions)
                                (split_on c_lf demoText)).
Proof. apply (apply_refines_render demoText demoEdits noOptions); [done|]. apply validate_ok_iff. vm_compute. reflexivity. Defined.

Lemma apply_ok_iff_witness :
  (exists r, applyHashlineEdits demoText demoEdits noOptions = Ok r) <->
  Forall (anchorHolds (split_on c_lf demoText)) (demoEdits ≫= getHashlineEditAnchors).
Proof. apply (apply_ok_iff_anchors_hold demoText demoEdits noOptions). done. Defined.

Lemma apply_without_warnings_witness :
  exists res after, applyHashlineEdits demoText plainEdits noOptions = Ok (res, after) /\
  ar_lines res = join [c_lf] (renderBatch (normalizeCursor (split_on c_lf demoText) <$> plainEdits)
                                (split_on c_lf demoText)).
Proof.
  destruct (applyHashlineEdits demoText plainEdits noOptions) as [[res after]|e] eqn:E;
    [|exfalso; revert E; vm_compute; discriminate].
  exists res, after. split; [reflexivity|].
  apply (apply_without_warnings_is_exact demoText plainEdits noOptions res after E); [done|].
  revert E. vm_compute. intros [= <- <-]. reflexivity.
Defined.


Lemma apply_first_changed_line_witness :
  exists res after, applyHashlineEdits demoText demoEdits noOptions = Ok (res, after) /\
  ar_firstChangedLine res = Some 3%Z /\
  exists new, ar_lines res = join [c_lf] new /\
    take 2 new = take 2 (split_on c_lf demoText).
Proof.
  destruct (applyHashlineEdits demoText demoEdits noOptions) as [[res after]|e] eqn:E;
    [|exfalso; revert E; vm_compute; discriminate].
  pose proof (apply_first_changed_line demoText demoEdits noOptions res after E) as Hf.
  assert (ar_firstChangedLine res = Some 3%Z) as Hm by (revert E; vm_compute; intros [= <- <-]; reflexivity).
  rewrite Hm in Hf. exists res, after. split; [reflexivity|]. split; [exact Hm|exact Hf].
Defined.
End witnesses.
