(* ===== verification/HashlineParser.v ===== *)
(** * Hashline: the edit parser (hashline/parser.ts)

    An edit program is a list of lines: operation lines ([«ANCHOR], [»ANCHOR], [≔A..B]) followed by
    verbatim payload lines. The regular expressions are transcribed constructor by constructor; an
    error value carries the fields of its error class, or what its message interpolates. *)
From S2P Require Import Prelude JsString JsRegex HashlineHash.
From Stdlib Require Import ZifyBool ZifyN.
Open Scope Z_scope.

(** [(?:\|.* )?\s*$] *)
Definition rx_body_tail : regex :=
  rx_seqs [rx_opt (rx_seq (rx_char HL_BODY_SEP) (rx_star rx_any)); rx_star rx_ws; rx_eol].

(** [^\s*[>+\-*]*\s*([1-9]\d* )([a-z]{2})(?:\|.* )?\s*$] *)
Definition LID_CAPTURE_RE : regex :=
  rx_seq rx_bol (rx_seqs [HL_ANCHOR_DECORATION_RE_RAW; HL_HASH_CAPTURE_RE_RAW; rx_body_tail]).

Definition rx_positive : regex := rx_seq rx_nonzero_digit (rx_star rx_digit).

Definition rx_dotdot : regex := rx_lit (js "..").

(** [\.\.\s*[>+\-*]*\s*(?:[1-9]\d*|[a-z]{2}(?:\||\s*$))]: two dots before a possible range end *)
Definition rx_range_end_ahead : regex :=
  rx_seqs [rx_dotdot; HL_ANCHOR_DECORATION_RE_RAW;
    rx_alt rx_positive
      (rx_seqs [rx_lower; rx_lower; rx_alt (rx_char HL_BODY_SEP) (rx_seq (rx_star rx_ws) rx_eol)])].

(** A line number alone, or two of them joined by [-] or [..], with an optional body in which two
    dots before a possible range end are not allowed. *)
Definition BARE_LINE_REF_RE : regex :=
  rx_seq rx_bol (rx_seqs [
    HL_ANCHOR_DECORATION_RE_RAW;
    rx_group 1 rx_positive;
    rx_opt (rx_seqs [rx_star rx_ws; rx_alt (rx_char 45) rx_dotdot; rx_star rx_ws;
                     rx_group 2 rx_positive]);
    rx_opt (rx_seq (rx_char HL_BODY_SEP)
              (rx_star (rx_seq (rx_neg_look rx_range_end_ahead) rx_any)));
    rx_star rx_ws; rx_eol]).

(** [^\s*[>+\-*]*\s*([a-z]{2})(?:\|.* )?\s*$] *)
Definition HASH_ONLY_REF_RE : regex :=
  rx_seq rx_bol (rx_seqs [HL_ANCHOR_DECORATION_RE_RAW; rx_group 1 (rx_seq rx_lower rx_lower);
                          rx_body_tail]).

(** A group that took part in the match. *)
Definition group_text (n : nat) (st : mstate) : jstring := default [] (capture n st).

Section parser.
Context `{LineHasher}.

Definition parseLid (raw : jstring) (lineNum : Z) (opSigil : N) : result HashlineError Anchor :=
  match exec LID_CAPTURE_RE raw with
  | Some m => Ok (mkAnchor (parse_int (group_text 1 m)) (group_text 2 m))
  | None =>
      match exec HASH_ONLY_REF_RE raw with
      | Some m => Throw (HashlineMissingLineError (group_text 1 m) None opSigil None)
      | None =>
          match exec BARE_LINE_REF_RE raw with
          | Some m =>
              let start := parse_int (group_text 1 m) in
              let stop := match capture 2 m with None => start | Some t => parse_int t end in
              Throw (HashlineMissingHashError lineNum (trim raw) (Z.min start stop)
                       (Z.max start stop) opSigil None)
          | None => Throw (ExpectedFullAnchor lineNum raw)
          end
      end
  end.

Record ParsedRange : Type := { start : Anchor; stop : Anchor }.

(** The [catch] clauses of [parseRange]: the two typed errors are rethrown with both endpoints. *)
Definition with_rangeRaw (startRaw endRaw : jstring) (e : HashlineError) : HashlineError :=
  match e with
  | HashlineMissingHashError n raw a b op _ =>
      HashlineMissingHashError n raw a b op (Some (startRaw, endRaw))
  | HashlineMissingLineError h n op _ => HashlineMissingLineError h n op (Some (startRaw, endRaw))
  | e => e
  end.

Definition parseRange (raw : jstring) (lineNum : Z) (opSigil : N) : result HashlineError ParsedRange :=
  _ ← (if test BARE_LINE_REF_RE raw then parseLid raw lineNum opSigil else Ok (mkAnchor 0 []));
  if negb (includes (js "..") raw) then
    a ← parseLid raw lineNum opSigil; Ok {| start := a; stop := a |}
  else
    match split_str (js "..") raw with
    | [startRaw; endRaw] =>
        if bool_decide (startRaw = []) || bool_decide (endRaw = [])
        then Throw (RangeNeedsTwoAnchors lineNum)
        else
          a ← try_catch (parseLid startRaw lineNum opSigil)
                (fun e => Throw (with_rangeRaw startRaw endRaw e));
          b ← try_catch (parseLid endRaw lineNum opSigil)
                (fun e => Throw (with_rangeRaw startRaw endRaw e));
          if line b <? line a then Throw (RangeEndsBeforeStart lineNum startRaw endRaw)
          else if (line b =? line a) && negb (bool_decide (hash b = hash a))
          then Throw (RangeTwoHashes lineNum startRaw endRaw)
          else Ok {| start := a; stop := b |}
    | _ => Throw (RangeNeedsTwoAnchors lineNum)
    end.

Definition expandRange (range : ParsedRange) : list Anchor :=
  (fun l => mkAnchor l
     (if l =? line (start range) then hash (start range)
      else if l =? line (stop range) then hash (stop range) else RANGE_INTERIOR_HASH))
  <$> zrange (line (start range)) (line (stop range)).

Inductive InsertKind : Type := before | after.

Definition parseInsertTarget (raw : jstring) (lineNum : Z) (kind : InsertKind)
    : result HashlineError HashlineCursor :=
  if bool_decide (raw = js "BOF") then Ok bof
  else if bool_decide (raw = js "EOF") then Ok eof
  else match kind with
       | before => a ← parseLid raw lineNum HL_OP_INSERT_BEFORE; Ok (before_anchor a)
       | after => a ← parseLid raw lineNum HL_OP_INSERT_AFTER; Ok (after_anchor a)
       end.

Definition resolveInlineInsertBody (cursor : HashlineCursor) (body : option jstring) : option jstring :=
  match body with
  | None => None
  | Some text =>
      match cursor with
      | before_anchor a | after_anchor a =>
          if bool_decide (computeLineHash (line a) text = hash a) then None else Some text
      | bof | eof => Some text
      end
  end.

(** [^SIGIL\s*([^|\s]+)(?:\|(.* ))?\s*$] *)
Definition insertOpRe (sigil : N) : regex :=
  rx_seq rx_bol (rx_seqs [
    rx_char sigil; rx_star rx_ws;
    rx_group 1 (rx_plus (rx_class (fun c => negb (c =? HL_BODY_SEP)%N && negb (is_ws c))));
    rx_opt (rx_seq (rx_char HL_BODY_SEP) (rx_group 2 (rx_star rx_any)));
    rx_star rx_ws; rx_eol]).

Definition INSERT_BEFORE_OP_RE : regex := insertOpRe HL_OP_INSERT_BEFORE.
Definition INSERT_AFTER_OP_RE : regex := insertOpRe HL_OP_INSERT_AFTER.

(** [^≔\s*([^\s+<\-=]\S*(?:\|.* )?)\s*$] *)
Definition REPLACE_OP_RE : regex :=
  rx_seq rx_bol (rx_seqs [
    rx_char HL_OP_REPLACE; rx_star rx_ws;
    rx_group 1 (rx_seqs [
      rx_class (fun c => negb (is_ws c) && negb (existsb (N.eqb c) (js "+<-=")));
      rx_star rx_nonws; rx_opt (rx_seq (rx_char HL_BODY_SEP) (rx_star rx_any))]);
    rx_star rx_ws; rx_eol]).

Definition isEnvelopeOrAbortMarkerLine (l : jstring) : bool :=
  let trimmed := trim_end l in
  bool_decide (trimmed = BEGIN_PATCH_MARKER) || bool_decide (trimmed = END_PATCH_MARKER)
  || bool_decide (trimmed = ABORT_MARKER).

Definition isPayloadTerminatorLine (l : jstring) : bool :=
  match l with
  | first :: _ => (first =? HL_FILE_PREFIX)%N || existsb (N.eqb first) HL_OP_CHARS
  | [] => false
  end || isEnvelopeOrAbortMarkerLine l.

Record EmptyInsertContext : Type := { op : jstring; echoedAnchorText : bool }.

Definition emptyInsertContext (sigil : N) (m : mstate) (inlineBody : option jstring)
    : option EmptyInsertContext :=
  match inlineBody with
  | Some _ => None
  | None => Some {| op := sigil :: group_text 1 m;
                    echoedAnchorText := bool_decide (is_Some (capture 2 m)) |}
  end.

(** The payload lines from the front of [rest], and what is left. *)
Fixpoint takePayload (rest : list jstring) : list jstring * list jstring :=
  match rest with
  | [] => ([], [])
  | l :: rest' =>
      if isPayloadTerminatorLine l then ([], rest)
      else let '(p, r) := takePayload rest' in (l :: p, r)
  end.

(** [collectPayload] on the lines after the operation line. *)
Definition collectPayload (rest : list jstring) (opLineNum : Z) (emptyInsert : option EmptyInsertContext)
    : result HashlineError (list jstring * list jstring) :=
  let '(payload, rest') := takePayload rest in
  match payload, emptyInsert with
  | [], Some c => Throw (EmptyInsert opLineNum (op c) (echoedAnchorText c))
  | _, _ => Ok (payload, rest')
  end.

(** [pushInsert] for several lines of text, from edit index [idx]. *)
Definition pushInserts (cursor : HashlineCursor) (texts : list jstring) (lineNum idx : Z)
    : list HashlineEdit :=
  imap (fun i t => Insert cursor t lineNum (idx + Z.of_nat i)) texts.

Definition pushDeletes (anchors : list Anchor) (lineNum idx : Z) : list HashlineEdit :=
  imap (fun i a => Delete {| del_anchor := a; del_lineNum := lineNum; del_index := idx + Z.of_nat i;
                             del_oldAssertion := None |}) anchors.

(** An insert operation: its edits and the lines left. *)
Definition parseInsertOp (sigil : N) (kind : InsertKind) (m : mstate) (rest : list jstring)
    (lineNum idx : Z) : result HashlineError (list HashlineEdit * list jstring) :=
  cursor ← parseInsertTarget (group_text 1 m) lineNum kind;
  let inlineBody := resolveInlineInsertBody cursor (capture 2 m) in
  '(payload, rest') ← collectPayload rest lineNum (emptyInsertContext sigil m inlineBody);
  Ok (pushInserts cursor (option_list inlineBody ++ payload) lineNum idx, rest').

(** A replace operation: payload inserted before the first line, then the lines of the range. *)
Definition parseReplaceOp (m : mstate) (rest : list jstring) (lineNum idx : Z)
    : result HashlineError (list HashlineEdit * list jstring) :=
  range ← parseRange (group_text 1 m) lineNum HL_OP_REPLACE;
  '(payload, rest') ← collectPayload rest lineNum None;
  Ok (pushInserts (before_anchor (start range)) payload lineNum idx
      ++ pushDeletes (expandRange range) lineNum (idx + zlength payload), rest').

(** [^[-@¶]] *)
Definition rx_foreign_op : regex := rx_seq rx_bol (rx_one_of [45; 64; 182]%N).

(** One round of the loop over the lines, [l] being [lines[i]] and [rest'] the lines after it: a
    final answer, or the lines left, the number of the next one, and the edits added. *)
Inductive round : Type :=
| Done (r : result HashlineError (list HashlineEdit * list jstring))
| Next (rest : list jstring) (lineNum : Z) (new : list HashlineEdit).

Definition opRound (rest' : list jstring) (lineNum : Z)
    (r : result HashlineError (list HashlineEdit * list jstring)) : round :=
  match r with
  | Ok (new, rest'') => Next rest'' (lineNum + 1 + (zlength rest' - zlength rest'')) new
  | Throw e => Done (Throw e)
  end.

Definition parseRound (l : jstring) (rest' : list jstring) (lineNum : Z) (edits : list HashlineEdit)
    (warnings : list jstring) : round :=
  if (length (trim l) =? 0)%nat then Next rest' (lineNum + 1) []
  else if bool_decide (l = END_PATCH_MARKER) then Done (Ok (edits, warnings))
  else if bool_decide (l = ABORT_MARKER) then Done (Ok (edits, warnings ++ [ABORT_WARNING]))
  else if bool_decide (l = BEGIN_PATCH_MARKER) then Next rest' (lineNum + 1) []
  else match exec INSERT_BEFORE_OP_RE l with
  | Some m => opRound rest' lineNum
                (parseInsertOp HL_OP_INSERT_BEFORE before m rest' lineNum (zlength edits))
  | None =>
      match exec INSERT_AFTER_OP_RE l with
      | Some m => opRound rest' lineNum
                    (parseInsertOp HL_OP_INSERT_AFTER after m rest' lineNum (zlength edits))
      | None =>
          match exec REPLACE_OP_RE l with
          | Some m => opRound rest' lineNum (parseReplaceOp m rest' lineNum (zlength edits))
          | None => Done (Throw (if isPayloadTerminatorLine l || test rx_foreign_op l
                                 then UnrecognizedOp lineNum l else PayloadWithoutOp lineNum l))
          end
      end
  end.

(** The loop. Every round consumes a line, so the number of lines is enough fuel. *)
Fixpoint parseLoop (fuel : nat) (rest : list jstring) (lineNum : Z) (edits : list HashlineEdit)
    (warnings : list jstring) : result HashlineError (list HashlineEdit * list jstring) :=
  match fuel, rest with
  | _, [] | O, _ => Ok (edits, warnings)
  | S fuel, l :: rest' =>
      match parseRound l rest' lineNum edits warnings with
      | Done r => r
      | Next rest'' lineNum' new => parseLoop fuel rest'' lineNum' (edits ++ new) warnings
      end
  end.

(** The lines of a program; a final newline does not start another line. *)
Definition programLines (diff : jstring) : list jstring :=
  let lines := split_crlf diff in
  if ends_with_unit c_lf diff && bool_decide (last lines = Some []) then removelast lines else lines.

Definition parseHashlineWithWarnings (diff : jstring)
    : result HashlineError (list HashlineEdit * list jstring) :=
  let lines := programLines diff in parseLoop (length lines) lines 1 [] [].

Definition parseHashline (diff : jstring) : result HashlineError (list HashlineEdit) :=
  r ← parseHashlineWithWarnings diff; Ok r.1.

End parser.

(** ** What the anchor pattern matches *)

(** The letters of a line hash, as written in an anchor. *)
Definition is_hash (h : jstring) : Prop := is_bigram h = true.

Lemma rsem_lower2 st st' :
  rsem (rx_seq rx_lower rx_lower) st st' ->
  exists a b, eats st [a; b] st' /\ is_hash [a; b] /\ caps st' = caps st.
Proof.
  intros (m & (a & s & E & Ha & ->) & (b & t & E' & Hb & ->)). simpl in E'. subst s.
  exists a, b. split_and!; [by split| |done]. unfold is_hash. simpl. by rewrite Ha, Hb.
Qed.

Lemma rsem_positive st st' :
  rsem rx_positive st st' ->
  exists c ds, eats st (c :: ds) st' /\ (49 <= c <= 57)%N /\
    Forall (fun c => is_digit c = true) ds /\ caps st' = caps st.
Proof.
  intros (m & (c & s & E & Hc & ->) & (ds & He & Hds & Hcs)%rsem_star_class).
  apply andb_true_iff in Hc as [H1%N.leb_le H2%N.leb_le].
  exists c, ds. split_and!; try done.
  change (c :: ds) with ([c] ++ ds). eapply eats_trans; [|done]. by split.
Qed.

Lemma digit_cons_nonzero c u :
  (49 <= c <= 57)%N -> (1 <= N.of_uint (digit_cons c u))%N.
Proof.
  intros Hc. destruct (N.eq_dec (N.of_uint (digit_cons c u)) 0) as [E|]; [exfalso|lia].
  apply (f_equal N.to_uint) in E. rewrite DecimalN.Unsigned.to_of in E.
  assert (c = 49 \/ c = 50 \/ c = 51 \/ c = 52 \/ c = 53 \/ c = 54 \/ c = 55 \/ c = 56 \/ c = 57)%N
    as Hcs by lia.
  by repeat destruct Hcs as [->|Hcs]; try subst c.
Qed.

Lemma parse_int_positive c ds : (49 <= c <= 57)%N -> 1 <= parse_int (c :: ds).
Proof.
  intros Hc. unfold parse_int. simpl. assert (is_digit c = true) as ->.
  { unfold is_digit. rewrite andb_true_iff, !N.leb_le. lia. }
  pose proof (digit_cons_nonzero c (digits_uint ds) Hc). lia.
Qed.

Section parser_facts.
Context `{LineHasher}.

Definition anchor_ok (a : Anchor) : Prop := 1 <= line a /\ is_hash (hash a) /\ contentHint a = None.

Lemma parseLid_ok raw n sigil a : parseLid raw n sigil = Ok a -> anchor_ok a.
Proof.
  unfold parseLid. destruct (exec LID_CAPTURE_RE raw) as [m|] eqn:E; [|by repeat case_match].
  intros [= <-]. apply exec_bol_sound in E as (m1 & Hdec & m2 & Hcap & Htail).
  destruct Hcap as (m3 & (m4 & Hpos & ->) & (m5 & Hlow & ->)).
  apply rsem_positive in Hpos as (c & ds & He & Hc & _ & Hcs).
  apply rsem_lower2 in Hlow as (x & y & He' & Hh & Hcs').
  apply rsem_no_groups in Htail; [|done]. unfold group_text, capture. rewrite Htail. simpl.
  rewrite Hcs'. simpl. split; simpl; [|split; [|done]].
  - rewrite (eats_consumed_since _ _ _ He). by apply parse_int_positive.
  - by rewrite (eats_consumed_since _ _ _ He').
Qed.

(** A range runs forward, and a one-line range has one hash. *)
Definition range_ok (r : ParsedRange) : Prop :=
  anchor_ok (start r) /\ anchor_ok (stop r) /\ line (start r) <= line (stop r) /\
  (line (start r) = line (stop r) -> hash (start r) = hash (stop r)).

Lemma parseRange_ok raw n sigil r : parseRange raw n sigil = Ok r -> range_ok r.
Proof.
  unfold parseRange. intros (_ & _ & Hr)%bind_Ok. case_match.
  - apply bind_Ok in Hr as (a & Ha%parseLid_ok & [= <-]). split_and!; done.
  - destruct (split_str _ raw) as [|x [|y [|]]]; try done. case_match; [done|].
    apply bind_Ok in Hr as (a & Ha & Hr). apply bind_Ok in Hr as (b & Hb & Hr).
    destruct (parseLid x n sigil) as [a'|] eqn:Ea; [|done]. injection Ha as <-.
    destruct (parseLid y n sigil) as [b'|] eqn:Eb; [|done]. injection Hb as <-.
    apply parseLid_ok in Ea, Eb. case_match; [done|]. case_match eqn:Eh; [done|].
    injection Hr as <-. split_and!; simpl; try apply Ea; try apply Eb; zify_bool; [lia|].
    intros E. rewrite E, Z.eqb_refl in Eh. simpl in Eh. zify_bool. done.
Qed.

Definition delete_anchor_ok (a : Anchor) : Prop :=
  1 <= line a /\ (is_hash (hash a) \/ hash a = RANGE_INTERIOR_HASH) /\ contentHint a = None.

Lemma expandRange_ok r : range_ok r -> Forall delete_anchor_ok (expandRange r).
Proof.
  intros ((H1 & H2 & _) & (H3 & H4 & _) & _). apply Forall_forall. unfold expandRange.
  intros a (l & -> & Hl%elem_of_zrange)%list_elem_of_fmap. split_and!; simpl; [lia| |done].
  repeat case_match; auto.
Qed.

Definition cursor_ok (c : HashlineCursor) : Prop :=
  match c with before_anchor a | after_anchor a => anchor_ok a | bof | eof => True end.

Lemma parseInsertTarget_ok raw n k c : parseInsertTarget raw n k = Ok c -> cursor_ok c.
Proof.
  unfold parseInsertTarget. repeat case_match; try (by intros [= <-]);
    intros (a & Ha%parseLid_ok & [= <-])%bind_Ok; done.
Qed.

Definition edit_ok (total : Z) (e : HashlineEdit) : Prop :=
  1 <= edit_lineNum e <= total /\
  match e with
  | Insert c _ _ _ => cursor_ok c
  | Delete d => delete_anchor_ok (del_anchor d) /\ del_oldAssertion d = None
  end.

(** The edits parsed so far carry the indices 0, 1, 2, ... *)
Definition edits_ok (total idx : Z) (edits : list HashlineEdit) : Prop :=
  edit_index <$> edits = zseq idx (length edits) /\ Forall (edit_ok total) edits.

Lemma edits_ok_app total idx es es' :
  edits_ok total idx es -> edits_ok total (idx + zlength es) es' -> edits_ok total idx (es ++ es').
Proof.
  intros [H1 H2] [H3 H4]. split; [|by apply Forall_app].
  by rewrite fmap_app, length_app, zseq_app, H1, H3.
Qed.

Lemma fmap_imap_zseq {A B} (f : B -> Z) (g : nat -> A -> B) idx (l : list A) :
  (forall i a, f (g i a) = idx + Z.of_nat i) -> f <$> imap g l = zseq idx (length l).
Proof.
  intros Hfg. apply list_eq. intros i. unfold zseq. rewrite !list_lookup_fmap, list_lookup_imap.
  destruct (l !! i) as [a|] eqn:E; simpl.
  - rewrite lookup_seq_lt by by eapply lookup_lt_Some. simpl. by rewrite Hfg.
  - rewrite lookup_seq_ge by by apply lookup_ge_None. done.
Qed.

Lemma pushInserts_ok total c ts n idx :
  cursor_ok c -> 1 <= n <= total -> edits_ok total idx (pushInserts c ts n idx).
Proof.
  intros Hc Hn. unfold pushInserts. split; [rewrite length_imap; by apply fmap_imap_zseq|].
  apply Forall_forall. intros e (i & x & -> & _)%elem_of_lookup_imap. done.
Qed.

Lemma pushDeletes_ok total anchors n idx :
  Forall delete_anchor_ok anchors -> 1 <= n <= total -> edits_ok total idx (pushDeletes anchors n idx).
Proof.
  intros Ha Hn. unfold pushDeletes. split; [rewrite length_imap; by apply fmap_imap_zseq|].
  rewrite Forall_forall in Ha. apply Forall_forall.
  intros e (i & x & -> & Hx)%elem_of_lookup_imap. split; [done|]. split; [|done]. simpl.
  apply Ha. by eapply list_elem_of_lookup_2.
Qed.

Lemma length_pushInserts c ts n idx : zlength (pushInserts c ts n idx) = zlength ts.
Proof. unfold pushInserts, zlength. by rewrite length_imap. Qed.

(** The lines after an operation are a payload and the lines left. *)
Lemma takePayload_app rest :
  let '(p, r) := takePayload rest in
  rest = p ++ r /\ Forall (fun l => isPayloadTerminatorLine l = false) p /\
  match r with l :: _ => isPayloadTerminatorLine l = true | [] => True end.
Proof.
  induction rest as [|l rest IH]; simpl; [done|].
  destruct (isPayloadTerminatorLine l) eqn:E; [done|].
  destruct (takePayload rest) as [p r]. destruct IH as (-> & ? & ?). split_and!; [done| |done].
  by constructor.
Qed.

Lemma collectPayload_spec rest n e p r :
  collectPayload rest n e = Ok (p, r) -> takePayload rest = (p, r) /\ (p = [] -> e = None).
Proof.
  unfold collectPayload. destruct (takePayload rest) as [p' r']. repeat case_match; intros; by simplify_eq.
Qed.

Lemma collectPayload_app rest n e p r : collectPayload rest n e = Ok (p, r) -> rest = p ++ r.
Proof.
  intros [E _]%collectPayload_spec. pose proof (takePayload_app rest) as Ht. rewrite E in Ht.
  by destruct Ht as [-> _].
Qed.

Lemma parseInsertOp_ok total sigil k m rest n idx es rest' :
  1 <= n <= total -> parseInsertOp sigil k m rest n idx = Ok (es, rest') -> edits_ok total idx es.
Proof.
  intros Hn. unfold parseInsertOp. intros (c & Hc%parseInsertTarget_ok & Hr)%bind_Ok.
  apply bind_Ok in Hr as ([p r] & Hp & [= <- <-]). by apply pushInserts_ok.
Qed.

Lemma parseReplaceOp_ok total m rest n idx es rest' :
  1 <= n <= total -> parseReplaceOp m rest n idx = Ok (es, rest') -> edits_ok total idx es.
Proof.
  intros Hn. unfold parseReplaceOp. intros (range & Hrange%parseRange_ok & Hr)%bind_Ok.
  apply bind_Ok in Hr as ([p r] & Hp & [= <- <-]).
  apply edits_ok_app; [apply pushInserts_ok; [apply Hrange|done]|].
  rewrite length_pushInserts. apply pushDeletes_ok; [by apply expandRange_ok|done].
Qed.

(** Operations leave a suffix of the lines. *)
Lemma parseInsertOp_suffix sigil k m rest n idx es rest' :
  parseInsertOp sigil k m rest n idx = Ok (es, rest') -> (length rest' <= length rest)%nat.
Proof.
  unfold parseInsertOp. intros (c & _ & Hr)%bind_Ok.
  apply bind_Ok in Hr as ([p r] & Hp%collectPayload_app & [= <- <-]). subst.
  rewrite length_app. lia.
Qed.

Lemma parseReplaceOp_suffix m rest n idx es rest' :
  parseReplaceOp m rest n idx = Ok (es, rest') -> (length rest' <= length rest)%nat.
Proof.
  unfold parseReplaceOp. intros (range & _ & Hr)%bind_Ok.
  apply bind_Ok in Hr as ([p r] & Hp%collectPayload_app & [= <- <-]). subst.
  rewrite length_app. lia.
Qed.

(** ** The loop *)

Lemma parseLoop_round fuel l rest' n edits ws :
  parseLoop (S fuel) (l :: rest') n edits ws =
    match parseRound l rest' n edits ws with
    | Done r => r
    | Next rest'' n' new => parseLoop fuel rest'' n' (edits ++ new) ws
    end.
Proof. done. Qed.

Lemma parseRound_next l rest' n edits ws rest'' n' new :
  parseRound l rest' n edits ws = Next rest'' n' new ->
  (length rest'' <= length rest')%nat /\ n' + zlength rest'' = n + 1 + zlength rest' /\
  forall total, 1 <= n <= total -> edits_ok total (zlength edits) new.
Proof.
  unfold parseRound, opRound.
  repeat case_match; intros; simplify_eq; try done;
    try (split_and!; [done|lia|intros; by split]).
  - split_and!; [by eapply parseInsertOp_suffix|lia|intros; by eapply parseInsertOp_ok].
  - split_and!; [by eapply parseInsertOp_suffix|lia|intros; by eapply parseInsertOp_ok].
  - split_and!; [by eapply parseReplaceOp_suffix|lia|intros; by eapply parseReplaceOp_ok].
Qed.

Lemma parseRound_done l rest' n edits ws es ws' :
  parseRound l rest' n edits ws = Done (Ok (es, ws')) -> es = edits.
Proof. unfold parseRound, opRound. repeat case_match; intros; by simplify_eq. Qed.

Lemma parseLoop_fuel f1 f2 rest n edits ws :
  (length rest <= f1)%nat -> (length rest <= f2)%nat ->
  parseLoop f1 rest n edits ws = parseLoop f2 rest n edits ws.
Proof.
  revert f2 rest n edits. induction f1 as [|f1 IH]; intros f2 rest n edits H1 H2.
  { destruct rest; [by destruct f2|simpl in H1; lia]. }
  destruct rest as [|l rest']; [by destruct f2|]. simpl in H1, H2.
  destruct f2 as [|f2]; [lia|]. rewrite !parseLoop_round.
  destruct (parseRound l rest' n edits ws) as [r|rest'' n' new] eqn:E; [done|].
  apply parseRound_next in E as (Hl & _). apply IH; lia.
Qed.

Lemma parseLoop_ok total fuel rest n edits ws es ws' :
  edits_ok total 0 edits -> 1 <= n -> n + zlength rest = total + 1 ->
  parseLoop fuel rest n edits ws = Ok (es, ws') -> edits_ok total 0 es.
Proof.
  revert rest n edits. induction fuel as [|fuel IH]; intros rest n edits He Hn Ht Hp.
  { destruct rest; by simplify_eq/=. }
  destruct rest as [|l rest']; [by simplify_eq/=|]. rewrite parseLoop_round in Hp.
  unfold zlength in Ht. simpl length in Ht.
  destruct (parseRound l rest' n edits ws) as [r|rest'' n' new] eqn:E.
  - subst r. apply parseRound_done in E as ->. done.
  - apply parseRound_next in E as (Hl & Hn' & Hnew). unfold zlength in *.
    eapply IH; [|..|exact Hp]; [|lia..].
    apply edits_ok_app; [done|]. apply Hnew. lia.
Qed.

End parser_facts.

(** ** Matching canonical text *)

(** The classes the patterns distinguish are disjoint. *)
Ltac unit_cases :=
  unfold is_digit, is_lower, is_ws, is_line_terminator, HL_BODY_SEP in *; simpl in *; lia.

(** A decoration before an anchor: white space, then marks, then white space. *)
Definition is_mark (c : N) : bool := existsb (N.eqb c) (js ">+-*").
Definition is_decoration (d : jstring) : Prop :=
  exists w1 w2 w3, d = w1 ++ w2 ++ w3 /\ Forall (fun c => is_ws c = true) w1 /\
    Forall (fun c => is_mark c = true) w2 /\ Forall (fun c => is_ws c = true) w3 /\
    (w2 = [] -> w3 = []).

Lemma decoration_nil : is_decoration [].
Proof. exists [], [], []. by split_and!; try constructor. Qed.

Lemma decoration_match bef d c s cs k x :
  is_decoration d -> is_digit c = true -> k (MState (reverse d ++ bef) (c :: s) cs) = Some x ->
  rmatch HL_ANCHOR_DECORATION_RE_RAW (MState bef (d ++ c :: s) cs) k = Some x.
Proof.
  intros (w1 & w2 & w3 & -> & F1 & F2 & F3 & H23) Hc Hk. rewrite <- !app_assoc.
  assert (is_ws c = false /\ is_mark c = false) as [Hc1 Hc2] by (unfold is_mark; unit_cases).
  apply seq_match, star_class_greedy; [done| |].
  { destruct w2 as [|d w2]; [by rewrite H23|]. apply Forall_cons in F2 as [F2 _].
    unfold is_mark in F2. simpl. unit_cases. }
  apply seq_match, star_class_greedy; [done| |].
  { destruct w3 as [|d w3]; [done|]. apply Forall_cons in F3 as [F3 _]. simpl. unit_cases. }
  apply star_class_greedy; [done|done|]. by rewrite !reverse_app, <- !app_assoc in Hk.
Qed.

(** [(?:\|.* )?\s*$] on nothing and on a body without line terminators. *)
Definition is_tail (t : jstring) : Prop :=
  t = [] \/ exists text, t = HL_BODY_SEP :: text /\ Forall (fun c => is_line_terminator c = false) text.

Lemma ws_eol_match bef cs k x :
  k (MState bef [] cs) = Some x ->
  rmatch (rx_seq (rx_star rx_ws) rx_eol) (MState bef [] cs) k = Some x.
Proof. intros Hk. apply seq_match, star_class_skip; [done|]. by apply eol_match. Qed.

Lemma body_tail_match bef t cs :
  is_tail t -> rmatch rx_body_tail (MState bef t cs) Some = Some (MState (reverse t ++ bef) [] cs).
Proof.
  intros [->|(text & -> & Ht)].
  - apply seq_match, alt_match_r; [done|]. by apply ws_eol_match.
  - apply seq_match, alt_match_l, seq_match, class_match; [apply N.eqb_refl|].
    rewrite <- (app_nil_r text) at 1. apply star_class_greedy; [|done|].
    + eapply Forall_impl; [exact Ht|]. intros c Hc. simpl. by rewrite Hc.
    + apply ws_eol_match. by rewrite reverse_cons, <- app_assoc.
Qed.

(** A full anchor [NUM][HASH], decorated and with an optional body, is read as that anchor. *)
Lemma lid_match d n h t :
  is_decoration d -> 1 <= n -> is_hash h -> is_tail t ->
  exists m, exec LID_CAPTURE_RE (d ++ z_str n ++ h ++ t) = Some m /\
    group_text 1 m = z_str n /\ group_text 2 m = h.
Proof.
  intros Hd Hn Hh Ht. destruct (z_str_head n ltac:(lia)) as (c & ds & -> & Hc & Hds).
  destruct h as [|a [|b [|]]]; try done. unfold is_hash in Hh. simpl in Hh.
  apply andb_true_iff in Hh as [Ha Hb].
  eexists. split.
  - unfold LID_CAPTURE_RE. rewrite exec_bol. unfold match_at. apply seq_match. cbn [rmatch consumed].
    apply seq_match. apply decoration_match; [done|unit_cases|].
    apply seq_match. apply seq_match, group_match, seq_match, class_match; [unit_cases|].
    apply star_class_greedy; [done|simpl; unit_cases|].
    apply group_match, seq_match, class_match; [done|]. apply class_match; [done|].
    by apply body_tail_match.
  - unfold group_text, capture. simpl. split; apply eats_consumed_since; split; simpl; try done.
    by rewrite reverse_cons, <- app_assoc.
Qed.

Section canonical.
Context `{LineHasher}.

Lemma parseLid_decorated d n h t lineNum sigil :
  is_decoration d -> 1 <= n -> is_hash h -> is_tail t ->
  parseLid (d ++ z_str n ++ h ++ t) lineNum sigil = Ok (mkAnchor n h).
Proof.
  intros Hd Hn Hh Ht. destruct (lid_match d n h t Hd Hn Hh Ht) as (m & Hm & H1 & H2).
  unfold parseLid. rewrite Hm, H1, H2, parse_int_z_str by lia. done.
Qed.

Lemma parseLid_canonical n h t lineNum sigil :
  1 <= n -> is_hash h -> is_tail t ->
  parseLid (z_str n ++ h ++ t) lineNum sigil = Ok (mkAnchor n h).
Proof. apply (parseLid_decorated []), decoration_nil. Qed.

(** roundtrip. What the read tool prints for a line is accepted back as the anchor of exactly
    that line: [LINE+HASH] alone, and the whole printed line [LINE+HASH|TEXT] pasted verbatim. *)
Theorem printed_line_is_an_anchor n text lineNum sigil :
  1 <= n -> Forall (fun c => is_line_terminator c = false) text ->
  parseLid (formatLineHash n text) lineNum sigil = Ok (mkAnchor n (computeLineHash n text)) /\
  parseLid (formatHashLine n text) lineNum sigil = Ok (mkAnchor n (computeLineHash n text)).
Proof.
  intros Hn Ht. pose proof (computeLineHash_bigram n text) as Hh. split.
  - pose proof (parseLid_canonical n (computeLineHash n text) [] lineNum sigil Hn Hh) as Hp.
    rewrite app_nil_r in Hp. apply Hp. by left.
  - unfold formatHashLine. apply parseLid_canonical; [done|done|]. right. by exists text.
Qed.

End canonical.

Lemma printed_line_is_an_anchor_witness :
  parseLid (formatHashLine (H := demoHasher) 42 (js "return x;")) 1 HL_OP_REPLACE
  = Ok (mkAnchor 42 (computeLineHash (H := demoHasher) 42 (js "return x;"))).
Proof.
  apply (printed_line_is_an_anchor (H := demoHasher) 42 (js "return x;") 1 HL_OP_REPLACE); [lia|].
  repeat constructor.
Defined.

Section parsed_edits.
Context `{LineHasher}.

(** Invariant. Whatever text the model writes, the edits a successful parse returns are well
    formed: numbered 0, 1, 2, ... in program order, each naming a line of the program as its origin,
    each anchored at a positive line with a two-letter hash, except that the interior lines of a
    range carry the wildcard hash. *)
Theorem parsed_edits_are_well_formed diff edits warnings :
  parseHashlineWithWarnings diff = Ok (edits, warnings) ->
  edit_index <$> edits = zseq 0 (length edits) /\
  Forall (edit_ok (zlength (programLines diff))) edits.
Proof.
  unfold parseHashlineWithWarnings. intros Hp.
  eapply (parseLoop_ok (zlength (programLines diff))) in Hp; [exact Hp|..|lia]; [|lia].
  split; [done|constructor].
Qed.

(** termination. The loop over the lines of a program stops by itself: any fuel that covers
    the lines gives the same answer, so the bound in the definition is never what ends a parse. *)
Theorem parser_loop_terminates diff extra :
  parseLoop (length (programLines diff) + extra) (programLines diff) 1 [] [] =
  parseHashlineWithWarnings diff.
Proof. apply parseLoop_fuel; lia. Qed.

End parsed_edits.

Lemma parsed_edits_are_well_formed_witness :
  Forall (edit_ok 2)
    [Insert (before_anchor (mkAnchor 3 (js "ab"))) (js "x") 1 0;
     Delete {| del_anchor := mkAnchor 3 (js "ab"); del_lineNum := 1; del_index := 1;
               del_oldAssertion := None |}].
Proof.
  apply (parsed_edits_are_well_formed (H := demoHasher)
           (HL_OP_REPLACE :: js "3ab" ++ [c_lf] ++ js "x") _ []).
  vm_compute. reflexivity.
Defined.
