(* ===== verification/HashlineRoundTrip.v ===== *)
(** * Hashline: printing and parsing an edit program

    The abstract syntax of edit programs, their text, and the edits they stand for: the parser of
    [HashlineParser] reads the text of every well-formed program back as its edits. *)
From S2P Require Import Prelude JsString JsRegex HashlineHash HashlineParser.
From Stdlib Require Import ZifyBool ZifyN.
Open Scope Z_scope.

(** ** Edit programs *)

Inductive target : Type := at_bof | at_eof | at_line (a : Anchor).

Inductive operation : Type :=
| InsertOp (kind : InsertKind) (t : target) (payload : list jstring)
| ReplaceOp (range : ParsedRange) (payload : list jstring).

Definition op_sigil (o : operation) : N :=
  match o with
  | InsertOp before _ _ => HL_OP_INSERT_BEFORE
  | InsertOp after _ _ => HL_OP_INSERT_AFTER
  | ReplaceOp _ _ => HL_OP_REPLACE
  end.

Definition op_payload (o : operation) : list jstring :=
  match o with InsertOp _ _ p | ReplaceOp _ p => p end.

Definition anchor_text (a : Anchor) : jstring := z_str (line a) ++ hash a.

Definition target_text (t : target) : jstring :=
  match t with at_bof => js "BOF" | at_eof => js "EOF" | at_line a => anchor_text a end.

Definition range_text (r : ParsedRange) : jstring :=
  if line (start r) =? line (stop r) then anchor_text (start r)
  else anchor_text (start r) ++ js ".." ++ anchor_text (stop r).

Definition op_text (o : operation) : jstring :=
  match o with InsertOp _ t _ => target_text t | ReplaceOp r _ => range_text r end.

Definition op_lines (o : operation) : list jstring := (op_sigil o :: op_text o) :: op_payload o.

(** The text of a program: every line ends in a line feed. *)
Definition lines_text (ls : list jstring) : jstring := concat ((fun l => l ++ [c_lf]) <$> ls).
Definition program_text (ops : list operation) : jstring := lines_text (ops ≫= op_lines).

(** ** What a program stands for *)

Definition target_cursor (kind : InsertKind) (t : target) : HashlineCursor :=
  match t, kind with
  | at_bof, _ => bof
  | at_eof, _ => eof
  | at_line a, before => before_anchor a
  | at_line a, after => after_anchor a
  end.

(** The anchors of the lines a range covers: the endpoints, and the wildcard in between. *)
Definition range_anchors (r : ParsedRange) : list Anchor :=
  if line (start r) =? line (stop r) then [start r]
  else start r :: ((fun l => mkAnchor l (js "**")) <$> zrange (line (start r) + 1) (line (stop r) - 1))
       ++ [stop r].

(** The edits of an operation, each waiting for its index. *)
Definition op_actions (lineNum : Z) (o : operation) : list (Z -> HashlineEdit) :=
  match o with
  | InsertOp kind t p => (fun text i => Insert (target_cursor kind t) text lineNum i) <$> p
  | ReplaceOp r p =>
      ((fun text i => Insert (before_anchor (start r)) text lineNum i) <$> p)
      ++ ((fun a i => Delete {| del_anchor := a; del_lineNum := lineNum; del_index := i;
                                del_oldAssertion := None |}) <$> range_anchors r)
  end.

(** Operation lines are counted from [lineNum]. *)
Fixpoint program_actions (lineNum : Z) (ops : list operation) : list (Z -> HashlineEdit) :=
  match ops with
  | [] => []
  | o :: ops' => op_actions lineNum o ++ program_actions (lineNum + 1 + zlength (op_payload o)) ops'
  end.

Definition numbered_from (idx : Z) (actions : list (Z -> HashlineEdit)) : list HashlineEdit :=
  imap (fun i act => act (idx + Z.of_nat i)) actions.

Definition program_edits (ops : list operation) : list HashlineEdit :=
  numbered_from 0 (program_actions 1 ops).

(** A payload line: not an operation, file header or marker, free of line feeds, and not ending in
    a carriage return, which the line splitter would drop. *)
Definition payload_line (l : jstring) : Prop :=
  isPayloadTerminatorLine l = false /\ (c_lf ∉ l) /\ last l ≠ Some c_cr.

Definition operation_ok (o : operation) : Prop :=
  Forall payload_line (op_payload o) /\
  match o with
  | InsertOp _ t p => p ≠ [] /\ match t with at_line a => anchor_ok a | _ => True end
  | ReplaceOp r _ => range_ok r
  end.

(** ** The lines of a text *)

Lemma lines_text_cons l ls : lines_text (l :: ls) = l ++ c_lf :: lines_text ls.
Proof. unfold lines_text. rewrite fmap_cons. cbn [concat]. by rewrite <- app_assoc. Qed.

Lemma split_crlf_lines ls : Forall plain_line ls -> split_crlf (lines_text ls) = ls ++ [[]].
Proof.
  induction 1 as [|l ls [Hlf Hcr] _ IH]; [done|].
  by rewrite lines_text_cons, split_crlf_line, IH.
Qed.

Lemma last_lines_text ls : ls ≠ [] -> last (lines_text ls) = Some c_lf.
Proof.
  induction ls as [|l ls IH]; [done|]. intros _. rewrite lines_text_cons.
  destruct ls as [|l' ls]; [apply last_snoc|].
  change (c_lf :: ?s) with ([c_lf] ++ s). by rewrite app_assoc, last_app, IH.
Qed.

Lemma programLines_text ls :
  ls ≠ [] -> Forall plain_line ls -> programLines (lines_text ls) = ls.
Proof.
  intros Hne Hls. unfold programLines. rewrite split_crlf_lines by done.
  unfold ends_with_unit. rewrite last_lines_text by done. rewrite last_snoc. simpl.
  by rewrite removelast_last.
Qed.

(** ** Operation lines *)

Lemma sigil_nonws o : is_ws (op_sigil o) = false.
Proof. by destruct o as [[]|]. Qed.

Lemma trim_end_nonws c s : is_ws c = false -> trim_end (c :: s) ≠ [].
Proof. intros Hc. simpl. rewrite Hc. by destruct (trim_end s). Qed.

Lemma trim_nonws c s : is_ws c = false -> (length (trim (c :: s)) =? 0)%nat = false.
Proof.
  intros Hc. unfold trim. simpl trim_start. rewrite Hc.
  pose proof (trim_end_nonws c s Hc). by destruct (trim_end (c :: s)).
Qed.

Lemma sigil_terminates o s : isPayloadTerminatorLine (op_sigil o :: s) = true.
Proof. by destruct o as [[]|]. Qed.

Lemma sigil_not_marker o s m :
  m ∈ [BEGIN_PATCH_MARKER; END_PATCH_MARKER; ABORT_MARKER] -> bool_decide (op_sigil o :: s = m) = false.
Proof.
  intros Hm. apply bool_decide_false. intros E. subst m.
  repeat (apply elem_of_cons in Hm as [Hm|Hm]; [destruct o as [[]|]; discriminate Hm|]).
  by apply not_elem_of_nil in Hm.
Qed.

Lemma insertOpRe_other sigil c s : sigil ≠ c -> exec (insertOpRe sigil) (c :: s) = None.
Proof.
  intros Hne. unfold insertOpRe. rewrite exec_bol. unfold match_at. simpl.
  by destruct (N.eqb_spec sigil c).
Qed.

(** An operand has no white space and no body separator. *)
Definition operand (s : jstring) : Prop :=
  s ≠ [] /\ Forall (fun c => negb (c =? HL_BODY_SEP)%N && negb (is_ws c) = true) s.

Lemma insertOpRe_match sigil s :
  operand s ->
  exists m, exec (insertOpRe sigil) (sigil :: s) = Some m /\ group_text 1 m = s /\ capture 2 m = None.
Proof.
  intros [Hne Hs]. destruct s as [|c s]; [done|]. apply Forall_cons in Hs as [Hc Hs].
  pose proof Hc as [Hc1 Hc2]%andb_true_iff. apply negb_true_iff in Hc1, Hc2.
  eexists. split.
  - unfold insertOpRe. rewrite exec_bol. unfold match_at. apply seq_match. cbn [rmatch consumed].
    apply seq_match, class_match; [apply N.eqb_refl|].
    apply seq_match, star_class_skip; [done|].
    apply seq_match, group_match, seq_match, class_match; [done|].
    rewrite <- (app_nil_r s) at 1. apply star_class_greedy; [done|done|].
    apply seq_match, alt_match_r; [done|]. by apply ws_eol_match.
  - unfold group_text, capture. simpl. split; [|done].
    apply eats_consumed_since. split; simpl; [by rewrite app_nil_r|].
    by rewrite reverse_cons, <- app_assoc.
Qed.

Lemma REPLACE_OP_RE_match s :
  Forall (fun c => negb (is_ws c) = true) s ->
  match s with c :: _ => existsb (N.eqb c) (js "+<-=") = false | [] => False end ->
  exists m, exec REPLACE_OP_RE (HL_OP_REPLACE :: s) = Some m /\ group_text 1 m = s.
Proof.
  intros Hs Hh. destruct s as [|c s]; [done|]. apply Forall_cons in Hs as [Hc Hs].
  pose proof Hc as Hc2%negb_true_iff. eexists. split.
  - unfold REPLACE_OP_RE. rewrite exec_bol. unfold match_at. apply seq_match. cbn [rmatch consumed].
    apply seq_match, class_match; [apply N.eqb_refl|].
    apply seq_match, star_class_skip; [done|].
    apply seq_match, group_match, seq_match, class_match; [by rewrite Hc, Hh|].
    rewrite <- (app_nil_r s) at 1. apply seq_match, star_class_greedy; [done|done|].
    apply alt_match_r; [done|]. by apply ws_eol_match.
  - unfold group_text, capture. simpl.
    apply eats_consumed_since. split; simpl; [by rewrite app_nil_r|].
    by rewrite reverse_cons, <- app_assoc.
Qed.

(** ** Operands *)

Definition word_unit (c : N) : Prop := is_digit c = true \/ is_lower c = true.

Lemma anchor_text_units a : anchor_ok a -> Forall word_unit (anchor_text a).
Proof.
  intros (Hl & Hh & _). unfold anchor_text. apply Forall_app. split.
  - eapply Forall_impl; [apply z_str_digits; lia|]. by left.
  - destruct (hash a) as [|x [|y [|]]]; try done. unfold is_hash in Hh. simpl in Hh.
    apply andb_true_iff in Hh as [Hx Hy]. apply Forall_cons; split; [by right|].
    apply Forall_singleton. by right.
Qed.

Lemma anchor_text_head a :
  anchor_ok a -> exists c s, anchor_text a = c :: s /\ (49 <= c <= 57)%N.
Proof.
  intros (Hl & _). unfold anchor_text.
  destruct (z_str_head (line a) ltac:(lia)) as (c & s & -> & Hc & _). by exists c, (s ++ hash a).
Qed.

Lemma anchor_eta a : anchor_ok a -> mkAnchor (line a) (hash a) = a.
Proof. intros (_ & _ & Hc). destruct a. simpl in *. by subst. Qed.

Lemma parseLid_anchor_text a n sigil : anchor_ok a -> parseLid (anchor_text a) n sigil = Ok a.
Proof.
  intros Ha. unfold anchor_text. rewrite <- (app_nil_r (hash a)).
  rewrite parseLid_canonical; [by rewrite anchor_eta|apply Ha|apply Ha|by left].
Qed.

Lemma target_operand t :
  match t with at_line a => anchor_ok a | _ => True end -> operand (target_text t).
Proof.
  destruct t as [| |a]; intros Ha; [by repeat constructor..|]. split.
  - destruct (anchor_text_head a Ha) as (c & s & E & _). simpl. by rewrite E.
  - eapply Forall_impl; [by apply anchor_text_units|]. intros c [Hc|Hc]; simpl; unit_cases.
Qed.

Lemma parseInsertTarget_text t n k :
  match t with at_line a => anchor_ok a | _ => True end ->
  parseInsertTarget (target_text t) n k = Ok (target_cursor k t).
Proof.
  destruct t as [| |a]; intros Ha; [done..|]. simpl target_text. unfold parseInsertTarget.
  destruct (anchor_text_head a Ha) as (c & s & E & Hc).
  rewrite !bool_decide_false by (rewrite E; intros [= ->]; lia).
  by destruct k; rewrite parseLid_anchor_text.
Qed.

(** ** Ranges *)

Lemma dot_not_word s : Forall word_unit s -> (46%N ∉ s).
Proof.
  intros Hs Hin. rewrite Forall_forall in Hs. destruct (Hs _ Hin) as [Hc|Hc]; discriminate Hc.
Qed.

Lemma includes_absent c p s : (c ∉ s) -> includes (c :: p) s = false.
Proof.
  induction s as [|d s IH]; [done|]. intros [Hd Hs]%not_elem_of_cons. simpl.
  rewrite (proj2 (N.eqb_neq c d) Hd). simpl. by apply IH.
Qed.

Lemma includes_no_dots s : (46%N ∉ s) -> includes (js "..") s = false.
Proof. apply includes_absent. Qed.

Lemma includes_dots s t : includes (js "..") (s ++ js ".." ++ t) = true.
Proof.
  induction s as [|c s IH]; [done|]. cbn [app includes]. rewrite IH. apply orb_true_r.
Qed.

Lemma split_str_absent c p s fuel :
  (c ∉ s) -> (length s < fuel)%nat -> split_str_fuel fuel (c :: p) s = [s].
Proof.
  revert fuel. induction s as [|d s IH]; intros [|f] Hs Hf; simpl in Hf; try lia; [done|].
  apply not_elem_of_cons in Hs as [Hd Hs]. simpl. rewrite (proj2 (N.eqb_neq c d) Hd). simpl.
  by rewrite IH by (done || lia).
Qed.

Lemma split_str_dots s t fuel :
  (46%N ∉ s) -> (46%N ∉ t) -> (length s + length t + 2 < fuel)%nat ->
  split_str_fuel fuel (js "..") (s ++ js ".." ++ t) = [s; t].
Proof.
  revert fuel. induction s as [|d s IH]; intros [|f] Hs Ht Hf; simpl in Hf; try lia.
  - cbn. rewrite drop_0. by rewrite (split_str_absent 46 [46%N]) by (done || lia).
  - apply not_elem_of_cons in Hs as [Hd Hs].
    change (split_str_fuel (S f) (js "..") ((d :: s) ++ js ".." ++ t))
      with (if (46 =? d)%N && starts_with [46%N] (s ++ js ".." ++ t)
            then [] :: split_str_fuel f (js "..") (drop 2 ((d :: s) ++ js ".." ++ t))
            else cons_head d (split_str_fuel f (js "..") (s ++ js ".." ++ t))).
    rewrite (proj2 (N.eqb_neq 46 d) Hd). simpl andb. cbv iota. by rewrite IH by (done || lia).
Qed.

(** After some of the digits of an anchor, a digit or a letter follows. *)
Lemma digits_then_word w r a t :
  anchor_ok a -> Forall (fun c => is_digit c = true) w -> anchor_text a ++ t = w ++ r ->
  exists c s, r = c :: s /\ word_unit c.
Proof.
  intros Ha Hw E. pose proof (anchor_text_units a Ha) as Hu.
  destruct (decide (length w < length (anchor_text a))%nat) as [Hlt|Hge].
  - apply (f_equal (drop (length w))) in E. rewrite drop_app_length in E.
    rewrite drop_app_le in E by lia.
    destruct (drop (length w) (anchor_text a)) as [|c s] eqn:Ed.
    { apply (f_equal length) in Ed. rewrite length_drop in Ed. simpl in Ed. lia. }
    exists c, (s ++ t). split; [by rewrite <- E|].
    apply (Forall_drop word_unit (length w)) in Hu. rewrite Ed in Hu. by apply Forall_cons in Hu as [? _].
  - exfalso. apply (f_equal (take (length (anchor_text a)))) in E.
    rewrite take_app_length, (take_app_le w) in E by lia.
    assert (Forall (fun c => is_digit c = true) (anchor_text a)) as Hd by (rewrite E; by apply Forall_take).
    destruct Ha as (_ & Hh & _). unfold anchor_text in Hd. apply Forall_app in Hd as [_ Hd].
    destruct (hash a) as [|x [|y [|]]]; try done. unfold is_hash in Hh. simpl in Hh.
    apply Forall_cons in Hd as [Hx _]. unit_cases.
Qed.

Lemma rsem_decoration_digit st st' c s :
  rest st = c :: s -> is_digit c = true -> rsem HL_ANCHOR_DECORATION_RE_RAW st st' ->
  rest st' = c :: s.
Proof.
  intros E Hc (m1 & (w1 & [H1 _] & F1 & _)%rsem_star_class & m2 &
    (w2 & [H2 _] & F2 & _)%rsem_star_class & (w3 & [H3 _] & F3 & _)%rsem_star_class).
  rewrite E in H1. destruct w1 as [|d w1].
  2: { injection H1 as -> _. apply Forall_cons in F1 as [F1 _]. unit_cases. }
  simpl in H1. rewrite <- H1 in H2. destruct w2 as [|d w2].
  2: { injection H2 as -> _. apply Forall_cons in F2 as [F2 _]. unit_cases. }
  simpl in H2. rewrite <- H2 in H3. destruct w3 as [|d w3]; [by simpl in H3|].
  injection H3 as -> _. apply Forall_cons in F3 as [F3 _]. unit_cases.
Qed.

(** An anchor is not a bare line reference, whatever follows it. *)
Lemma bare_ref_rejects_anchor a t : anchor_ok a -> test BARE_LINE_REF_RE (anchor_text a ++ t) = false.
Proof.
  intros Ha. unfold test. destruct (exec BARE_LINE_REF_RE _) as [m|] eqn:E; [exfalso|done].
  unfold BARE_LINE_REF_RE in E. apply exec_bol_sound in E as (m1 & Hdec & m2 & Hpos & Hrest).
  destruct (anchor_text_head a Ha) as (c0 & s0 & E0 & Hc0).
  apply (rsem_decoration_digit _ _ c0 (s0 ++ t)) in Hdec; [|simpl; by rewrite E0|unit_cases].
  destruct Hpos as (m2' & (c & ds & [He _] & Hc & Hds & _)%rsem_positive & ->).
  destruct (digits_then_word (c :: ds) (rest m2') a t) as (d & s & Er & Hd); [done|..].
  { constructor; [unit_cases|done]. }
  { by rewrite <- He, Hdec, E0. }
  assert (forall st w st', rest st = d :: s -> eats st w st' -> Forall (fun c => is_ws c = true) w ->
            rest st' = d :: s) as Hws.
  { intros st w st' Est [Hw _] F. destruct w as [|x w]; [by rewrite Est in Hw|exfalso].
    rewrite Est in Hw. injection Hw as -> _. apply Forall_cons in F as [F _].
    destruct Hd; unit_cases. }
  destruct Hrest as (m3 & Hopt1 & m4 & Hopt2 & m5 & (w5 & He5 & F5 & _)%rsem_star_class & [Hnil _]).
  assert (rest m3 = d :: s) as E3.
  { destruct Hopt1 as [(n1 & (w1 & He1 & F1 & _)%rsem_star_class & n2 & Hsep & _)| ->]; [exfalso|done].
    apply Hws in He1; [|done|done].
    destruct Hsep as [(x & y & Ex & Hx & _)|(n & (x & y & Ex & Hx & _) & _)];
      rewrite He1 in Ex; injection Ex as <- _; apply N.eqb_eq in Hx; subst d; by destruct Hd. }
  assert (rest m4 = d :: s) as E4.
  { destruct Hopt2 as [(n1 & (x & y & Ex & Hx & _) & _)| ->]; [exfalso|done].
    rewrite E3 in Ex; injection Ex as <- _; apply N.eqb_eq in Hx; subst d; by destruct Hd. }
  apply Hws in He5; [|done|done]. by rewrite Hnil in He5.
Qed.

Lemma range_units r :
  range_ok r -> Forall (fun c => negb (is_ws c) = true) (range_text r).
Proof.
  intros (Ha & Hb & _). apply anchor_text_units in Ha, Hb. unfold range_text.
  assert (forall s, Forall word_unit s -> Forall (fun c => negb (is_ws c) = true) s) as Hw.
  { intros s Hs. eapply Forall_impl; [exact Hs|]. intros c [Hc|Hc]; simpl; unit_cases. }
  case_match; [by apply Hw|]. apply Forall_app; split; [by apply Hw|].
  apply Forall_app; split; [by repeat constructor|by apply Hw].
Qed.

Lemma anchors_equal a b : anchor_ok a -> anchor_ok b -> line a = line b -> hash a = hash b -> a = b.
Proof. intros (_ & _ & H1) (_ & _ & H2). destruct a, b; simpl in *. by intros; subst. Qed.

Lemma parseRange_text r n sigil : range_ok r -> parseRange (range_text r) n sigil = Ok r.
Proof.
  intros (Ha & Hb & Hle & Heq). unfold parseRange, range_text.
  destruct (Z.eqb_spec (line (start r)) (line (stop r))) as [E|Hne].
  - pose proof (bare_ref_rejects_anchor _ [] Ha) as Hbare. rewrite app_nil_r in Hbare.
    rewrite Hbare. cbn [mbind result_bind].
    rewrite includes_no_dots by by apply dot_not_word, anchor_text_units.
    rewrite parseLid_anchor_text by done. simpl. f_equal.
    destruct r as [a b]. simpl in *. f_equal. apply anchors_equal; auto.
  - rewrite (bare_ref_rejects_anchor _ _ Ha), includes_dots. simpl negb. cbv iota.
    unfold split_str. rewrite split_str_dots; [|by apply dot_not_word, anchor_text_units..|].
    2: { rewrite !length_app. simpl. lia. }
    rewrite !bool_decide_false by
      (match goal with |- anchor_text ?x ≠ [] =>
         destruct (anchor_text_head x ltac:(done)) as (? & ? & -> & _) end; done).
    rewrite !parseLid_anchor_text by done. simpl.
    destruct (Z.ltb_spec (line (stop r)) (line (start r))); [lia|].
    destruct (Z.eqb_spec (line (stop r)) (line (start r))); [lia|]. by destruct r.
Qed.

(** ** Programs *)

Lemma numbered_app idx l l' :
  numbered_from idx (l ++ l') = numbered_from idx l ++ numbered_from (idx + zlength l) l'.
Proof.
  unfold numbered_from. rewrite imap_app. f_equal. apply imap_ext. intros i f _. simpl. f_equal.
  unfold zlength. lia.
Qed.

Lemma pushInserts_numbered c p n idx :
  pushInserts c p n idx = numbered_from idx ((fun text i => Insert c text n i) <$> p).
Proof. unfold numbered_from, pushInserts. by rewrite imap_fmap. Qed.

Lemma pushDeletes_numbered l n idx :
  pushDeletes l n idx = numbered_from idx
    ((fun a i => Delete {| del_anchor := a; del_lineNum := n; del_index := i; del_oldAssertion := None |}) <$> l).
Proof. unfold numbered_from, pushDeletes. by rewrite imap_fmap. Qed.

Lemma expandRange_anchors r : range_ok r -> expandRange r = range_anchors r.
Proof.
  intros (Ha & Hb & Hle & Heq). unfold expandRange, range_anchors.
  destruct (Z.eqb_spec (line (start r)) (line (stop r))) as [E|Hne].
  - rewrite <- E. unfold zrange. replace (_ - _ + 1) with 1 by lia.
    change (Z.to_nat 1) with 1%nat. rewrite zseq_S. cbn [zseq seq fmap list_fmap].
    by rewrite Z.eqb_refl, anchor_eta.
  - set (a := line (start r)) in *. set (b := line (stop r)) in *.
    assert (zrange a b = a :: zrange (a + 1) (b - 1) ++ [b]) as ->.
    { unfold zrange. replace (Z.to_nat (b - a + 1)) with (S (Z.to_nat (b - 1 - (a + 1) + 1) + 1)) by lia.
      rewrite zseq_S, zseq_app. do 2 f_equal. cbn. f_equal. lia. }
    rewrite fmap_cons, fmap_app. cbn [fmap list_fmap]. rewrite Z.eqb_refl.
    replace (b =? a) with false by lia. rewrite Z.eqb_refl. unfold a at 1. rewrite (anchor_eta (start r)) by done.
    assert (mkAnchor b (hash (stop r)) = stop r) as -> by by apply anchor_eta.
    do 2 f_equal. apply list_fmap_ext. intros i l Hl%list_elem_of_lookup_2%elem_of_zrange.
    replace (l =? a) with false by lia. by replace (l =? b) with false by lia.
Qed.

Lemma takePayload_program p ops :
  Forall payload_line p -> takePayload (p ++ (ops ≫= op_lines)) = (p, ops ≫= op_lines).
Proof.
  induction 1 as [|l p [Hl _] _ IH]; cbn [app takePayload].
  - destruct ops as [|o ops]; [done|]. rewrite bind_cons. cbn [app takePayload op_lines].
    by rewrite sigil_terminates.
  - by rewrite Hl, IH.
Qed.

Section roundtrip.
Context `{LineHasher}.

Lemma parseInsertOp_text sigil k t p ops m n idx :
  operation_ok (InsertOp k t p) -> group_text 1 m = target_text t -> capture 2 m = None ->
  parseInsertOp sigil k m (p ++ (ops ≫= op_lines)) n idx =
    Ok (numbered_from idx (op_actions n (InsertOp k t p)), ops ≫= op_lines).
Proof.
  intros (Hp & Hne & Ht) H1 H2. unfold parseInsertOp. rewrite H1, H2, parseInsertTarget_text by done.
  cbn [mbind result_bind resolveInlineInsertBody emptyInsertContext].
  unfold collectPayload. rewrite takePayload_program by done. cbn [op_actions].
  rewrite <- pushInserts_numbered. by destruct p.
Qed.

Lemma parseReplaceOp_text r p ops m n idx :
  operation_ok (ReplaceOp r p) -> group_text 1 m = range_text r ->
  parseReplaceOp m (p ++ (ops ≫= op_lines)) n idx =
    Ok (numbered_from idx (op_actions n (ReplaceOp r p)), ops ≫= op_lines).
Proof.
  intros (Hp & Hr) H1. unfold parseReplaceOp. rewrite H1, parseRange_text by done.
  cbn [mbind result_bind]. unfold collectPayload. rewrite takePayload_program by done. cbn [op_actions].
  rewrite numbered_app, <- pushInserts_numbered, <- pushDeletes_numbered, <- expandRange_anchors by done.
  unfold zlength. rewrite length_fmap. by destruct p.
Qed.

Lemma range_head r :
  range_ok r -> match range_text r with c :: _ => existsb (N.eqb c) (js "+<-=") = false | [] => False end.
Proof.
  intros (Ha & _). unfold range_text. destruct (anchor_text_head _ Ha) as (c & s & -> & Hc).
  assert (existsb (N.eqb c) (js "+<-=") = false) as E; [|destruct (_ =? _); exact E].
  apply not_true_iff_false. intros (x & Hx & ->%N.eqb_eq)%existsb_exists. simpl in Hx. lia.
Qed.

(** One operation is one round of the loop. *)
Lemma parseRound_operation o ops n edits ws :
  operation_ok o ->
  parseRound (op_sigil o :: op_text o) (op_payload o ++ (ops ≫= op_lines)) n edits ws =
    Next (ops ≫= op_lines) (n + 1 + zlength (op_payload o)) (numbered_from (zlength edits) (op_actions n o)).
Proof.
  intros Ho. unfold parseRound, INSERT_BEFORE_OP_RE, INSERT_AFTER_OP_RE. rewrite trim_nonws by apply sigil_nonws.
  rewrite !sigil_not_marker by (repeat (apply elem_of_cons; (by left) || right)).
  assert (forall l : list jstring, zlength (op_payload o ++ l) - zlength l = zlength (op_payload o)) as Hz.
  { intros l. rewrite zlength_app. lia. }
  destruct o as [[] t p|r p]; cbn [op_sigil op_text op_payload] in *.
  - destruct (insertOpRe_match HL_OP_INSERT_BEFORE (target_text t)) as (m & -> & H1 & H2).
    { by apply target_operand, Ho. }
    rewrite (parseInsertOp_text _ _ t) by done. simpl. by rewrite Hz.
  - rewrite insertOpRe_other by done.
    destruct (insertOpRe_match HL_OP_INSERT_AFTER (target_text t)) as (m & -> & H1 & H2).
    { by apply target_operand, Ho. }
    rewrite (parseInsertOp_text _ _ t) by done. simpl. by rewrite Hz.
  - rewrite !insertOpRe_other by done.
    destruct (REPLACE_OP_RE_match (range_text r)) as (m & -> & H1).
    { apply range_units, Ho. } { apply range_head, Ho. }
    rewrite (parseReplaceOp_text r) by done. simpl. by rewrite Hz.
Qed.

Lemma parseLoop_program fuel ops n edits ws :
  Forall operation_ok ops -> (length (ops ≫= op_lines) <= fuel)%nat ->
  parseLoop fuel (ops ≫= op_lines) n edits ws = Ok (edits ++ numbered_from (zlength edits) (program_actions n ops), ws).
Proof.
  intros Hops. revert fuel n edits. induction Hops as [|o ops Ho _ IH]; intros fuel n edits Hf.
  { simpl. rewrite app_nil_r. by destruct fuel. }
  rewrite bind_cons in *. unfold op_lines at 1 in Hf. unfold op_lines at 1. cbn [app] in *.
  rewrite length_cons, length_app in Hf. destruct fuel as [|fuel]; [lia|].
  rewrite parseLoop_round, parseRound_operation by done.
  rewrite IH by lia. cbn [program_actions]. rewrite numbered_app, app_assoc, zlength_app.
  do 3 f_equal. unfold numbered_from, zlength. by rewrite length_imap.
Qed.

Lemma anchor_text_plain s : Forall (fun c => negb (is_ws c) = true) s -> plain_line s.
Proof.
  intros Hs. rewrite Forall_forall in Hs. split.
  - intros Hin. by specialize (Hs _ Hin).
  - intros E%last_Some_elem_of. by specialize (Hs _ E).
Qed.

Lemma operation_plain o : operation_ok o -> Forall plain_line (op_lines o).
Proof.
  intros [Hp Ho]. constructor.
  - apply anchor_text_plain. constructor; [by rewrite sigil_nonws|].
    destruct o as [k t p|r p]; cbn [op_text]; [|by apply range_units].
    eapply Forall_impl; [apply target_operand; apply Ho|]. by intros c [_ ?]%andb_true_iff.
  - eapply Forall_impl; [exact Hp|]. by intros l [_ ?].
Qed.

(** C3: roundtrip. Every well-formed edit program is read back exactly: parsing the text of a
    sequence of insert and replace operations, with any payload lines that are not themselves
    operation lines, gives the edits of those operations in order, with their line numbers and
    indices, and no warning. *)
Theorem parse_print_roundtrip ops :
  Forall operation_ok ops ->
  parseHashlineWithWarnings (program_text ops) = Ok (program_edits ops, []).
Proof.
  intros Hops. destruct ops as [|o ops]; [done|].
  unfold parseHashlineWithWarnings, program_text. rewrite programLines_text.
  - by rewrite parseLoop_program.
  - done.
  - apply Forall_bind. eapply Forall_impl; [exact Hops|]. apply operation_plain.
Qed.

End roundtrip.

Definition demo_program : list operation :=
  [InsertOp after (at_line (mkAnchor 7 (js "ab"))) [js "new line"; []];
   ReplaceOp {| start := mkAnchor 9 (js "cd"); stop := mkAnchor 11 (js "ef") |} [js "x"];
   InsertOp before at_eof [js "end"]].

Lemma parse_print_roundtrip_witness :
  parseHashlineWithWarnings (H := demoHasher) (program_text demo_program) =
  Ok (program_edits demo_program, []) /\ length (program_edits demo_program) = 7%nat.
Proof.
  split; [|reflexivity]. apply (parse_print_roundtrip (H := demoHasher) demo_program).
  repeat (apply Forall_cons; split); [..|apply Forall_nil_2].
  - split; [|by split_and!]. repeat (apply Forall_cons; split); [..|apply Forall_nil_2];
      (split_and!; [done|apply (bool_decide_unpack _); done|done]).
  - split; [|split_and!; simpl; (lia || done)]. apply Forall_singleton.
    split_and!; [done|apply (bool_decide_unpack _); done|done].
  - split; [|done]. apply Forall_singleton.
    split_and!; [done|apply (bool_decide_unpack _); done|done].
Defined.
