(* ===== verification/HashlineAnchors.v ===== *)
(** * Hashline: anchors and the rejection of stale ones (hashline/anchors.ts)

    Reading a line reference, checking it against the file, and the message a rejected edit gets:
    the current lines around every stale anchor, each printed as a fresh anchor, with a hint where
    the content may have moved. *)
From S2P Require Import Prelude JsString JsRegex JsMap HashlineHash HashlineParser.
From Stdlib Require Import ZifyBool ZifyN.
Open Scope Z_scope.

Definition PARSE_TAG_RE : regex := rx_seq rx_bol HL_ANCHOR_RE_RAW.

Definition parseTag (ref : jstring) : result HashlineError Anchor :=
  match exec PARSE_TAG_RE ref with
  | None => Throw (InvalidLineReference ref)
  | Some m =>
      let l := parse_int (group_text 1 m) in
      if l <? 1 then Throw (LineNumberNotPositive l ref) else Ok (mkAnchor l (group_text 2 m))
  end.

(** tools/render-utils.ts: a gutter with the marker and the line number, then [│] and the text. *)
Definition formatCodeFrameLine (marker : jstring) (lineNumber : Z) (content : jstring) (lineNumberWidth : Z)
    : jstring :=
  let markerText := trim marker in
  let lineNumberText := trim (z_str lineNumber) in
  let gutterText :=
    if negb (bool_decide (markerText = [])) && negb (bool_decide (lineNumberText = []))
    then markerText ++ lineNumberText
    else if negb (bool_decide (lineNumberText = [])) then lineNumberText else markerText in
  replicate (Z.to_nat (lineNumberWidth + 1) - length gutterText) c_space ++ gutterText ++ 9474%N :: content.

Section anchors.
Context `{LineHasher}.

Abbreviation lineText fileLines n := (default [] (arr_at fileLines (n - 1))).

(** The loop of [findRelocatedLine] over the line numbers left. *)
Fixpoint relocateLoop (mismatch : HashMismatch) (fileLines : list jstring) (nums : list Z)
    (found : option Z) : option Z :=
  match nums with
  | [] => found
  | lineNum :: nums' =>
      if lineNum =? mm_line mismatch then relocateLoop mismatch fileLines nums' found
      else if negb (bool_decide (computeLineHash lineNum (lineText fileLines lineNum) = mm_expected mismatch))
      then relocateLoop mismatch fileLines nums' found
      else match found with
           | Some _ => None
           | None => relocateLoop mismatch fileLines nums' (Some lineNum)
           end
  end.

Definition findRelocatedLine (mismatch : HashMismatch) (fileLines : list jstring) : option Z :=
  let lo := Z.max 1 (mm_line mismatch - MISMATCH_RELOCATE_WINDOW) in
  let hi := Z.min (zlength fileLines) (mm_line mismatch + MISMATCH_RELOCATE_WINDOW) in
  relocateLoop mismatch fileLines (zrange lo hi) None.

Record MismatchView : Type := { relocations : jsmap Z Z; displayLines : list Z }.

(** One mismatch: its context lines, and the place its content may have moved to. *)
Definition addMismatch (fileLines : list jstring) (view : MismatchView) (mismatch : HashMismatch) : MismatchView :=
  let lo := Z.max 1 (mm_line mismatch - MISMATCH_CONTEXT) in
  let hi := Z.min (zlength fileLines) (mm_line mismatch + MISMATCH_CONTEXT) in
  let shown := foldl s_add (displayLines view) (zrange lo hi) in
  match findRelocatedLine mismatch fileLines with
  | Some relocated =>
      {| relocations := m_set (mm_line mismatch) relocated (relocations view);
         displayLines := s_add shown relocated |}
  | None => {| relocations := relocations view; displayLines := shown |}
  end.

Definition buildMismatchView (mismatches : list HashMismatch) (fileLines : list jstring) : MismatchView :=
  let view := foldl (addMismatch fileLines) {| relocations := []; displayLines := [] |} mismatches in
  {| relocations := relocations view; displayLines := sort_by Z.sub (displayLines view) |}.

Definition lineMarker (lineNum : Z) (mismatchSet relocatedTargets : list Z) : jstring :=
  if bool_decide (lineNum ∈ mismatchSet) then js "*"
  else if bool_decide (lineNum ∈ relocatedTargets) then js ">" else js " ".

Definition rejectionHeader (mismatches : list HashMismatch) (relocations : jsmap Z Z) : list jstring :=
  let noun := if (1 <? zlength mismatches)%Z then js "anchors do" else js "anchor does" in
  [js "Edit rejected: " ++ z_str (zlength mismatches) ++ js " " ++ noun
     ++ js " not match the current file (marked *).";
   js "The edit was NOT applied, please use the updated file content shown below, and issue another edit tool-call."]
  ++ match relocations with
     | [] => []
     | _ =>
         let moves :=
           foldl (fun moves m =>
             match m_get (mm_line m) relocations with
             | Some target =>
                 s_add moves (z_str (mm_line m) ++ mm_expected m ++ js " -> " ++ z_str target ++ mm_expected m)
             | None => moves
             end) [] mismatches in
         [js "Likely moved (marked >; verify the content before reusing): " ++ join (js ", ") moves ++ js "."]
     end.

(** The loop both messages share: [...] where the shown lines jump. *)
Fixpoint frameLoop (render : Z -> jstring) (previous : Z) (nums : list Z) : list jstring :=
  match nums with
  | [] => []
  | lineNum :: nums' =>
      (if negb (previous =? -1) && (previous + 1 <? lineNum) then [js "..."] else [])
      ++ render lineNum :: frameLoop render lineNum nums'
  end.

Definition formatDisplayMessage (mismatches : list HashMismatch) (fileLines : list jstring) : jstring :=
  let mismatchSet := mm_line <$> mismatches in
  let view := buildMismatchView mismatches fileLines in
  let relocatedTargets := (relocations view).*2 in
  let width := foldl (fun cur n => Z.max cur (zlength (z_str n))) 0 (displayLines view) in
  let render lineNum :=
    formatCodeFrameLine (lineMarker lineNum mismatchSet relocatedTargets) lineNum
      (lineText fileLines lineNum) width in
  join [c_lf] (rejectionHeader mismatches (relocations view) ++ [[]]
               ++ frameLoop render (-1) (displayLines view)).

Definition formatMessage (mismatches : list HashMismatch) (fileLines : list jstring) : jstring :=
  let mismatchSet := mm_line <$> mismatches in
  let view := buildMismatchView mismatches fileLines in
  let relocatedTargets := (relocations view).*2 in
  let render lineNum :=
    let text := lineText fileLines lineNum in
    lineMarker lineNum mismatchSet relocatedTargets
    ++ z_str lineNum ++ computeLineHash lineNum text ++ HL_BODY_SEP :: text in
  join [c_lf] (rejectionHeader mismatches (relocations view) ++ frameLoop render (-1) (displayLines view)).

(** The [remaps] of the error: the stale anchor, as written, to the current one. *)
Definition remaps (mismatches : list HashMismatch) (fileLines : list jstring) : jsmap jstring jstring :=
  foldl (fun m mismatch =>
    let actual := computeLineHash (mm_line mismatch) (lineText fileLines (mm_line mismatch)) in
    m_set (z_str (mm_line mismatch) ++ mm_expected mismatch) (z_str (mm_line mismatch) ++ actual) m)
    [] mismatches.

Definition validateLineRef (ref : Anchor) (fileLines : list jstring) : result HashlineError unit :=
  if (line ref <? 1) || (zlength fileLines <? line ref) then
    Throw (LineDoesNotExist (line ref) (zlength fileLines))
  else
    let actualHash := computeLineHash (line ref) (lineText fileLines (line ref)) in
    if negb (bool_decide (actualHash = hash ref)) then
      Throw (HashlineMismatchError
               [{| mm_line := line ref; mm_expected := hash ref; mm_actual := actualHash |}] fileLines)
    else Ok tt.

End anchors.

(** ** Where stale content moved *)

Section relocation.
Context `{LineHasher} (mismatch : HashMismatch) (fileLines : list jstring).

Definition carries_hash (n : Z) : Prop :=
  n ≠ mm_line mismatch /\
  computeLineHash n (default [] (arr_at fileLines (n - 1))) = mm_expected mismatch.

#[local] Instance carries_hash_dec n : Decision (carries_hash n).
Proof. unfold carries_hash. apply _. Defined.

(** A line of the file within the window around the stale anchor that carries its hash. *)
Definition relocation_candidate (n : Z) : Prop :=
  1 <= n <= zlength fileLines /\ Z.abs (n - mm_line mismatch) <= MISMATCH_RELOCATE_WINDOW /\ carries_hash n.

Lemma relocateLoop_filter nums found :
  relocateLoop mismatch fileLines nums found =
  match option_list found ++ filter carries_hash nums with [n] => Some n | _ => None end.
Proof.
  revert found. induction nums as [|n nums IH]; intros found; simpl.
  { destruct found; [done|]. done. }
  rewrite filter_cons. unfold carries_hash at 2.
  destruct (Z.eqb_spec n (mm_line mismatch)) as [->|Hne].
  { rewrite decide_False by tauto. apply IH. }
  case_bool_decide as E; simpl.
  - rewrite decide_True by done. destruct found as [f|]; simpl; [done|]. by rewrite IH.
  - rewrite decide_False by tauto. apply IH.
Qed.

Lemma findRelocatedLine_iff n :
  findRelocatedLine mismatch fileLines = Some n <->
  relocation_candidate n /\ forall m, relocation_candidate m -> m = n.
Proof.
  unfold findRelocatedLine. rewrite relocateLoop_filter. cbn [option_list app].
  set (nums := zrange _ _).
  assert (forall m, m ∈ nums /\ carries_hash m <-> relocation_candidate m) as Hin.
  { intros m. unfold nums, relocation_candidate. rewrite elem_of_zrange.
    unfold MISMATCH_RELOCATE_WINDOW. intuition lia. }
  rewrite <- Hin. setoid_rewrite <- Hin.
  pose proof (filter_singleton_iff carries_hash nums n (NoDup_zrange _ _)) as Hs.
  transitivity (filter carries_hash nums = [n]); [|rewrite Hs; naive_solver].
  destruct (filter carries_hash nums) as [|x [|y l]]; naive_solver.
Qed.
End relocation.

Section rejection.
Context `{LineHasher}.

Abbreviation lineText fileLines n := (default [] (arr_at fileLines (n - 1))).

(** functional. The "likely moved" hint for a stale anchor names a line exactly when one line
    of the file, and only one, within 20 lines of the anchor and other than the anchored line,
    hashes to the anchor's hash; with several such lines, or none, there is no hint. *)
Theorem relocation_hint_is_unique mismatch fileLines n :
  findRelocatedLine mismatch fileLines = Some n <->
  relocation_candidate mismatch fileLines n /\
  forall m, relocation_candidate mismatch fileLines m -> m = n.
Proof. apply findRelocatedLine_iff. Qed.

(** The lines a mismatch brings into view. *)
Definition brings (fileLines : list jstring) (m : HashMismatch) (n : Z) : Prop :=
  (1 <= n <= zlength fileLines /\ Z.abs (n - mm_line m) <= MISMATCH_CONTEXT) \/
  findRelocatedLine m fileLines = Some n.

Lemma addMismatches_lines fileLines ms view n :
  n ∈ displayLines (foldl (addMismatch fileLines) view ms) <->
  n ∈ displayLines view \/ exists m, m ∈ ms /\ brings fileLines m n.
Proof.
  revert view. induction ms as [|m ms IH]; intros view; simpl.
  { setoid_rewrite elem_of_nil. naive_solver. }
  rewrite IH. setoid_rewrite elem_of_cons.
  assert (n ∈ displayLines (addMismatch fileLines view m) <->
          n ∈ displayLines view \/ brings fileLines m n) as ->.
  { unfold addMismatch, brings, MISMATCH_CONTEXT.
    destruct (findRelocatedLine m fileLines) as [r|]; cbn [displayLines];
      rewrite ?elem_of_s_add, elem_of_s_adds, elem_of_zrange; [|naive_solver lia].
    split.
    - intros [[?|?]| ->]; [by left|right; left; lia|right; by right].
    - intros [?|[?|[= ->]]]; [by left; left|left; right; lia|by right]. }
  naive_solver.
Qed.

Lemma displayLines_iff ms fileLines n :
  n ∈ displayLines (buildMismatchView ms fileLines) <-> exists m, m ∈ ms /\ brings fileLines m n.
Proof.
  unfold buildMismatchView. cbn [displayLines]. rewrite sort_by_perm, addMismatches_lines.
  cbn [displayLines]. rewrite elem_of_nil. tauto.
Qed.

Lemma brings_in_file fileLines m n : brings fileLines m n -> 1 <= n <= zlength fileLines.
Proof.
  intros [[? _]|((? & _) & _)%findRelocatedLine_iff]; done.
Qed.

Lemma frameLoop_elem render previous nums l :
  l ∈ frameLoop render previous nums -> l = js "..." \/ exists n, n ∈ nums /\ l = render n.
Proof.
  revert previous. induction nums as [|n nums IH]; intros previous; cbn [frameLoop].
  { by intros ?%elem_of_nil. }
  rewrite elem_of_app, elem_of_cons. intros [Hl|[->|Hl]].
  - case_match; [left; by apply list_elem_of_singleton in Hl|by apply elem_of_nil in Hl].
  - right. exists n. split; [left|done].
  - apply IH in Hl as [?|(k & ? & ?)]; [by left|right]. exists k. split; [by right|done].
Qed.

Lemma frameLoop_covers render previous nums n : n ∈ nums -> render n ∈ frameLoop render previous nums.
Proof.
  revert previous. induction nums as [|k nums IH]; intros previous; [by intros ?%elem_of_nil|].
  cbn [frameLoop]. rewrite elem_of_app. intros [->|Hn]%elem_of_cons; [right; left|].
  right. right. by apply IH.
Qed.

Lemma lineMarker_decoration n xs ys : is_decoration (lineMarker n xs ys).
Proof.
  unfold lineMarker. repeat case_bool_decide.
  - exists [], (js "*"), []. split_and!; repeat constructor.
  - exists [], (js ">"), []. split_and!; repeat constructor.
  - exists (js " "), [], []. split_and!; repeat constructor.
Qed.

(** C40: functional. A rejected edit is answered with usable anchors: after the header, every line of
    the message is the separator [...] or a line that the edit parser reads as an anchor of the
    current file, with that line's current hash; and every line of the file within two lines of a
    stale anchor is shown. *)
Theorem rejection_shows_fresh_anchors ms fileLines opLine sigil :
  Forall (Forall (fun c => is_line_terminator c = false)) fileLines ->
  exists body,
    formatMessage ms fileLines =
      join [c_lf] (rejectionHeader ms (relocations (buildMismatchView ms fileLines)) ++ body) /\
    (forall l, l ∈ body -> l = js "..." \/ exists n text,
       arr_at fileLines (n - 1) = Some text /\
       parseLid l opLine sigil = Ok (mkAnchor n (computeLineHash n text))) /\
    (forall m n text, m ∈ ms -> Z.abs (n - mm_line m) <= MISMATCH_CONTEXT ->
       arr_at fileLines (n - 1) = Some text ->
       exists d, is_decoration d /\ (d ++ formatHashLine n text) ∈ body).
Proof.
  intros Hfile. eexists. split; [reflexivity|]. split.
  - intros l [->|(n & (m & Hm & Hb)%displayLines_iff & ->)]%frameLoop_elem; [by left|right].
    apply brings_in_file in Hb.
    destruct (proj2 (arr_at_is_Some fileLines (n - 1))) as [text Ht]; [lia|].
    exists n, text. split; [done|]. rewrite Ht. cbn [default].
    apply parseLid_decorated; [apply lineMarker_decoration|lia|apply computeLineHash_bigram|].
    right. exists text. split; [done|]. rewrite Forall_forall in Hfile. apply Hfile.
    apply arr_at_Some in Ht as [_ Ht]. by eapply list_elem_of_lookup_2.
  - intros m n text Hm Hn Ht.
    exists (lineMarker n (mm_line <$> ms) (relocations (buildMismatchView ms fileLines)).*2).
    split; [apply lineMarker_decoration|].
    assert (n ∈ displayLines (buildMismatchView ms fileLines)) as Hin.
    { apply displayLines_iff. exists m. split; [done|]. left. split; [|done].
      apply mk_is_Some, arr_at_is_Some in Ht. lia. }
    match goal with |- _ ∈ frameLoop ?R _ _ => pose proof (frameLoop_covers R (-1) _ _ Hin) as HR end.
    cbn beta in HR. by rewrite Ht in HR.
Qed.

(** ** Line references *)

Lemma tag_match d n h t :
  is_decoration d -> 0 <= n -> is_hash h ->
  exists m, exec PARSE_TAG_RE (d ++ z_str n ++ h ++ t) = Some m /\
    group_text 1 m = z_str n /\ group_text 2 m = h.
Proof.
  intros Hd Hn Hh. pose proof (z_str_digits n Hn) as Hds.
  assert (z_str n ≠ []) as Hne.
  { destruct (Z.eq_dec n 0) as [->|]; [done|].
    by destruct (z_str_head n ltac:(lia)) as (c & ds & -> & _). }
  destruct (z_str n) as [|c ds]; [done|]. apply Forall_cons in Hds as [Hc Hds].
  destruct h as [|a [|b [|]]]; try done. unfold is_hash in Hh. simpl in Hh.
  apply andb_true_iff in Hh as [Ha Hb]. eexists. split.
  - unfold PARSE_TAG_RE. rewrite exec_bol. unfold match_at. apply seq_match. cbn [rmatch consumed].
    apply seq_match. apply decoration_match; [done|done|].
    apply seq_match, group_match, seq_match, class_match; [done|].
    apply star_class_greedy; [done|simpl; unit_cases|].
    apply group_match, seq_match, class_match; [done|]. apply class_match; [done|]. reflexivity.
  - unfold group_text, capture. simpl. split; apply eats_consumed_since; split; simpl; try done.
    by rewrite reverse_cons, <- app_assoc.
Qed.

Lemma parseTag_canonical d n h t :
  is_decoration d -> 1 <= n -> is_hash h -> parseTag (d ++ z_str n ++ h ++ t) = Ok (mkAnchor n h).
Proof.
  intros Hd Hn Hh. destruct (tag_match d n h t Hd ltac:(lia) Hh) as (m & Hm & H1 & H2).
  unfold parseTag. rewrite Hm, H1, H2, parse_int_z_str by lia. by destruct (Z.ltb_spec n 1); [lia|].
Qed.

Lemma validateLineRef_ok ref fileLines :
  validateLineRef ref fileLines = Ok tt <->
  exists text, arr_at fileLines (line ref - 1) = Some text /\ hash ref = computeLineHash (line ref) text.
Proof.
  unfold validateLineRef. split.
  - case_match eqn:Er; [done|]. case_bool_decide as Eh; [|done]. intros _.
    destruct (proj2 (arr_at_is_Some fileLines (line ref - 1))) as [text Ht]; [lia|].
    exists text. rewrite Ht in Eh. done.
  - intros (text & Ht & Eh). rewrite Ht. apply mk_is_Some, arr_at_is_Some in Ht.
    replace ((line ref <? 1) || (zlength fileLines <? line ref)) with false by lia.
    cbn [default]. by rewrite bool_decide_true.
Qed.

(** roundtrip. A line reference copied from the output, decorated and with or without the text
    after it, is read back and accepted exactly when the file still has, at that line, a text with
    the hash that was printed; otherwise it is refused. *)
Theorem line_reference_roundtrip d n text tail fileLines :
  is_decoration d -> 1 <= n ->
  exists ref, parseTag (d ++ formatLineHash n text ++ tail) = Ok ref /\
    line ref = n /\
    (validateLineRef ref fileLines = Ok tt <->
     exists current, arr_at fileLines (n - 1) = Some current /\
       computeLineHash n current = computeLineHash n text).
Proof.
  intros Hd Hn. exists (mkAnchor n (computeLineHash n text)). unfold formatLineHash.
  rewrite <- app_assoc. split_and!; [|done|].
  - apply parseTag_canonical; [done|done|apply computeLineHash_bigram].
  - rewrite validateLineRef_ok. cbn [line hash mkAnchor].
    split; intros (c & Hc & E); exists c; split; [exact Hc|symmetry; exact E|exact Hc|symmetry; exact E].
Qed.

(** The remap of an anchor is the current anchor of its line. *)
Lemma remaps_get ms fileLines m :
  Forall (fun m => 1 <= mm_line m /\ is_hash (mm_expected m)) ms -> m ∈ ms ->
  m_get (z_str (mm_line m) ++ mm_expected m) (remaps ms fileLines) =
    Some (formatLineHash (mm_line m) (lineText fileLines (mm_line m))).
Proof.
  unfold remaps. intros Hms Hm.
  assert (forall acc, m ∈ ms \/ m_get (z_str (mm_line m) ++ mm_expected m) acc =
                Some (formatLineHash (mm_line m) (lineText fileLines (mm_line m))) ->
    m_get (z_str (mm_line m) ++ mm_expected m)
      (foldl (fun acc m => m_set (z_str (mm_line m) ++ mm_expected m)
         (z_str (mm_line m) ++ computeLineHash (mm_line m) (lineText fileLines (mm_line m))) acc) acc ms)
    = Some (formatLineHash (mm_line m) (lineText fileLines (mm_line m)))) as Hgen; [|apply Hgen; by left].
  assert (1 <= mm_line m /\ is_hash (mm_expected m)) as [Hl Hh].
  { rewrite Forall_forall in Hms. by apply Hms. }
  clear Hm. induction Hms as [|x ms [Hxl Hxh] Hms IH]; intros acc Hacc; simpl.
  { destruct Hacc as [Hin|?]; [by apply elem_of_nil in Hin|done]. }
  apply IH. destruct (decide (z_str (mm_line x) ++ mm_expected x = z_str (mm_line m) ++ mm_expected m)) as [E|Hne].
  - right. rewrite E, m_get_set_eq. f_equal.
    pose proof (parseTag_canonical [] _ _ [] decoration_nil Hl Hh) as Pm.
    pose proof (parseTag_canonical [] _ _ [] decoration_nil Hxl Hxh) as Px.
    rewrite !app_nil_r in Pm, Px. cbn [app] in Pm, Px. rewrite E in Px. rewrite Pm in Px.
    injection Px as E1 _. by rewrite <- E1.
  - rewrite m_get_set_ne by done. destruct Hacc as [[->|Hin]%elem_of_cons|?]; [done|by left|by right].
Qed.

End rejection.

Section examples.
#[local] Existing Instance demoHasher.

Definition demo_file : list jstring := [js "new first"; js "alpha"; js "beta"; js "}"].
Definition demo_mismatch (text : jstring) : HashMismatch :=
  {| mm_line := 1; mm_expected := computeLineHash 1 text;
     mm_actual := computeLineHash 1 (js "new first") |}.

Lemma rejection_shows_fresh_anchors_witness :
  exists body, formatMessage [demo_mismatch (js "alpha")] demo_file =
    join [c_lf] (rejectionHeader [demo_mismatch (js "alpha")] [(1, 2)] ++ body) /\
    exists d, is_decoration d /\ (d ++ formatHashLine 2 (js "alpha")) ∈ body.
Proof.
  destruct (rejection_shows_fresh_anchors [demo_mismatch (js "alpha")] demo_file 1 HL_OP_REPLACE)
    as (body & E & _ & Hb).
  { repeat (apply Forall_cons; split); try apply Forall_nil_2; repeat constructor. }
  exists body. split; [exact E|].
  apply (Hb (demo_mismatch (js "alpha")) 2 (js "alpha")); [left|vm_compute; done|reflexivity].
Defined.

Lemma line_reference_roundtrip_witness :
  exists ref, parseTag (js ">" ++ formatLineHash 2 (js "alpha") ++ js "|alpha") = Ok ref /\
    validateLineRef ref demo_file = Ok tt.
Proof.
  destruct (line_reference_roundtrip (js ">") 2 (js "alpha") (js "|alpha") demo_file)
    as (ref & E & _ & Hv); [|lia|].
  - exists [], (js ">"), []. split_and!; repeat constructor.
  - exists ref. split; [exact E|]. apply Hv. exists (js "alpha"). split; reflexivity.
Defined.

(** Two stale anchors on one line share one entry of the relocation map: the hint for the first is
    then printed with the place of the second, although its own content is elsewhere. *)
Lemma shared_line_hint_is_wrong :
  findRelocatedLine (demo_mismatch (js "alpha")) demo_file = Some 2 /\
  findRelocatedLine (demo_mismatch (js "beta")) demo_file = Some 3 /\
  includes (js "1" ++ computeLineHash 1 (js "alpha") ++ js " -> 3" ++ computeLineHash 1 (js "alpha"))
    (formatMessage [demo_mismatch (js "alpha"); demo_mismatch (js "beta")] demo_file) = true.
Proof. vm_compute. done. Qed.
End examples.
