(* ===== verification/HashlinePrefixes.v ===== *)
(** * Hashline: stripping echoed prefixes (hashline/prefixes.ts)

    A model that echoes read output back as file content writes the [LINE+HASH|] prefixes, or the
    [+] of a diff, in front of its lines; these functions recognise that and recover the text. *)
From S2P Require Import Prelude JsString JsRegex HashlineHash HashlineParser.
From Stdlib Require Import ZifyBool ZifyN.
Open Scope Z_scope.

(** [[:|]] *)
Definition HL_OUTPUT_PREFIX_SEPARATOR_RE : regex := rx_one_of (js ":|").

(** [(?:>>>|>>)?] *)
Definition rx_arrows : regex := rx_opt (rx_alt (rx_lit (js ">>>")) (rx_lit (js ">>"))).

(** [\d+[a-z]{2}[:|]] *)
Definition rx_tag : regex :=
  rx_seqs [rx_digit; rx_star rx_digit; rx_lower; rx_lower; HL_OUTPUT_PREFIX_SEPARATOR_RE].

(** [^\s*(?:>>>|>>)?\s*(?:[+*]\s* )?\d+[a-z]{2}[:|]] *)
Definition HL_PREFIX_RE : regex :=
  rx_seq rx_bol (rx_seqs [rx_star rx_ws; rx_arrows; rx_star rx_ws;
    rx_opt (rx_seq (rx_one_of (js "+*")) (rx_star rx_ws)); rx_tag]).

(** [^\s*(?:>>>|>>)?\s*\+\s*\d+[a-z]{2}[:|]] *)
Definition HL_PREFIX_PLUS_RE : regex :=
  rx_seq rx_bol (rx_seqs [rx_star rx_ws; rx_arrows; rx_star rx_ws; rx_char 43; rx_star rx_ws; rx_tag]).

(** [^[+](?![+])] *)
Definition DIFF_PLUS_RE : regex := rx_seq rx_bol (rx_seq (rx_char 43) (rx_neg_look (rx_char 43))).

Definition rx_digits : regex := rx_plus rx_digit.

(** [^\[(?:Showing lines \d+-\d+ of \d+|\d+ more lines? in (?:file|\S+))\b.*\bUse :L?\d+] *)
Definition READ_TRUNCATION_NOTICE_RE : regex :=
  rx_seq rx_bol (rx_seqs [
    rx_char 91;
    rx_alt
      (rx_seqs [rx_lit (js "Showing lines "); rx_digits; rx_char 45; rx_digits; rx_lit (js " of "); rx_digits])
      (rx_seqs [rx_digits; rx_lit (js " more line"); rx_opt (rx_lit (js "s")); rx_lit (js " in ");
                rx_alt (rx_lit (js "file")) (rx_plus rx_nonws)]);
    rx_wordb; rx_star rx_any; rx_wordb; rx_lit (js "Use :"); rx_opt (rx_lit (js "L")); rx_digits]).

(** The [do ... while] of [stripLeadingHashlinePrefixes]. *)
Fixpoint stripLoop (fuel : nat) (result : jstring) : jstring :=
  match fuel with
  | O => result
  | S f =>
      let next := replace_prefix HL_PREFIX_RE result in
      if bool_decide (next = result) then next else stripLoop f next
  end.

(** Every round but the last removes a prefix, so the length of the line plus one is enough. *)
Definition stripLeadingHashlinePrefixes (l : jstring) : jstring := stripLoop (S (length l)) l.

Record LinePrefixStats : Type := {
  nonEmpty : Z; hashPrefixCount : Z; diffPlusHashPrefixCount : Z; diffPlusCount : Z;
  truncationNoticeCount : Z }.

Definition countLine (stats : LinePrefixStats) (l : jstring) : LinePrefixStats :=
  if (length l =? 0)%nat then stats
  else if test READ_TRUNCATION_NOTICE_RE l then
    {| nonEmpty := nonEmpty stats; hashPrefixCount := hashPrefixCount stats;
       diffPlusHashPrefixCount := diffPlusHashPrefixCount stats; diffPlusCount := diffPlusCount stats;
       truncationNoticeCount := truncationNoticeCount stats + 1 |}
  else
    {| nonEmpty := nonEmpty stats + 1;
       hashPrefixCount := hashPrefixCount stats + (if test HL_PREFIX_RE l then 1 else 0);
       diffPlusHashPrefixCount := diffPlusHashPrefixCount stats + (if test HL_PREFIX_PLUS_RE l then 1 else 0);
       diffPlusCount := diffPlusCount stats + (if test DIFF_PLUS_RE l then 1 else 0);
       truncationNoticeCount := truncationNoticeCount stats |}.

Definition collectLinePrefixStats (lines : list jstring) : LinePrefixStats :=
  foldl countLine {| nonEmpty := 0; hashPrefixCount := 0; diffPlusHashPrefixCount := 0;
                     diffPlusCount := 0; truncationNoticeCount := 0 |} lines.

Definition dropNotices (lines : list jstring) : list jstring :=
  List.filter (fun l => negb (test READ_TRUNCATION_NOTICE_RE l)) lines.

Definition stripNewLinePrefixes (lines : list jstring) : list jstring :=
  let stats := collectLinePrefixStats lines in
  if nonEmpty stats =? 0 then lines
  else
    let stripHash := (0 <? hashPrefixCount stats) && (hashPrefixCount stats =? nonEmpty stats) in
    let stripPlus :=
      negb stripHash && (diffPlusHashPrefixCount stats =? 0) && (0 <? diffPlusCount stats)
      && (nonEmpty stats <=? 2 * diffPlusCount stats) in
    if negb stripHash && negb stripPlus && (diffPlusHashPrefixCount stats =? 0) then lines
    else
      (fun l =>
         if stripHash then stripLeadingHashlinePrefixes l
         else if stripPlus then replace_prefix DIFF_PLUS_RE l
         else if (0 <? diffPlusHashPrefixCount stats) && test HL_PREFIX_PLUS_RE l
              then replace_prefix HL_PREFIX_RE l
         else l) <$> dropNotices lines.

Definition stripHashlinePrefixes (lines : list jstring) : list jstring :=
  let stats := collectLinePrefixStats lines in
  if nonEmpty stats =? 0 then lines
  else if negb (hashPrefixCount stats =? nonEmpty stats) then lines
  else stripLeadingHashlinePrefixes <$> dropNotices lines.

(** The argument of [hashlineParseText]: [null] or [undefined], lines, or one string. *)
Inductive editText : Type := NoText | Lines (l : list jstring) | Text (s : jstring).

Definition hashlineParseText (edit : editText) : list jstring :=
  match edit with
  | NoText => []
  | Lines l => stripNewLinePrefixes l
  | Text s =>
      let trimmed := if ends_with_unit c_lf s then drop_last s else s in
      stripNewLinePrefixes (split_on c_lf (remove_unit c_cr trimmed))
  end.

(** ** Stripping *)

Lemma test_bol_false r s : test (rx_seq rx_bol r) s = false <-> match_at (rx_seq rx_bol r) (MState [] s []) = None.
Proof. unfold test. rewrite exec_bol. by destruct (match_at _ _). Qed.

Lemma replace_prefix_none r s :
  test (rx_seq rx_bol r) s = false -> replace_prefix (rx_seq rx_bol r) s = s.
Proof. intros Ht%test_bol_false. unfold replace_prefix. by rewrite Ht. Qed.

Lemma rsem_shorter r st st' : rsem r st st' -> (length (rest st') <= length (rest st))%nat.
Proof. intros [w [E _]]%rsem_eats. rewrite E, length_app. lia. Qed.

(** A prefix has at least a digit. *)
Lemma prefix_consumes s :
  test HL_PREFIX_RE s = true -> (length (replace_prefix HL_PREFIX_RE s) < length s)%nat.
Proof.
  unfold test, replace_prefix. unfold HL_PREFIX_RE. rewrite exec_bol.
  destruct (match_at _ _) as [st|] eqn:E; [intros _|done].
  unfold match_at in E. apply rmatch_sound in E as (st' & (m & (_ & ->) & Hr) & [= ->]).
  destruct Hr as (m1 & H1%rsem_shorter & m2 & H2%rsem_shorter & m3 & H3%rsem_shorter & m4 & H4%rsem_shorter & H5).
  destruct H5 as (m5 & (c & s' & E & _ & ->) & H6%rsem_shorter). rewrite E in H4.
  simpl in *. lia.
Qed.

Lemma stripLoop_clean fuel s :
  (length s < fuel)%nat -> test HL_PREFIX_RE (stripLoop fuel s) = false.
Proof.
  revert s. induction fuel as [|f IH]; intros s Hf; [lia|]. simpl.
  destruct (test HL_PREFIX_RE s) eqn:E.
  - apply prefix_consumes in E. rewrite bool_decide_false; [apply IH; lia|].
    intros E'. rewrite E' in E. lia.
  - unfold HL_PREFIX_RE in *. rewrite replace_prefix_none by done. by rewrite bool_decide_true.
Qed.

(** However many prefixes are stacked on a line, stripping ends with a line that
    has none: the loop reaches its fixed point. *)
Theorem stripping_leaves_no_prefix l : test HL_PREFIX_RE (stripLeadingHashlinePrefixes l) = false.
Proof. apply stripLoop_clean. lia. Qed.

(** ** Read output is recovered *)

Lemma arrows_skip bef c s cs k x :
  is_digit c = true -> k (MState bef (c :: s) cs) = Some x ->
  rmatch rx_arrows (MState bef (c :: s) cs) k = Some x.
Proof.
  intros Hc Hk. apply alt_match_r; [|done].
  apply alt_fail; apply seq_fail, (class_fail (N.eqb 62)), N.eqb_neq; by intros <-.
Qed.

Lemma tag_prefix_match bef n h l cs :
  0 <= n -> is_hash h ->
  rmatch rx_tag (MState bef (z_str n ++ h ++ HL_BODY_SEP :: l) cs) Some =
    Some (MState (HL_BODY_SEP :: reverse h ++ reverse (z_str n) ++ bef) l cs).
Proof.
  intros Hn Hh. destruct (z_str_nonempty n Hn) as (c & ds & E & Hc & Hds). rewrite E. cbn [app].
  destruct h as [|a [|b [|]]]; try done. unfold is_hash in Hh. simpl in Hh.
  apply andb_true_iff in Hh as [Ha Hb].
  apply seq_match, class_match; [done|].
  apply seq_match, star_class_greedy; [done|simpl; unit_cases|].
  do 2 (apply seq_match, class_match; [done|]). apply class_match; [done|].
  by rewrite (reverse_cons ds c), <- app_assoc.
Qed.

Lemma prefix_match n h l :
  0 <= n -> is_hash h ->
  match_at HL_PREFIX_RE (MState [] (z_str n ++ h ++ HL_BODY_SEP :: l) []) =
    Some (MState (HL_BODY_SEP :: reverse h ++ reverse (z_str n) ++ []) l []).
Proof.
  intros Hn Hh. pose proof (tag_prefix_match [] n h l [] Hn Hh) as Ht. revert Ht.
  destruct (z_str_nonempty n Hn) as (c & ds & E & Hc & Hds). rewrite E. cbn [app]. intros Ht.
  unfold HL_PREFIX_RE, match_at. apply seq_match. cbn [rmatch consumed].
  apply seq_match, star_class_skip; [simpl; unit_cases|].
  apply seq_match, arrows_skip; [done|].
  apply seq_match, star_class_skip; [simpl; unit_cases|].
  apply seq_match, alt_match_r; [|exact Ht].
  apply (class_fail (fun c => existsb (N.eqb c) (js "+*"))). simpl. unit_cases.
Qed.

Section roundtrip.
Context `{LineHasher}.

Lemma formatted_prefix n l :
  0 <= n -> test HL_PREFIX_RE (formatHashLine n l) = true /\
            replace_prefix HL_PREFIX_RE (formatHashLine n l) = l.
Proof.
  intros Hn. pose proof (prefix_match n (computeLineHash n l) l Hn (computeLineHash_bigram n l)) as Hm.
  unfold formatHashLine. split.
  - apply not_false_iff_true. unfold HL_PREFIX_RE in *. rewrite test_bol_false. congruence.
  - unfold replace_prefix. by rewrite Hm.
Qed.

Lemma strip_formatted n l :
  0 <= n -> test HL_PREFIX_RE l = false -> stripLeadingHashlinePrefixes (formatHashLine n l) = l.
Proof.
  intros Hn Hl. destruct (formatted_prefix n l Hn) as [Ht Hr].
  pose proof (prefix_consumes _ Ht) as Hc. rewrite Hr in Hc.
  unfold stripLeadingHashlinePrefixes. cbn [stripLoop]. rewrite Hr.
  rewrite bool_decide_false by (intros E; rewrite <- E in Hc; lia).
  destruct (length (formatHashLine n l)) as [|f]; [lia|]. cbn [stripLoop].
  unfold HL_PREFIX_RE in *. rewrite replace_prefix_none by done. by rewrite bool_decide_true.
Qed.

(** A line that starts with a digit is not a truncation notice. *)
Lemma formatted_not_notice n l : 0 <= n -> test READ_TRUNCATION_NOTICE_RE (formatHashLine n l) = false.
Proof.
  intros Hn. apply test_bol_false. unfold match_at. apply seq_fail. unfold formatHashLine.
  destruct (z_str_nonempty n Hn) as (c & ds & -> & Hc & _). cbn [app rmatch consumed].
  apply seq_fail, (class_fail (N.eqb 91)), N.eqb_neq. by intros <-.
Qed.

Lemma formatted_nonempty n l : 0 <= n -> (length (formatHashLine n l) =? 0)%nat = false.
Proof. intros Hn. unfold formatHashLine. by destruct (z_str_nonempty n Hn) as (c & ds & -> & _). Qed.

Definition formatted (start : Z) (lines : list jstring) : list jstring :=
  imap (fun i l => formatHashLine (start + Z.of_nat i) l) lines.

Lemma formatted_cons start l lines :
  formatted start (l :: lines) = formatHashLine start l :: formatted (start + 1) lines.
Proof.
  unfold formatted. cbn [imap]. rewrite Z.add_0_r. f_equal. apply imap_ext. intros i x _. simpl.
  f_equal. lia.
Qed.

Lemma formatted_stats start lines stats :
  0 <= start ->
  let stats' := foldl countLine stats (formatted start lines) in
  nonEmpty stats' = nonEmpty stats + zlength lines /\
  hashPrefixCount stats' = hashPrefixCount stats + zlength lines.
Proof.
  revert start stats. induction lines as [|l lines IH]; intros start stats Hs; [simpl; unfold zlength; simpl; lia|].
  rewrite formatted_cons. cbn [foldl]. cbv zeta.
  destruct (IH (start + 1) (countLine stats (formatHashLine start l)) ltac:(lia)) as [-> ->].
  unfold countLine. rewrite formatted_nonempty, formatted_not_notice by done.
  rewrite (proj1 (formatted_prefix start l Hs)). cbn [nonEmpty hashPrefixCount]. unfold zlength. simpl. lia.
Qed.

Lemma formatted_strip start lines :
  0 <= start -> Forall (fun l => test HL_PREFIX_RE l = false) lines ->
  stripLeadingHashlinePrefixes <$> dropNotices (formatted start lines) = lines.
Proof.
  intros Hs Hl. revert start Hs. induction Hl as [|l lines Hl _ IH]; intros start Hs; [done|].
  rewrite formatted_cons. unfold dropNotices. cbn [List.filter].
  rewrite formatted_not_notice by done. cbn [negb]. rewrite fmap_cons, strip_formatted by done.
  f_equal. apply IH. lia.
Qed.

Lemma strip_read_output start lines :
  0 <= start -> lines ≠ [] -> Forall (fun l => test HL_PREFIX_RE l = false) lines ->
  stripNewLinePrefixes (formatted start lines) = lines /\
  stripHashlinePrefixes (formatted start lines) = lines.
Proof.
  intros Hs Hne Hl. unfold stripNewLinePrefixes, stripHashlinePrefixes, collectLinePrefixStats.
  set (s0 := {| nonEmpty := 0 |}). destruct (formatted_stats start lines s0 Hs) as [E1 E2].
  cbv zeta. rewrite E1, E2. unfold s0. cbn [nonEmpty hashPrefixCount].
  assert (0 < zlength lines) as Hz by (destruct lines; [done|unfold zlength; simpl; lia]).
  replace (0 + zlength lines =? 0) with false by lia. rewrite Z.eqb_refl.
  replace (0 <? 0 + zlength lines) with true by lia. cbn [andb negb].
  split; by apply formatted_strip.
Qed.

Lemma formatted_units start lines c :
  0 <= start -> is_digit c = false -> is_lower c = false -> c ≠ HL_BODY_SEP ->
  Forall (fun l => c ∉ l) lines -> Forall (fun l => c ∉ l) (formatted start lines).
Proof.
  intros Hs Hd Hl Hsep. revert start Hs.
  induction lines as [|l lines IH]; intros start Hs; [by constructor|].
  intros [Hc Hlines]%Forall_cons. rewrite formatted_cons. constructor; [|apply IH; [lia|done]].
  unfold formatHashLine. rewrite !elem_of_app, elem_of_cons.
  destruct (computeLineHash_letters start l) as (a & b & -> & Ha & Hb).
  intros [Hin|[Hin|[Hin|Hin]]]; [|..|done|done].
  - pose proof (z_str_digits start Hs) as F. rewrite Forall_forall in F. apply F in Hin. congruence.
  - repeat (apply elem_of_cons in Hin as [->|Hin]; [congruence|]). by apply elem_of_nil in Hin.
Qed.

Lemma remove_unit_absent c s : (c ∉ s) -> remove_unit c s = s.
Proof.
  intros Hs. unfold remove_unit. induction s as [|d s IH]; [done|].
  apply not_elem_of_cons in Hs as [Hd Hs]. rewrite filter_cons, decide_True by congruence. by rewrite IH.
Qed.

Lemma join_absent c sep l : (c ∉ sep) -> Forall (fun x => c ∉ x) l -> (c ∉ join sep l).
Proof.
  intros Hsep Hl. induction Hl as [|x l Hx Hl IH]; [by apply not_elem_of_nil|].
  destruct l as [|y l]; [done|]. rewrite join_cons by done. rewrite !not_elem_of_app. done.
Qed.

(** The text does not end in a line feed: its last line has a prefix. *)
Lemma formatted_no_final_lf start lines :
  0 <= start -> lines ≠ [] -> Forall (fun l => c_lf ∉ l) lines ->
  ends_with_unit c_lf (join [c_lf] (formatted start lines)) = false.
Proof.
  intros Hs Hne Hl.
  pose proof (formatted_units start lines c_lf Hs eq_refl eq_refl ltac:(done) Hl) as Hf.
  pose proof (split_on_join c_lf (formatted start lines)) as Hsp.
  unfold ends_with_unit. destruct (last (join _ _)) as [d|] eqn:E; [|done].
  destruct (N.eqb_spec d c_lf) as [->|]; [exfalso|done].
  apply last_Some in E as [s E]. rewrite E in Hsp. rewrite split_on_snoc in Hsp.
  assert (formatted start lines ≠ []) as Hfne by (destruct lines; [done|by rewrite formatted_cons]).
  specialize (Hsp Hfne Hf). assert ([] ∈ formatted start lines) as Hin.
  { rewrite <- Hsp. rewrite elem_of_app, list_elem_of_singleton. by right. }
  apply elem_of_lookup_imap in Hin as (i & x & E' & _).
  pose proof (formatted_nonempty (start + Z.of_nat i) x ltac:(lia)) as Hlen.
  by rewrite <- E' in Hlen.
Qed.

(** Roundtrip. Content echoed back with read-output prefixes is recovered exactly: stripping the
    text that the read tool prints for a file gives the lines of the file, unless a line of the file
    itself begins with what looks like such a prefix. *)
Theorem read_output_is_recovered text start :
  0 <= start -> (c_cr ∉ text) ->
  Forall (fun l => test HL_PREFIX_RE l = false) (split_on c_lf text) ->
  hashlineParseText (Text (formatHashLines text start)) = split_on c_lf text.
Proof.
  intros Hs Hcr Hp. unfold hashlineParseText, formatHashLines.
  pose proof (split_on_nonempty c_lf text) as Hne. pose proof (split_on_pieces c_lf text) as Hlf.
  fold (formatted start (split_on c_lf text)). rewrite formatted_no_final_lf by done.
  assert (Forall (fun l => c_cr ∉ l) (split_on c_lf text)) as Hcrs.
  { apply Forall_forall. intros l Hl Hc. apply Hcr. rewrite <- (join_split_on c_lf text).
    by eapply elem_of_join. }
  rewrite remove_unit_absent by
    (apply join_absent; [by intros ?%list_elem_of_singleton|by apply formatted_units]).
  rewrite split_on_join; [|destruct (split_on c_lf text); [done|by rewrite formatted_cons]|by apply formatted_units].
  by apply strip_read_output.
Qed.
End roundtrip.

Lemma read_output_is_recovered_witness :
  hashlineParseText (Text (formatHashLines (H := demoHasher) (js "let x = 1;" ++ [c_lf] ++ js "}") 7)) =
  [js "let x = 1;"; js "}"].
Proof.
  apply (read_output_is_recovered (H := demoHasher) (js "let x = 1;" ++ [c_lf] ++ js "}") 7);
    [lia|apply (bool_decide_unpack _); reflexivity|].
  repeat (apply Forall_cons; split); [vm_compute; reflexivity..|apply Forall_nil_2].
Defined.

(** ** Ordinary content is left alone *)

Lemma countLine_plain l stats :
  test HL_PREFIX_RE l = false -> test HL_PREFIX_PLUS_RE l = false -> test DIFF_PLUS_RE l = false ->
  let stats' := countLine stats l in
  hashPrefixCount stats' = hashPrefixCount stats /\
  diffPlusHashPrefixCount stats' = diffPlusHashPrefixCount stats /\
  diffPlusCount stats' = diffPlusCount stats.
Proof.
  intros H1 H2 H3. unfold countLine. rewrite H1, H2, H3.
  repeat case_match; cbn [hashPrefixCount diffPlusHashPrefixCount diffPlusCount]; lia.
Qed.

(** safety. Content without read or diff prefixes is never altered, truncation notices and all. *)
Theorem plain_content_is_kept lines :
  Forall (fun l => test HL_PREFIX_RE l = false /\ test HL_PREFIX_PLUS_RE l = false /\
                   test DIFF_PLUS_RE l = false) lines ->
  hashlineParseText (Lines lines) = lines.
Proof.
  intros Hl. cbn [hashlineParseText]. unfold stripNewLinePrefixes, collectLinePrefixStats.
  assert (forall stats, let stats' := foldl countLine stats lines in
    hashPrefixCount stats' = hashPrefixCount stats /\
    diffPlusHashPrefixCount stats' = diffPlusHashPrefixCount stats /\
    diffPlusCount stats' = diffPlusCount stats) as Hgen.
  { induction Hl as [|l lines (H1 & H2 & H3) _ IH]; intros stats; [done|]. cbn [foldl]. cbv zeta.
    destruct (IH (countLine stats l)) as (-> & -> & ->). by apply countLine_plain. }
  match goal with |- context [foldl countLine ?s _] => destruct (Hgen s) as (E1 & E2 & E3) end.
  cbv zeta. rewrite E1, E2, E3. cbn -[Z.eqb nonEmpty]. by case_match.
Qed.

Lemma plain_content_is_kept_witness :
  hashlineParseText (Lines [js "a + b"; js "++i"; []]) = [js "a + b"; js "++i"; []].
Proof.
  apply plain_content_is_kept.
  repeat (apply Forall_cons; split); [vm_compute; done..|apply Forall_nil_2].
Defined.
