(* ===== verification/HashlineInput.v ===== *)
(** * Hashline: splitting a tool call into sections (hashline/input.ts)

    An edit call is a text of sections, each a header [§PATH] and the edit program for that file.
    The functions of [node:path] are a parameter. *)
From S2P Require Import Prelude JsString JsRegex HashlineHash HashlineParser.
Open Scope Z_scope.

(** [node:path], with the process's working directory already fixed. *)
Class NodePath := {
  path_isAbsolute : jstring -> bool;
  path_relative : jstring -> jstring -> jstring;
  path_resolve : jstring -> jstring
}.

Record SplitHashlineOptions : Type := { opt_cwd : option jstring; opt_path : option jstring }.

Record HashlineInputSection : Type := { path : jstring; diff : jstring }.

(** [s] as a condition: [undefined] and the empty string are false. *)
Definition truthy (s : option jstring) : option jstring :=
  match s with Some [] | None => None | s => s end.

(** [^[«»≔]] *)
Definition HASHLINE_OP_LINE_RE : regex := rx_seq rx_bol (rx_one_of HL_OP_CHARS).

Definition c_bom : N := 65279.

Definition unquoteHashlinePath (pathText : jstring) : jstring :=
  if (length pathText <? 2)%nat then pathText
  else match pathText, last pathText with
       | first :: _, Some final =>
           if ((first =? 34) || (first =? 39))%N && (first =? final)%N
           then drop_last (drop 1 pathText) else pathText
       | _, _ => pathText
       end.

Section input.
Context `{NodePath}.

Definition normalizeHashlinePath (rawPath : jstring) (cwd : option jstring) : jstring :=
  let unquoted := unquoteHashlinePath (trim rawPath) in
  match truthy cwd with
  | None => unquoted
  | Some cwd =>
      if negb (path_isAbsolute unquoted) then unquoted
      else
        let relative := path_relative (path_resolve cwd) (path_resolve unquoted) in
        let isWithinCwd := bool_decide (relative = [])
          || (negb (starts_with (js "..") relative) && negb (path_isAbsolute relative)) in
        if isWithinCwd then (if bool_decide (relative = []) then js "." else relative) else unquoted
  end.

(** [trimmed.slice(prefixEnd)]: what follows the leading run of header markers. *)
Fixpoint afterMarkers (s : jstring) : jstring :=
  match s with
  | c :: s' => if (c =? HL_FILE_PREFIX)%N then afterMarkers s' else s
  | [] => []
  end.

Definition parseHashlineHeaderLine (l : jstring) (cwd : option jstring)
    : result HashlineError (option HashlineInputSection) :=
  let trimmed := trim_end l in
  if negb (starts_with [HL_FILE_PREFIX] trimmed) then Ok None
  else
    let rest := afterMarkers trimmed in
    if (length (trim rest) =? 0)%nat then Throw EmptyHeader
    else
      let parsedPath := normalizeHashlinePath rest cwd in
      if (length parsedPath =? 0)%nat then Throw EmptyHeader
      else Ok (Some {| path := parsedPath; diff := [] |}).

Definition isPatchEnvelopeMarker (l : jstring) : bool :=
  let trimmed := trim_end l in
  bool_decide (trimmed = BEGIN_PATCH_MARKER) || bool_decide (trimmed = END_PATCH_MARKER).

Definition stripBomUnit (input : jstring) : jstring :=
  if starts_with [c_bom] input then drop 1 input else input.

(** [lines[0].replace(/\r$/, "")] *)
Definition dropFinalCr (l : jstring) : jstring := if ends_with_unit c_cr l then drop_last l else l.

Fixpoint shiftBlank (lines : list jstring) : list jstring :=
  match lines with
  | [] => []
  | l :: lines' =>
      let head := dropFinalCr l in
      if (length (trim head) =? 0)%nat || bool_decide (trim_end head = BEGIN_PATCH_MARKER)
      then shiftBlank lines' else lines
  end.

Definition stripLeadingBlankLines (input : jstring) : jstring :=
  join [c_lf] (shiftBlank (split_on c_lf (stripBomUnit input))).

Definition containsRecognizableHashlineOperations (input : jstring) : bool :=
  existsb (test HASHLINE_OP_LINE_RE) (split_crlf input).

(** [lines.some(l => parseHashlineHeaderLine(l) !== null)], which throws where a header is empty. *)
Fixpoint someHeader (lines : list jstring) (cwd : option jstring) : result HashlineError bool :=
  match lines with
  | [] => Ok false
  | l :: lines' =>
      h ← parseHashlineHeaderLine l cwd;
      match h with Some _ => Ok true | None => someHeader lines' cwd end
  end.

Definition normalizeFallbackInput (input : jstring) (options : SplitHashlineOptions)
    : result HashlineError jstring :=
  hasExplicitHeader ← someHeader (split_crlf (stripBomUnit input)) (opt_cwd options);
  if (hasExplicitHeader : bool) then Ok input
  else match truthy (opt_path options) with
       | None => Ok input
       | Some p =>
           if negb (containsRecognizableHashlineOperations input) then Ok input
           else
             let fallbackPath := normalizeHashlinePath p (opt_cwd options) in
             if (length fallbackPath =? 0)%nat then Ok input
             else Ok (HL_FILE_PREFIX :: fallbackPath ++ c_lf :: input)
       end.

(** The state of the loop of [splitHashlineInputs]. *)
Record splitState : Type := {
  sections : list HashlineInputSection; currentPath : jstring; currentLines : list jstring }.

Definition flush (st : splitState) : splitState :=
  if (length (currentPath st) =? 0)%nat then st
  else
    let hasOps := existsb (fun l => negb (length (trim l) =? 0)%nat) (currentLines st) in
    {| sections := if (hasOps : bool)
         then sections st ++ [{| path := currentPath st; diff := join [c_lf] (currentLines st) |}]
         else sections st;
       currentPath := currentPath st; currentLines := [] |}.

Fixpoint sectionLoop (lines : list jstring) (cwd : option jstring) (st : splitState)
    : result HashlineError splitState :=
  match lines with
  | [] => Ok st
  | l :: lines' =>
      if bool_decide (trim_end l = END_PATCH_MARKER) || bool_decide (trim_end l = ABORT_MARKER) then Ok st
      else if isPatchEnvelopeMarker l then sectionLoop lines' cwd st
      else
        header ← parseHashlineHeaderLine l cwd;
        match header with
        | Some h =>
            sectionLoop lines' cwd
              {| sections := sections (flush st); currentPath := path h; currentLines := [] |}
        | None =>
            sectionLoop lines' cwd
              {| sections := sections st; currentPath := currentPath st;
                 currentLines := currentLines st ++ [l] |}
        end
  end.

Definition splitHashlineInputs (input : jstring) (options : SplitHashlineOptions)
    : result HashlineError (list HashlineInputSection) :=
  normalized ← normalizeFallbackInput input options;
  let stripped := stripLeadingBlankLines normalized in
  let lines := split_crlf stripped in
  let firstLine := default [] (head lines) in
  header ← parseHashlineHeaderLine firstLine (opt_cwd options);
  match header with
  | None => Throw (MissingHeader (take 120 firstLine))
  | Some _ =>
      st ← sectionLoop lines (opt_cwd options)
             {| sections := []; currentPath := []; currentLines := [] |};
      Ok (sections (flush st))
  end.

(** [const [section] = ...]: [undefined] when there is no section. *)
Definition splitHashlineInput (input : jstring) (options : SplitHashlineOptions)
    : result HashlineError (option HashlineInputSection) :=
  ss ← splitHashlineInputs input options; Ok (head ss).

End input.

(** ** Sections of any input *)

Section facts.
Context `{NodePath}.

(** A line that belongs to a section's program. *)
Definition body_line (cwd : option jstring) (l : jstring) : Prop :=
  parseHashlineHeaderLine l cwd = Ok None /\ isEnvelopeOrAbortMarkerLine l = false.

Definition section_ok (cwd : option jstring) (s : HashlineInputSection) : Prop :=
  path s ≠ [] /\
  exists ls, diff s = join [c_lf] ls /\ Forall (body_line cwd) ls /\ Exists (fun l => trim l ≠ []) ls.

Definition state_ok (cwd : option jstring) (st : splitState) : Prop :=
  Forall (section_ok cwd) (sections st) /\ Forall (body_line cwd) (currentLines st).

Lemma nonblank_iff ls :
  existsb (fun l => negb (length (trim l) =? 0)%nat) ls = true <-> Exists (fun l => trim l ≠ []) ls.
Proof.
  rewrite existsb_exists, Exists_exists.
  split; intros (l & Hl & Ht); exists l; (split; [by apply list_elem_of_In|]); by destruct (trim l).
Qed.

Lemma flush_ok cwd st : state_ok cwd st -> Forall (section_ok cwd) (sections (flush st)).
Proof.
  intros [Hs Hl]. unfold flush. destruct (currentPath st) as [|c p] eqn:E; [done|]. cbn [length Nat.eqb sections].
  case_match eqn:Ho; [|done]. apply Forall_app. split; [done|]. apply Forall_singleton.
  split; [done|]. exists (currentLines st). split_and!; [done|done|]. by apply nonblank_iff.
Qed.

Lemma header_path l cwd h : parseHashlineHeaderLine l cwd = Ok (Some h) -> path h ≠ [].
Proof.
  unfold parseHashlineHeaderLine. repeat (case_match; [done|]). intros [= <-]. cbn [path].
  by destruct (normalizeHashlinePath _ _).
Qed.

Lemma sectionLoop_ok lines cwd st st' :
  state_ok cwd st -> sectionLoop lines cwd st = Ok st' -> state_ok cwd st'.
Proof.
  revert st. induction lines as [|l lines IH]; intros st Hst; cbn [sectionLoop]; [by intros [= <-]|].
  case_match eqn:E1; [by intros [= <-]|]. case_match eqn:E2; [by apply IH|].
  intros (h & Hh & Hr)%bind_Ok. destruct h as [h|]; (eapply IH; [|exact Hr]).
  - split; [by apply flush_ok|constructor].
  - destruct Hst as [Hs Hl]. split; [done|]. apply Forall_app. split; [done|].
    apply Forall_singleton. split; [done|]. unfold isEnvelopeOrAbortMarkerLine.
    unfold isPatchEnvelopeMarker in E2. apply orb_false_iff in E1 as [_ ->], E2 as [-> ->]. done.
Qed.

(** invariant. Every section that comes out of a tool call has a path, and its program consists
    of lines of the call that are neither file headers nor envelope markers, at least one of them
    not blank; so no section routes another section's operations to its file. *)
Theorem sections_are_well_formed input options ss :
  splitHashlineInputs input options = Ok ss -> Forall (section_ok (opt_cwd options)) ss.
Proof.
  unfold splitHashlineInputs. intros (text & _ & Hr)%bind_Ok. cbv zeta in Hr.
  apply bind_Ok in Hr as ([h|] & _ & Hr); [|done]. apply bind_Ok in Hr as (st & Hst & [= <-]).
  apply flush_ok. eapply sectionLoop_ok; [|exact Hst]. split; constructor.
Qed.

(** ** Printing and splitting *)

(** A path that is kept as written: no outer white space, quotes or markers, and relative when
    there is a working directory to be relative to. *)
Definition plain_path (cwd : option jstring) (p : jstring) : Prop :=
  p ≠ [] /\ trim_start p = p /\ trim_end p = p /\ unquoteHashlinePath p = p /\
  head p ≠ Some HL_FILE_PREFIX /\ plain_line p /\ (truthy cwd = None \/ path_isAbsolute p = false).

Definition source_ok (cwd : option jstring) (s : jstring * list jstring) : Prop :=
  plain_path cwd s.1 /\ Forall (fun l => plain_line l /\ body_line cwd l) s.2 /\
  Exists (fun l => trim l ≠ []) s.2.

Definition source_lines (s : jstring * list jstring) : list jstring := (HL_FILE_PREFIX :: s.1) :: s.2.
Definition source_section (s : jstring * list jstring) : HashlineInputSection :=
  {| path := s.1; diff := join [c_lf] s.2 |}.

Lemma normalize_plain cwd p : plain_path cwd p -> normalizeHashlinePath p cwd = p.
Proof.
  intros (Hne & H1 & H2 & Hq & _ & _ & Hrel). unfold normalizeHashlinePath, trim. rewrite H1, H2, Hq.
  destruct (truthy cwd); [|done]. destruct Hrel as [?| ->]; done.
Qed.

Lemma trim_end_marker p : p ≠ [] -> trim_end p = p -> trim_end (HL_FILE_PREFIX :: p) = HL_FILE_PREFIX :: p.
Proof. intros Hne Ht. cbn [trim_end]. rewrite Ht. by destruct p. Qed.

Lemma header_line cwd p :
  plain_path cwd p ->
  parseHashlineHeaderLine (HL_FILE_PREFIX :: p) cwd = Ok (Some {| path := p; diff := [] |}).
Proof.
  intros Hp. pose proof (normalize_plain cwd p Hp) as Hn.
  destruct Hp as (Hne & H1 & H2 & _ & Hh & _). unfold parseHashlineHeaderLine.
  rewrite trim_end_marker by done. cbn [starts_with negb]. rewrite N.eqb_refl. cbn [andb negb].
  assert (afterMarkers (HL_FILE_PREFIX :: p) = p) as ->.
  { cbn [afterMarkers]. rewrite N.eqb_refl. destruct p as [|c p]; [done|]. cbn [afterMarkers].
    destruct (N.eqb_spec c HL_FILE_PREFIX) as [->|]; [by destruct Hh|done]. }
  rewrite Hn. unfold trim. rewrite H1, H2. by destruct p.
Qed.

Lemma header_not_marker p m :
  p ≠ [] -> trim_end p = p -> m ∈ [BEGIN_PATCH_MARKER; END_PATCH_MARKER; ABORT_MARKER] ->
  bool_decide (trim_end (HL_FILE_PREFIX :: p) = m) = false.
Proof.
  intros Hne Ht Hm. rewrite trim_end_marker by done. apply bool_decide_false. intros <-.
  repeat (apply elem_of_cons in Hm as [Hm|Hm]; [discriminate Hm|]). by apply elem_of_nil in Hm.
Qed.

Lemma sectionLoop_body cwd body lines st :
  Forall (body_line cwd) body ->
  sectionLoop (body ++ lines) cwd st =
  sectionLoop lines cwd {| sections := sections st; currentPath := currentPath st;
                           currentLines := currentLines st ++ body |}.
Proof.
  intros Hb. revert st. induction Hb as [|l body [Hh Hm] _ IH]; intros st.
  { rewrite app_nil_r. by destruct st. }
  cbn [app sectionLoop]. unfold isEnvelopeOrAbortMarkerLine in Hm.
  apply orb_false_iff in Hm as [[E1 E2]%orb_false_iff E3]. unfold isPatchEnvelopeMarker.
  rewrite E1, E2, E3. cbn [orb]. rewrite Hh. cbn [mbind result_bind]. rewrite IH.
  cbn [currentLines sections currentPath]. by rewrite <- app_assoc.
Qed.

Lemma sectionLoop_header cwd p lines st :
  plain_path cwd p ->
  sectionLoop ((HL_FILE_PREFIX :: p) :: lines) cwd st =
  sectionLoop lines cwd {| sections := sections (flush st); currentPath := p; currentLines := [] |}.
Proof.
  intros Hp. pose proof (header_line cwd p Hp) as Hh. cbn [sectionLoop]. unfold isPatchEnvelopeMarker.
  destruct Hp as (Hne & H1 & H2 & Hrest).
  rewrite !header_not_marker by (done || (repeat (apply elem_of_cons; (by left) || right))).
  cbn [orb]. by rewrite Hh.
Qed.

Lemma flush_source s acc :
  s.1 ≠ [] -> Exists (fun l => trim l ≠ []) s.2 ->
  sections (flush {| sections := acc; currentPath := s.1; currentLines := s.2 |}) = acc ++ [source_section s].
Proof.
  destruct s as [p ls]. cbn [fst snd]. intros Hp Hl%nonblank_iff. unfold flush.
  cbn [currentPath currentLines sections]. rewrite Hl. by destruct p.
Qed.

Lemma sectionLoop_sources cwd ss st :
  Forall (source_ok cwd) ss ->
  exists st', sectionLoop (ss ≫= source_lines) cwd st = Ok st' /\
    sections (flush st') = sections (flush st) ++ (source_section <$> ss).
Proof.
  intros Hss. revert st. induction Hss as [|s ss (Hp & Hb & Hl) _ IH]; intros st.
  { exists st. split; [done|]. by rewrite app_nil_r. }
  rewrite bind_cons. unfold source_lines at 1. cbn [app]. rewrite sectionLoop_header by done.
  rewrite sectionLoop_body by (eapply Forall_impl; [exact Hb|]; by intros ? [_ ?]).
  destruct (IH {| sections := sections (flush st); currentPath := s.1; currentLines := [] ++ s.2 |})
    as (st' & E & E'). exists st'. split; [exact E|]. rewrite E'. cbn [app].
  rewrite flush_source by (apply Hp || done). by rewrite <- app_assoc.
Qed.

Lemma source_plain cwd ss : Forall (source_ok cwd) ss -> Forall plain_line (ss ≫= source_lines).
Proof.
  intros Hss. apply Forall_bind. eapply Forall_impl; [exact Hss|]. intros s (Hp & Hb & _). constructor.
  - destruct Hp as (Hne & _ & _ & _ & _ & [Hlf Hcr] & _). split.
    + by apply not_elem_of_cons.
    + by destruct s as [[|]].
  - eapply Forall_impl; [exact Hb|]. by intros l [? _].
Qed.

(** A text whose first line is a header is taken as it is. *)
Lemma normalize_headed p lines options :
  plain_path (opt_cwd options) p -> Forall plain_line ((HL_FILE_PREFIX :: p) :: lines) ->
  normalizeFallbackInput (join [c_lf] ((HL_FILE_PREFIX :: p) :: lines)) options =
  Ok (join [c_lf] ((HL_FILE_PREFIX :: p) :: lines)).
Proof.
  intros Hp Hlines. unfold normalizeFallbackInput.
  assert (stripBomUnit (join [c_lf] ((HL_FILE_PREFIX :: p) :: lines)) =
          join [c_lf] ((HL_FILE_PREFIX :: p) :: lines)) as -> by (unfold stripBomUnit; by destruct lines).
  rewrite split_crlf_join by done. cbn [someHeader]. by rewrite header_line.
Qed.

Lemma strip_headed cwd p lines :
  plain_path cwd p -> Forall plain_line ((HL_FILE_PREFIX :: p) :: lines) ->
  stripLeadingBlankLines (join [c_lf] ((HL_FILE_PREFIX :: p) :: lines)) =
  join [c_lf] ((HL_FILE_PREFIX :: p) :: lines).
Proof.
  intros (Hne & H1 & H2 & _ & _ & [_ Hcr] & _) Hlines. unfold stripLeadingBlankLines.
  assert (stripBomUnit (join [c_lf] ((HL_FILE_PREFIX :: p) :: lines)) =
          join [c_lf] ((HL_FILE_PREFIX :: p) :: lines)) as -> by (unfold stripBomUnit; by destruct lines).
  rewrite split_on_join; [|done|eapply Forall_impl; [exact Hlines|]; by intros l [? _]].
  f_equal. cbn [shiftBlank].
  assert (dropFinalCr (HL_FILE_PREFIX :: p) = HL_FILE_PREFIX :: p) as ->.
  { unfold dropFinalCr, ends_with_unit. destruct p as [|c p]; [done|]. rewrite last_cons_cons.
    destruct (last (c :: p)) as [d|] eqn:E; [|done].
    destruct (N.eqb_spec d c_cr) as [->|]; [congruence|done]. }
  rewrite header_not_marker by (done || left).
  unfold trim. cbn [trim_start]. change (is_ws HL_FILE_PREFIX) with false. cbv iota.
  by rewrite trim_end_marker.
Qed.

(** What is split is the normalised input. *)
Lemma split_normalized input ss options :
  normalizeFallbackInput input options = Ok (join [c_lf] (ss ≫= source_lines)) ->
  ss ≠ [] -> Forall (source_ok (opt_cwd options)) ss ->
  splitHashlineInputs input options = Ok (source_section <$> ss).
Proof.
  intros Hn Hne Hss. pose proof (source_plain _ _ Hss) as Hpl.
  destruct (sectionLoop_sources (opt_cwd options) ss {| sections := []; currentPath := []; currentLines := [] |} Hss)
    as (st' & Hst & E).
  unfold splitHashlineInputs. rewrite Hn. cbn [mbind result_bind].
  assert (stripLeadingBlankLines (join [c_lf] (ss ≫= source_lines)) = join [c_lf] (ss ≫= source_lines)) as ->.
  { destruct ss as [|s ss]; [done|]. apply Forall_cons in Hss as [[Hp _] _]. by eapply strip_headed. }
  rewrite split_crlf_join; [|by destruct ss|done]. rewrite Hst. cbn [mbind result_bind]. rewrite E.
  destruct ss as [|s ss]; [done|]. apply Forall_cons in Hss as [[Hp _] _].
  change (default [] (head ((s :: ss) ≫= source_lines))) with (HL_FILE_PREFIX :: s.1).
  by rewrite header_line.
Qed.

(** Roundtrip. A call written as sections is split into exactly those sections: each file keeps
    its path and its whole program, in order, whatever the fallback path is. *)
Theorem split_print_roundtrip options ss :
  ss ≠ [] -> Forall (source_ok (opt_cwd options)) ss ->
  splitHashlineInputs (join [c_lf] (ss ≫= source_lines)) options = Ok (source_section <$> ss).
Proof.
  intros Hne Hss. apply split_normalized; [|done|done]. pose proof (source_plain _ _ Hss) as Hpl.
  destruct ss as [|s ss]; [done|]. apply Forall_cons in Hss as [[Hp _] _].
  exact (normalize_headed s.1 (s.2 ++ mbind (M := list) source_lines ss) options Hp Hpl).
Qed.

Lemma op_line_not_blank l : test HASHLINE_OP_LINE_RE l = true -> trim l ≠ [].
Proof.
  unfold test. destruct (exec HASHLINE_OP_LINE_RE l) as [m|] eqn:E; [intros _|done].
  apply exec_bol_sound in E as (c & s & El & Hc & _). simpl in El. subst l.
  assert (is_ws c = false) as Hws.
  { simpl in Hc. repeat (apply orb_true_iff in Hc as [Hc|Hc]; [apply N.eqb_eq in Hc; by subst c|]). done. }
  unfold trim. cbn [trim_start]. rewrite Hws. cbn [trim_end]. rewrite Hws. by destruct (trim_end s).
Qed.

Lemma someHeader_none cwd body : Forall (body_line cwd) body -> someHeader body cwd = Ok false.
Proof. induction 1 as [|l body [Hh _] _ IH]; cbn [someHeader]; [done|]. by rewrite Hh. Qed.

(** functional. A program without any header, in a call that names a file, is an edit of that
    file: one section, with the path of the call and the whole program. *)
Theorem headerless_input_uses_call_path options p body :
  opt_path options = Some p -> plain_path (opt_cwd options) p ->
  Forall (fun l => plain_line l /\ body_line (opt_cwd options) l) body ->
  Exists (fun l => test HASHLINE_OP_LINE_RE l = true) body ->
  starts_with [c_bom] (join [c_lf] body) = false ->
  splitHashlineInputs (join [c_lf] body) options = Ok [{| path := p; diff := join [c_lf] body |}].
Proof.
  intros Ho Hp Hb Hops Hbom. apply Forall_and in Hb as [Hpl Hbody].
  assert (body ≠ []) as Hne by (destruct body; [by apply Exists_nil in Hops|done]).
  apply (split_normalized _ [(p, body)]); [|done|].
  - unfold normalizeFallbackInput, stripBomUnit. rewrite Hbom, split_crlf_join by done.
    rewrite someHeader_none by done. cbn [mbind result_bind]. rewrite Ho.
    unfold containsRecognizableHashlineOperations. rewrite split_crlf_join by done.
    assert (existsb (test HASHLINE_OP_LINE_RE) body = true) as ->.
    { apply existsb_exists. apply Exists_exists in Hops as (l & Hl & Ht). exists l.
      split; [by apply list_elem_of_In|done]. }
    pose proof (normalize_plain _ _ Hp) as Hn. destruct Hp as (Hpne & _).
    destruct p as [|c p]; [done|]. cbn [truthy]. rewrite Hn. cbn. rewrite app_nil_r. by destruct body.
  - apply Forall_singleton. split_and!; [done|by apply Forall_and|].
    eapply Exists_impl; [exact Hops|]. apply op_line_not_blank.
Qed.
End facts.

(** ** Examples *)

(** A stand-in for [node:path] on paths that are already normal. *)
Definition demoPath : NodePath :=
  {| path_isAbsolute := starts_with (js "/");
     path_relative := fun _ p => p;
     path_resolve := fun p => p |}.

Section examples.
#[local] Existing Instance demoPath.

Definition demo_options : SplitHashlineOptions :=
  {| opt_cwd := Some (js "/w"); opt_path := Some (js "a.ts") |}.
Definition demo_body : list jstring := [HL_OP_REPLACE :: js "3ab"; js "x"].

Lemma demo_path_ok : plain_path (Some (js "/w")) (js "a.ts").
Proof. split_and!; try done; [split; [apply (bool_decide_unpack _)|]; done|by right]. Qed.

Lemma demo_body_ok :
  Forall (fun l => plain_line l /\ body_line (Some (js "/w")) l) demo_body.
Proof.
  repeat (apply Forall_cons; split); [..|apply Forall_nil_2];
    (split; [split; [apply (bool_decide_unpack _)|]|split]; done).
Qed.

Lemma demo_source_ok : source_ok (Some (js "/w")) (js "a.ts", demo_body).
Proof. split_and!; [apply demo_path_ok|apply demo_body_ok|by left]. Qed.

Lemma sections_are_well_formed_witness :
  Forall (section_ok (Some (js "/w"))) [{| path := js "a.ts"; diff := join [c_lf] demo_body |}].
Proof.
  apply (sections_are_well_formed (join [c_lf] ((HL_FILE_PREFIX :: js "a.ts") :: demo_body)) demo_options).
  vm_compute. reflexivity.
Defined.

Lemma split_print_roundtrip_witness :
  splitHashlineInputs (join [c_lf] ([(js "a.ts", demo_body); (js "a.ts", demo_body)] ≫= source_lines))
    demo_options = Ok (source_section <$> [(js "a.ts", demo_body); (js "a.ts", demo_body)]).
Proof.
  apply split_print_roundtrip; [done|].
  apply Forall_cons; split; [apply demo_source_ok|apply Forall_singleton, demo_source_ok].
Defined.

Lemma headerless_input_uses_call_path_witness :
  splitHashlineInputs (join [c_lf] demo_body) demo_options =
  Ok [{| path := js "a.ts"; diff := join [c_lf] demo_body |}].
Proof.
  apply headerless_input_uses_call_path;
    [reflexivity|apply demo_path_ok|apply demo_body_ok|left; reflexivity|reflexivity].
Defined.

(** The byte order mark is looked through when a header is searched for, but kept when the header of
    the call's file is put in front: the first operation then no longer parses. *)
Lemma bom_breaks_headerless_input :
  let program := [HL_OP_REPLACE :: js "3ab"; HL_OP_REPLACE :: js "5cd"] in
  let run (text : jstring) : result HashlineError (list (result HashlineError (list HashlineEdit))) :=
    ss ← splitHashlineInputs text demo_options;
    Ok (List.map (fun s => parseHashline (H := demoHasher) (diff s)) ss) in
  (exists edits, run (join [c_lf] program) = Ok [Ok edits] /\ length edits = 2%nat) /\
  (exists l, run (c_bom :: join [c_lf] program) = Ok [Throw (PayloadWithoutOp 1 l)]).
Proof. split; [eexists; split; vm_compute; reflexivity|eexists; vm_compute; reflexivity]. Qed.

End examples.
