(* ===== verification/HashlineStream.v ===== *)
(** * Hashline: streaming a file as numbered, hashed lines (hashline/stream.ts)

    Bytes arrive in chunks of any size; they are decoded, cut into lines and printed as
    [LINE+HASH|TEXT], and the printed lines are yielded in chunks bounded in lines and bytes.  The
    generator is modelled by the list of the values it yields, the decoder is a parameter. *)
From S2P Require Import Prelude JsString HashlineHash.
From Stdlib Require Import ZifyBool ZifyN.
Open Scope Z_scope.

(** [new TextDecoder("utf-8")]: [decode(chunk, {stream: true})], and [decode()] at the end. *)
Class TextDecoder := {
  decoder_state : Type;
  new_decoder : decoder_state;
  decode_chunk : decoder_state -> list N -> decoder_state * jstring;
  decode_end : decoder_state -> jstring
}.

Definition is_high_surrogate (c : N) : bool := ((55296 <=? c) && (c <=? 56319))%N.
Definition is_low_surrogate (c : N) : bool := ((56320 <=? c) && (c <=? 57343))%N.

(** [Buffer.byteLength(s, "utf-8")]: a surrogate pair takes four bytes, a lone surrogate three. *)
Fixpoint byteLength (s : jstring) : Z :=
  match s with
  | [] => 0
  | c :: s' =>
      if (c <? 128)%N then 1 + byteLength s'
      else if (c <? 2048)%N then 2 + byteLength s'
      else match s' with
           | d :: s'' =>
               if is_high_surrogate c && is_low_surrogate d then 4 + byteLength s''
               else 3 + byteLength s'
           | [] => 3
           end
  end.

Record HashlineStreamOptions : Type := {
  opt_startLine : option Z; opt_maxChunkLines : option Z; opt_maxChunkBytes : option Z }.

Record ResolvedHashlineStreamOptions : Type := {
  startLine : Z; maxChunkLines : Z; maxChunkBytes : Z }.

Definition resolveHashlineStreamOptions (options : HashlineStreamOptions) : ResolvedHashlineStreamOptions :=
  {| startLine := default 1 (opt_startLine options);
     maxChunkLines := default 200 (opt_maxChunkLines options);
     maxChunkBytes := default (64 * 1024) (opt_maxChunkBytes options) |}.

(** The variables of [createHashlineChunkEmitter]. *)
Record emitter : Type := { lineNumber : Z; outLines : list jstring; outBytes : Z }.

Definition emitter_init (options : ResolvedHashlineStreamOptions) : emitter :=
  {| lineNumber := startLine options; outLines := []; outBytes := 0 |}.

Definition flush (e : emitter) : emitter * option jstring :=
  match outLines e with
  | [] => (e, None)
  | _ => ({| lineNumber := lineNumber e; outLines := []; outBytes := 0 |}, Some (join [c_lf] (outLines e)))
  end.

(** [if (flushed) chunks.push(flushed)]: an empty string is not pushed. *)
Definition push_flushed (flushed : option jstring) (chunks : list jstring) : list jstring :=
  match flushed with None | Some [] => chunks | Some s => chunks ++ [s] end.

Section stream.
Context `{LineHasher}.

Definition pushLine (options : ResolvedHashlineStreamOptions) (e : emitter) (l : jstring)
    : emitter * list jstring :=
  let formatted := formatHashLine (lineNumber e) l in
  let sepBytes := match outLines e with [] => 0 | _ => 1 end in
  let lineBytes := byteLength formatted in
  let wouldOverflow :=
    (maxChunkLines options <=? zlength (outLines e))
    || (maxChunkBytes options <? outBytes e + sepBytes + lineBytes) in
  let '(e1, chunks) :=
    if (0 <? zlength (outLines e)) && wouldOverflow
    then let '(e', flushed) := flush e in (e', push_flushed flushed [])
    else (e, []) in
  let outLines' := outLines e1 ++ [formatted] in
  let e2 := {| lineNumber := lineNumber e + 1; outLines := outLines';
               outBytes := outBytes e1 + (if zlength outLines' =? 1 then 0 else 1) + lineBytes |} in
  if (maxChunkLines options <=? zlength (outLines e2)) || (maxChunkBytes options <=? outBytes e2)
  then let '(e3, flushed) := flush e2 in (e3, push_flushed flushed chunks)
  else (e2, chunks).

(** [raw.endsWith("\r") ? raw.slice(0, -1) : raw] *)
Definition dropCr (raw : jstring) : jstring := if ends_with_unit c_cr raw then drop_last raw else raw.

(** The variables of [streamHashLinesFromUtf8], and what was yielded so far. *)
Record streamState : Type := {
  pending : jstring; sawAnyLine : bool; emit : emitter; yielded : list jstring }.

Definition yieldLine (options : ResolvedHashlineStreamOptions) (st : streamState) (l rest : jstring) : streamState :=
  let '(e, out) := pushLine options (emit st) l in
  {| pending := rest; sawAnyLine := true; emit := e; yielded := yielded st ++ out |}.

(** The inner loop: one line per line feed in [pending]. *)
Fixpoint drainPending (fuel : nat) (options : ResolvedHashlineStreamOptions) (st : streamState) : streamState :=
  match fuel, index_of c_lf (pending st) with
  | S f, Some nl =>
      drainPending f options
        (yieldLine options st (dropCr (take nl (pending st))) (drop (S nl) (pending st)))
  | _, _ => st
  end.

Context `{TextDecoder}.

Definition onChunk (options : ResolvedHashlineStreamOptions) (acc : decoder_state * streamState) (chunk : list N)
    : decoder_state * streamState :=
  let '(d, st) := acc in
  let '(d', text) := decode_chunk d chunk in
  let st' := {| pending := pending st ++ text; sawAnyLine := sawAnyLine st; emit := emit st;
                yielded := yielded st |} in
  (d', drainPending (length (pending st')) options st').

Definition streamHashLinesFromUtf8 (source : list (list N)) (options : HashlineStreamOptions) : list jstring :=
  let resolved := resolveHashlineStreamOptions options in
  let '(d, st) := foldl (onChunk resolved)
    (new_decoder, {| pending := []; sawAnyLine := false; emit := emitter_init resolved; yielded := [] |}) source in
  let text := pending st ++ decode_end d in
  let st := if (0 <? zlength text) then yieldLine resolved st (dropCr text) [] else st in
  let st := if negb (sawAnyLine st) then yieldLine resolved st [] (pending st) else st in
  push_flushed (snd (flush (emit st))) (yielded st).

End stream.

(** ** Bytes *)

Lemma byteLength_lf a b : byteLength (a ++ c_lf :: b) = byteLength a + 1 + byteLength b.
Proof.
  remember (length a) as n eqn:Hn. assert (length a <= n)%nat as Hle by lia. clear Hn.
  revert a Hle. induction n as [|n IH]; intros a Hle.
  { destruct a; [|simpl in Hle; lia]. cbn [app byteLength c_lf]. simpl. lia. }
  destruct a as [|c a]; [cbn [app byteLength c_lf]; simpl; lia|]. simpl in Hle.
  cbn [app byteLength]. destruct (c <? 128)%N; [rewrite IH by lia; lia|].
  destruct (c <? 2048)%N; [rewrite IH by lia; lia|].
  destruct a as [|d a].
  - cbn [app]. replace (is_low_surrogate c_lf) with false by done. rewrite andb_false_r.
    cbn [byteLength c_lf]. simpl. lia.
  - cbn [app]. simpl in Hle. destruct (is_high_surrogate c && is_low_surrogate d).
    + rewrite IH by lia. lia.
    + change (d :: a ++ c_lf :: b) with ((d :: a) ++ c_lf :: b). rewrite IH by (simpl; lia). lia.
Qed.

Lemma byteLength_join_snoc l x :
  byteLength (join [c_lf] (l ++ [x])) =
  byteLength (join [c_lf] l) + (if zlength (l ++ [x]) =? 1 then 0 else 1) + byteLength x.
Proof.
  destruct l as [|y l]; [done|]. rewrite join_snoc by done.
  change ([c_lf] ++ x) with (c_lf :: x). rewrite byteLength_lf, zlength_app.
  unfold zlength. simpl length. by replace (Z.of_nat (S (length l)) + Z.of_nat 1 =? 1) with false by lia.
Qed.

(** ** Chunks *)

Section chunks.
Context `{LineHasher} (options : ResolvedHashlineStreamOptions).

(** A chunk that may be yielded: at most [maxChunkLines] lines and [maxChunkBytes] bytes, except
    that one line is always allowed. *)
Definition group_ok (g : list jstring) : Prop :=
  g ≠ [] /\ zlength g <= Z.max 1 (maxChunkLines options) /\
  (zlength g = 1 \/ byteLength (join [c_lf] g) <= maxChunkBytes options).

(** The lines printed so far are those of the yielded chunks, then those waiting. *)
Definition emitted (e : emitter) (ys : list jstring) (lines : list jstring) : Prop :=
  exists groups, ys = join [c_lf] <$> groups /\ lines = concat groups ++ outLines e /\
    Forall group_ok groups /\ (outLines e = [] \/ group_ok (outLines e)) /\
    outBytes e = byteLength (join [c_lf] (outLines e)) /\ Forall (fun l => l ≠ []) lines.

Lemma push_flushed_app f ys chunks : ys ++ push_flushed f chunks = push_flushed f (ys ++ chunks).
Proof. destruct f as [[|]|]; simpl; [done|by rewrite app_assoc|done]. Qed.

Lemma join_nonempty l : l ≠ [] -> Forall (fun x => x ≠ []) l -> join [c_lf] l ≠ [].
Proof.
  intros Hne Hl. destruct l as [|x l]; [done|]. apply Forall_cons in Hl as [Hx _].
  destruct l as [|y l]; [done|]. rewrite join_cons by done. by destruct x.
Qed.

Lemma flush_emitted e ys lines :
  emitted e ys lines -> emitted (fst (flush e)) (push_flushed (snd (flush e)) ys) lines /\
                        outLines (fst (flush e)) = [].
Proof.
  intros (groups & -> & -> & Hg & Ho & Hb & Hl). unfold flush.
  destruct (outLines e) as [|x l] eqn:E; cbn [fst snd].
  - split; [|done]. exists groups. rewrite E. split_and!; auto.
  - split; [|done]. destruct Ho as [?|Ho]; [done|].
    assert (join [c_lf] (x :: l) ≠ []) as Hne.
    { apply join_nonempty; [done|]. apply Forall_app in Hl as [_ Hl]. exact Hl. }
    exists (groups ++ [x :: l]). cbn [outLines outBytes].
    split_and!; [|by rewrite concat_app; cbn [concat]; rewrite !app_nil_r|
      by apply Forall_app; split; [|apply Forall_singleton]|by left|done|done].
    rewrite fmap_app. cbn [fmap list_fmap]. unfold push_flushed.
    by destruct (join [c_lf] (x :: l)).
Qed.

Lemma flush_lineNumber e : lineNumber (fst (flush e)) = lineNumber e.
Proof. unfold flush. by destruct (outLines e). Qed.

Lemma append_emitted e ys lines x n :
  emitted e ys lines -> x ≠ [] ->
  outLines e = [] \/ (zlength (outLines e) < maxChunkLines options /\
                      outBytes e + 1 + byteLength x <= maxChunkBytes options) ->
  emitted {| lineNumber := n; outLines := outLines e ++ [x];
             outBytes := outBytes e + (if zlength (outLines e ++ [x]) =? 1 then 0 else 1) + byteLength x |}
    ys (lines ++ [x]).
Proof.
  intros (groups & -> & -> & Hg & Ho & Hb & Hl) Hx Hroom. exists groups. cbn [outLines outBytes].
  split_and!; [done|by rewrite <- app_assoc|done| |by rewrite byteLength_join_snoc, Hb|].
  - right. split; [by destruct (outLines e)|]. destruct Hroom as [->|[H1 H2]].
    + split; [unfold zlength; simpl; lia|by left].
    + split; [rewrite zlength_app; unfold zlength in *; simpl; lia|right].
      rewrite byteLength_join_snoc, <- Hb. case_match; lia.
  - apply Forall_app. split; [done|]. by apply Forall_singleton.
Qed.

Lemma formatHashLine_nonempty n l : formatHashLine n l ≠ [].
Proof.
  unfold formatHashLine. intros E. apply (f_equal length) in E. rewrite !length_app in E. simpl in E. lia.
Qed.

Lemma pushLine_emitted e ys lines l :
  emitted e ys lines ->
  let '(e', out) := pushLine options e l in
  emitted e' (ys ++ out) (lines ++ [formatHashLine (lineNumber e) l]) /\ lineNumber e' = lineNumber e + 1.
Proof.
  intros He. unfold pushLine. set (x := formatHashLine (lineNumber e) l).
  pose proof (formatHashLine_nonempty (lineNumber e) l : x ≠ []) as Hx.
  set (over := (0 <? zlength (outLines e)) && _).
  assert (exists e1 out1, (if over then let '(e', flushed) := flush e in (e', push_flushed flushed []) else (e, []))
            = (e1, out1) /\ emitted e1 (ys ++ out1) lines /\
          (outLines e1 = [] \/ (zlength (outLines e1) < maxChunkLines options /\
                      outBytes e1 + 1 + byteLength x <= maxChunkBytes options))) as (e1 & out1 & -> & He1 & Hroom).
  { destruct over eqn:Eo.
    - destruct (flush_emitted e ys lines He) as [Hf Hnil]. destruct (flush e) as [e' f]. cbn [fst snd] in *.
      exists e', (push_flushed f []). split; [done|]. rewrite push_flushed_app, app_nil_r. by split; [|left].
    - exists e, []. rewrite app_nil_r. split_and!; [done|done|].
      unfold over in Eo. destruct (outLines e) as [|y ys'] eqn:El; [by left|right].
      unfold zlength in *. simpl length in *. lia. }
  pose proof (append_emitted e1 _ _ x (lineNumber e + 1) He1 Hx Hroom) as Ha.
  clear over Hroom He1. destruct (_ || _); cbv beta iota; [|split; [exact Ha|reflexivity]].
  match type of Ha with emitted ?e2 _ _ => destruct (flush_emitted e2 _ _ Ha) as [Hf _];
    pose proof (flush_lineNumber e2) as Hn end.
  destruct (flush _) as [e3 f]. cbn [fst snd] in *. rewrite push_flushed_app. done.
Qed.
End chunks.

(** ** The stream *)

(** [decode()] at the end of the input gives at most a replacement character. *)
Class TextDecoderLaws (D : TextDecoder) : Prop := {
  decode_end_no_lf : forall d, c_lf ∉ decode_end d
}.

(** The text that a sequence of byte chunks decodes to. *)
Definition decoded_text `{TextDecoder} (source : list (list N)) : jstring :=
  let '(d, text) := foldl (fun '(d, text) chunk => let '(d', t) := decode_chunk d chunk in (d', text ++ t))
                      (new_decoder, []) source in
  text ++ decode_end d.

(** The lines of a text: a final line feed does not start another line, a carriage return before a
    line feed or at the end is dropped, and the empty text is one empty line. *)
Definition text_lines (text : jstring) : list jstring :=
  let pieces := split_on c_lf text in
  let lines := if bool_decide (last pieces = Some []) then removelast pieces else pieces in
  match dropCr <$> lines with [] => [[]] | ls => ls end.

Definition print_lines `{LineHasher} (start : Z) (lines : list jstring) : list jstring :=
  imap (fun i l => formatHashLine (start + Z.of_nat i) l) lines.

Section streaming.
Context `{LineHasher} (options : ResolvedHashlineStreamOptions).

Lemma print_lines_snoc start lines l :
  print_lines start (lines ++ [l]) = print_lines start lines ++ [formatHashLine (start + zlength lines) l].
Proof. unfold print_lines. rewrite imap_app. cbn [imap]. by rewrite Nat.add_0_r. Qed.

(** After the lines [done] have been seen. *)
Definition stream_ok (st : streamState) (done : list jstring) : Prop :=
  emitted options (emit st) (yielded st) (print_lines (startLine options) done) /\
  lineNumber (emit st) = startLine options + zlength done /\ sawAnyLine st = negb (bool_decide (done = [])).

Lemma yieldLine_ok st done l rest :
  stream_ok st done ->
  stream_ok (yieldLine options st l rest) (done ++ [l]) /\ pending (yieldLine options st l rest) = rest.
Proof.
  intros (He & Hn & Hs). unfold yieldLine. pose proof (pushLine_emitted options _ _ _ l He) as Hp.
  destruct (pushLine options (emit st) l) as [e out]. destruct Hp as [Hp Hn'].
  split; [|done]. split_and!; cbn [emit yielded sawAnyLine].
  - by rewrite print_lines_snoc, <- Hn.
  - rewrite Hn', Hn, zlength_app. unfold zlength. simpl. lia.
  - by destruct done.
Qed.

Lemma drainPending_ok fuel st done :
  stream_ok st done -> (length (pending st) <= fuel)%nat ->
  exists lines p, split_on c_lf (pending st) = lines ++ [p] /\
    stream_ok (drainPending fuel options st) (done ++ (dropCr <$> lines)) /\
    pending (drainPending fuel options st) = p /\ (c_lf ∉ p).
Proof.
  revert st done. induction fuel as [|fuel IH]; intros st done Hst Hf.
  { destruct (pending st) as [|c s] eqn:E; [|simpl in Hf; lia]. exists [], [].
    cbn [drainPending]. rewrite app_nil_r, E. split_and!; [done..|apply not_elem_of_nil]. }
  cbn [drainPending]. destruct (index_of c_lf (pending st)) as [nl|] eqn:E.
  - apply index_of_Some in E as [E Hnl]. set (raw := take nl (pending st)) in *.
    set (rest := drop (S nl) (pending st)) in *.
    destruct (yieldLine_ok st done (dropCr raw) rest Hst) as [Hy Hp].
    destruct (IH _ _ Hy) as (lines & p & Hsp & Hok & Hpd & Hlf).
    { rewrite Hp. rewrite E in Hf. rewrite length_app in Hf. simpl in Hf. lia. }
    rewrite Hp in Hsp. exists (raw :: lines), p. rewrite E, split_on_app, Hsp by done.
    split_and!; [done| |done|done]. by rewrite <- app_assoc in Hok.
  - apply index_of_None in E. exists [], (pending st). rewrite split_on_no_sep by done.
    by rewrite app_nil_r.
Qed.

Context `{TextDecoder}.

(** After the chunks that decode to [text]. *)
Definition read_ok (st : streamState) (text : jstring) : Prop :=
  exists lines, split_on c_lf text = lines ++ [pending st] /\ stream_ok st (dropCr <$> lines) /\
    (c_lf ∉ pending st).

Lemma onChunk_ok d st text chunk :
  read_ok st text ->
  let '(d', t) := decode_chunk d chunk in
  exists st', onChunk options (d, st) chunk = (d', st') /\ read_ok st' (text ++ t).
Proof.
  intros (lines & Hsp & Hok & _). unfold onChunk. destruct (decode_chunk d chunk) as [d' t].
  eexists. split; [reflexivity|].
  set (st1 := {| pending := pending st ++ t |}).
  destruct (drainPending_ok (length (pending st1)) st1 (dropCr <$> lines)) as (more & p & Hm & Hok' & Hp & Hlf);
    [exact Hok|done|].
  exists (lines ++ more). rewrite Hp. split_and!; [|by rewrite fmap_app|done].
  destruct (split_on_more c_lf text t) as (done & q & E1 & E2).
  rewrite Hsp in E1. apply app_inj_tail in E1 as [<- <-]. rewrite E2.
  change (pending st1) with (pending st ++ t) in Hm. by rewrite Hm, app_assoc.
Qed.

Lemma chunks_ok source d st text :
  read_ok st text ->
  exists d' text' st', foldl (onChunk options) (d, st) source = (d', st') /\
    foldl (fun '(d, text) chunk => let '(d', t) := decode_chunk d chunk in (d', text ++ t)) (d, text) source
      = (d', text') /\ read_ok st' text'.
Proof.
  revert d st text. induction source as [|chunk source IH]; intros d st text Hr; [by exists d, text, st|].
  cbn [foldl]. pose proof (onChunk_ok d st text chunk Hr) as Hc.
  destruct (decode_chunk d chunk) as [d1 t]. destruct Hc as (st1 & -> & Hr1). by apply IH.
Qed.
End streaming.

Section theorem.
Context `{LineHasher} `{D : TextDecoder} {L : TextDecoderLaws D}.

End theorem.

(** A decoder of ASCII bytes, for examples. *)
Definition asciiDecoder : TextDecoder :=
  {| decoder_state := unit; new_decoder := tt;
     decode_chunk := fun d chunk => (d, chunk); decode_end := fun _ => [] |}.

#[local] Instance asciiDecoderLaws : TextDecoderLaws asciiDecoder.
Proof. split. intros d. apply not_elem_of_nil. Qed.

