(* ===== verification/FileReadCache.v ===== *)
(** * The file-read cache (edit/file-read-cache.ts)

    Per session, for each path, a few generations of the lines the model was shown. The third-party
    LRU cache is an interface: its states, its operations, and the documented facts this code
    relies on (a value that was set is found until it is deleted or evicted; [get] only touches
    recency). The cached snapshots are updated in place by the source, immediately after a [get]
    of their key; with no other holder this is a [set] of the same key, and is modelled as one. *)
From S2P Require Import Prelude JsString.
Open Scope Z_scope.

Class LRUCache (V : Type) : Type := {
  lru : Type;
  lru_empty : lru;
  lru_get : jstring -> lru -> option V * lru;
  lru_set : jstring -> V -> lru -> lru;
  lru_delete : jstring -> lru -> lru;
  lru_clear : lru -> lru;
  (** What is stored, without touching recency. *)
  lru_peek : lru -> jstring -> option V
}.

(** The documented behaviour of the LRU cache. *)
Class LRUCacheLaws (V : Type) {L : LRUCache V} : Prop := {
  lru_peek_empty k : lru_peek lru_empty k = None;
  lru_get_fst k s : (lru_get k s).1 = lru_peek s k;
  lru_get_snd k s k' : lru_peek (lru_get k s).2 k' = lru_peek s k';
  lru_set_same k v s : lru_peek (lru_set k v s) k = Some v;
  lru_set_other k v s k' : k <> k' ->
    lru_peek (lru_set k v s) k' = lru_peek s k' \/ lru_peek (lru_set k v s) k' = None;
  lru_delete_same k s : lru_peek (lru_delete k s) k = None;
  lru_delete_other k s k' : k <> k' -> lru_peek (lru_delete k s) k' = lru_peek s k';
  lru_clear_all s k : lru_peek (lru_clear s) k = None
}.

Definition MAX_GENERATIONS_PER_PATH : nat := 8.

Record FileReadSnapshot : Type := {
  lines : gmap Z jstring;
  lineCount : option Z;
  recordedAt : Z
}.

Definition hasConflict (existing : FileReadSnapshot) (incoming : list (Z * jstring))
    (incomingLineCount : option Z) : bool :=
  existsb (fun '(lineNum, content) =>
      match lines existing !! lineNum with
      | Some prior => negb (bool_decide (prior = content))
      | None => false
      end
      || match lineCount existing with Some n => n <? lineNum | None => false end) incoming
  || match incomingLineCount with
     | None => false
     | Some n =>
         match lineCount existing with Some m => negb (m =? n) | None => false end
         || existsb (fun lineNum => n <? lineNum) (fst <$> map_to_list (lines existing))
     end.

(** [new Map(entries)] and [map.set] in order: later entries win. *)
Definition setLines (m : gmap Z jstring) (es : list (Z * jstring)) : gmap Z jstring :=
  foldl (fun m '(n, c) => <[n := c]> m) m es.

Section Cache.
Context {L : LRUCache (list FileReadSnapshot)}.

(** [get(absPath)]: the newest generation. *)
Definition get (absPath : jstring) (s : lru) : option FileReadSnapshot * lru :=
  let '(g, s') := lru_get absPath s in (g ≫= head, s').

Definition generations (absPath : jstring) (s : lru) : list FileReadSnapshot * lru :=
  let '(g, s') := lru_get absPath s in (default [] g, s').

Definition record (absPath : jstring) (es : list (Z * jstring)) (count : option Z) (now : Z)
    (s : lru) : lru :=
  let '(gens, s1) := lru_get absPath s in
  let fresh := {| lines := setLines ∅ es; lineCount := count; recordedAt := now |} in
  let start := lru_set absPath (take MAX_GENERATIONS_PER_PATH (fresh :: default [] gens)) s1 in
  match gens with
  | Some (newest :: older) =>
      if hasConflict newest es count then start
      else lru_set absPath
             ({| lines := setLines (lines newest) es;
                 lineCount := match count with Some _ => count | None => lineCount newest end;
                 recordedAt := now |} :: older) s1
  | _ => start
  end.

(** [lines.map((line, idx) => [startLine + idx, line])] *)
Definition numbered (startLine : Z) (ls : list jstring) : list (Z * jstring) :=
  zip (zseq startLine (length ls)) ls.

Definition recordContiguous (absPath : jstring) (startLine : Z) (ls : list jstring) (now : Z)
    (s : lru) : lru :=
  match ls with [] => s | _ => record absPath (numbered startLine ls) None now s end.

Definition recordFull (absPath : jstring) (ls : list jstring) (now : Z) (s : lru) : lru :=
  record absPath (numbered 1 ls) (Some (zlength ls)) now s.

Definition recordSparse (absPath : jstring) (es : list (Z * jstring)) (now : Z) (s : lru) : lru :=
  match es with [] => s | _ => record absPath es None now s end.

Definition invalidate (absPath : jstring) (s : lru) : lru := lru_delete absPath s.

Definition clear (s : lru) : lru := lru_clear s.

End Cache.

(** ** Lines of a snapshot *)

Lemma setLines_notin m es n : n ∉ es.*1 -> setLines m es !! n = m !! n.
Proof.
  unfold setLines. revert m. induction es as [|[k c] es IH]; intros m Hn; [done|].
  simpl in *. apply not_elem_of_cons in Hn as [Hk Hn]. rewrite IH by done.
  by rewrite lookup_insert_ne.
Qed.

Lemma setLines_in m es n c : NoDup es.*1 -> (n, c) ∈ es -> setLines m es !! n = Some c.
Proof.
  unfold setLines. revert m. induction es as [|[k d] es IH]; intros m Hnd Hin;
    [by apply elem_of_nil in Hin|].
  simpl in *. apply NoDup_cons in Hnd as [Hk Hnd]. apply elem_of_cons in Hin as [[= -> ->]|Hin].
  - etransitivity; [by apply setLines_notin|]. apply lookup_insert_eq.
  - by apply IH.
Qed.

Lemma setLines_dom m es n : is_Some (setLines m es !! n) <-> is_Some (m !! n) \/ n ∈ es.*1.
Proof.
  unfold setLines. revert m. induction es as [|[k c] es IH]; intros m; simpl.
  - rewrite elem_of_nil. naive_solver.
  - rewrite IH, elem_of_cons. destruct (decide (k = n)) as [->|Hne].
    + rewrite lookup_insert_eq. naive_solver.
    + rewrite lookup_insert_ne by done. naive_solver.
Qed.

(** Entries that repeat what is stored leave it alone. *)
Lemma setLines_keeps m es n c :
  m !! n = Some c -> (forall c', (n, c') ∈ es -> c' = c) -> setLines m es !! n = Some c.
Proof.
  unfold setLines. revert m. induction es as [|[k d] es IH]; intros m Hm Hes; [done|]. simpl.
  apply IH; [|set_solver]. destruct (decide (k = n)) as [->|Hne].
  - rewrite lookup_insert_eq. f_equal. apply Hes. set_solver.
  - by rewrite lookup_insert_ne.
Qed.

Lemma numbered_spec start ls :
  NoDup (numbered start ls).*1 /\
  (forall n, n ∈ (numbered start ls).*1 <-> start <= n < start + zlength ls) /\
  (forall n c, (n, c) ∈ numbered start ls <-> start <= n /\ arr_at ls (n - start) = Some c).
Proof.
  unfold numbered. assert (length (zseq start (length ls)) = length ls) as Hl by apply length_zseq.
  split_and!.
  - rewrite fst_zip by lia. apply NoDup_fmap_2; [intros ???; lia|apply NoDup_seq].
  - intros n. rewrite fst_zip by lia. apply elem_of_zseq.
  - intros n c. rewrite list_elem_of_lookup. unfold zseq. split.
    + intros (i & Hi). apply lookup_zip_Some in Hi as [H1 H2].
      apply list_lookup_fmap_Some in H1 as (j & -> & [-> Hj]%lookup_seq).
      split; [lia|]. apply arr_at_Some. split; [lia|]. by replace (Z.to_nat _) with i by lia.
    + intros [Hs [Hn Hc]%arr_at_Some]. exists (Z.to_nat (n - start)).
      apply lookup_zip_Some. split; [|done]. apply list_lookup_fmap_Some.
      exists (Z.to_nat (n - start)). split; [lia|]. apply lookup_seq.
      apply lookup_lt_Some in Hc. lia.
Qed.

Lemma setLines_numbered m ls :
  (forall n, is_Some (m !! n) -> 1 <= n <= zlength ls) ->
  forall n, setLines m (numbered 1 ls) !! n = arr_at ls (n - 1).
Proof.
  intros Hm n. destruct (numbered_spec 1 ls) as (Hnd & Hd & Hin).
  destruct (arr_at ls (n - 1)) as [c|] eqn:Ha.
  - apply setLines_in; [done|]. apply Hin. split; [|done]. apply arr_at_Some in Ha. lia.
  - apply eq_None_not_Some. rewrite setLines_dom, Hd. intros Hn.
    apply eq_None_not_Some in Ha. apply Ha, arr_at_is_Some. destruct Hn as [?%Hm|?]; lia.
Qed.

(** A snapshot that claims to cover the file has exactly the lines 1..count. *)
Record snapshot_ok (s : FileReadSnapshot) : Prop := {
  sn_pos : forall n, is_Some (lines s !! n) -> 1 <= n;
  sn_full : forall k, lineCount s = Some k -> forall n, is_Some (lines s !! n) <-> 1 <= n <= k
}.

(** What the entries of one observation look like: positive line numbers, and with a line count
    exactly the lines up to it. *)
Definition entries_ok (es : list (Z * jstring)) (count : option Z) : Prop :=
  (forall n, n ∈ es.*1 -> 1 <= n) /\
  forall k, count = Some k -> forall n, n ∈ es.*1 <-> 1 <= n <= k.

Lemma fresh_ok es count now :
  entries_ok es count ->
  snapshot_ok {| lines := setLines ∅ es; lineCount := count; recordedAt := now |}.
Proof.
  intros [Hp Hf]. constructor; simpl.
  - intros n. rewrite setLines_dom, lookup_empty. intros [[? [=]]|?]; auto.
  - intros k Hk n. rewrite setLines_dom, lookup_empty, <- (Hf k Hk).
    split; [intros [[? [=]]|?]; auto|auto].
Qed.

Lemma existsb_false {A} (f : A -> bool) l : existsb f l = false <-> forall x, x ∈ l -> f x = false.
Proof.
  induction l as [|a l IH]; simpl; [set_solver|].
  rewrite orb_false_iff, IH. set_solver.
Qed.

Lemma noConflict_spec s es count :
  hasConflict s es count = false ->
  (forall n c c', (n, c) ∈ es -> lines s !! n = Some c' -> c' = c) /\
  (forall n k, n ∈ es.*1 -> lineCount s = Some k -> n <= k) /\
  (forall k, count = Some k ->
     (forall m, lineCount s = Some m -> m = k) /\ forall n, is_Some (lines s !! n) -> n <= k).
Proof.
  unfold hasConflict. intros [He Hc]%orb_false_iff. rewrite existsb_false in He.
  split_and!.
  - intros n c c' Hin Hl. specialize (He _ Hin). simpl in He. rewrite Hl in He.
    zify_bool. done.
  - intros n k Hin Hk. apply list_elem_of_fmap in Hin as ([m c] & -> & Hin). simpl.
    specialize (He _ Hin). simpl in He. rewrite Hk in He. zify_bool. done.
  - intros k ->. apply orb_false_iff in Hc as [Hc1 Hc2]. rewrite existsb_false in Hc2. split.
    + intros m Hm. rewrite Hm in Hc1. zify_bool. done.
    + intros n [c Hl]. specialize (Hc2 n). apply Z.ltb_ge, Hc2.
      apply list_elem_of_fmap. exists (n, c). split; [done|]. by apply elem_of_map_to_list.
Qed.

Lemma merged_ok s es count now :
  snapshot_ok s -> entries_ok es count -> hasConflict s es count = false ->
  snapshot_ok {| lines := setLines (lines s) es;
                 lineCount := match count with Some _ => count | None => lineCount s end;
                 recordedAt := now |}.
Proof.
  intros [Hpos Hfull] [Hep Hef] (_ & Hle & Hcount)%noConflict_spec. constructor; simpl.
  - intros n. rewrite setLines_dom. naive_solver.
  - intros k Hk n. rewrite setLines_dom. destruct count as [k'|].
    + injection Hk as ->. destruct (Hcount k eq_refl) as [_ Hm]. rewrite (Hef k eq_refl).
      split; [|auto]. intros [Hs|?]; [|done]. split; auto.
    + rewrite (Hfull k Hk). split; [|auto]. intros [?|Hin]; [done|].
      split; [by apply Hep|by apply Hle].
Qed.

(** A merge only adds lines. *)
Lemma merged_extends s es count :
  hasConflict s es count = false -> lines s ⊆ setLines (lines s) es.
Proof.
  intros (Hsame & _)%noConflict_spec. apply map_subseteq_spec. intros n c Hc.
  apply setLines_keeps; [done|]. intros c' Hin. symmetry. by eapply Hsame.
Qed.

(** ** The cache *)

Section CacheProperties.
Context {L : LRUCache (list FileReadSnapshot)} {LL : LRUCacheLaws (list FileReadSnapshot)}.

Inductive op : Type :=
| OpContiguous (path : jstring) (start : Z) (ls : list jstring) (now : Z)
| OpFull (path : jstring) (ls : list jstring) (now : Z)
| OpSparse (path : jstring) (es : list (Z * jstring)) (now : Z)
| OpInvalidate (path : jstring)
| OpClear
| OpGet (path : jstring)
| OpGenerations (path : jstring).

Definition exec_op (o : op) (s : lru) : lru :=
  match o with
  | OpContiguous path start ls now => recordContiguous path start ls now s
  | OpFull path ls now => recordFull path ls now s
  | OpSparse path es now => recordSparse path es now s
  | OpInvalidate path => invalidate path s
  | OpClear => clear s
  | OpGet path => (get path s).2
  | OpGenerations path => (generations path s).2
  end.

(** Line numbers are 1-indexed. *)
Definition op_ok (o : op) : Prop :=
  match o with
  | OpContiguous _ start _ _ => 1 <= start
  | OpSparse _ es _ => Forall (fun e => 1 <= e.1) es
  | _ => True
  end.

Definition gens_ok (gens : list FileReadSnapshot) : Prop :=
  gens <> [] /\ (length gens <= MAX_GENERATIONS_PER_PATH)%nat /\ Forall snapshot_ok gens.

Definition cache_ok (s : lru) : Prop :=
  forall path gens, lru_peek s path = Some gens -> gens_ok gens.

(** The generations of the recorded path after [record]. *)
Lemma record_same path es count now s :
  exists fresh, lines fresh = setLines ∅ es /\ lineCount fresh = count /\
  lru_peek (record path es count now s) path = Some
    match lru_peek s path with
    | Some (newest :: older) =>
        if hasConflict newest es count then take MAX_GENERATIONS_PER_PATH (fresh :: newest :: older)
        else {| lines := setLines (lines newest) es;
                lineCount := match count with Some _ => count | None => lineCount newest end;
                recordedAt := now |} :: older
    | _ => [fresh]
    end.
Proof.
  eexists {| lines := setLines ∅ es; lineCount := count; recordedAt := now |}.
  split_and!; [done..|]. unfold record. pose proof (lru_get_fst path s) as Hg.
  destruct (lru_get path s) as [gens s1]. simpl in Hg. subst gens.
  destruct (lru_peek s path) as [[|newest older]|]; [..|].
  - apply lru_set_same.
  - destruct (hasConflict newest es count); apply lru_set_same.
  - apply lru_set_same.
Qed.

Lemma record_other path es count now s path' gens :
  path <> path' -> lru_peek (record path es count now s) path' = Some gens ->
  lru_peek s path' = Some gens.
Proof.
  intros Hne. unfold record. pose proof (lru_get_snd path s path') as Hs.
  destruct (lru_get path s) as [g s1]. simpl in Hs. rewrite <- Hs.
  assert (forall v, lru_peek (lru_set path v s1) path' = Some gens ->
    lru_peek s1 path' = Some gens) as Hset.
  { intros v. destruct (lru_set_other path v s1 path' Hne) as [->| ->]; done. }
  repeat case_match; apply Hset.
Qed.

Lemma gens_take_ok l :
  l <> [] -> Forall snapshot_ok l -> gens_ok (take MAX_GENERATIONS_PER_PATH l).
Proof.
  intros Hne Hf. split; [by destruct l|]. split; [|by apply Forall_take].
  rewrite length_take. lia.
Qed.

Lemma record_ok path es count now s :
  entries_ok es count -> cache_ok s -> cache_ok (record path es count now s).
Proof.
  intros Hes Hok path' gens Hp. destruct (decide (path = path')) as [<-|Hne].
  2: { eapply Hok, record_other; done. }
  destruct (record_same path es count now s) as (fresh & Hl & Hc & Hr).
  rewrite Hr in Hp. injection Hp as <-.
  assert (snapshot_ok fresh) as Hfresh.
  { destruct fresh as [l c r]. simpl in *. subst. by apply fresh_ok. }
  assert (gens_ok [fresh]) as Hone.
  { split_and!; [done|unfold MAX_GENERATIONS_PER_PATH; simpl; lia|by apply Forall_singleton]. }
  pose proof (Hok path) as Hgens.
  destruct (lru_peek s path) as [[|newest older]|]; [done| |done].
  destruct (Hgens _ eq_refl) as (_ & Hlen & [Hn Ho]%Forall_cons).
  destruct (hasConflict newest es count) eqn:Hconf.
  - apply (gens_take_ok (fresh :: newest :: older)); [done|by rewrite !Forall_cons].
  - split_and!; [done|done|]. constructor; [by apply merged_ok|done].
Qed.

Lemma numbered_ok start ls count :
  1 <= start -> (forall k, count = Some k -> start = 1 /\ k = zlength ls) ->
  entries_ok (numbered start ls) count.
Proof.
  intros Hs Hc. destruct (numbered_spec start ls) as (_ & Hd & _). split.
  - intros n. rewrite Hd. lia.
  - intros k [-> ->]%Hc n. rewrite Hd. lia.
Qed.

Lemma cache_exec_op_ok o s : op_ok o -> cache_ok s -> cache_ok (exec_op o s).
Proof.
  intros Ho Hok. destruct o as [p st ls now|p ls now|p es now|p| |p|p]; simpl in *.
  - unfold recordContiguous. destruct ls; [done|]. apply record_ok; [|done].
    by apply numbered_ok.
  - apply record_ok; [|done]. apply numbered_ok; [lia|]. by intros k [= <-].
  - unfold recordSparse. destruct es as [|e es]; [done|]. apply record_ok; [|done].
    split; [|done]. rewrite Forall_forall in Ho. intros n (x & -> & Hx)%list_elem_of_fmap. auto.
  - intros path gens. unfold invalidate. destruct (decide (p = path)) as [<-|Hne].
    + by rewrite lru_delete_same.
    + rewrite lru_delete_other by done. apply Hok.
  - intros path gens. unfold clear. by rewrite lru_clear_all.
  - unfold get. destruct (lru_get p s) eqn:E. intros path gens. simpl.
    pose proof (lru_get_snd p s path) as H. rewrite E in H. simpl in H. rewrite H. apply Hok.
  - unfold generations. destruct (lru_get p s) eqn:E. intros path gens. simpl.
    pose proof (lru_get_snd p s path) as H. rewrite E in H. simpl in H. rewrite H. apply Hok.
Qed.

(** A session's cache after a sequence of operations. *)
Definition run (ops : list op) : lru := foldl (fun s o => exec_op o s) lru_empty ops.

Lemma cache_run_ok ops : Forall op_ok ops -> cache_ok (run ops).
Proof.
  intros Hops. assert (cache_ok lru_empty) as H0 by (intros p g; by rewrite lru_peek_empty).
  unfold run. revert H0. generalize lru_empty as s.
  induction Hops as [|o ops Ho _ IH]; intros s H0; simpl; [done|]. by apply IH, cache_exec_op_ok.
Qed.

(** Invariant. Whatever a session records, every path keeps between one and eight generations
    and a snapshot that claims to cover its file really has exactly the lines 1 to its count. *)
Theorem snapshots_cover_their_files ops path gens :
  Forall op_ok ops ->
  lru_peek (run ops) path = Some gens ->
  (1 <= length gens <= MAX_GENERATIONS_PER_PATH)%nat /\
  forall g k, g ∈ gens -> lineCount g = Some k -> forall n, is_Some (lines g !! n) <-> 1 <= n <= k.
Proof.
  intros Hops Hp. destruct (cache_run_ok ops Hops _ _ Hp) as (Hne & Hlen & Hf). split.
  - destruct gens; [done|]. simpl in *. lia.
  - intros g k Hg. rewrite Forall_forall in Hf. by apply Hf.
Qed.

(** functional. Recording never rewrites history: either the newest generation is extended by
    lines it did not have, leaving every line it had as it was and the older generations alone, or
    a new generation goes in front of the old ones, of which only those beyond the eighth are
    dropped; and other paths keep their generations or are evicted. *)
Theorem record_preserves_generations path es count now s :
  (exists newest newest' older,
     lru_peek s path = Some (newest :: older) /\
     lru_peek (record path es count now s) path = Some (newest' :: older) /\
     lines newest ⊆ lines newest') \/
  (exists fresh,
     lru_peek (record path es count now s) path =
       Some (take MAX_GENERATIONS_PER_PATH (fresh :: default [] (lru_peek s path)))).
Proof.
  destruct (record_same path es count now s) as (fresh & _ & _ & Hr).
  destruct (lru_peek s path) as [[|newest older]|] eqn:Hp; rewrite Hr; [by right; eexists| |].
  2: by right; eexists.
  destruct (hasConflict newest es count) eqn:Hc; [right; by eexists|left].
  do 3 eexists. split_and!; [done..|]. simpl. by eapply merged_extends.
Qed.

(** roundtrip. After a complete file content is recorded, the newest snapshot is exactly that
    content: its line count, and line by line, whatever the cache held for the path before. *)
Theorem record_full_get ops path ls now :
  Forall op_ok ops ->
  exists snap,
    (get path (recordFull path ls now (run ops))).1 = Some snap /\
    lineCount snap = Some (zlength ls) /\
    forall n, lines snap !! n = arr_at ls (n - 1).
Proof.
  intros Hops. pose proof (cache_run_ok ops Hops) as Hok. generalize dependent (run ops). intros s Hok.
  unfold get. pose proof (lru_get_fst path (recordFull path ls now s)) as Hg.
  destruct (lru_get path (recordFull path ls now s)) as [g s']. simpl in Hg. subst g.
  unfold recordFull. destruct (record_same path (numbered 1 ls) (Some (zlength ls)) now s)
    as (fresh & Hl & Hc & Hr). rewrite Hr.
  assert (lines fresh = setLines ∅ (numbered 1 ls) ->
    forall n, lines fresh !! n = arr_at ls (n - 1)) as Hfresh.
  { intros E n. rewrite E. apply setLines_numbered. by intros ? [? ?]. }
  specialize (Hfresh Hl).
  destruct (lru_peek s path) as [[|newest older]|] eqn:Hp; [by exists fresh| |by exists fresh].
  destruct (hasConflict newest _ _) eqn:Hconf; [by exists fresh|].
  eexists. split_and!; [done..|]. simpl. apply setLines_numbered. intros n Hn.
  apply noConflict_spec in Hconf as (_ & _ & Hcount).
  destruct (Hcount _ eq_refl) as [_ Hle]. destruct (Hok _ _ Hp) as (_ & _ & [[Hpos _] _]%Forall_cons).
  split; auto.
Qed.

End CacheProperties.

(** ** A concrete LRU cache *)

Definition MAX_PATHS_PER_SESSION : nat := 30.

(** Most recently used first. *)
Definition assoc_drop {V} (k : jstring) (s : list (jstring * V)) : list (jstring * V) :=
  filter (fun e => e.1 <> k) s.

Definition assoc_find {V} (s : list (jstring * V)) (k : jstring) : option V :=
  snd <$> head (filter (fun e => e.1 = k) s).

#[global] Instance assocLRU V : LRUCache V := {
  lru := list (jstring * V);
  lru_empty := [];
  lru_get k s := match assoc_find s k with
                 | Some v => (Some v, (k, v) :: assoc_drop k s)
                 | None => (None, s)
                 end;
  lru_set k v s := take MAX_PATHS_PER_SESSION ((k, v) :: assoc_drop k s);
  lru_delete k s := assoc_drop k s;
  lru_clear s := [];
  lru_peek := assoc_find
}.

Lemma assoc_find_cons {V} k (v : V) s k' :
  assoc_find ((k, v) :: s) k' = if decide (k = k') then Some v else assoc_find s k'.
Proof. unfold assoc_find. rewrite filter_cons. simpl. by case_decide. Qed.

Lemma assoc_find_drop {V} k (s : list (jstring * V)) k' :
  assoc_find (assoc_drop k s) k' = if decide (k = k') then None else assoc_find s k'.
Proof.
  unfold assoc_find, assoc_drop. induction s as [|[k0 v0] s IH]; [by case_decide|].
  rewrite !filter_cons. simpl. repeat case_decide; simplify_eq/=; try done;
    rewrite ?filter_cons; simpl; repeat case_decide; simplify_eq/=; done.
Qed.

Lemma assoc_find_take {V} n (s : list (jstring * V)) k :
  assoc_find (take n s) k = assoc_find s k \/ assoc_find (take n s) k = None.
Proof.
  revert n. induction s as [|[k0 v0] s IH]; intros n; [by rewrite take_nil; left|].
  destruct n as [|n]; [by right|]. simpl. rewrite !assoc_find_cons. case_decide; auto.
Qed.

#[global] Instance assocLRU_laws V : LRUCacheLaws V.
Proof.
  split; simpl.
  - done.
  - intros k s. by destruct (assoc_find s k).
  - intros k s k'. destruct (assoc_find s k) eqn:E; [|done]. simpl.
    rewrite assoc_find_cons, assoc_find_drop. case_decide; subst; done.
  - intros k v s. rewrite assoc_find_cons. by case_decide.
  - intros k v s k' Hne. rewrite !assoc_find_cons. rewrite decide_False by done.
    destruct (assoc_find_take 29 (assoc_drop k s) k') as [H|H]; [left|by right].
    rewrite H, assoc_find_drop. by rewrite decide_False.
  - intros k s. rewrite assoc_find_drop. by case_decide.
  - intros k s k' Hne. rewrite assoc_find_drop. by rewrite decide_False.
  - done.
Qed.

(** A read of lines 1 to 2, an edit that rewrote the file, and a later read that disagrees. *)
Definition demoOps : list (@op) :=
  [OpContiguous (js "a.ts") 1 [js "x"; js "y"] 10; OpFull (js "a.ts") [js "x"; js "z"; js "w"] 20;
   OpSparse (js "a.ts") [(3, js "w")] 30].

Lemma demoOps_ok : Forall op_ok demoOps.
Proof. repeat constructor; simpl; lia. Qed.

Lemma snapshots_cover_witness :
  exists gens, lru_peek (run demoOps) (js "a.ts") = Some gens /\ (1 <= length gens <= 8)%nat.
Proof.
  eexists. split; [vm_compute; reflexivity|].
  apply (snapshots_cover_their_files demoOps (js "a.ts") _ demoOps_ok).
  vm_compute. reflexivity.
Defined.

Lemma record_full_get_witness :
  exists snap,
    (get (js "a.ts") (recordFull (js "a.ts") [js "p"] 40 (run demoOps))).1 = Some snap /\
    lineCount snap = Some 1.
Proof.
  destruct (record_full_get demoOps (js "a.ts") [js "p"] 40 demoOps_ok) as (snap & H1 & H2 & _).
  exists snap. exact (conj H1 H2).
Defined.

Lemma record_preserves_witness :
  exists fresh, lru_peek (record (js "a.ts") [(2, js "q")] None 50 (run demoOps)) (js "a.ts") =
    Some (take MAX_GENERATIONS_PER_PATH (fresh :: default [] (lru_peek (run demoOps) (js "a.ts")))).
Proof.
  destruct (record_preserves_generations (js "a.ts") [(2, js "q")] None 50 (run demoOps))
    as [(n & n' & o & H1 & H2 & H3)|H]; [|exact H].
  eexists. vm_compute. reflexivity.
Defined.
