(* ===== verification/HashlineRecovery.v ===== *)
(** * Hashline: recovery from stale anchors (hashline/recovery.ts)

    When anchors no longer match the file, the edits are replayed on an earlier snapshot of it that
    the session recorded, and the change is carried over to the live file as a patch.  The native
    patch generator and [Diff.applyPatch] are parameters.  [applyHashlineEdits] moves the cursors of
    the edits it is given, so the edits are threaded from one generation to the next. *)
From S2P Require Import Prelude JsString HashlineHash HashlineApply EditDiff FileReadCache.
From Stdlib Require Import ZifyBool ZifyN.
Open Scope Z_scope.

Record StructuredPatchHunk : Type := {
  hk_oldStart : Z; hk_oldLines : Z; hk_newStart : Z; hk_newLines : Z; hk_lines : list jstring }.

Class PatchLib := {
  (** [getNativeDiffBindings().structuredPatchHunks(old, new, context)] *)
  structuredPatchHunks : jstring -> jstring -> Z -> list StructuredPatchHunk;
  (** [Diff.applyPatch(text, {hunks}, { fuzzFactor: 0 })]; [None] is [false]. *)
  applyPatch : jstring -> list StructuredPatchHunk -> option jstring
}.

Definition HASHLINE_RECOVERY_WARNING : jstring :=
  js "Recovered from stale anchors using a previous read snapshot (file changed between read and edit).".

Record HashlineRecoveryResult : Type := {
  rr_lines : jstring; rr_firstChangedLine : option Z; rr_warnings : list jstring }.

Definition is_context (l : jstring) : bool := match l with c :: _ => (c =? c_space)%N | [] => false end.
Definition is_deletion (l : jstring) : bool := match l with c :: _ => (c =? c_minus)%N | [] => false end.
Definition is_addition (l : jstring) : bool := match l with c :: _ => (c =? c_plus)%N | [] => false end.
Definition on_old_side (l : jstring) : bool := is_context l || is_deletion l.

(** The lines of a hunk with their numbers in the old text. *)
Fixpoint oldLineNumbers (oldLine : Z) (ls : list jstring) : list (jstring * option Z) :=
  match ls with
  | [] => []
  | l :: ls' =>
      if on_old_side l then (l, Some oldLine) :: oldLineNumbers (oldLine + 1) ls'
      else (l, None) :: oldLineNumbers oldLine ls'
  end.

Definition covered (snapshot : FileReadSnapshot) (x : jstring * option Z) : bool :=
  match x.2 with Some n => bool_decide (is_Some (lines snapshot !! n)) | None => false end.

(** The two [while] loops: context lines outside the snapshot, from one end. *)
Fixpoint dropUncovered (snapshot : FileReadSnapshot) (xs : list (jstring * option Z))
    : list (jstring * option Z) :=
  match xs with
  | [] => []
  | x :: xs' => if is_context x.1 && negb (covered snapshot x) then dropUncovered snapshot xs' else xs
  end.

Definition trimHunkToSnapshot (hunk : StructuredPatchHunk) (snapshot : FileReadSnapshot)
    : option StructuredPatchHunk :=
  let numbered := oldLineNumbers (hk_oldStart hunk) (hk_lines hunk) in
  let from := dropUncovered snapshot numbered in
  let start := zlength numbered - zlength from in
  let kept := reverse (dropUncovered snapshot (reverse from)) in
  if existsb (fun x => match x.2 with Some _ => negb (covered snapshot x) | None => false end) kept then None
  else
    let ls := kept.*1 in
    Some {| hk_oldStart := hk_oldStart hunk + start;
            hk_oldLines := zlength (List.filter on_old_side ls);
            hk_newStart := hk_newStart hunk + start;
            hk_newLines := zlength (List.filter (fun l => is_context l || is_addition l) ls);
            hk_lines := ls |}.

(** The old side of a hunk, without the signs. *)
Definition hunkOldSide (hunk : StructuredPatchHunk) : list jstring :=
  (fun l => drop 1 l) <$> List.filter on_old_side (hk_lines hunk).

Definition matchesAt (side ls : list jstring) (start : nat) : bool :=
  bool_decide (take (length side) (drop start ls) = side).

(** The loop over the starts; [None] is the early [return false]. *)
Fixpoint countLandings (side ls : list jstring) (starts : list nat) (occurrences : nat) : option nat :=
  match starts with
  | [] => Some occurrences
  | start :: starts' =>
      if matchesAt side ls start
      then if (1 <? S occurrences)%nat then None else countLandings side ls starts' (S occurrences)
      else countLandings side ls starts' occurrences
  end.

Definition hunkStarts (side ls : list jstring) : list nat := seq 0 (S (length ls) - length side).

Fixpoint everyHunkLandsUniquely (hunks : list StructuredPatchHunk) (ls : list jstring) : bool :=
  match hunks with
  | [] => true
  | hunk :: hunks' =>
      let oldSide := hunkOldSide hunk in
      if (length oldSide =? 0)%nat then false
      else match countLandings oldSide ls (hunkStarts oldSide ls) 0 with
           | None => false
           | Some occurrences => if (occurrences =? 1)%nat then everyHunkLandsUniquely hunks' ls else false
           end
  end.

(** The line anchors a batch depends on, in order: [anchors.push(edit.anchor)] and the like. *)
Definition collectEditAnchors (edits : list HashlineEdit) : list Anchor :=
  edits ≫= fun edit =>
    match edit with
    | Delete d => [del_anchor d]
    | Insert (before_anchor a) _ _ _ | Insert (after_anchor a) _ _ _ => [a]
    | Insert _ _ _ _ => []
    end.

(** The text the anchors were authored against: the snapshot's lines over the live ones. *)
Definition overlay (snapshot : FileReadSnapshot) (currentText : jstring) : list jstring :=
  let live := split_on c_lf currentText in
  let entries := map_to_list (lines snapshot) in
  let maxCachedLine := foldl (fun m '(n, _) => if m <? n then n else m) 0 entries in
  let padded := live ++ replicate (Z.to_nat maxCachedLine - length live) [] in
  let overlaid := foldl (fun acc '(n, content) =>
    if n <? 1 then acc else <[Z.to_nat (n - 1) := content]> acc) padded entries in
  match lineCount snapshot with
  | None => overlaid
  | Some count => take (Z.to_nat count) overlaid ++ replicate (Z.to_nat count - length overlaid) []
  end.

(** [for (const hunk of patch.hunks)]: the trimmed hunks, or [None] at the first that is refused. *)
Fixpoint trimHunks (hunks : list StructuredPatchHunk) (snapshot : FileReadSnapshot)
    : option (list StructuredPatchHunk) :=
  match hunks with
  | [] => Some []
  | h :: hunks' => h' ← trimHunkToSnapshot h snapshot; hs ← trimHunks hunks' snapshot; Some (h' :: hs)
  end.

Section recovery.
Context `{LineHasher} `{NativeDiff} `{PatchLib}.

(** The precondition loop. *)
Definition anchorVouched (snapshot : FileReadSnapshot) (anchor : Anchor) : bool :=
  match lines snapshot !! line anchor with
  | None => false
  | Some cachedLine =>
      bool_decide (hash anchor = RANGE_INTERIOR_HASH)
      || bool_decide (computeLineHash (line anchor) cachedLine = hash anchor)
  end.

(** From the patch to the result, when the replay changed the snapshot's text. *)
Definition mergeReplay (snapshot : FileReadSnapshot) (previousText currentText : jstring)
    (applied : HashlineApplyResult) : option HashlineRecoveryResult :=
  hunks ← trimHunks (structuredPatchHunks previousText (ar_lines applied) 3) snapshot;
  if negb (everyHunkLandsUniquely hunks (split_on c_lf previousText)) then None
  else if negb (everyHunkLandsUniquely hunks (split_on c_lf currentText)) then None
  else
    merged ← applyPatch currentText hunks;
    if bool_decide (merged = currentText) then None
    else
      let mergedDiff := generateDiffString currentText merged 4 in
      let appliedWarnings := default [] (ar_warnings applied) in
      Some {| rr_lines := merged;
              rr_firstChangedLine := match diff_firstChangedLine mergedDiff with
                                     | Some n => Some n | None => ar_firstChangedLine applied end;
              rr_warnings := match diff_firstChangedLine mergedDiff with
                             | Some _ => HASHLINE_RECOVERY_WARNING :: appliedWarnings
                             | None => appliedWarnings end |}.

(** The result, and the edits as the attempt leaves them. *)
Definition tryRecoverFromSnapshot (snapshot : FileReadSnapshot) (anchors : list Anchor) (currentText : jstring)
    (edits : list HashlineEdit) (options : HashlineApplyOptions)
    : result HashlineError (option HashlineRecoveryResult * list HashlineEdit) :=
  if bool_decide (lines snapshot = ∅) then Ok (None, edits)
  else if negb (forallb (anchorVouched snapshot) anchors) then Ok (None, edits)
  else
    let previousText := join [c_lf] (overlay snapshot currentText) in
    if bool_decide (previousText = currentText) then Ok (None, edits)
    else match applyHashlineEdits previousText edits options with
    | Throw (HashlineMismatchError _ _) => Ok (None, edits)
    | Throw e => Throw e
    | Ok (applied, edits') =>
        if bool_decide (ar_lines applied = previousText) then Ok (None, edits')
        else Ok (mergeReplay snapshot previousText currentText applied, edits')
    end.

(** The generations, newest first, until one recovers. *)
Fixpoint tryGenerations (snapshots : list FileReadSnapshot) (anchors : list Anchor) (currentText : jstring)
    (edits : list HashlineEdit) (options : HashlineApplyOptions)
    : result HashlineError (option HashlineRecoveryResult * list HashlineEdit) :=
  match snapshots with
  | [] => Ok (None, edits)
  | snapshot :: snapshots' =>
      '(recovered, edits') ← tryRecoverFromSnapshot snapshot anchors currentText edits options;
      match recovered with
      | Some _ => Ok (recovered, edits')
      | None => tryGenerations snapshots' anchors currentText edits' options
      end
  end.

Context {L : LRUCache (list FileReadSnapshot)}.

Definition tryRecoverHashlineWithCache (cache : lru) (absolutePath currentText : jstring)
    (edits : list HashlineEdit) (options : HashlineApplyOptions)
    : result HashlineError (option HashlineRecoveryResult * list HashlineEdit) * lru :=
  let anchors := collectEditAnchors edits in
  let '(snapshots, cache') := generations absolutePath cache in
  (tryGenerations snapshots anchors currentText edits options, cache').

End recovery.

(** ** Landing places *)

Definition occurs_at (side ls : list jstring) (start : nat) : Prop :=
  take (length side) (drop start ls) = side.

#[local] Instance occurs_at_dec side ls start : Decision (occurs_at side ls start).
Proof. unfold occurs_at. apply _. Defined.

Lemma countLandings_spec side ls starts occ n :
  countLandings side ls starts occ = Some n ->
  n = (occ + length (filter (occurs_at side ls) starts))%nat.
Proof.
  revert occ. induction starts as [|s starts IH]; intros occ; cbn [countLandings]; [intros [= <-]; simpl; lia|].
  rewrite filter_cons. unfold matchesAt. case_bool_decide as E.
  - rewrite decide_True by done. case_match; [done|]. intros ->%IH. simpl. lia.
  - rewrite decide_False by done. apply IH.
Qed.

Lemma everyHunk_lands hunks ls :
  everyHunkLandsUniquely hunks ls = true ->
  Forall (fun h => hunkOldSide h ≠ [] /\ exists start, occurs_at (hunkOldSide h) ls start /\
            forall start', occurs_at (hunkOldSide h) ls start' -> start' = start) hunks.
Proof.
  induction hunks as [|h hunks IH]; [constructor|]. cbn [everyHunkLandsUniquely].
  set (side := hunkOldSide h). destruct side as [|x side'] eqn:Es; [done|]. cbn [length Nat.eqb].
  destruct (countLandings _ _ _ _) as [n|] eqn:E; [|done]. apply countLandings_spec in E.
  case_match eqn:E1; [|done]. apply Nat.eqb_eq in E1. intros Hr. constructor; [|by apply IH].
  fold side. rewrite Es. split; [done|].
  destruct (filter (occurs_at (x :: side') ls) (hunkStarts (x :: side') ls)) as [|start [|]] eqn:Ef;
    simpl in E; try lia.
  apply filter_singleton_iff in Ef as [[_ Hat] Hu]; [|apply NoDup_seq]. exists start. split; [done|].
  intros start' Hat'. apply Hu; [|done]. apply elem_of_seq.
  apply (f_equal length) in Hat'. rewrite length_take, length_drop in Hat'. cbn [length] in *. lia.
Qed.

(** ** Trimmed hunks *)

Lemma oldLineNumbers_app n a b :
  oldLineNumbers n (a ++ b) = oldLineNumbers n a ++ oldLineNumbers (n + zlength (List.filter on_old_side a)) b.
Proof.
  revert n. induction a as [|l a IH]; intros n; cbn [app oldLineNumbers List.filter]; [by rewrite Z.add_0_r|].
  destruct (on_old_side l); rewrite IH; cbn [app]; [|done].
  do 3 f_equal. unfold zlength. simpl length. lia.
Qed.

Lemma oldLineNumbers_fst n ls : (oldLineNumbers n ls).*1 = ls.
Proof. revert n. induction ls as [|l ls IH]; intros n; cbn; [done|]. case_match; cbn; by rewrite IH. Qed.

Lemma dropUncovered_split snap xs :
  exists dropped, xs = dropped ++ dropUncovered snap xs /\ Forall (fun x => is_context x.1 = true) dropped.
Proof.
  induction xs as [|x xs (d & E & Hd)]; [by exists []|]. cbn [dropUncovered]. case_match eqn:Ec; [|by exists []].
  apply andb_true_iff in Ec as [Ec _]. exists (x :: d). cbn [app]. split; [by f_equal|by constructor].
Qed.

Lemma filter_all_context ls : Forall (fun l => is_context l = true) ls -> List.filter on_old_side ls = ls.
Proof.
  induction 1 as [|l ls Hl _ IH]; [done|]. cbn [List.filter]. unfold on_old_side at 1. rewrite Hl. cbn [orb].
  by rewrite IH.
Qed.

(** Trimming keeps a run of the hunk's lines, numbered as before, and all of them covered. *)
Lemma trimHunk_spec h snap h' :
  trimHunkToSnapshot h snap = Some h' ->
  oldLineNumbers (hk_oldStart h') (hk_lines h') `sublist_of` oldLineNumbers (hk_oldStart h) (hk_lines h) /\
  Forall (fun x => match x.2 with Some n => is_Some (lines snap !! n) | None => True end)
    (oldLineNumbers (hk_oldStart h') (hk_lines h')).
Proof.
  unfold trimHunkToSnapshot. set (numbered := oldLineNumbers _ _).
  destruct (dropUncovered_split snap numbered) as (d & En & Hd).
  set (from := dropUncovered snap numbered) in *.
  destruct (dropUncovered_split snap (reverse from)) as (d' & Ef & _).
  set (kept := reverse (dropUncovered snap (reverse from))).
  assert (from = kept ++ reverse d') as Ek.
  { unfold kept. rewrite <- reverse_app, <- Ef. by rewrite reverse_involutive. }
  destruct (existsb _ kept) eqn:Ee; [done|]. intros [= <-]. cbn [hk_oldStart hk_lines].
  assert (hk_lines h = d.*1 ++ kept.*1 ++ (reverse d').*1) as El.
  { rewrite <- !fmap_app, <- Ek, <- En. unfold numbered. by rewrite oldLineNumbers_fst. }
  assert (oldLineNumbers (hk_oldStart h + (zlength numbered - zlength from)) kept.*1 = kept) as Hkept.
  { pose proof En as En'. unfold numbered in En'. rewrite El, !oldLineNumbers_app in En'.
    rewrite Ek in En'.
    apply app_inj_1 in En' as [_ En'].
    2: { rewrite <- (length_fmap fst), oldLineNumbers_fst, length_fmap. done. }
    apply app_inj_1 in En' as [En' _].
    2: { rewrite <- (length_fmap fst), oldLineNumbers_fst, length_fmap. done. }
    rewrite filter_all_context in En' by by apply Forall_fmap.
    replace (zlength numbered - zlength from) with (zlength d.*1); [done|].
    unfold zlength. rewrite length_fmap. rewrite (f_equal length En), length_app. lia. }
  rewrite Hkept. split.
  - rewrite En, Ek. apply sublist_inserts_l, sublist_inserts_r. done.
  - apply Forall_forall. intros x Hx. destruct (x.2) as [n|] eqn:Ex; [|done].
    apply not_true_iff_false in Ee. destruct (lines snap !! n) eqn:El'; [done|].
    destruct Ee. apply existsb_exists. exists x. split; [by apply list_elem_of_In|].
    rewrite Ex. unfold covered. rewrite Ex, El'. by rewrite bool_decide_false by (by intros [? ?]).
Qed.

(** ** The overlaid text *)

(** Snapshot lines are single lines with positive numbers; a counted snapshot has them all. *)
Definition snapshot_wf (s : FileReadSnapshot) : Prop :=
  map_Forall (fun n c => 1 <= n /\ (c_lf ∉ c)) (lines s) /\
  forall k, lineCount s = Some k -> forall n, is_Some (lines s !! n) -> n <= k.

Lemma max_line_ge (es : list (Z * jstring)) m n c :
  let f := fun m '(n, _) => if m <? n then n else m in
  m <= foldl f m es /\ ((n, c) ∈ es -> n <= foldl f m es).
Proof.
  cbv zeta. revert m. induction es as [|[k d] es IH]; intros m; cbn [foldl].
  { split; [lia|]. by intros ?%elem_of_nil. }
  destruct (IH (if m <? k then k else m)) as [H1 H2]. split; [destruct (Z.ltb_spec m k); lia|].
  intros [[= -> ->]|Hin]%elem_of_cons; [destruct (Z.ltb_spec m k); lia|by apply H2].
Qed.

Definition put_lines (es : list (Z * jstring)) (acc : list jstring) : list jstring :=
  foldl (fun acc '(n, content) => if n <? 1 then acc else <[Z.to_nat (n - 1) := content]> acc) acc es.

Lemma length_put_lines es acc : length (put_lines es acc) = length acc.
Proof.
  unfold put_lines. revert acc. induction es as [|[n c] es IH]; intros acc; cbn [foldl]; [done|].
  rewrite IH. case_match; [done|]. apply length_insert.
Qed.

Lemma put_lines_Forall (P : jstring -> Prop) es acc :
  Forall P acc -> Forall (fun e => P e.2) es -> Forall P (put_lines es acc).
Proof.
  unfold put_lines. intros Ha He. revert acc Ha. induction He as [|[n c] es Hc _ IH]; intros acc Ha; [done|].
  cbn [foldl]. apply IH. case_match; [done|]. by apply Forall_insert.
Qed.

Lemma put_lines_lookup es acc n c :
  NoDup es.*1 -> 1 <= n -> (Z.to_nat (n - 1) < length acc)%nat ->
  (n, c) ∈ es \/ (n ∉ es.*1 /\ acc !! Z.to_nat (n - 1) = Some c) ->
  put_lines es acc !! Z.to_nat (n - 1) = Some c.
Proof.
  intros Hnd Hn. unfold put_lines. revert acc. induction es as [|[k d] es IH]; intros acc Hlt Hin; cbn [foldl].
  { destruct Hin as [Hin|[_ Hin]]; [by apply elem_of_nil in Hin|done]. }
  cbn [fmap list_fmap fst] in *. apply NoDup_cons in Hnd as [Hk Hnd].
  assert (forall acc', length acc' = length acc -> acc' !! Z.to_nat (n - 1) = Some c -> (n, c) ∈ es \/ n ∉ es.*1 ->
    foldl (fun acc '(n, content) => if n <? 1 then acc else <[Z.to_nat (n - 1) := content]> acc) acc' es
      !! Z.to_nat (n - 1) = Some c) as Hstep.
  { intros acc' Hl Ha [Hi|Hi]; apply IH; auto; lia. }
  destruct Hin as [[[= <- <-]|Hin]%elem_of_cons|[Hnin Hacc]].
  - replace (n <? 1) with false by lia. apply Hstep; [apply length_insert|by apply list_lookup_insert_eq|by right].
  - apply IH; [done|case_match; [done|by rewrite length_insert]|by left].
  - apply not_elem_of_cons in Hnin as [Hne Hnin].
    apply Hstep; [case_match; [done|apply length_insert]| |by right].
    case_match; [done|]. rewrite list_lookup_insert_ne; [done|lia].
Qed.

Lemma overlay_lookup s text n c :
  snapshot_wf s -> lines s !! n = Some c -> arr_at (overlay s text) (n - 1) = Some c.
Proof.
  intros [Hs Hk] Hn. destruct (Hs _ _ Hn) as [H1 _]. unfold overlay.
  set (padded := _ ++ replicate _ _). fold (put_lines (map_to_list (lines s)) padded).
  assert (Z.to_nat (n - 1) < length padded)%nat as Hlt.
  { unfold padded. rewrite length_app, length_replicate.
    destruct (max_line_ge (map_to_list (lines s)) 0 n c) as [_ Hm]. specialize (Hm (proj2 (elem_of_map_to_list _ _ _) Hn)). lia. }
  pose proof (put_lines_lookup (map_to_list (lines s)) padded n c (NoDup_fst_map_to_list _) H1 Hlt
    (or_introl (proj2 (elem_of_map_to_list _ _ _) Hn))) as Hp.
  apply arr_at_Some. split; [lia|]. destruct (lineCount s) as [k|] eqn:Ek; [|done].
  specialize (Hk k eq_refl n (mk_is_Some _ _ Hn)). rewrite lookup_app_l.
  - rewrite lookup_take_lt by lia. done.
  - rewrite length_take, length_put_lines. lia.
Qed.

Lemma overlay_split s text :
  snapshot_wf s -> lines s ≠ ∅ -> split_on c_lf (join [c_lf] (overlay s text)) = overlay s text.
Proof.
  intros Hwf Hne. apply split_on_join.
  - apply map_choose in Hne as (n & c & Hn). pose proof (overlay_lookup s text n c Hwf Hn) as Ha.
    intros E. rewrite E in Ha. apply arr_at_Some in Ha as [_ Ha]. by rewrite lookup_nil in Ha.
  - destruct Hwf as [Hs _]. unfold overlay. set (padded := _ ++ replicate _ _).
    assert (Forall (fun x => c_lf ∉ x) (put_lines (map_to_list (lines s)) padded)) as Hf.
    { apply put_lines_Forall.
      - apply Forall_app. split; [apply split_on_pieces|]. apply Forall_replicate, not_elem_of_nil.
      - apply Forall_forall. intros [n c] Hin%elem_of_map_to_list. by apply (Hs _ _ Hin). }
    fold (put_lines (map_to_list (lines s)) padded). case_match; [|done].
    apply Forall_app. split; [by apply Forall_take|]. apply Forall_replicate, not_elem_of_nil.
Qed.

(** ** The theorem *)

(** A hunk quotes a text: its old lines are the lines of the text at their numbers. *)
Definition quotes (text : list jstring) (h : StructuredPatchHunk) : Prop :=
  forall l n, (l, Some n) ∈ oldLineNumbers (hk_oldStart h) (hk_lines h) -> arr_at text (n - 1) = Some (drop 1 l).

(** The hunks of a patch quote the old text. *)
Class PatchLibLaws (P : PatchLib) : Prop := {
  hunks_quote : forall old new context h,
    h ∈ structuredPatchHunks old new context -> quotes (split_on c_lf old) h
}.

(** A hunk made only of lines that the snapshot has. *)
Definition vouched_hunk (s : FileReadSnapshot) (h : StructuredPatchHunk) : Prop :=
  forall l n, (l, Some n) ∈ oldLineNumbers (hk_oldStart h) (hk_lines h) -> lines s !! n = Some (drop 1 l).

Definition lands_once (text : list jstring) (h : StructuredPatchHunk) : Prop :=
  exists start, occurs_at (hunkOldSide h) text start /\
    forall start', occurs_at (hunkOldSide h) text start' -> start' = start.

Lemma trimHunks_spec hunks snap hs :
  trimHunks hunks snap = Some hs -> Forall (fun h' => exists h, h ∈ hunks /\ trimHunkToSnapshot h snap = Some h') hs.
Proof.
  revert hs. induction hunks as [|h hunks IH]; intros hs; cbn [trimHunks]; [intros [= <-]; constructor|].
  intros (h' & Hh & (hs' & Hhs & [= <-])%bind_Some)%bind_Some.
  constructor; [exists h; split; [left|done]|]. eapply Forall_impl; [by apply IH|].
  intros x (y & Hy & ?). exists y. split; [by right|done].
Qed.

Section theorem.
Context `{LineHasher} `{NativeDiff} `{P : PatchLib} {PL : PatchLibLaws P}.

(** The snapshot vouches for an anchor: it has the line, with the anchor's hash. *)
Definition vouches (s : FileReadSnapshot) (a : Anchor) : Prop :=
  exists c, lines s !! line a = Some c /\
    (hash a = RANGE_INTERIOR_HASH \/ computeLineHash (line a) c = hash a).

Lemma anchorVouched_iff s a : anchorVouched s a = true <-> vouches s a.
Proof.
  unfold anchorVouched, vouches. destruct (lines s !! line a) as [c|]; [|split; [done|by intros (? & ? & _)]].
  rewrite orb_true_iff, !bool_decide_eq_true. split; [by exists c|]. by intros (? & [= <-] & ?).
Qed.

Lemma vouched_trim s text hunks hs :
  snapshot_wf s -> lines s ≠ ∅ ->
  (forall h, h ∈ hunks -> quotes (split_on c_lf (join [c_lf] (overlay s text))) h) ->
  trimHunks hunks s = Some hs -> Forall (vouched_hunk s) hs.
Proof.
  intros Hwf Hne Hq Ht. apply trimHunks_spec in Ht. eapply Forall_impl; [exact Ht|].
  intros h' (h & Hh & [Hsub Hcov]%trimHunk_spec) l n Hin.
  rewrite Forall_forall in Hcov. destruct (Hcov _ Hin) as [c Hc]. cbn in Hc.
  specialize (Hq h Hh l n (elem_of_sublist _ _ _ Hin Hsub)).
  rewrite overlay_split in Hq by done. pose proof (overlay_lookup s text n c Hwf Hc) as Ho. congruence.
Qed.

(** What a recovered text is. *)
Definition carried_over (s : FileReadSnapshot) (currentText : jstring) (r : HashlineRecoveryResult) : Prop :=
  exists hunks, applyPatch currentText hunks = Some (rr_lines r) /\ rr_lines r ≠ currentText /\
    Forall (vouched_hunk s) hunks /\
    Forall (fun h => hunkOldSide h ≠ [] /\ lands_once (split_on c_lf currentText) h) hunks.

Lemma mergeReplay_ok s text applied r :
  snapshot_wf s -> lines s ≠ ∅ ->
  mergeReplay s (join [c_lf] (overlay s text)) text applied = Some r -> carried_over s text r.
Proof.
  intros Hwf Hne. unfold mergeReplay. intros (hs & Hhs & Hr)%bind_Some.
  case_match; [done|]. case_match eqn:Eu; [done|]. apply negb_false_iff, everyHunk_lands in Eu.
  apply bind_Some in Hr as (merged & Hm & Hr). case_bool_decide; [done|]. injection Hr as <-.
  exists hs. split_and!; [done|done| |done]. eapply vouched_trim; [done|done| |exact Hhs].
  intros h Hh. by eapply hunks_quote.
Qed.

Lemma tryRecoverFromSnapshot_ok s anchors text edits options r edits' :
  snapshot_wf s -> tryRecoverFromSnapshot s anchors text edits options = Ok (Some r, edits') ->
  Forall (vouches s) anchors /\ carried_over s text r.
Proof.
  intros Hwf. unfold tryRecoverFromSnapshot. case_bool_decide as Hne; [done|].
  destruct (forallb _ anchors) eqn:Ev; [|done]. cbn [negb].
  case_bool_decide; [done|]. destruct (applyHashlineEdits _ _ _) as [[applied edits1]|e]; [|by destruct e].
  case_bool_decide; [done|]. intros [= Hm <-]. split; [|by eapply mergeReplay_ok].
  apply Forall_forall. intros a Ha%list_elem_of_In. rewrite forallb_forall in Ev.
  by apply anchorVouched_iff, Ev.
Qed.

Context {L : LRUCache (list FileReadSnapshot)}.


End theorem.

(** ** Examples *)

(** The coarsest patches: one hunk that replaces the whole old text, put where its old side stands. *)
Definition blockHunk (old new : list jstring) : StructuredPatchHunk :=
  {| hk_oldStart := 1; hk_oldLines := zlength old; hk_newStart := 1; hk_newLines := zlength new;
     hk_lines := (cons c_minus <$> old) ++ (cons c_plus <$> new) |}.

Definition applyBlock (text : jstring) (h : StructuredPatchHunk) : option jstring :=
  let ls := split_on c_lf text in
  let side := hunkOldSide h in
  let new := (fun l => drop 1 l) <$> List.filter is_addition (hk_lines h) in
  start ← List.find (matchesAt side ls) (hunkStarts side ls);
  Some (join [c_lf] (take start ls ++ new ++ drop (start + length side) ls)).

Definition blockPatch : PatchLib :=
  {| structuredPatchHunks := fun old new _ => [blockHunk (split_on c_lf old) (split_on c_lf new)];
     applyPatch := fun text hunks => match hunks with [h] => applyBlock text h | _ => None end |}.

Lemma blockHunk_lines n old l k :
  (l, Some k) ∈ oldLineNumbers n (cons c_minus <$> old) -> n <= k /\ old !! Z.to_nat (k - n) = Some (drop 1 l).
Proof.
  revert n. induction old as [|x old IH]; intros n; cbn [fmap list_fmap oldLineNumbers]; [by intros ?%elem_of_nil|].
  replace (on_old_side (c_minus :: x)) with true by done. cbv iota.
  intros [[= -> ->]|Hin]%elem_of_cons.
  - replace (Z.to_nat (n - n)) with 0%nat by lia. split; [lia|done].
  - apply IH in Hin as [? Hl]. split; [lia|].
    by replace (Z.to_nat (k - n)) with (S (Z.to_nat (k - (n + 1)))) by lia.
Qed.

Lemma added_lines_unnumbered n new l k : (l, Some k) ∉ oldLineNumbers n (cons c_plus <$> new).
Proof.
  revert n. induction new as [|x new IH]; intros n; cbn [fmap list_fmap oldLineNumbers]; [apply not_elem_of_nil|].
  replace (on_old_side (c_plus :: x)) with false by done. cbv iota.
  apply not_elem_of_cons. split; [done|apply IH].
Qed.

#[local] Instance blockPatchLaws : PatchLibLaws blockPatch.
Proof.
  split. intros old new context h Hh%list_elem_of_singleton. subst h. intros l n.
  cbn [blockHunk hk_oldStart hk_lines]. rewrite oldLineNumbers_app, elem_of_app. intros [Hin|Hin].
  - apply blockHunk_lines in Hin as [? Hl]. apply arr_at_Some. split; [lia|done].
  - by apply added_lines_unnumbered in Hin.
Qed.

Section examples.
#[local] Existing Instances demoHasher wholeDiff blockPatch.

Definition full_snapshot (ls : list jstring) : FileReadSnapshot :=
  {| lines := setLines ∅ (FileReadCache.numbered 1 ls); lineCount := Some (zlength ls); recordedAt := 0 |}.

Definition demo_cache (gens : list (list jstring)) : lru (V := list FileReadSnapshot) :=
  lru_set (js "f") (full_snapshot <$> gens) lru_empty.

Definition demo_options : HashlineApplyOptions := {| autoDropPureInsertDuplicates := None |}.

(** Replace line 2, read as [b]; the live file has got a new first line since. *)
Definition demo_replace : list HashlineEdit :=
  [Insert (before_anchor (mkAnchor 2 (computeLineHash 2 (js "b")))) (js "x") 1 0;
   Delete {| del_anchor := mkAnchor 2 (computeLineHash 2 (js "b")); del_lineNum := 1; del_index := 1;
             del_oldAssertion := None |}].

Lemma demo_snapshot_wf : snapshot_wf (full_snapshot [js "a"; js "b"]).
Proof.
  split.
  - apply map_Forall_to_list. cbn. apply (bool_decide_unpack _). vm_compute. reflexivity.
  - intros k [= <-] n [c Hc]. apply elem_of_map_to_list in Hc. vm_compute in Hc.
    repeat (apply elem_of_cons in Hc as [[= -> _]|Hc]; [vm_compute; discriminate|]). by apply elem_of_nil in Hc.
Qed.


(** Insert after line 1, read as [a]. *)
Definition demo_insert : list HashlineEdit :=
  [Insert (after_anchor (mkAnchor 1 (computeLineHash 1 (js "a")))) (js "x") 1 0].

(** The attempt on the newest generation, which is refused, leaves the cursor of the insertion at the
    end of the file; the attempt on the older one then succeeds with the text in the wrong place.
    Alone, the older generation puts it after the anchored line. *)
Lemma refused_generation_moves_the_insertion :
  let live := join [c_lf] [js "a"; js "a"; js "b"] in
  let recovered gens := match (tryRecoverHashlineWithCache (demo_cache gens) (js "f") live demo_insert demo_options).1 with
                        | Ok (Some r, _) => Some (split_on c_lf (rr_lines r)) | _ => None end in
  recovered [[js "a"; js "b"]] = Some [js "a"; js "a"; js "x"; js "b"] /\
  recovered [[js "a"]; [js "a"; js "b"]] = Some [js "a"; js "a"; js "b"; js "x"].
Proof. vm_compute. split; reflexivity. Qed.

End examples.
