(* ===== verification/EditNormalize.v ===== *)
(** * Text normalisation for edits (edit/normalize.ts)

    Line endings and byte order marks are taken off before an edit and put back after it; the
    indentation of a replacement is moved by the difference between what the model quoted and what
    the file has. *)
From S2P Require Import Prelude JsString.
From Stdlib Require Import ZifyBool ZifyN.
Open Scope Z_scope.

(** ** Line endings *)

Inductive LineEnding : Type := CRLF | LF.

(** [content.indexOf("\r\n")] *)
Fixpoint index_of_crlf (s : jstring) : option nat :=
  match s with
  | [] => None
  | c :: s' =>
      if (c =? c_cr)%N && match s' with d :: _ => (d =? c_lf)%N | [] => false end then Some 0%nat
      else S <$> index_of_crlf s'
  end.

Definition detectLineEnding (content : jstring) : LineEnding :=
  match index_of c_lf content, index_of_crlf content with
  | None, _ => LF
  | _, None => LF
  | Some lfIdx, Some crlfIdx => if (crlfIdx <? lfIdx)%nat then CRLF else LF
  end.

(** [text.replace(/\r\n?/g, "\n")] *)
Fixpoint normalizeToLF (text : jstring) : jstring :=
  match text with
  | [] => []
  | c :: s =>
      if (c =? c_cr)%N then
        match s with
        | d :: s' => if (d =? c_lf)%N then c_lf :: normalizeToLF s' else c_lf :: normalizeToLF s
        | [] => [c_lf]
        end
      else c :: normalizeToLF s
  end.

(** [text.replace(/\n/g, "\r\n")] *)
Fixpoint lfToCrlf (text : jstring) : jstring :=
  match text with
  | [] => []
  | c :: s => if (c =? c_lf)%N then c_cr :: c_lf :: lfToCrlf s else c :: lfToCrlf s
  end.

Definition restoreLineEndings (text : jstring) (ending : LineEnding) : jstring :=
  match ending with CRLF => lfToCrlf text | LF => text end.

Definition c_bom : N := 65279.

Record BomResult : Type := { bom : jstring; bom_text : jstring }.

Definition stripBom (content : jstring) : BomResult :=
  if starts_with [c_bom] content then {| bom := [c_bom]; bom_text := drop 1 content |}
  else {| bom := []; bom_text := content |}.

(** ** Fuzzy comparison of lines *)

(** [.replace(/[class]/g, [by])] for a class of single units and a replacement of one unit. *)
Definition replace_class (class : list N) (by_ : N) (s : jstring) : jstring :=
  (fun c => if bool_decide (c ∈ class) then by_ else c) <$> s.

(** [.replace(/[ \t]+/g, " ")] *)
Fixpoint collapse_blanks (s : jstring) : jstring :=
  match s with
  | [] => []
  | c :: s' =>
      if (c =? c_space)%N || (c =? 9)%N then
        match collapse_blanks s' with
        | d :: r => if (match s' with e :: _ => (e =? c_space)%N || (e =? 9)%N | [] => false end) then d :: r
                    else c_space :: d :: r
        | [] => [c_space]
        end
      else c :: collapse_blanks s'
  end.

(** The units between the brackets of the three classes, as the source has them. *)
Definition double_quotes : list N := [34; 34; 8222; 8223; 171; 187]%N.
Definition single_quotes : list N := [39; 39; 8218; 8219; 96; 180]%N.
Definition dashes : list N := [8208; 8209; 8210; 8211; 8212; 8722]%N.

Definition normalizeForFuzzy (l : jstring) : jstring :=
  let trimmed := trim l in
  if (length trimmed =? 0)%nat then []
  else collapse_blanks (replace_class dashes 45 (replace_class single_quotes 39 (replace_class double_quotes 34 trimmed))).

(** ** Indentation *)

Definition c_tab : N := 9.

Definition is_indent (c : N) : bool := (c =? c_space)%N || (c =? c_tab)%N.

Fixpoint countLeadingWhitespace (l : jstring) : nat :=
  match l with
  | c :: l' => if is_indent c then S (countLeadingWhitespace l') else 0
  | [] => 0
  end.

Definition getLeadingWhitespace (l : jstring) : jstring := take (countLeadingWhitespace l) l.

Definition isNonEmptyLine (l : jstring) : bool := negb (length (trim l) =? 0)%nat.

Definition minIndent (text : jstring) : nat :=
  let counts := countLeadingWhitespace <$> List.filter isNonEmptyLine (split_on c_lf text) in
  match counts with [] => 0 | n :: ns => foldl Nat.min n ns end.

Fixpoint firstIndentUnit (lines : list jstring) : N :=
  match lines with
  | [] => c_space
  | l :: lines' => match getLeadingWhitespace l with c :: _ => c | [] => firstIndentUnit lines' end
  end.

Definition detectIndentChar (text : jstring) : N := firstIndentUnit (split_on c_lf text).

Record IndentProfile : Type := {
  ip_lines : list jstring; indentCounts : list nat; ip_char : option N;
  spaceOnly : bool; tabOnly : bool; mixed : bool; unit_ : nat; nonEmptyCount : nat }.

(** One line of the loop of [buildIndentProfile]. *)
Definition profileLine (p : IndentProfile) (l : jstring) : IndentProfile :=
  if negb (isNonEmptyLine l) then p
  else
    let indent := getLeadingWhitespace l in
    let hasSpace := bool_decide (c_space ∈ indent) in
    let hasTab := bool_decide (c_tab ∈ indent) in
    let mixed1 := mixed p || (hasSpace && hasTab) in
    let '(char2, mixed2) :=
      match indent with
      | [] => (ip_char p, mixed1)
      | c :: _ => match ip_char p with
                  | None => (Some c, mixed1)
                  | Some d => (Some d, mixed1 || negb (d =? c)%N)
                  end
      end in
    {| ip_lines := ip_lines p; indentCounts := indentCounts p ++ [length indent]; ip_char := char2;
       spaceOnly := spaceOnly p && negb hasTab; tabOnly := tabOnly p && negb hasSpace; mixed := mixed2;
       unit_ := unit_ p; nonEmptyCount := S (nonEmptyCount p) |}.

(** The loop of [gcd] while [y] is not zero: [y] decreases, so [b] rounds are enough. *)
Fixpoint gcdLoop (fuel x y : nat) : nat :=
  match fuel with
  | O => x
  | S fuel => if (y =? 0)%nat then x else gcdLoop fuel y (x mod y)
  end.

Definition gcd (a b : nat) : nat := gcdLoop (S b) a b.

(** The loop over the indent widths. *)
Definition gcdOfCounts (counts : list nat) : nat :=
  foldl (fun current count =>
    if (count =? 0)%nat then current else if (current =? 0)%nat then count else gcd current count) 0%nat counts.

Definition buildIndentProfile (text : jstring) : IndentProfile :=
  let lines := split_on c_lf text in
  let p := foldl profileLine
    {| ip_lines := lines; indentCounts := []; ip_char := None; spaceOnly := true; tabOnly := true;
       mixed := false; unit_ := 0; nonEmptyCount := 0 |} lines in
  let unit1 := if spaceOnly p && (0 <? nonEmptyCount p)%nat then gcdOfCounts (indentCounts p) else 0%nat in
  let unit2 := if tabOnly p && (0 <? nonEmptyCount p)%nat then 1%nat else unit1 in
  {| ip_lines := ip_lines p; indentCounts := indentCounts p; ip_char := ip_char p; spaceOnly := spaceOnly p;
     tabOnly := tabOnly p; mixed := mixed p; unit_ := unit2; nonEmptyCount := nonEmptyCount p |}.

Definition mapLines (f : jstring -> jstring) (text : jstring) : jstring :=
  join [c_lf] (f <$> split_on c_lf text).

Definition tabsToSpaces (spacesPerTab : nat) (l : jstring) : jstring :=
  let trimmed := trim_start l in
  if (length trimmed =? 0)%nat then l
  else
    let leading := getLeadingWhitespace l in
    if negb (bool_decide (c_tab ∈ leading)) || bool_decide (c_space ∈ leading) then l
    else replicate (length leading * spacesPerTab) c_space ++ trimmed.

Definition convertLeadingTabsToSpaces (text : jstring) (spacesPerTab : nat) : jstring :=
  if (spacesPerTab =? 0)%nat then text else mapLines (tabsToSpaces spacesPerTab) text.

Definition isIndentationOnlyRewrite (oldText newText : jstring) : bool :=
  bool_decide (trim <$> split_on c_lf oldText = trim <$> split_on c_lf newText).

(** [oldIndent] and [actualIndent] agree on every pair of lines that are both not blank. *)
Definition tabWidthsAgree (unit : nat) (oldLines actualLines : list jstring) : bool :=
  forallb (fun '(oldLine, actualLine) =>
    negb (isNonEmptyLine oldLine) || negb (isNonEmptyLine actualLine)
    || (countLeadingWhitespace oldLine =? 0)%nat
    || (countLeadingWhitespace actualLine =? countLeadingWhitespace oldLine * unit)%nat)
    (zip oldLines actualLines).

Definition maybeConvertTabIndentation (oldProfile actualProfile newProfile : IndentProfile) (newText : jstring)
    : option jstring :=
  if negb (spaceOnly actualProfile) || negb (tabOnly oldProfile) || negb (tabOnly newProfile)
     || (unit_ actualProfile =? 0)%nat then None
  else if tabWidthsAgree (unit_ actualProfile) (ip_lines oldProfile) (ip_lines actualProfile)
  then Some (convertLeadingTabsToSpaces newText (unit_ actualProfile)) else None.

Definition computeUniformIndentDelta (oldProfile actualProfile : IndentProfile) : option Z :=
  let deltas := omap (fun '(oldLine, actualLine) =>
    if negb (isNonEmptyLine oldLine) || negb (isNonEmptyLine actualLine) then None
    else Some (Z.of_nat (countLeadingWhitespace actualLine) - Z.of_nat (countLeadingWhitespace oldLine)))
    (zip (ip_lines oldProfile) (ip_lines actualProfile)) in
  match deltas with
  | [] => None
  | delta :: rest => if forallb (Z.eqb delta) rest then Some delta else None
  end.

Definition indentLine (delta : Z) (indentChar : N) (l : jstring) : jstring :=
  if negb (isNonEmptyLine l) then l
  else if 0 <? delta then replicate (Z.to_nat delta) indentChar ++ l
  else drop (Nat.min (Z.to_nat (- delta)) (countLeadingWhitespace l)) l.

Definition applyIndentDelta (text : jstring) (delta : Z) (indentChar : N) : jstring :=
  mapLines (indentLine delta indentChar) text.

Definition chars_differ (a b : option N) : bool :=
  match a, b with Some x, Some y => negb (x =? y)%N | _, _ => false end.

Definition adjustIndentation (oldText actualText newText : jstring) : jstring :=
  if bool_decide (oldText = actualText) then newText
  else if isIndentationOnlyRewrite oldText newText then newText
  else
    let oldProfile := buildIndentProfile oldText in
    let actualProfile := buildIndentProfile actualText in
    let newProfile := buildIndentProfile newText in
    if negb (forallb (fun p => 0 <? nonEmptyCount p)%nat [oldProfile; actualProfile; newProfile]) then newText
    else if existsb mixed [oldProfile; actualProfile; newProfile] then newText
    else if chars_differ (ip_char oldProfile) (ip_char actualProfile) then
      match maybeConvertTabIndentation oldProfile actualProfile newProfile newText with
      | Some converted => converted
      | None => newText
      end
    else
      match computeUniformIndentDelta oldProfile actualProfile with
      | None => newText
      | Some delta =>
          if delta =? 0 then newText
          else if chars_differ (ip_char newProfile) (ip_char actualProfile) then newText
          else
            let indentChar :=
              match ip_char actualProfile, ip_char oldProfile with
              | Some c, _ => c
              | None, Some c => c
              | None, None => detectIndentChar actualText
              end in
            applyIndentDelta newText delta indentChar
      end.

(** ** Line endings survive an edit *)

(** The text has bare line feeds only, or carriage-return/line-feed pairs only. *)
Definition uniform_endings (t : jstring) : Prop :=
  (c_cr ∉ t) \/ exists ls, Forall (fun l => (c_cr ∉ l) /\ (c_lf ∉ l)) ls /\ t = join [c_cr; c_lf] ls.

Lemma normalizeToLF_id t : (c_cr ∉ t) -> normalizeToLF t = t.
Proof.
  induction t as [|c t IH]; [done|]. intros [Hc Ht]%not_elem_of_cons. cbn [normalizeToLF].
  destruct (N.eqb_spec c c_cr); [congruence|]. by rewrite (IH Ht).
Qed.

Lemma normalizeToLF_no_cr t : (c_cr ∉ normalizeToLF t).
Proof.
  assert (c_cr ≠ c_lf) as Hne by done.
  induction t as [t IH] using (induction_ltof1 _ (@length N)). unfold ltof in IH.
  destruct t as [|c t]; [apply not_elem_of_nil|]. cbn [normalizeToLF].
  destruct (N.eqb_spec c c_cr) as [->|Hc];
    [destruct t as [|d t]; [|destruct (N.eqb_spec d c_lf)]|]; rewrite ?not_elem_of_cons;
    repeat split; try done; try (apply not_elem_of_nil); try (apply IH; simpl; lia); congruence.
Qed.

Lemma normalize_lfToCrlf u : (c_cr ∉ u) -> normalizeToLF (lfToCrlf u) = u.
Proof.
  induction u as [|c u IH]; [done|]. intros [Hc Hu]%not_elem_of_cons. cbn [lfToCrlf].
  destruct (N.eqb_spec c c_lf) as [->|Hlf]; cbn [normalizeToLF].
  - change (c_cr =? c_cr)%N with true. change (c_lf =? c_lf)%N with true. cbv iota. by rewrite (IH Hu).
  - destruct (N.eqb_spec c c_cr); [congruence|]. by rewrite (IH Hu).
Qed.

Lemma lfToCrlf_app s t : lfToCrlf (s ++ t) = lfToCrlf s ++ lfToCrlf t.
Proof. induction s as [|c s IH]; [done|]. simpl. destruct (c =? c_lf)%N; by rewrite ?IH. Qed.

Lemma lfToCrlf_id l : (c_lf ∉ l) -> lfToCrlf l = l.
Proof.
  induction l as [|c l IH]; [done|]. intros [Hc Hl]%not_elem_of_cons. simpl.
  destruct (N.eqb_spec c c_lf); [congruence|]. by rewrite (IH Hl).
Qed.

Lemma lfToCrlf_join ls :
  Forall (fun l => (c_cr ∉ l) /\ (c_lf ∉ l)) ls -> lfToCrlf (join [c_lf] ls) = join [c_cr; c_lf] ls.
Proof.
  induction ls as [|l ls IH]; [done|]. intros [[_ Hl] Hls]%Forall_cons.
  destruct (decide (ls = [])) as [->|Hne]; [by apply lfToCrlf_id|].
  rewrite !join_cons by done. rewrite !lfToCrlf_app, (IH Hls), (lfToCrlf_id l Hl). done.
Qed.

Lemma join_no_unit c sep ls : (c ∉ sep) -> Forall (fun l => c ∉ l) ls -> (c ∉ join sep ls).
Proof.
  intros Hsep. induction ls as [|l ls IH]; [intros _; apply not_elem_of_nil|]. intros [Hl Hls]%Forall_cons.
  destruct (decide (ls = [])) as [->|Hne]; [done|]. rewrite join_cons by done.
  rewrite !elem_of_app. intros [?|[?|?]]; [done|done|by apply IH].
Qed.

Lemma index_of_crlf_lt s n : index_of_crlf s = Some n -> exists m, index_of c_lf s = Some m.
Proof.
  revert n. induction s as [|c s IH]; intros n; [done|]. cbn [index_of_crlf index_of].
  destruct (c =? c_lf)%N eqn:Elf; [by eexists|].
  destruct ((c =? c_cr)%N && _) eqn:E.
  - intros _. destruct s as [|d s]; [by rewrite andb_false_r in E|]. apply andb_true_iff in E as [_ E].
    cbn [index_of]. rewrite E. by eexists.
  - intros (m & Hm & _)%fmap_Some. destruct (IH m Hm) as [k ->]. by eexists.
Qed.

Lemma index_of_crlf_None s : (c_cr ∉ s) -> index_of_crlf s = None.
Proof.
  induction s as [|c s IH]; [done|]. intros [Hc Hs]%not_elem_of_cons. cbn [index_of_crlf].
  destruct (N.eqb_spec c c_cr); [congruence|]. cbn [andb]. by rewrite (IH Hs).
Qed.

(** In a text of CRLF lines the first break is found one unit before its line feed. *)
Lemma index_of_app_no c l s : (c ∉ l) -> index_of c (l ++ s) = (fun n => length l + n)%nat <$> index_of c s.
Proof.
  induction l as [|d l IH]; [simpl; by destruct (index_of c s)|]. intros [Hd Hl]%not_elem_of_cons. cbn [index_of app length].
  destruct (N.eqb_spec d c); [congruence|]. rewrite (IH Hl). by destruct (index_of c s).
Qed.

Lemma index_of_crlf_app_no l s :
  (c_cr ∉ l) -> index_of_crlf (l ++ s) = (fun n => length l + n)%nat <$> index_of_crlf s.
Proof.
  induction l as [|d l IH]; [simpl; by destruct (index_of_crlf s)|]. intros [Hd Hl]%not_elem_of_cons.
  cbn [index_of_crlf app length]. destruct (N.eqb_spec d c_cr); [congruence|]. cbn [andb]. rewrite (IH Hl).
  by destruct (index_of_crlf s).
Qed.

Lemma detectLineEnding_crlf l ls :
  Forall (fun l => (c_cr ∉ l) /\ (c_lf ∉ l)) (l :: ls) -> ls ≠ [] ->
  detectLineEnding (join [c_cr; c_lf] (l :: ls)) = CRLF.
Proof.
  intros [[Hcr Hlf] _]%Forall_cons Hne. rewrite join_cons by done. unfold detectLineEnding.
  rewrite index_of_app_no, index_of_crlf_app_no by done. cbn [app index_of index_of_crlf].
  change (c_cr =? c_lf)%N with false. change (c_lf =? c_lf)%N with true. change (c_cr =? c_cr)%N with true.
  cbn [andb fmap option_fmap option_map]. by destruct (Nat.ltb_spec (length l + 0) (length l + 1)); [|lia].
Qed.

Lemma detectLineEnding_lf t : (c_cr ∉ t) -> detectLineEnding t = LF.
Proof.
  intros Ht. unfold detectLineEnding. rewrite (index_of_crlf_None t Ht). by destruct (index_of c_lf t).
Qed.

Lemma restore_normalize t :
  uniform_endings t -> restoreLineEndings (normalizeToLF t) (detectLineEnding t) = t.
Proof.
  intros [Ht|(ls & Hls & ->)].
  - rewrite detectLineEnding_lf, normalizeToLF_id by done. done.
  - assert (c_cr ∉ join [c_lf] ls) as Hn.
    { apply join_no_unit; [by rewrite list_elem_of_singleton|]. eapply Forall_impl; [exact Hls|]. by intros l [? _]. }
    rewrite <- lfToCrlf_join, normalize_lfToCrlf by done.
    destruct ls as [|l [|l' ls]]; [done| |].
    + cbn [join]. apply Forall_cons in Hls as [[Hcr Hlf] _]. rewrite lfToCrlf_id by done.
      by rewrite detectLineEnding_lf.
    + rewrite lfToCrlf_join, detectLineEnding_crlf by done. by apply lfToCrlf_join.
Qed.

Lemma stripBom_split content : bom (stripBom content) ++ bom_text (stripBom content) = content.
Proof.
  unfold stripBom. destruct (starts_with [c_bom] content) eqn:E; [|done].
  destruct content as [|c s]; [done|]. cbn [starts_with] in E. rewrite andb_true_r in E.
  apply N.eqb_eq in E as ->. done.
Qed.

Lemma starts_with_bom s : starts_with [c_bom] s = true <-> head s = Some c_bom.
Proof.
  destruct s as [|c s]; [done|]. cbn [starts_with head]. rewrite andb_true_r, N.eqb_eq.
  split; [by intros <-|]. by intros [= ->].
Qed.

Lemma head_lfToCrlf s : head (lfToCrlf s) = Some c_bom <-> head s = Some c_bom.
Proof. destruct s as [|c s]; [done|]. cbn [lfToCrlf]. destruct (N.eqb_spec c c_lf) as [->|]; done. Qed.

(** What is written for an edited text is read back as that text. *)
Lemma reread_edited content edited :
  (c_cr ∉ edited) -> (bom (stripBom content) = [] -> head edited ≠ Some c_bom) ->
  let written := bom (stripBom content) ++ restoreLineEndings edited (detectLineEnding (bom_text (stripBom content))) in
  bom (stripBom written) = bom (stripBom content) /\ normalizeToLF (bom_text (stripBom written)) = edited.
Proof.
  intros Hcr Hbom written.
  assert (forall e, normalizeToLF (restoreLineEndings edited e) = edited) as Hre.
  { intros []; cbn [restoreLineEndings]; [by apply normalize_lfToCrlf|by apply normalizeToLF_id]. }
  assert (bom (stripBom content) = [c_bom] \/ bom (stripBom content) = []) as [E|E].
  { unfold stripBom. destruct (starts_with _ _); auto. }
  - subst written. rewrite E. set (r := restoreLineEndings _ _).
    assert (stripBom ([c_bom] ++ r) = {| bom := [c_bom]; bom_text := r |}) as ->.
    { unfold stripBom. destruct (starts_with [c_bom] ([c_bom] ++ r)) eqn:Es; [done|].
      assert (starts_with [c_bom] ([c_bom] ++ r) = true) as H by by apply starts_with_bom. congruence. }
    split; [done|]. apply Hre.
  - subst written. rewrite E. cbn [app]. set (r := restoreLineEndings _ _).
    assert (stripBom r = {| bom := []; bom_text := r |}) as ->; [|split; [done|apply Hre]].
    unfold stripBom. destruct (starts_with [c_bom] r) eqn:Es; [|done]. exfalso. apply (Hbom E).
    apply starts_with_bom in Es. subst r. destruct (detectLineEnding _); [by apply head_lfToCrlf|done].
Qed.

(** Taking byte order mark and line endings off a file and putting them back is the identity on a file
    whose breaks are all of one kind, and what is written for an edited text (no carriage return, no
    byte order mark of its own) is read back as that text with the file's mark. *)
Theorem line_endings_roundtrip content edited :
  uniform_endings (bom_text (stripBom content)) -> (c_cr ∉ edited) -> head edited ≠ Some c_bom ->
  let b := stripBom content in
  let write t := bom b ++ restoreLineEndings t (detectLineEnding (bom_text b)) in
  write (normalizeToLF (bom_text b)) = content
  /\ bom (stripBom (write edited)) = bom b
  /\ normalizeToLF (bom_text (stripBom (write edited))) = edited.
Proof.
  intros Hu Hcr Hbom. cbv zeta. split; [|by apply reread_edited].
  rewrite restore_normalize by done. apply stripBom_split.
Qed.

Lemma line_endings_roundtrip_witness :
  let content := c_bom :: [97; 13; 10; 98]%N in
  let edited := [97; 10; 99; 10; 98]%N in
  bom (stripBom content) = [c_bom] /\ detectLineEnding (bom_text (stripBom content)) = CRLF
  /\ normalizeToLF (bom_text (stripBom (c_bom :: lfToCrlf edited))) = edited.
Proof.
  cbv zeta. split; [done|]. split; [done|].
  apply (line_endings_roundtrip (c_bom :: [97; 13; 10; 98]%N) [97; 10; 99; 10; 98]%N).
  - right. exists [[97]; [98]]%N. split; [|done]. repeat constructor; by rewrite list_elem_of_singleton.
  - by rewrite !not_elem_of_cons; repeat split; try apply not_elem_of_nil.
  - done.
Defined.

(** ** Moving the indentation of a replacement *)

Lemma trim_start_ws p s : Forall (fun c => is_ws c = true) p -> trim_start (p ++ s) = trim_start s.
Proof. induction 1 as [|c p Hc _ IH]; [done|]. cbn [app trim_start]. by rewrite Hc. Qed.

Lemma is_indent_ws c : is_indent c = true -> is_ws c = true.
Proof. unfold is_indent. by intros [->%N.eqb_eq| ->%N.eqb_eq]%orb_true_iff. Qed.

Lemma leading_whitespace_ws n l :
  (n <= countLeadingWhitespace l)%nat -> Forall (fun c => is_ws c = true) (take n l).
Proof.
  revert n. induction l as [|c l IH]; intros [|n] Hn; cbn [countLeadingWhitespace take] in *; try (by constructor).
  destruct (is_indent c) eqn:E; [|lia]. constructor; [by apply is_indent_ws|]. apply IH. lia.
Qed.

Lemma trim_start_drop_indent n l :
  (n <= countLeadingWhitespace l)%nat -> trim_start (drop n l) = trim_start l.
Proof.
  intros Hn. rewrite <- (take_drop n l) at 2. by rewrite trim_start_ws by by apply leading_whitespace_ws.
Qed.

Lemma trim_start_idemp s : trim_start (trim_start s) = trim_start s.
Proof.
  induction s as [|c s IH]; [done|]. cbn [trim_start]. destruct (is_ws c) eqn:E; [done|]. cbn [trim_start].
  by rewrite E.
Qed.

Lemma elem_of_trim_start c s : c ∈ trim_start s -> c ∈ s.
Proof.
  induction s as [|d s IH]; [done|]. cbn [trim_start]. destruct (is_ws d); [|done].
  intros H. by apply list_elem_of_further, IH.
Qed.

Lemma tabsToSpaces_keeps n l :
  trim_start (tabsToSpaces n l) = trim_start l /\ ((c_lf ∉ l) -> (c_lf ∉ tabsToSpaces n l)).
Proof.
  unfold tabsToSpaces. cbv zeta. destruct (length (trim_start l) =? 0)%nat; [done|].
  destruct (_ || _); [done|]. split.
  - rewrite trim_start_ws by by apply Forall_replicate. apply trim_start_idemp.
  - intros Hl [[[=] _]%elem_of_replicate|H]%elem_of_app. by apply Hl, elem_of_trim_start.
Qed.

Lemma indentLine_keeps delta c l :
  is_indent c = true ->
  trim_start (indentLine delta c l) = trim_start l /\ ((c_lf ∉ l) -> (c_lf ∉ indentLine delta c l)).
Proof.
  intros Hc. unfold indentLine. destruct (negb (isNonEmptyLine l)); [done|]. destruct (0 <? delta).
  - split; [by rewrite trim_start_ws by by apply Forall_replicate, is_indent_ws|].
    intros Hl [[<- _]%elem_of_replicate|H]%elem_of_app; [done|by apply Hl].
  - split; [apply trim_start_drop_indent; lia|]. intros Hl H. apply Hl.
    eapply subseteq_drop. exact H.
Qed.

(** The same lines up to the white space they begin with. *)
Definition same_but_indentation (s t : jstring) : Prop :=
  Forall2 (fun a b => trim_start a = trim_start b) (split_on c_lf s) (split_on c_lf t).

Lemma mapLines_keeps f t :
  (forall l, trim_start (f l) = trim_start l /\ ((c_lf ∉ l) -> (c_lf ∉ f l))) ->
  same_but_indentation (mapLines f t) t.
Proof.
  intros Hf. unfold same_but_indentation, mapLines. rewrite split_on_join.
  - apply Forall2_fmap_l, Forall_Forall2_diag, Forall_true. intros l. apply Hf.
  - intros E%fmap_nil_inv. by apply (split_on_nonempty c_lf t).
  - apply Forall_fmap. eapply Forall_impl; [apply split_on_pieces|]. intros l Hl. by apply Hf.
Qed.

Lemma getLeadingWhitespace_indent l c rest : getLeadingWhitespace l = c :: rest -> is_indent c = true.
Proof.
  unfold getLeadingWhitespace. destruct l as [|d l]; [done|]. cbn [countLeadingWhitespace].
  destruct (is_indent d) eqn:E; [|done]. by intros [= -> _].
Qed.

Lemma profile_char_indent lines p c :
  (forall d, ip_char p = Some d -> is_indent d = true) ->
  ip_char (foldl profileLine p lines) = Some c -> is_indent c = true.
Proof.
  revert p. induction lines as [|l lines IH]; intros p Hp; [apply Hp|]. apply IH. intros d.
  unfold profileLine. destruct (negb (isNonEmptyLine l)); [apply Hp|].
  destruct (getLeadingWhitespace l) as [|e r] eqn:E; [apply Hp|].
  destruct (ip_char p) as [f|] eqn:Ef; cbn [ip_char]; intros [= <-]; [by apply Hp|].
  by eapply getLeadingWhitespace_indent.
Qed.

Lemma buildIndentProfile_char t c : ip_char (buildIndentProfile t) = Some c -> is_indent c = true.
Proof. apply profile_char_indent. by intros. Qed.

Lemma detectIndentChar_indent t : is_indent (detectIndentChar t) = true.
Proof.
  unfold detectIndentChar. induction (split_on c_lf t) as [|l ls IH]; [done|]. cbn [firstIndentUnit].
  destruct (getLeadingWhitespace l) eqn:E; [done|]. by eapply getLeadingWhitespace_indent.
Qed.

(** Whatever the three texts are, [adjustIndentation] gives back the new text with the same number of
    lines, and no line of it changes in anything but the white space it begins with. *)
Theorem adjust_changes_indentation_only oldText actualText newText :
  same_but_indentation (adjustIndentation oldText actualText newText) newText.
Proof.
  assert (same_but_indentation newText newText) as Hid
    by (unfold same_but_indentation; by apply Forall_Forall2_diag, Forall_true).
  unfold adjustIndentation. repeat case_match; try exact Hid;
    try (apply mapLines_keeps; intros l; apply indentLine_keeps;
         eauto using buildIndentProfile_char, detectIndentChar_indent).
  match goal with H : maybeConvertTabIndentation _ _ _ _ = _ |- _ => revert H end.
  unfold maybeConvertTabIndentation, convertLeadingTabsToSpaces. repeat case_match; intros [= <-]; try exact Hid.
  apply mapLines_keeps. apply tabsToSpaces_keeps.
Qed.

(** *** A uniform shift is followed *)

(** Every line that is not blank is indented with [c] only. *)
Definition indented_with (c : N) (lines : list jstring) : Prop :=
  Forall (fun l => isNonEmptyLine l = true -> Forall (eq c) (getLeadingWhitespace l)) lines.

Definition char_within (c : N) (o : option N) : Prop := o = None \/ o = Some c.

Lemma leading_one_char c d rest l :
  getLeadingWhitespace l = d :: rest -> d = c ->
  bool_decide (c_space ∈ d :: rest) && bool_decide (c_tab ∈ d :: rest) = false -> Forall (eq c) (d :: rest).
Proof.
  intros E -> Hmix. apply Forall_forall. intros x Hx.
  assert (forall y, y ∈ c :: rest -> y = c_space \/ y = c_tab) as Hy.
  { rewrite <- E. clear. unfold getLeadingWhitespace. induction l as [|e l IH]; intros y; [by intros ?%not_elem_of_nil|].
    cbn [countLeadingWhitespace]. destruct (is_indent e) eqn:Ee; [|by intros ?%not_elem_of_nil].
    cbn [take]. intros [->|Hy]%elem_of_cons; [|by apply IH].
    by apply orb_true_iff in Ee as [->%N.eqb_eq| ->%N.eqb_eq]; auto. }
  assert (c ∈ c :: rest) as Hc by by left.
  apply andb_false_iff in Hmix as [H%bool_decide_eq_false|H%bool_decide_eq_false];
    destruct (Hy x Hx), (Hy c Hc); congruence.
Qed.

Lemma profile_indented c lines p :
  mixed (foldl profileLine p lines) = false -> char_within c (ip_char (foldl profileLine p lines)) ->
  mixed p = false /\ char_within c (ip_char p) /\ indented_with c lines.
Proof.
  revert p. induction lines as [|l lines IH]; intros p; [cbn; intros; split_and!; [done|done|apply Forall_nil_2]|].
  cbn [foldl]. intros Hm Hc. destruct (IH _ Hm Hc) as (Hm' & Hc' & Hls). clear IH Hm Hc. revert Hm' Hc'.
  unfold profileLine. destruct (isNonEmptyLine l) eqn:El; cbn [negb];
    [|intros; repeat split; try done; by constructor; [rewrite El|]].
  destruct (getLeadingWhitespace l) as [|d rest] eqn:Eg.
  { cbn [mixed ip_char]. rewrite orb_false_r. intros; repeat split; try done. by constructor; [rewrite Eg|]. }
  destruct (ip_char p) as [e|] eqn:Ee; cbn [mixed ip_char].
  - intros [[Hm Hst]%orb_false_iff Hed%negb_false_iff]%orb_false_iff [[=]|[= ->]].
    apply N.eqb_eq in Hed as <-. repeat split; [done|by right|]. constructor; [|done]. intros _. rewrite Eg.
    by eapply leading_one_char.
  - intros [Hm Hst]%orb_false_iff [[=]|[= ->]]. repeat split; [done|by left|]. constructor; [|done].
    intros _. rewrite Eg. by eapply leading_one_char.
Qed.

Lemma one_char_not_mixed c s : is_indent c = true -> Forall (eq c) s ->
  bool_decide (c_space ∈ s) && bool_decide (c_tab ∈ s) = false.
Proof.
  intros Hc Hs. apply andb_false_iff. rewrite !bool_decide_eq_false. rewrite Forall_forall in Hs.
  destruct (decide (c = c_space)) as [->|Hne]; [right|left]; intros H%Hs; [done|congruence].
Qed.

Lemma profile_of_indented c lines p :
  is_indent c = true -> indented_with c lines -> mixed p = false -> char_within c (ip_char p) ->
  let q := foldl profileLine p lines in
  mixed q = false /\ char_within c (ip_char q)
  /\ (ip_char p = Some c -> ip_char q = Some c)
  /\ nonEmptyCount q = (nonEmptyCount p + length (List.filter isNonEmptyLine lines))%nat
  /\ (Exists (fun l => isNonEmptyLine l = true /\ getLeadingWhitespace l ≠ []) lines -> ip_char q = Some c).
Proof.
  intros Hi. revert p. induction lines as [|l lines IH]; intros p Hls Hm Hc; cbn [foldl].
  { split_and!; [done|done|done|cbn; lia|by intros H%Exists_nil]. }
  apply Forall_cons in Hls as [Hl Hls].
  assert (mixed (profileLine p l) = false /\ char_within c (ip_char (profileLine p l))
    /\ (ip_char p = Some c -> ip_char (profileLine p l) = Some c)
    /\ nonEmptyCount (profileLine p l) = (nonEmptyCount p + if isNonEmptyLine l then 1 else 0)%nat
    /\ (isNonEmptyLine l = true -> getLeadingWhitespace l ≠ [] -> ip_char (profileLine p l) = Some c))
    as (H1 & H2 & H3 & H4 & H5).
  { unfold profileLine. destruct (isNonEmptyLine l) eqn:El; cbn [negb]; [|repeat split; try done; lia].
    specialize (Hl eq_refl). pose proof (one_char_not_mixed c _ Hi Hl) as Hst.
    destruct (getLeadingWhitespace l) as [|d rest] eqn:Eg;
      [cbn [mixed ip_char nonEmptyCount]; rewrite Hm; repeat split; try done; lia|].
    apply Forall_cons in Hl as [<- _]. rewrite Hst, Hm.
    destruct Hc as [Hc|Hc]; rewrite Hc; cbn [mixed ip_char nonEmptyCount]; rewrite ?N.eqb_refl;
      repeat split; try done; try lia; by right. }
  destruct (IH _ Hls H1 H2) as (G1 & G2 & G3 & G4 & G5). repeat split; try done.
  - auto.
  - rewrite G4, H4. cbn [List.filter]. destruct (isNonEmptyLine l); cbn [length]; lia.
  - intros [[? ?]|H]%Exists_cons; auto.
Qed.

Lemma buildIndentProfile_fold t :
  let q := foldl profileLine
    {| ip_lines := split_on c_lf t; indentCounts := []; ip_char := None; spaceOnly := true; tabOnly := true;
       mixed := false; unit_ := 0; nonEmptyCount := 0 |} (split_on c_lf t) in
  mixed (buildIndentProfile t) = mixed q /\ ip_char (buildIndentProfile t) = ip_char q
  /\ nonEmptyCount (buildIndentProfile t) = nonEmptyCount q.
Proof. done. Qed.

Lemma profileLine_lines ls p : ip_lines (foldl profileLine p ls) = ip_lines p.
Proof.
  revert p. induction ls as [|l ls IH]; intros p; [done|]. cbn [foldl]. rewrite IH. unfold profileLine.
  by repeat case_match.
Qed.

Lemma buildIndentProfile_lines t : ip_lines (buildIndentProfile t) = split_on c_lf t.
Proof. unfold buildIndentProfile. cbn [ip_lines]. by rewrite profileLine_lines. Qed.

Lemma trim_end_nil s : trim_end s = [] <-> Forall (fun c => is_ws c = true) s.
Proof.
  split; [|apply trim_end_ws]. induction s as [|c s IH]; [constructor|]. cbn [trim_end].
  destruct (trim_end s); [|done]. destruct (is_ws c) eqn:E; [|done]. intros _. constructor; auto.
Qed.

Lemma isNonEmptyLine_prefix k c l :
  is_indent c = true -> isNonEmptyLine (replicate k c ++ l) = isNonEmptyLine l.
Proof.
  intros Hc. unfold isNonEmptyLine, trim. by rewrite trim_start_ws by by apply Forall_replicate, is_indent_ws.
Qed.

Lemma leading_prefix k c l :
  is_indent c = true -> countLeadingWhitespace (replicate k c ++ l) = (k + countLeadingWhitespace l)%nat.
Proof. intros Hc. induction k as [|k IH]; [done|]. cbn [replicate app countLeadingWhitespace]. by rewrite Hc, IH. Qed.

Lemma getLeading_prefix k c l :
  is_indent c = true -> getLeadingWhitespace (replicate k c ++ l) = replicate k c ++ getLeadingWhitespace l.
Proof.
  intros Hc. unfold getLeadingWhitespace. rewrite leading_prefix by done.
  rewrite take_app, length_replicate, take_ge by (rewrite length_replicate; lia). do 2 f_equal. lia.
Qed.

Lemma indentLine_pos delta c l : 0 < delta -> isNonEmptyLine l = true ->
  indentLine delta c l = replicate (Z.to_nat delta) c ++ l.
Proof. intros Hd Hl. unfold indentLine. rewrite Hl. cbn [negb]. by destruct (Z.ltb_spec 0 delta); [|lia]. Qed.

Lemma indentLine_blank delta c l : isNonEmptyLine l = false -> indentLine delta c l = l.
Proof. intros Hl. unfold indentLine. by rewrite Hl. Qed.

Lemma indentLine_nonempty delta c l : 0 < delta -> is_indent c = true ->
  isNonEmptyLine (indentLine delta c l) = isNonEmptyLine l.
Proof.
  intros Hd Hc. destruct (isNonEmptyLine l) eqn:El; [|by rewrite indentLine_blank].
  by rewrite indentLine_pos, isNonEmptyLine_prefix.
Qed.

Lemma split_applyIndentDelta t delta c :
  is_indent c = true -> split_on c_lf (applyIndentDelta t delta c) = indentLine delta c <$> split_on c_lf t.
Proof.
  intros Hc. apply split_on_join.
  - intros E%fmap_nil_inv. by apply (split_on_nonempty c_lf t).
  - apply Forall_fmap. eapply Forall_impl; [apply split_on_pieces|]. intros l Hl. by apply indentLine_keeps.
Qed.

Lemma shifted_deltas delta c (ls : list jstring) :
  0 < delta -> is_indent c = true ->
  omap (fun '(oldLine, actualLine) =>
    if negb (isNonEmptyLine oldLine) || negb (isNonEmptyLine actualLine) then None
    else Some (Z.of_nat (countLeadingWhitespace actualLine) - Z.of_nat (countLeadingWhitespace oldLine)))
    (zip ls (indentLine delta c <$> ls))
  = replicate (length (List.filter isNonEmptyLine ls)) delta.
Proof.
  intros Hd Hc. induction ls as [|l ls IH]; [done|]. cbn [fmap list_fmap zip zip_with omap list_omap List.filter].
  rewrite indentLine_nonempty by done. destruct (isNonEmptyLine l) eqn:El; cbn [negb orb].
  - rewrite indentLine_pos, leading_prefix by done. cbn [length replicate].
    assert (forall x : nat, Z.of_nat (Z.to_nat delta + x) - Z.of_nat x = delta) as -> by lia. f_equal. apply IH.
  - apply IH.
Qed.

(** A text the profile of which is one indentation unit [c] or none at all, with a line that is not blank. *)
Definition indents_by (c : N) (t : jstring) : Prop :=
  mixed (buildIndentProfile t) = false /\ char_within c (ip_char (buildIndentProfile t))
  /\ (0 < nonEmptyCount (buildIndentProfile t))%nat.

Lemma indents_by_lines c t :
  is_indent c = true -> indents_by c t ->
  indented_with c (split_on c_lf t) /\ Exists (fun l => isNonEmptyLine l = true) (split_on c_lf t)
  /\ (0 < length (List.filter isNonEmptyLine (split_on c_lf t)))%nat.
Proof.
  intros Hi (Hm & Hc & Hn). destruct (buildIndentProfile_fold t) as (Em & Ec & En). rewrite Em in Hm.
  rewrite Ec in Hc. destruct (profile_indented _ _ _ Hm Hc) as (_ & _ & Hls). split; [done|].
  rewrite En in Hn.
  edestruct (profile_of_indented c (split_on c_lf t)) as (_ & _ & _ & Hcount & _);
    [done|exact Hls| | |rewrite Hcount in Hn]; [done|by left|]. cbn [nonEmptyCount] in Hn. split; [|lia].
  apply Exists_exists. destruct (List.filter isNonEmptyLine (split_on c_lf t)) as [|l ls] eqn:E; [cbn in Hn; lia|].
  assert (List.In l (List.filter isNonEmptyLine (split_on c_lf t))) as [Hl1 Hl2]%List.filter_In by (rewrite E; by left).
  exists l. split; [by apply list_elem_of_In|done].
Qed.

Lemma shifted_indents_by c t delta :
  0 < delta -> is_indent c = true -> indents_by c t ->
  indents_by c (applyIndentDelta t delta c) /\ ip_char (buildIndentProfile (applyIndentDelta t delta c)) = Some c.
Proof.
  intros Hd Hi Ht. destruct (indents_by_lines c t Hi Ht) as (Hls & Hex & Hn). unfold indents_by.
  destruct (buildIndentProfile_fold (applyIndentDelta t delta c)) as (Em & Ec & En). rewrite Em, Ec, En.
  rewrite split_applyIndentDelta by done.
  set (p0 := {| ip_lines := _; indentCounts := _ |}). set (ls := indentLine delta c <$> split_on c_lf t).
  assert (indented_with c ls) as Hind.
  { apply Forall_fmap. eapply Forall_impl; [exact Hls|]. cbn beta. unfold compose. intros l Hl Hne.
    rewrite indentLine_nonempty in Hne by done. rewrite indentLine_pos, getLeading_prefix by done.
    apply Forall_app. split; [by apply Forall_replicate|auto]. }
  assert (Exists (fun l => isNonEmptyLine l = true /\ getLeadingWhitespace l ≠ []) ls) as Hex'.
  { apply Exists_fmap. eapply Exists_impl; [exact Hex|]. cbn beta. intros l Hl. unfold compose.
    rewrite indentLine_nonempty by done. split; [done|]. rewrite indentLine_pos, getLeading_prefix by done.
    destruct (Z.to_nat delta) eqn:E; [lia|done]. }
  destruct (profile_of_indented c ls p0 Hi Hind eq_refl (or_introl eq_refl)) as (G1 & G2 & _ & G4 & G5).
  split_and!; [done|done| |by apply G5]. rewrite G4. apply Exists_exists in Hex' as (l & Hl & Hne & _).
  assert (List.In l (List.filter isNonEmptyLine ls)) as H by (apply List.filter_In; by rewrite <- list_elem_of_In).
  destruct (List.filter isNonEmptyLine ls); [done|cbn; lia].
Qed.

(** When the matched text is the quoted text moved right by [delta] units, the replacement is moved right
    by the same [delta] units: every line that is not blank gets them, blank lines stay. *)
Theorem adjust_follows_a_shift c delta oldText newText :
  is_indent c = true -> 0 < delta -> indents_by c oldText -> indents_by c newText ->
  isIndentationOnlyRewrite oldText newText = false ->
  adjustIndentation oldText (applyIndentDelta oldText delta c) newText = applyIndentDelta newText delta c.
Proof.
  intros Hi Hd Hold Hnew Hrw. destruct (shifted_indents_by c oldText delta Hd Hi Hold) as [(Am & _ & An) Ac].
  pose proof (indents_by_lines c oldText Hi Hold) as (_ & _ & Hn).
  pose proof (split_applyIndentDelta oldText delta c Hi) as Hsplit.
  pose proof (shifted_deltas delta c (split_on c_lf oldText) Hd Hi) as Hdeltas.
  set (actualText := applyIndentDelta oldText delta c) in *.
  destruct Hold as (Om & Oc & On), Hnew as (Nm & Nc & Nn). unfold adjustIndentation. rewrite Hrw.
  assert (computeUniformIndentDelta (buildIndentProfile oldText) (buildIndentProfile actualText) = Some delta) as ->.
  { unfold computeUniformIndentDelta. rewrite !buildIndentProfile_lines, Hsplit, Hdeltas.
    destruct (length _) as [|n]; [lia|]. cbn [replicate]. clear. induction n as [|n IH]; [done|].
    cbn [replicate forallb]. by rewrite Z.eqb_refl. }
  rewrite bool_decide_eq_false_2.
  - cbn [forallb existsb]. rewrite Om, Am, Nm, Ac. do 3 rewrite (proj2 (Nat.ltb_lt _ _)) by done. cbn [andb negb orb].
    assert (forall o, char_within c o -> chars_differ o (Some c) = false) as Hch
      by (intros o [->| ->]; cbn [chars_differ]; by rewrite ?N.eqb_refl).
    rewrite (Hch _ Oc), (Hch _ Nc). by destruct (Z.eqb_spec delta 0); [lia|].
  - intros E. rewrite <- E in Hsplit. clear -Hsplit Hn Hd Hi. induction (split_on c_lf oldText) as [|l ls IH]; [cbn in Hn; lia|].
    cbn [fmap list_fmap] in Hsplit. injection Hsplit as Hl Hls. cbn [List.filter] in Hn.
    destruct (isNonEmptyLine l) eqn:El; [|by apply IH].
    rewrite indentLine_pos in Hl by done. apply (f_equal length) in Hl. rewrite length_app, length_replicate in Hl. lia.
Qed.

Lemma adjust_follows_a_shift_witness :
  adjustIndentation (js "if") (js "    if") (js "while") = js "    while".
Proof.
  apply (adjust_follows_a_shift c_space 4 (js "if") (js "while")); try reflexivity;
    (split; [vm_compute; reflexivity|split; [left; vm_compute; reflexivity|vm_compute; lia]]).
Defined.

(** The classes of [normalizeForFuzzy] have the straight quotes where the curly ones were meant: “ and ” stay, so a
    quoted text with straight quotes does not match the file's curly ones. *)
Lemma curly_quotes_are_not_normalised :
  normalizeForFuzzy [8220; 97; 8221]%N = [8220; 97; 8221]%N
  /\ normalizeForFuzzy [34; 97; 34]%N = [34; 97; 34]%N
  /\ normalizeForFuzzy [8222; 97; 8223]%N = [34; 97; 34]%N
  /\ normalizeForFuzzy [8216; 97; 8217]%N = [8216; 97; 8217]%N.
Proof. by vm_compute. Qed.

(** The loop of [gcd] ends by itself with the greatest common divisor. *)
Lemma gcdLoop_gcd fuel x y : (y < fuel)%nat -> gcdLoop fuel x y = Nat.gcd x y.
Proof.
  revert x y. induction fuel as [|fuel IH]; intros x y Hy; [lia|]. cbn [gcdLoop].
  destruct (Nat.eqb_spec y 0) as [->|Hne]; [by rewrite Nat.gcd_0_r|].
  pose proof (Nat.mod_upper_bound x y Hne). rewrite IH by lia. rewrite Nat.gcd_comm, Nat.Lcm0.gcd_mod, Nat.gcd_comm by done. done.
Qed.

(** The indentation unit divides every width it is computed from. *)
Lemma gcdOfCounts_divides counts n : n ∈ counts -> Nat.divide (gcdOfCounts counts) n.
Proof.
  unfold gcdOfCounts.
  assert (forall acc, Nat.divide (foldl (fun current count =>
      if (count =? 0)%nat then current else if (current =? 0)%nat then count else gcd current count) acc counts) acc /\
    (n ∈ counts -> Nat.divide (foldl (fun current count =>
      if (count =? 0)%nat then current else if (current =? 0)%nat then count else gcd current count) acc counts) n)) as H; [|by intros; apply H].
  induction counts as [|m counts IH]; intros acc; [split; [done|by intros ?%not_elem_of_nil]|]. cbn [foldl].
  destruct (Nat.eqb_spec m 0) as [->|Hm].
  - destruct (IH acc) as [H1 H2]. split; [done|]. intros [->|?]%elem_of_cons; [apply Nat.divide_0_r|auto].
  - destruct (Nat.eqb_spec acc 0) as [->|Hacc].
    + destruct (IH m) as [H1 H2]. split; [apply Nat.divide_0_r|]. intros [->|?]%elem_of_cons; auto.
    + destruct (IH (gcd acc m)) as [H1 H2].
      assert (gcd acc m = Nat.gcd acc m) as Hg by (apply gcdLoop_gcd; lia). split.
      * etransitivity; [exact H1|rewrite Hg; apply Nat.gcd_divide_l].
      * intros [->|?]%elem_of_cons; [|auto]. etransitivity; [exact H1|rewrite Hg; apply Nat.gcd_divide_r].
Qed.
