(* ===== verification/EditFuzzy.v ===== *)
(** * Fuzzy matching of lines (edit/modes/replace.ts)

    The edit distance, the similarity of lines, the search for a context line by ever weaker criteria and the closest
    place of a sequence of lines.  Scores are exact rationals.  The NFC normal form of a text is a
    parameter. *)
From S2P Require Import Prelude JsString JsNumber EditNormalize.
From Stdlib Require Import ZifyBool ZifyN.
Open Scope Z_scope.

(** ** Edit distance *)

(** [arr[i]] on an array of numbers and [arr[i] = v]; the loops stay inside the arrays. *)
Definition num_at (arr : list Z) (i : Z) : Z := default 0 (arr_at arr i).
Definition num_set (arr : list Z) (i v : Z) : list Z := <[Z.to_nat i := v]> arr.

(** The body of the inner loop at column [j]: [curr[j] = Math.min(deletion, insertion, substitution)]. *)
Definition levenshteinCell (aCode : option N) (b : jstring) (prev curr : list Z) (j : Z) : list Z :=
  let cost := if bool_decide (aCode = arr_at b (j - 1)) then 0 else 1 in
  let deletion := num_at prev j + 1 in
  let insertion := num_at curr (j - 1) + 1 in
  let substitution := num_at prev (j - 1) + cost in
  num_set curr j (Z.min deletion (Z.min insertion substitution)).

(** One round of the outer loop: the row of [a]'s unit [i - 1], then the swap of the two arrays. *)
Definition levenshteinRow (a b : jstring) (rows : list Z * list Z) (i : Z) : list Z * list Z :=
  let '(prev, curr) := rows in
  let curr := num_set curr 0 i in
  let curr := foldl (levenshteinCell (arr_at a (i - 1)) b prev) curr (zrange 1 (zlength b)) in
  (curr, prev).

(** [levenshteinDistance]; the second array starts with holes, which are written before they are read. *)
Definition levenshteinDistance (a b : jstring) : Z :=
  if bool_decide (a = b) then 0
  else
    let aLen := zlength a in
    let bLen := zlength b in
    if aLen =? 0 then bLen
    else if bLen =? 0 then aLen
    else
      let prev := zrange 0 bLen in
      let curr := replicate (Z.to_nat (bLen + 1)) 0 in
      let '(prev, _) := foldl (levenshteinRow a b) (prev, curr) (zrange 1 aLen) in
      num_at prev bLen.

(** [similarity]: 0 to 1. *)
Definition similarity (a b : jstring) : Q :=
  if (zlength a =? 0) && (zlength b =? 0) then 1
  else
    let maxLen := Z.max (zlength a) (zlength b) in
    if maxLen =? 0 then 1
    else (1 - inject_Z (levenshteinDistance a b) / inject_Z maxLen)%Q.

(** ** The reference: the least number of edits *)

Inductive script : jstring -> jstring -> Z -> Prop :=
| sc_nil : script [] [] 0
| sc_keep x a b n : script a b n -> script (x :: a) (x :: b) n
| sc_replace x y a b n : script a b n -> script (x :: a) (y :: b) (n + 1)
| sc_delete x a b n : script a b n -> script (x :: a) b (n + 1)
| sc_insert y a b n : script a b n -> script a (y :: b) (n + 1).

(** The recursive distance. *)
Fixpoint lev (a : jstring) : jstring -> Z :=
  fix go (b : jstring) : Z :=
    match a, b with
    | [], _ => zlength b
    | _, [] => zlength a
    | x :: a', y :: b' => Z.min (lev a' b + 1) (Z.min (go b' + 1) (lev a' b' + if bool_decide (x = y) then 0 else 1))
    end.

Lemma lev_nil_l b : lev [] b = zlength b.
Proof. by destruct b. Qed.
Lemma lev_nil_r a : lev a [] = zlength a.
Proof. by destruct a. Qed.
Lemma lev_cons x a y b :
  lev (x :: a) (y :: b) = Z.min (lev a (y :: b) + 1) (Z.min (lev (x :: a) b + 1) (lev a b + if bool_decide (x = y) then 0 else 1)).
Proof. done. Qed.

Lemma zlength_cons {A} (x : A) l : zlength (x :: l) = zlength l + 1.
Proof. unfold zlength. simpl. lia. Qed.

Lemma script_inserts b : script [] b (zlength b).
Proof. induction b as [|y b IH]; [constructor|]. rewrite zlength_cons. by constructor. Qed.

Lemma script_deletes a : script a [] (zlength a).
Proof. induction a as [|x a IH]; [constructor|]. rewrite zlength_cons. by constructor. Qed.

Lemma lev_script a b : script a b (lev a b).
Proof.
  revert b. induction a as [|x a IHa]; intros b; [rewrite lev_nil_l; apply script_inserts|].
  induction b as [|y b IHb]; [rewrite lev_nil_r; apply script_deletes|]. rewrite lev_cons.
  destruct (Z.min_spec (lev a (y :: b) + 1) (Z.min (lev (x :: a) b + 1) (lev a b + if bool_decide (x = y) then 0 else 1))) as [[_ ->]|[_ ->]].
  - apply sc_delete, IHa.
  - destruct (Z.min_spec (lev (x :: a) b + 1) (lev a b + if bool_decide (x = y) then 0 else 1)) as [[_ ->]|[_ ->]].
    + by apply sc_insert.
    + case_bool_decide; [subst; rewrite Z.add_0_r; apply sc_keep, IHa|apply sc_replace, IHa].
Qed.

Lemma lev_delete x a b : lev (x :: a) b <= lev a b + 1.
Proof. destruct b as [|y b]; [rewrite !lev_nil_r, zlength_cons; lia|]. rewrite lev_cons. lia. Qed.

Lemma lev_insert y a b : lev a (y :: b) <= lev a b + 1.
Proof. destruct a as [|x a]; [rewrite !lev_nil_l, zlength_cons; lia|]. rewrite lev_cons. lia. Qed.

Lemma lev_least a b n : script a b n -> lev a b <= n.
Proof.
  induction 1 as [|x a b n H IH|x y a b n H IH|x a b n H IH|y a b n H IH].
  - rewrite lev_nil_l. unfold zlength. simpl. lia.
  - rewrite lev_cons, bool_decide_true by done. lia.
  - rewrite lev_cons. case_bool_decide; lia.
  - pose proof (lev_delete x a b). lia.
  - pose proof (lev_insert y a b). lia.
Qed.

Lemma script_app a b n c d m : script a b n -> script c d m -> script (a ++ c) (b ++ d) (n + m).
Proof.
  intros H1 H2. induction H1 as [|x a b n H IH|x y a b n H IH|x a b n H IH|y a b n H IH]; simpl; [done| | | |].
  - by apply sc_keep.
  - replace (n + 1 + m) with (n + m + 1) by lia. by apply sc_replace.
  - replace (n + 1 + m) with (n + m + 1) by lia. by apply sc_delete.
  - replace (n + 1 + m) with (n + m + 1) by lia. by apply sc_insert.
Qed.

Lemma script_reverse a b n : script a b n -> script (reverse a) (reverse b) n.
Proof.
  induction 1 as [|x a b n H IH|x y a b n H IH|x a b n H IH|y a b n H IH]; rewrite ?reverse_cons; [constructor| | | |].
  - rewrite <- (Z.add_0_r n). apply script_app; [done|]. repeat constructor.
  - apply script_app; [done|]. apply (sc_replace x y [] [] 0). constructor.
  - rewrite <- (app_nil_r (reverse b)). apply script_app; [done|]. apply (sc_delete x [] [] 0). constructor.
  - rewrite <- (app_nil_r (reverse a)). apply script_app; [done|]. apply (sc_insert y [] [] 0). constructor.
Qed.

Lemma lev_reverse a b : lev (reverse a) (reverse b) = lev a b.
Proof.
  apply Z.le_antisymm.
  - apply lev_least, script_reverse, lev_script.
  - rewrite <- (reverse_involutive a), <- (reverse_involutive b) at 1. apply lev_least, script_reverse, lev_script.
Qed.

(** ** The two-row loop computes it *)

(** The distance of prefixes. *)
Definition dist (a b : jstring) (i j : nat) : Z := lev (reverse (take i a)) (reverse (take j b)).

Lemma take_snoc (a : jstring) i x : a !! i = Some x -> reverse (take (S i) a) = x :: reverse (take i a).
Proof. intros H. by rewrite (take_S_r _ _ _ H), reverse_snoc. Qed.

Lemma dist_0_r a b i : (i <= length a)%nat -> dist a b i 0 = Z.of_nat i.
Proof. intros Hi. unfold dist. rewrite take_0, lev_nil_r. unfold zlength. rewrite length_reverse, length_take. lia. Qed.

Lemma dist_0_l a b j : (j <= length b)%nat -> dist a b 0 j = Z.of_nat j.
Proof. intros Hj. unfold dist. rewrite take_0. change (reverse []) with (@nil N). rewrite lev_nil_l. unfold zlength. rewrite length_reverse, length_take. lia. Qed.

Lemma dist_S a b i j x y :
  a !! i = Some x -> b !! j = Some y ->
  dist a b (S i) (S j) = Z.min (dist a b i (S j) + 1) (Z.min (dist a b (S i) j + 1) (dist a b i j + if bool_decide (x = y) then 0 else 1)).
Proof. intros Hx Hy. unfold dist. rewrite (take_snoc a i x Hx), (take_snoc b j y Hy). apply lev_cons. Qed.

(** The first [m + 1] entries of a row. *)
Definition row_ok (a b : jstring) (i m : nat) (row : list Z) : Prop :=
  length row = S (length b) /\ forall j, (j <= m)%nat -> row !! j = Some (dist a b i j).

Lemma num_at_lookup row (j : nat) v : row !! j = Some v -> num_at row (Z.of_nat j) = v.
Proof. intros H. unfold num_at. assert (arr_at row (Z.of_nat j) = Some v) as ->; [|done]. apply arr_at_Some. rewrite Nat2Z.id. split; [lia|done]. Qed.

Lemma arr_at_nat {A} (l : list A) (j : nat) : arr_at l (Z.of_nat j) = l !! j.
Proof. unfold arr_at. destruct (Z.ltb_spec (Z.of_nat j) 0); [lia|]. by rewrite Nat2Z.id. Qed.

Lemma cell_ok a b i m x prev curr :
  a !! i = Some x -> (m < length b)%nat -> row_ok a b i (length b) prev -> row_ok a b (S i) m curr ->
  row_ok a b (S i) (S m) (levenshteinCell (Some x) b prev curr (1 + Z.of_nat m)).
Proof.
  intros Hx Hm [Hl Hp] [Hl' Hc]. unfold levenshteinCell, num_set.
  destruct (lookup_lt_is_Some_2 b m Hm) as [y Hy]. replace (1 + Z.of_nat m - 1) with (Z.of_nat m) by lia.
  replace (1 + Z.of_nat m) with (Z.of_nat (S m)) by lia.
  rewrite arr_at_nat, Hy, !(num_at_lookup prev _ (dist a b i _)) by (apply Hp; lia).
  rewrite (num_at_lookup curr m (dist a b (S i) m)) by (apply Hc; lia). rewrite Nat2Z.id.
  replace (bool_decide (Some x = Some y)) with (bool_decide (x = y)) by (apply bool_decide_ext; split; congruence).
  split; [by rewrite length_insert|]. intros j Hj. destruct (decide (j = S m)) as [->|Hne].
  - rewrite list_lookup_insert_eq by lia. f_equal. symmetry. by apply dist_S.
  - rewrite list_lookup_insert_ne by done. apply Hc. lia.
Qed.

Lemma row_loop a b i x prev curr :
  a !! i = Some x -> row_ok a b i (length b) prev -> length curr = S (length b) ->
  row_ok a b (S i) (length b)
    (foldl (levenshteinCell (Some x) b prev) (num_set curr 0 (Z.of_nat (S i))) (zrange 1 (zlength b))).
Proof.
  intros Hx Hp Hl. unfold zrange, zlength. replace (Z.to_nat (Z.of_nat (length b) - 1 + 1)) with (length b) by lia.
  assert (forall m, (m <= length b)%nat ->
    row_ok a b (S i) m (foldl (levenshteinCell (Some x) b prev) (num_set curr 0 (Z.of_nat (S i))) (zseq 1 m))) as H; [|by apply H].
  induction m as [|m IH]; intros Hm.
  - change (zseq 1 0) with (@nil Z). cbn [foldl]. split; [unfold num_set; by rewrite length_insert|]. intros j Hj. replace j with 0%nat by lia. unfold num_set.
    rewrite list_lookup_insert_eq by (simpl; lia). rewrite dist_0_r; [done|]. apply lookup_lt_Some in Hx. lia.
  - rewrite zseq_snoc, foldl_app. cbn [foldl]. apply cell_ok; [done|lia|done|]. apply IH. lia.
Qed.

Lemma table_loop a b n :
  (n <= length a)%nat ->
  let '(prev, curr) := foldl (levenshteinRow a b) (zrange 0 (zlength b), replicate (Z.to_nat (zlength b + 1)) 0) (zseq 1 n) in
  row_ok a b n (length b) prev /\ length curr = S (length b).
Proof.
  induction n as [|n IH]; intros Hn.
  - change (zseq 1 0) with (@nil Z). cbn [foldl]. split; [|rewrite length_replicate; unfold zlength; lia]. unfold zrange, zlength, row_ok.
    rewrite length_zseq. split; [lia|]. intros j Hj. rewrite dist_0_l by done. unfold zseq.
    rewrite list_lookup_fmap, lookup_seq_lt by lia. simpl. f_equal; lia.
  - rewrite zseq_snoc, foldl_app. cbn [foldl].
    destruct (foldl (levenshteinRow a b) _ (zseq 1 n)) as [prev curr]. destruct (IH ltac:(lia)) as [Hp Hc].
    destruct (lookup_lt_is_Some_2 a n) as [x Hx]; [lia|]. unfold levenshteinRow.
    replace (1 + Z.of_nat n - 1) with (Z.of_nat n) by lia. rewrite arr_at_nat, Hx.
    replace (1 + Z.of_nat n) with (Z.of_nat (S n)) by lia. split; [by apply row_loop|]. apply Hp.
Qed.

Lemma levenshtein_lev a b : levenshteinDistance a b = lev a b.
Proof.
  unfold levenshteinDistance. case_bool_decide as Hab.
  { subst. pose proof (lev_least b b 0) as H. assert (script b b 0) as Hs.
    { clear. induction b; by constructor. }
    specialize (H Hs). assert (0 <= lev b b); [|lia]. pose proof (lev_script b b) as H'. clear -H'.
    induction H'; lia. }
  destruct (Z.eqb_spec (zlength a) 0) as [Ha|Ha].
  { destruct a; [by rewrite lev_nil_l|]. unfold zlength in Ha. simpl in Ha. lia. }
  destruct (Z.eqb_spec (zlength b) 0) as [Hb|Hb].
  { destruct b; [by rewrite lev_nil_r|]. unfold zlength in Hb. simpl in Hb. lia. }
  pose proof (table_loop a b (length a) ltac:(lia)) as H. unfold zrange at 2.
  replace (Z.to_nat (zlength a - 1 + 1)) with (length a) by (unfold zlength; lia).
  destruct (foldl (levenshteinRow a b) _ (zseq 1 (length a))) as [prev curr]. destruct H as [[_ H] _].
  unfold zlength. rewrite (num_at_lookup prev (length b) (dist a b (length a) (length b))) by (by apply H).
  unfold dist. by rewrite !firstn_all, lev_reverse.
Qed.

(** ** Similarity *)

Lemma script_nonneg a b n : script a b n -> 0 <= n.
Proof. induction 1; lia. Qed.

Lemma script_length a b n : script a b n -> Z.abs (zlength a - zlength b) <= n.
Proof.
  intros H. pose proof (script_nonneg _ _ _ H) as H0. revert H0.
  induction H as [|x a b n H IH|x y a b n H IH|x a b n H IH|y a b n H IH]; intros H0; rewrite ?zlength_cons;
    [unfold zlength; simpl; lia|..]; pose proof (script_nonneg _ _ _ H); specialize (IH ltac:(lia)); lia.
Qed.

Lemma script_sym a b n : script a b n -> script b a n.
Proof. induction 1; by constructor. Qed.

Lemma script_0 a b n : script a b n -> n <= 0 -> a = b.
Proof.
  induction 1 as [|x a b n H IH|x y a b n H IH|x a b n H IH|y a b n H IH]; intros Hn; [done|by rewrite IH|..];
    pose proof (script_nonneg _ _ _ H); lia.
Qed.

(** Scripts compose, possibly with fewer edits. *)
Lemma script_trans a b c n m : script a b n -> script b c m -> exists k, script a c k /\ k <= n + m.
Proof.
  intros H1. revert c m. induction H1 as [|x a b n H IH|x y a b n H IH|x a b n H IH|y a b n H IH]; intros c m H2.
  - exists m. split; [done|lia].
  - remember (x :: b) as b0 eqn:Eb. induction H2 as [|z b1 c k H2 IH2|z w b1 c k H2 IH2|z b1 c k H2 IH2|w b1 c k H2 IH2]; simplify_eq.
    + destruct (IH _ _ H2) as (q & Hq & Hle). exists q. split; [by apply sc_keep|lia].
    + destruct (IH _ _ H2) as (q & Hq & Hle). exists (q + 1). split; [by apply sc_replace|lia].
    + destruct (IH _ _ H2) as (q & Hq & Hle). exists (q + 1). split; [by apply sc_delete|lia].
    + destruct (IH2 eq_refl) as (q & Hq & Hle). exists (q + 1). split; [by apply sc_insert|lia].
  - remember (y :: b) as b0 eqn:Eb. induction H2 as [|z b1 c k H2 IH2|z w b1 c k H2 IH2|z b1 c k H2 IH2|w b1 c k H2 IH2]; simplify_eq.
    + destruct (IH _ _ H2) as (q & Hq & Hle). exists (q + 1). split; [by apply sc_replace|lia].
    + destruct (IH _ _ H2) as (q & Hq & Hle). exists (q + 1). split; [by apply sc_replace|lia].
    + destruct (IH _ _ H2) as (q & Hq & Hle). exists (q + 1). split; [by apply sc_delete|lia].
    + destruct (IH2 eq_refl) as (q & Hq & Hle). exists (q + 1). split; [by apply sc_insert|lia].
  - destruct (IH _ _ H2) as (q & Hq & Hle). exists (q + 1). split; [by apply sc_delete|lia].
  - remember (y :: b) as b0 eqn:Eb. induction H2 as [|z b1 c k H2 IH2|z w b1 c k H2 IH2|z b1 c k H2 IH2|w b1 c k H2 IH2]; simplify_eq.
    + destruct (IH _ _ H2) as (q & Hq & Hle). exists (q + 1). split; [by apply sc_insert|lia].
    + destruct (IH _ _ H2) as (q & Hq & Hle). exists (q + 1). split; [by apply sc_insert|lia].
    + destruct (IH _ _ H2) as (q & Hq & Hle). exists q. split; [done|lia].
    + destruct (IH2 eq_refl) as (q & Hq & Hle). exists (q + 1). split; [by apply sc_insert|lia].
Qed.

Lemma lev_max a b : lev a b <= Z.max (zlength a) (zlength b).
Proof.
  revert b. induction a as [|x a IH]; intros [|y b]; rewrite ?lev_nil_l, ?lev_nil_r; try lia.
  rewrite lev_cons, !zlength_cons. specialize (IH b). case_bool_decide; lia.
Qed.

(** C24: The two-row loop computes the least number of single-unit edits, which is a metric. *)
Theorem levenshtein_is_least_edits a b :
  script a b (levenshteinDistance a b) /\ (forall n, script a b n -> levenshteinDistance a b <= n) /\
  (levenshteinDistance a b = 0 <-> a = b) /\ levenshteinDistance a b = levenshteinDistance b a /\
  (forall c, levenshteinDistance a c <= levenshteinDistance a b + levenshteinDistance b c) /\
  Z.abs (zlength a - zlength b) <= levenshteinDistance a b <= Z.max (zlength a) (zlength b).
Proof.
  setoid_rewrite levenshtein_lev. split; [apply lev_script|]. split; [apply lev_least|]. split.
  { split; [intros E; eapply script_0; [apply lev_script|lia]|].
    intros ->. rewrite <- levenshtein_lev. unfold levenshteinDistance. by rewrite bool_decide_true by done. }
  split; [apply Z.le_antisymm; apply lev_least, script_sym, lev_script|]. split.
  { intros c. destruct (script_trans _ _ _ _ _ (lev_script a b) (lev_script b c)) as (k & Hk & Hle).
    apply lev_least in Hk. lia. }
  split; [apply script_length, lev_script|apply lev_max].
Qed.

Lemma similarity_spec a b :
  (0 <= similarity a b <= 1)%Q /\ (similarity a b == 1 <-> a = b)%Q /\ (similarity a b == similarity b a)%Q.
Proof.
  pose proof (script_nonneg _ _ _ (lev_script a b)) as H0. pose proof (lev_max a b) as Hmax.
  pose proof (zlength_nonneg a). pose proof (zlength_nonneg b).
  assert (lev a b = lev b a) as Hsym by (apply Z.le_antisymm; apply lev_least, script_sym, lev_script).
  assert (lev a b = 0 <-> a = b) as Heq.
  { split; [intros E; eapply script_0; [apply lev_script|lia]|].
    intros ->. rewrite <- levenshtein_lev. unfold levenshteinDistance. by rewrite bool_decide_true by done. }
  unfold similarity. rewrite !levenshtein_lev, <- Hsym, (Z.max_comm (zlength b)), (andb_comm (zlength b =? 0)).
  destruct (Z.eqb_spec (zlength a) 0) as [Ha|Ha], (Z.eqb_spec (zlength b) 0) as [Hb|Hb]; cbn [andb].
  { split; [split; discriminate|]. split; [|done]. destruct a, b; try done; unfold zlength in *; simpl in *; lia. }
  all: destruct (Z.eqb_spec (Z.max (zlength a) (zlength b)) 0); [lia|].
  all: set (m := Z.max (zlength a) (zlength b)) in *; assert (0 < inject_Z m)%Q as Hm by (change 0%Q with (inject_Z 0); rewrite <- Zlt_Qlt; lia).
  all: assert (0 <= inject_Z (lev a b) / inject_Z m <= 1)%Q as Hd
    by (split; [apply Qle_shift_div_l; [done|rewrite Qmult_0_l; change 0%Q with (inject_Z 0); rewrite <- Zle_Qle; lia]
               |apply Qle_shift_div_r; [done|rewrite Qmult_1_l, <- Zle_Qle; lia]]).
  all: split; [lra|]; split; [|reflexivity]; rewrite <- Heq; split;
    [intros E; assert (inject_Z (lev a b) / inject_Z m == 0)%Q as E' by lra;
     assert (inject_Z (lev a b) == 0)%Q as E2 by
       (rewrite <- (Qmult_div_r (inject_Z (lev a b)) (inject_Z m)) by lra; rewrite E'; ring);
     exact (proj1 (inject_Z_injective _ 0) E2)
    |intros ->; unfold Qdiv; change (inject_Z 0) with 0%Q; ring].
Qed.

(** ** Constants and results *)

Definition CONTEXT_FUZZY_THRESHOLD : Q := 8 # 10.
Definition PARTIAL_MATCH_MIN_LENGTH : Z := 6.
Definition PARTIAL_MATCH_MIN_RATIO : Q := 3 # 10.
Definition MAX_RECORDED_MATCHES : Z := 5.

Inductive ContextMatchStrategy : Type := s_exact | s_trim | s_unicode | s_prefix | s_substring | s_fuzzy.

Record ContextLineResult : Type := mkContextResult {
  index : option Z; confidence : Q; matchCount : option Z; matchIndices : option (list Z);
  strategy : option ContextMatchStrategy }.

Record IndexedMatches : Type := mkMatches { firstMatch : option Z; m_count : Z; m_indices : list Z }.

(** One more match: the shared body of the counting loops. *)
Definition recordMatch (m : IndexedMatches) (i : Z) : IndexedMatches :=
  mkMatches (match firstMatch m with None => Some i | f => f end) (m_count m + 1)
    (if zlength (m_indices m) <? MAX_RECORDED_MATCHES then m_indices m ++ [i] else m_indices m).

Definition collectIndexedMatches (start endInclusive : Z) (predicate : Z -> bool) : IndexedMatches :=
  foldl (fun m i => if predicate i then recordMatch m i else m) (mkMatches None 0 []) (zrange start endInclusive).

Definition toAmbiguousMatchResult (m : IndexedMatches) (c : Q) (s : ContextMatchStrategy) : option ContextLineResult :=
  match firstMatch m with
  | None => None
  | Some i => Some (mkContextResult (Some i) c (Some (m_count m)) (Some (m_indices m)) (Some s))
  end.

(** ** Unicode normalisation *)

(** [String.prototype.normalize("NFC")] *)
Class Unicode : Type := { nfc : jstring -> jstring }.

(** [s.replace(/[...]/g, text)] for a class of units. *)
Definition replaceUnits (p : N -> bool) (t s : jstring) : jstring := flat_map (fun c => if p c then t else [c]) s.

Definition between (lo hi c : N) : bool := ((lo <=? c) && (c <=? hi))%N.

(** [UNICODE_REPLACEMENTS] *)
Definition UNICODE_REPLACEMENTS : list ((N -> bool) * jstring) :=
  [(fun c => between 8208 8213 c || (c =? 8722)%N, js "-");
   (between 8216 8219, js "'");
   (between 8220 8223, [34%N]);
   (fun c => (c =? 160)%N || between 8194 8202 c || (c =? 8239)%N || (c =? 8287)%N || (c =? 12288)%N, js " ");
   (N.eqb 8800, js "!=");
   (N.eqb 189, js "1/2");
   (fun c => between 8203 8205 c || (c =? 65279)%N, [])].

Section Search.
Context `{Unicode}.

Definition normalizeUnicode (s : jstring) : jstring :=
  nfc (foldl (fun r '(p, t) => replaceUnits p t r) (trim s) UNICODE_REPLACEMENTS).

(** ** A context line *)

Definition lineAt (lines : list jstring) (i : Z) : jstring := default [] (arr_at lines i).

(** Pass 5: the lines that contain the context, with their ratios. *)
Definition substringMatches (lines : list jstring) (contextNorm : jstring) (startFrom : Z) : list (Z * Q) :=
  (fun i => (i, inject_Z (zlength contextNorm) / inject_Z (Z.max 1 (zlength (normalizeForFuzzy (lineAt lines i)))))%Q)
  <$> filter (fun i => includes contextNorm (normalizeForFuzzy (lineAt lines i)) = true) (zrange startFrom (zlength lines - 1)).

Definition substringPass (lines : list jstring) (contextNorm : jstring) (startFrom : Z) : option ContextLineResult :=
  if PARTIAL_MATCH_MIN_LENGTH <=? zlength contextNorm then
    let all := substringMatches lines contextNorm startFrom in
    let indices := (take 5 all).*1 in
    let result i n := Some (mkContextResult (Some i) (94 # 100) (Some n) (Some indices) (Some s_substring)) in
    match all with
    | [(i, _)] => result i 1
    | _ =>
        let good := filter (fun m => Qle_bool PARTIAL_MATCH_MIN_RATIO m.2 = true) all in
        match good with
        | (i, _) :: _ => result i (zlength good)
        | [] => match all with (i, _) :: _ :: _ => result i (zlength all) | _ => None end
        end
    end
  else None.

(** Pass 6: the best similar line, and the lines above the threshold. *)
Definition fuzzyStep (lines : list jstring) (contextNorm : jstring) (st : option Z * Q * IndexedMatches) (i : Z)
    : option Z * Q * IndexedMatches :=
  let '(bestIndex, bestScore, matches) := st in
  let score := similarity (normalizeForFuzzy (lineAt lines i)) contextNorm in
  let matches := if Qle_bool CONTEXT_FUZZY_THRESHOLD score then recordMatch matches i else matches in
  if Qltb bestScore score then (Some i, score, matches) else (bestIndex, bestScore, matches).

(** [a.orElse(b)]: the first pass that finds something returns. *)
Definition firstResult (l : list (option ContextLineResult)) : option ContextLineResult :=
  foldr (fun r rest => match r with Some x => Some x | None => rest end) None l.

(** The passes that do not need [allowFuzzy]. *)
Definition strictPasses (lines : list jstring) (context : jstring) (startFrom : Z) : option ContextLineResult :=
  let collect := collectIndexedMatches startFrom (zlength lines - 1) in
  firstResult
    [toAmbiguousMatchResult (collect (fun i => bool_decide (lineAt lines i = context))) 1 s_exact;
     toAmbiguousMatchResult (collect (fun i => bool_decide (trim (lineAt lines i) = trim context))) (99 # 100) s_trim;
     toAmbiguousMatchResult (collect (fun i => bool_decide (normalizeUnicode (lineAt lines i) = normalizeUnicode context)))
       (98 # 100) s_unicode].

(** The prefix, substring and similarity passes; the last one leaves the best score when it finds nothing. *)
Definition loosePasses (lines : list jstring) (context : jstring) (startFrom : Z) : ContextLineResult + Q :=
  let contextNorm := normalizeForFuzzy context in
  let prefixResult :=
    if 0 <? zlength contextNorm then
      toAmbiguousMatchResult
        (collectIndexedMatches startFrom (zlength lines - 1)
           (fun i => starts_with contextNorm (normalizeForFuzzy (lineAt lines i)))) (96 # 100) s_prefix
    else None in
  match firstResult [prefixResult; substringPass lines contextNorm startFrom] with
  | Some r => inl r
  | None =>
      let '(bestIndex, bestScore, matches) :=
        foldl (fuzzyStep lines contextNorm) (None, 0%Q, mkMatches None 0 []) (zrange startFrom (zlength lines - 1)) in
      match bestIndex with
      | Some i =>
          if Qle_bool CONTEXT_FUZZY_THRESHOLD bestScore then
            inl (mkContextResult (Some i) bestScore (Some (m_count matches)) (Some (m_indices matches)) (Some s_fuzzy))
          else inr bestScore
      | None => inr bestScore
      end
  end.

(** [findContextLine] with [skipParenRetry], for indices [0 <= startFrom]. *)
Definition findContextLineOnce (lines : list jstring) (context : jstring) (startFrom : Z) (allowFuzzy : bool)
    : ContextLineResult :=
  match strictPasses lines context startFrom with
  | Some r => r
  | None =>
      if negb allowFuzzy then mkContextResult None 0 None None None
      else match loosePasses lines context startFrom with
           | inl r => r
           | inr best => mkContextResult None best None None None
           end
  end.

Definition findContextLine (lines : list jstring) (context : jstring) (startFrom : Z) (allowFuzzy : bool) : ContextLineResult :=
  let r := findContextLineOnce lines context startFrom allowFuzzy in
  match index r with
  | Some _ => r
  | None =>
      if negb allowFuzzy then r
      else
        let trimmedContext := trim context in
        let n := (length trimmedContext - 2)%nat in
        if bool_decide (drop n trimmedContext = js "()") then
          let parenResult := findContextLineOnce lines (take n trimmedContext ++ js "(") startFrom allowFuzzy in
          match index parenResult, matchCount parenResult with
          | Some _, _ => parenResult
          | None, Some c => if 0 <? c then parenResult
                            else findContextLineOnce lines (take n trimmedContext) startFrom allowFuzzy
          | None, None => findContextLineOnce lines (take n trimmedContext) startFrom allowFuzzy
          end
        else r
  end.

(** ** The closest place of a sequence of lines *)

Definition fuzzyScoreAt (lines pattern : list jstring) (i : Z) : Q :=
  (foldl (fun total '(j, p) => total + similarity (normalizeForFuzzy (lineAt lines (i + j))) (normalizeForFuzzy p))%Q 0%Q
     (zip (zrange 0 (zlength pattern - 1)) pattern) / inject_Z (zlength pattern))%Q.

Definition closestStep (lines pattern : list jstring) (best : option Z * Q) (i : Z) : option Z * Q :=
  let score := fuzzyScoreAt lines pattern i in
  if Qltb best.2 score then (Some i, score) else best.

(** [findClosestSequenceMatch]: index and confidence. *)
Definition findClosestSequenceMatch (lines pattern : list jstring) (start : Z) (eof : bool) : option Z * Q :=
  if zlength pattern =? 0 then (Some start, 1%Q)
  else if zlength lines <? zlength pattern then (None, 0%Q)
  else
    let maxStart := zlength lines - zlength pattern in
    let searchStart := if eof then maxStart else start in
    let best := foldl (closestStep lines pattern) (None, 0%Q) (zrange searchStart maxStart) in
    if eof && (start <? searchStart) then foldl (closestStep lines pattern) best (zrange start (searchStart - 1)) else best.

(** ** What a match means *)

Definition ctx_match (s : ContextMatchStrategy) (context l : jstring) : bool :=
  match s with
  | s_exact => bool_decide (l = context)
  | s_trim => bool_decide (trim l = trim context)
  | s_unicode => bool_decide (normalizeUnicode l = normalizeUnicode context)
  | s_prefix => starts_with (normalizeForFuzzy context) (normalizeForFuzzy l)
  | s_substring => includes (normalizeForFuzzy context) (normalizeForFuzzy l)
  | s_fuzzy => Qle_bool CONTEXT_FUZZY_THRESHOLD (similarity (normalizeForFuzzy l) (normalizeForFuzzy context))
  end.

(** The places from [startFrom] on where a criterion holds. *)
Definition ctx_places (s : ContextMatchStrategy) (lines : list jstring) (context : jstring) (startFrom : Z) : list Z :=
  filter (fun i => ctx_match s context (lineAt lines i) = true) (zrange startFrom (zlength lines - 1)).

Lemma collect_app (p : Z -> bool) l m :
  let m' := foldl (fun m i => if p i then recordMatch m i else m) m l in
  firstMatch m' = match firstMatch m with Some i => Some i | None => head (filter (fun i => p i = true) l) end /\
  m_count m' = m_count m + zlength (filter (fun i => p i = true) l).
Proof.
  revert m. induction l as [|i l IH]; intros m; cbn zeta; cbn [foldl].
  - split; [by destruct (firstMatch m)|]. unfold zlength. simpl. lia.
  - rewrite filter_cons. destruct (IH (if p i then recordMatch m i else m)) as [E1 E2]. rewrite E1, E2.
    destruct (p i) eqn:Ep; [rewrite decide_True by done|by rewrite decide_False by congruence].
    simpl. rewrite zlength_cons. split; [by destruct (firstMatch m)|lia].
Qed.

Lemma collect_spec start stop p :
  firstMatch (collectIndexedMatches start stop p) = head (filter (fun i => p i = true) (zrange start stop)) /\
  m_count (collectIndexedMatches start stop p) = zlength (filter (fun i => p i = true) (zrange start stop)).
Proof. destruct (collect_app p (zrange start stop) (mkMatches None 0 [])) as [E1 E2]. split; [exact E1|exact E2]. Qed.

(** A result that names a place where its criterion holds, and counts the places when it is not a substring match. *)
Definition result_ok (lines : list jstring) (context : jstring) (startFrom : Z) (r : ContextLineResult) : Prop :=
  match index r with
  | None => True
  | Some i => exists s, strategy r = Some s /\ i ∈ ctx_places s lines context startFrom /\
      (s ≠ s_substring -> matchCount r = Some (zlength (ctx_places s lines context startFrom)))
  end.

Lemma ambiguous_ok s lines context startFrom c r :
  toAmbiguousMatchResult (collectIndexedMatches startFrom (zlength lines - 1) (fun i => ctx_match s context (lineAt lines i))) c s = Some r ->
  result_ok lines context startFrom r /\ index r = head (ctx_places s lines context startFrom).
Proof.
  unfold toAmbiguousMatchResult. destruct (collect_spec startFrom (zlength lines - 1) (fun i => ctx_match s context (lineAt lines i))) as [E1 E2].
  rewrite E1, E2. fold (ctx_places s lines context startFrom). destruct (ctx_places s lines context startFrom) as [|i l] eqn:E; [done|].
  intros [= <-]. split; [|done]. exists s. rewrite E. split; [done|]. split; [simpl; set_solver|done].
Qed.

Lemma ambiguous_none s lines context startFrom c :
  toAmbiguousMatchResult (collectIndexedMatches startFrom (zlength lines - 1) (fun i => ctx_match s context (lineAt lines i))) c s = None ->
  ctx_places s lines context startFrom = [].
Proof.
  unfold toAmbiguousMatchResult. destruct (collect_spec startFrom (zlength lines - 1) (fun i => ctx_match s context (lineAt lines i))) as [E1 _].
  rewrite E1. fold (ctx_places s lines context startFrom). by destruct (ctx_places s lines context startFrom).
Qed.

Lemma strict_ok lines context startFrom r :
  strictPasses lines context startFrom = Some r -> result_ok lines context startFrom r /\
  (ctx_places s_exact lines context startFrom ≠ [] -> strategy r = Some s_exact /\ index r = head (ctx_places s_exact lines context startFrom)).
Proof.
  unfold strictPasses, firstResult. cbn [foldr].
  destruct (toAmbiguousMatchResult _ 1 s_exact) as [r1|] eqn:E1.
  { intros [= ->]. pose proof E1 as E1'. apply (ambiguous_ok s_exact) in E1 as [H1 H2]. split; [done|]. intros _. split; [|done].
    unfold toAmbiguousMatchResult in E1'. case_match; [|done]. by injection E1' as <-. }
  apply (ambiguous_none s_exact) in E1. rewrite E1.
  destruct (toAmbiguousMatchResult _ (99 # 100) s_trim) as [r2|] eqn:E2.
  { intros [= ->]. apply (ambiguous_ok s_trim) in E2 as [H1 _]. done. }
  destruct (toAmbiguousMatchResult _ (98 # 100) s_unicode) as [r3|] eqn:E3; [|done].
  intros [= ->]. apply (ambiguous_ok s_unicode) in E3 as [H1 _]. done.
Qed.

Lemma strict_none lines context startFrom :
  strictPasses lines context startFrom = None -> ctx_places s_exact lines context startFrom = [].
Proof.
  unfold strictPasses, firstResult. cbn [foldr]. destruct (toAmbiguousMatchResult _ 1 s_exact) as [r1|] eqn:E1; [done|].
  intros _. by apply (ambiguous_none s_exact) in E1.
Qed.

Lemma substring_ok lines context startFrom r :
  substringPass lines (normalizeForFuzzy context) startFrom = Some r -> result_ok lines context startFrom r.
Proof.
  unfold substringPass. case_match; [|done].
  assert (forall i q, (i, q) ∈ substringMatches lines (normalizeForFuzzy context) startFrom -> i ∈ ctx_places s_substring lines context startFrom) as Hin.
  { intros i q (j & E & Hj)%list_elem_of_fmap. injection E as -> _. exact Hj. }
  destruct (substringMatches lines (normalizeForFuzzy context) startFrom) as [|[i q] [|[i' q'] l]] eqn:E; [done| |].
  - intros [= <-]. exists s_substring. split; [done|]. split; [apply (Hin i q); set_solver|done].
  - destruct (filter _ ((i, q) :: (i', q') :: l)) as [|[j w] l'] eqn:Ef.
    + intros [= <-]. exists s_substring. split; [done|]. split; [apply (Hin i q); set_solver|done].
    + intros [= <-]. exists s_substring. split; [done|]. split; [|done]. apply (Hin j w).
      assert ((j, w) ∈ filter (fun m => Qle_bool PARTIAL_MATCH_MIN_RATIO m.2 = true) ((i, q) :: (i', q') :: l)) as Hj
        by (rewrite Ef; set_solver). by apply list_elem_of_filter in Hj as [_ Hj].
Qed.

(** The last pass keeps the best score of the lines it has seen. *)
Lemma fuzzy_loop lines contextNorm l st :
  let '(bi, bs, m) := st in
  let '(bi', bs', m') := foldl (fuzzyStep lines contextNorm) st l in
  let score i := similarity (normalizeForFuzzy (lineAt lines i)) contextNorm in
  (bs <= bs')%Q /\ (forall i, i ∈ l -> (score i <= bs')%Q) /\
  ((bi', bs') = (bi, bs) \/ exists i, i ∈ l /\ bi' = Some i /\ bs' = score i) /\
  m' = foldl (fun m i => if Qle_bool CONTEXT_FUZZY_THRESHOLD (score i) then recordMatch m i else m) m l.
Proof.
  revert st. induction l as [|i l IH]; intros [[bi bs] m]; cbn [foldl].
  { split; [lra|]. split; [intros j Hj; by apply elem_of_nil in Hj|]. split; [by left|done]. }
  unfold fuzzyStep at 2. cbn zeta. set (sc := similarity (normalizeForFuzzy (lineAt lines i)) contextNorm).
  set (m1 := if Qle_bool CONTEXT_FUZZY_THRESHOLD sc then recordMatch m i else m).
  destruct (Qltb bs sc) eqn:Hlt.
  - specialize (IH (Some i, sc, m1)). cbv zeta iota beta in IH. destruct (foldl _ (Some i, sc, m1) l) as [[bi' bs'] m'].
    destruct IH as (I1 & I2 & I3 & I4). apply Qltb_lt in Hlt. split; [lra|]. split; [|split; [|done]].
    + intros j [->|Hj]%elem_of_cons; [exact I1|by apply I2].
    + right. destruct I3 as [[= -> ->]|(j & Hj & E1 & E2)]; [exists i; split; [set_solver|done]|exists j; split; [set_solver|done]].
  - specialize (IH (bi, bs, m1)). cbv zeta iota beta in IH. destruct (foldl _ (bi, bs, m1) l) as [[bi' bs'] m'].
    destruct IH as (I1 & I2 & I3 & I4). apply Qltb_ge in Hlt. split; [lra|]. split; [|split; [|done]].
    + intros j [->|Hj]%elem_of_cons; [unfold sc in Hlt; lra|by apply I2].
    + destruct I3 as [?|(j & Hj & E1 & E2)]; [by left|]. right. exists j. split; [set_solver|done].
Qed.

Lemma prefix_ok lines context startFrom r :
  toAmbiguousMatchResult
    (collectIndexedMatches startFrom (zlength lines - 1)
       (fun i => starts_with (normalizeForFuzzy context) (normalizeForFuzzy (lineAt lines i)))) (96 # 100) s_prefix = Some r ->
  result_ok lines context startFrom r.
Proof. intros E. by apply (ambiguous_ok s_prefix) in E as [H1 _]. Qed.

Lemma loose_ok lines context startFrom :
  match loosePasses lines context startFrom with
  | inl r => result_ok lines context startFrom r /\ is_Some (index r)
  | inr best => (best < CONTEXT_FUZZY_THRESHOLD)%Q /\ ctx_places s_fuzzy lines context startFrom = []
  end.
Proof.
  unfold loosePasses, firstResult. cbn [foldr].
  destruct (if 0 <? zlength (normalizeForFuzzy context) then _ else None) as [r1|] eqn:E1.
  { destruct (0 <? zlength (normalizeForFuzzy context)); [|done]. split; [by eapply prefix_ok|].
    unfold toAmbiguousMatchResult in E1. destruct (firstMatch _); [|done]. by injection E1 as <-. }
  destruct (substringPass lines (normalizeForFuzzy context) startFrom) as [r2|] eqn:E2.
  { split; [by apply substring_ok|]. unfold substringPass in E2. repeat case_match; by simplify_eq. }
  pose proof (fuzzy_loop lines (normalizeForFuzzy context) (zrange startFrom (zlength lines - 1)) (None, 0%Q, mkMatches None 0 [])) as L.
  cbv iota beta zeta in L. destruct (foldl _ _ (zrange startFrom (zlength lines - 1))) as [[bi bs] m]. destruct L as (L1 & L2 & L3 & L4).
  pose proof (collect_app (fun i => Qle_bool CONTEXT_FUZZY_THRESHOLD (similarity (normalizeForFuzzy (lineAt lines i)) (normalizeForFuzzy context)))
    (zrange startFrom (zlength lines - 1)) (mkMatches None 0 [])) as [_ C]. rewrite <- L4 in C. clear L4.
  change (filter _ (zrange startFrom (zlength lines - 1))) with (ctx_places s_fuzzy lines context startFrom) in C. cbn [m_count] in C. rewrite Z.add_0_l in C.
  assert (forall i, i ∈ ctx_places s_fuzzy lines context startFrom -> (CONTEXT_FUZZY_THRESHOLD <= bs)%Q) as Hin.
  { intros i [Hm Hi]%list_elem_of_filter. apply Qle_bool_iff in Hm. specialize (L2 _ Hi). lra. }
  destruct (Qle_bool CONTEXT_FUZZY_THRESHOLD bs) eqn:Ht.
  - destruct L3 as [[= -> ->]|(i & Hi & -> & ->)]; [by vm_compute in Ht|]. split; [|done].
    exists s_fuzzy. cbn. split; [done|]. split; [by apply list_elem_of_filter|]. intros _. by rewrite C.
  - assert (bs < CONTEXT_FUZZY_THRESHOLD)%Q as Hlt.
    { apply Qnot_le_lt. intros Hle. apply Qle_bool_iff in Hle. congruence. }
    replace (match bi with Some _ => _ | None => _ end) with (@inr ContextLineResult Q bs) by (by destruct bi). split; [done|].
    destruct (ctx_places s_fuzzy lines context startFrom) as [|i l] eqn:E; [done|]. specialize (Hin i ltac:(set_solver)). lra.
Qed.

(** One call finds a place where a criterion holds; a line equal to the context wins over all others; and it finds
    nothing only when no line is similar enough. *)
Lemma once_ok lines context startFrom allowFuzzy :
  let r := findContextLineOnce lines context startFrom allowFuzzy in
  result_ok lines context startFrom r /\
  (ctx_places s_exact lines context startFrom ≠ [] ->
     strategy r = Some s_exact /\ index r = head (ctx_places s_exact lines context startFrom)) /\
  (index r = None -> matchCount r = None /\ (allowFuzzy = true -> ctx_places s_fuzzy lines context startFrom = [])).
Proof.
  cbn zeta. unfold findContextLineOnce. destruct (strictPasses lines context startFrom) as [r|] eqn:E.
  { pose proof (strict_ok _ _ _ _ E) as [H1 H2]. split; [done|]. split; [done|]. intros E'. exfalso.
    unfold strictPasses, firstResult, toAmbiguousMatchResult in E. cbn [foldr] in E.
    repeat (destruct (firstMatch _); [by simplify_eq|]). done. }
  pose proof (strict_none _ _ _ E) as ->. destruct allowFuzzy; cbn [negb]; [|done].
  pose proof (loose_ok lines context startFrom) as L. destruct (loosePasses lines context startFrom) as [r|best].
  - destruct L as [L1 [i L2]]. split; [done|]. split; [done|]. intros E'. congruence.
  - destruct L as [L1 L2]. done.
Qed.

(** The contexts the search may answer for: the given one, or that without a trailing pair of parentheses. *)
Definition tried_contexts (context : jstring) : list jstring :=
  let t := trim context in let n := (length t - 2)%nat in [context; take n t ++ js "("; take n t].

(** FindContextLine only answers with a line from [startFrom] on that meets the criterion it names, and counts those
    lines; a line equal to the context always wins; and no answer means no line is similar enough. *)
Theorem context_line_is_a_match lines context startFrom allowFuzzy :
  let r := findContextLine lines context startFrom allowFuzzy in
  (exists c, c ∈ tried_contexts context /\ result_ok lines c startFrom r) /\
  (ctx_places s_exact lines context startFrom ≠ [] ->
     strategy r = Some s_exact /\ index r = head (ctx_places s_exact lines context startFrom)) /\
  (index r = None -> allowFuzzy = true -> ctx_places s_fuzzy lines context startFrom = []).
Proof.
  cbn zeta. unfold findContextLine, tried_contexts. set (n := (length (trim context) - 2)%nat).
  destruct (once_ok lines context startFrom allowFuzzy) as (O1 & O2 & O3).
  set (r := findContextLineOnce lines context startFrom allowFuzzy) in *.
  destruct (index r) as [i|] eqn:Ei.
  { split; [exists context; split; [set_solver|done]|]. rewrite Ei. split; [exact O2|done]. }
  destruct (O3 eq_refl) as [_ O4]. clear O3.
  assert (ctx_places s_exact lines context startFrom ≠ [] -> False) as Hno.
  { intros Hne. destruct (O2 Hne) as [_ E]. by destruct (ctx_places s_exact lines context startFrom). }
  destruct allowFuzzy; cbn [negb].
  2: { split; [exists context; split; [set_solver|done]|]. rewrite Ei. split; [intros Hne; by destruct (Hno Hne)|done]. }
  specialize (O4 eq_refl). rewrite O4.
  assert (forall c, c ∈ [context; take n (trim context) ++ js "("; take n (trim context)] ->
    let r' := findContextLineOnce lines c startFrom true in
    (exists c, c ∈ [context; take n (trim context) ++ js "("; take n (trim context)] /\ result_ok lines c startFrom r') /\
    (ctx_places s_exact lines context startFrom ≠ [] ->
       strategy r' = Some s_exact /\ index r' = head (ctx_places s_exact lines context startFrom)) /\
    (index r' = None -> true = true -> [] = @nil Z)) as Hall.
  { intros c Hc. cbn zeta. split; [exists c; split; [done|apply once_ok]|]. split; [intros Hne; by destruct (Hno Hne)|done]. }
  assert (r = findContextLineOnce lines context startFrom true) as Er by done.
  destruct (bool_decide _); [|rewrite Er; apply Hall; set_solver].
  destruct (index (findContextLineOnce lines (take n (trim context) ++ js "(") startFrom true)); [apply Hall; set_solver|].
  destruct (matchCount _) as [c|]; [|apply Hall; set_solver].
  destruct (0 <? c); apply Hall; set_solver.
Qed.

(** ** The closest sequence *)

Lemma closest_loop lines pattern l best :
  let '(bi, bs) := best in
  let '(bi', bs') := foldl (closestStep lines pattern) best l in
  (bs <= bs')%Q /\ (forall i, i ∈ l -> (fuzzyScoreAt lines pattern i <= bs')%Q) /\
  ((bi', bs') = (bi, bs) \/ exists i, i ∈ l /\ bi' = Some i /\ bs' = fuzzyScoreAt lines pattern i).
Proof.
  revert best. induction l as [|i l IH]; intros [bi bs]; cbn [foldl].
  { split; [lra|]. split; [intros j Hj; by apply elem_of_nil in Hj|by left]. }
  unfold closestStep at 2. cbn zeta. cbn [snd]. set (sc := fuzzyScoreAt lines pattern i). destruct (Qltb bs sc) eqn:Hlt.
  - specialize (IH (Some i, sc)). cbv iota beta in IH. destruct (foldl _ (Some i, sc) l) as [bi' bs'].
    destruct IH as (I1 & I2 & I3). apply Qltb_lt in Hlt. split; [lra|]. split.
    + intros j [->|Hj]%elem_of_cons; [exact I1|by apply I2].
    + right. destruct I3 as [[= -> ->]|(j & Hj & E1 & E2)]; [exists i; split; [set_solver|done]|exists j; split; [set_solver|done]].
  - specialize (IH (bi, bs)). cbv iota beta in IH. destruct (foldl _ (bi, bs) l) as [bi' bs'].
    destruct IH as (I1 & I2 & I3). apply Qltb_ge in Hlt. split; [lra|]. split.
    + intros j [->|Hj]%elem_of_cons; [unfold sc in Hlt; lra|by apply I2].
    + destruct I3 as [?|(j & Hj & E1 & E2)]; [by left|]. right. exists j. split; [set_solver|done].
Qed.

(** The closest place lies in range, carries its own score, and no place from [start] on scores better. *)
Theorem closest_sequence_is_best lines pattern start eof :
  0 < zlength pattern -> 0 <= start ->
  let '(i, score) := findClosestSequenceMatch lines pattern start eof in
  (forall k, start <= k <= zlength lines - zlength pattern -> (fuzzyScoreAt lines pattern k <= score)%Q) /\
  match i with
  | Some k => k <= zlength lines - zlength pattern /\ (eof = false -> start <= k) /\ score = fuzzyScoreAt lines pattern k
  | None => score = 0%Q
  end.
Proof.
  intros Hp Hs. unfold findClosestSequenceMatch. destruct (Z.eqb_spec (zlength pattern) 0); [lia|].
  destruct (Z.ltb_spec (zlength lines) (zlength pattern)); [split; [intros; lia|done]|].
  set (m := zlength lines - zlength pattern). set (s := if eof then m else start).
  pose proof (closest_loop lines pattern (zrange s m) (None, 0%Q)) as L. cbv iota beta in L.
  destruct (foldl _ (None, 0%Q) (zrange s m)) as [bi bs]. destruct L as (L1 & L2 & L3).
  assert (forall k, k ∈ zrange s m <-> s <= k <= m) as Hz by (intros k; apply elem_of_zrange).
  destruct (eof && (start <? s)) eqn:Ee.
  - apply andb_true_iff in Ee as [-> Hlt]. apply Z.ltb_lt in Hlt. subst s. cbn iota in *.
    pose proof (closest_loop lines pattern (zrange start (m - 1)) (bi, bs)) as K. cbv iota beta in K.
    destruct (foldl _ (bi, bs) (zrange start (m - 1))) as [bi' bs']. destruct K as (K1 & K2 & K3). split.
    + intros k Hk. destruct (decide (k = m)) as [->|]; [|apply K2, elem_of_zrange; lia].
      specialize (L2 m ltac:(apply Hz; lia)). lra.
    + destruct K3 as [[= -> ->]|(k & Hk%elem_of_zrange & -> & ->)]; [|split; [lia|split; [done|done]]].
      destruct L3 as [[= -> ->]|(k & Hk%Hz & -> & ->)]; [done|]. split; [lia|done].
  - split.
    + intros k Hk. apply L2, Hz. subst s. destruct eof; [|lia]. simpl in Ee. apply Z.ltb_ge in Ee. lia.
    + destruct L3 as [[= -> ->]|(k & Hk%Hz & -> & ->)]; [done|]. split; [lia|]. split; [|done]. intros ->. subst s. lia.
Qed.

End Search.

(** Plain text is its own normal form. *)
#[local] Instance asciiUnicode : Unicode := {| nfc := fun s => s |}.

Lemma closest_sequence_is_best_witness :
  let lines := [js "alpha"; js "beta"; js "gamma"; js "betb"] in
  exists i score, findClosestSequenceMatch lines [js "bett"; js "gamme"] 0 false = (Some i, score) /\ i = 1 /\
  forall k, 0 <= k <= 2 -> (fuzzyScoreAt lines [js "bett"; js "gamme"] k <= score)%Q.
Proof.
  cbn zeta.
  assert (0 < zlength [js "bett"; js "gamme"]) as H by (vm_compute; reflexivity).
  pose proof (closest_sequence_is_best [js "alpha"; js "beta"; js "gamma"; js "betb"] [js "bett"; js "gamme"] 0 false H (Z.le_refl 0)) as P.
  assert (fst (findClosestSequenceMatch [js "alpha"; js "beta"; js "gamma"; js "betb"] [js "bett"; js "gamme"] 0 false) = Some 1) as E
    by (vm_compute; reflexivity).
  destruct (findClosestSequenceMatch [js "alpha"; js "beta"; js "gamma"; js "betb"] [js "bett"; js "gamme"] 0 false) as [i sc].
  simpl in E. subst i. exists 1, sc. split; [reflexivity|]. split; [reflexivity|]. destruct P as [P _]. exact P.
Defined.

Example context_line_example :
  let r := findContextLine [js "def run(first, second):"; js "  pass"; js "def runner():"] (js "def run()") 0 true in
  index r = Some 0 /\ strategy r = Some s_prefix /\ matchCount r = Some 1.
Proof. vm_compute. repeat split. Qed.
