(* ===== verification/PromptFraming.v ===== *)
(** * Framing of untrusted text in prompts

    [session/messages.ts]: [escapePromptMetadata], [escapeUntrustedContent], [wrapUntrustedContent],
    [neutralizeReservedPromptTag]; the XML escapes of [ai/providers/transform-messages.ts],
    [utils/xml-escape.ts] and [goals/runtime.ts].  What a tool, a file or a rule says reaches the model inside
    tags; these functions keep the text from closing them. *)
From S2P Require Import Prelude JsString JsRegex.
From Stdlib Require Import ZifyBool ZifyN.

(** ** XML escapes *)

Definition c_amp : N := 38.
Definition c_lt : N := 60.
Definition c_gt : N := 62.
Definition c_quot : N := 34.
Definition c_apos : N := 39.

(** The chain of comparisons for one unit. *)
Definition escapeTextUnit (c : N) : jstring :=
  if (c =? c_amp)%N then js "&amp;"
  else if (c =? c_lt)%N then js "&lt;"
  else if (c =? c_gt)%N then js "&gt;"
  else [c].

Definition escapeXmlText (input : jstring) : jstring :=
  if negb (existsb (fun c => existsb (N.eqb c) (js "&<>")) input) then input
  else input ≫= escapeTextUnit.

Definition escapeAttributeUnit (c : N) : jstring :=
  if (c =? c_amp)%N then js "&amp;"
  else if (c =? c_lt)%N then js "&lt;"
  else if (c =? c_gt)%N then js "&gt;"
  else if (c =? c_quot)%N then js "&quot;"
  else if (c =? c_apos)%N then js "&apos;"
  else [c].

Definition escapeXmlAttribute (input : jstring) : jstring :=
  if negb (existsb (fun c => (c =? c_amp) || (c =? c_lt) || (c =? c_gt) || (c =? c_quot) || (c =? c_apos))%N input)
  then input
  else input ≫= escapeAttributeUnit.

(** The goal runtime's version: the text before the first unit to escape is copied in one slice. *)
Fixpoint firstEscapable (input : jstring) : option nat :=
  match input with
  | [] => None
  | c :: input' => if (c =? 38)%N || (c =? 60)%N || (c =? 62)%N then Some 0 else S <$> firstEscapable input'
  end.

Definition goalEscapeXmlText (input : jstring) : jstring :=
  match firstEscapable input with
  | None => input
  | Some n => take n input ++ (drop n input ≫= escapeTextUnit)
  end.

(** ** Prompt metadata *)

Definition is_high (c : N) : bool := ((0xd800 <=? c) && (c <=? 0xdbff))%N.
Definition is_low (c : N) : bool := ((0xdc00 <=? c) && (c <=? 0xdfff))%N.

(** The class of the pattern. *)
Definition metadataUnit (c : N) : bool :=
  ((c =? c_amp) || (c =? c_lt) || (c =? c_gt) || (c =? c_quot)
   || (c <=? 0x1f) || ((0x7f <=? c) && (c <=? 0x9f)) || (c =? 0x61c) || ((0x200e <=? c) && (c <=? 0x200f))
   || ((0x202a <=? c) && (c <=? 0x202e)) || ((0x2066 <=? c) && (c <=? 0x2069))
   || ((0xd800 <=? c) && (c <=? 0xdfff)))%N.

Definition hexDigit (n : N) : N := if (n <? 10)%N then (48 + n)%N else (87 + n)%N.

(** [`\\u${code.toString(16).padStart(4, "0")}`] for a 16-bit code: four hexadecimal digits. *)
Definition unicodeEscape (c : N) : jstring :=
  92%N :: 117%N :: [hexDigit (c / 4096 mod 16); hexDigit (c / 256 mod 16); hexDigit (c / 16 mod 16); hexDigit (c mod 16)]%N.

(** The replacement of the unit [c] between [prev] and [next]. *)
Definition escapeMetadataUnit (preserveNewlines : bool) (prev : option N) (c : N) (next : option N) : jstring :=
  if negb (metadataUnit c) then [c]
  else if (is_high c && match next with Some d => is_low d | None => false end)
          || (is_low c && match prev with Some d => is_high d | None => false end) then [c]
  else if preserveNewlines && ((c =? c_lf)%N || (c =? 9)%N) then [c]
  else if (c =? c_amp)%N then js "&amp;"
  else if (c =? c_lt)%N then js "&lt;"
  else if (c =? c_gt)%N then js "&gt;"
  else if (c =? c_quot)%N then js "&quot;"
  else unicodeEscape c.

Fixpoint escapeMetadataFrom (preserveNewlines : bool) (prev : option N) (value : jstring) : jstring :=
  match value with
  | [] => []
  | c :: value' => escapeMetadataUnit preserveNewlines prev c (head value') ++ escapeMetadataFrom preserveNewlines (Some c) value'
  end.

Definition escapePromptMetadata (value : jstring) (preserveNewlines : bool) : jstring :=
  escapeMetadataFrom preserveNewlines None value.

(** ** Untrusted content *)

(** The [i] flag on an ASCII pattern: a unit above 127 never folds onto an ASCII one. *)
Definition ascii_lower (c : N) : N := if is_upper c then (c + 32)%N else c.
Definition rx_ichar (c : N) : regex := rx_class (fun d => (ascii_lower c =? ascii_lower d)%N).
Fixpoint rx_ilit (s : jstring) : regex :=
  match s with [] => rx_empty | c :: s' => rx_seq (rx_ichar c) (rx_ilit s') end.

(** [s.replace(re, f)] with the [g] flag, for a pattern whose matches are not empty: [f] gets the match. *)
Fixpoint replace_all_fuel (fuel : nat) (r : regex) (f : jstring -> jstring) (before s : jstring) : jstring :=
  match fuel, s with
  | _, [] => []
  | O, _ => s
  | S fuel, c :: s' =>
      match match_at r (MState before s []) with
      | Some st => f (consumed_since (MState before s []) st) ++ replace_all_fuel fuel r f (consumed st) (rest st)
      | None => c :: replace_all_fuel fuel r f (c :: before) s'
      end
  end.

Definition replace_all (r : regex) (f : jstring -> jstring) (s : jstring) : jstring :=
  replace_all_fuel (length s) r f [] s.

Definition closeTagName : jstring := js "</untrusted-content".
Definition escapedCloser : jstring := js "&lt;/untrusted-content>".

(** [<\/untrusted-content>] and [<\/untrusted-content[ \t\n\r\f]+>] *)
Definition is_tag_blank (c : N) : bool := ((c =? 32) || (c =? 9) || (c =? 10) || (c =? 13) || (c =? 12))%N.
Definition CLOSER_RE : regex := rx_seq (rx_ilit closeTagName) (rx_ichar c_gt).
Definition SPACED_CLOSER_RE : regex :=
  rx_seq (rx_ilit closeTagName) (rx_seq (rx_plus (rx_class is_tag_blank)) (rx_ichar c_gt)).

Definition escapeUntrustedContent (content : jstring) : jstring :=
  replace_all SPACED_CLOSER_RE (fun _ => escapedCloser) (replace_all CLOSER_RE (fun _ => escapedCloser) content).

Definition wrapUntrustedContent (content : jstring) : jstring :=
  js "<untrusted-content>" ++ [c_lf] ++ escapeUntrustedContent content ++ [c_lf] ++ js "</untrusted-content>".

(** [<\/?\s*(?:system-interrupt|system-reminder|untrusted-content|rules)(?=[\s>/]|$)] *)
Definition rx_look (a : regex) : regex := rx_neg_look (rx_neg_look a).
Definition RESERVED_TAG_RE : regex :=
  rx_seqs [rx_ichar c_lt; rx_opt (rx_ichar 47); rx_star rx_ws;
           rx_alts [rx_ilit (js "system-interrupt"); rx_ilit (js "system-reminder"); rx_ilit (js "untrusted-content");
                    rx_ilit (js "rules")];
           rx_look (rx_alt (rx_class (fun c => is_ws c || (c =? c_gt)%N || (c =? 47)%N)) rx_eol)].

Definition neutralizeReservedPromptTag (value : jstring) : jstring :=
  replace_all RESERVED_TAG_RE (fun tag => js "&lt;" ++ drop 1 tag) value.

(** ** What a global replacement leaves

    A pattern whose matches are replaced by texts that begin with an ampersand and have no [<]. *)
Section replacement.
Context (r : regex) (f : jstring -> jstring).

Definition inert_replacement : Prop :=
  forall before s st, match_at r (MState before s []) = Some st ->
    exists w, eats (MState before s []) w st /\ w ≠ [] /\ head (f w) = Some c_amp /\ (c_lt ∉ f w).

Context (Hinert : inert_replacement).

(** A [<] of the result was copied from a place where the pattern does not match. *)
Lemma replace_all_suffix n before s pre t :
  length s <= n -> replace_all_fuel n r f before s = pre ++ t -> head t = Some c_lt ->
  exists n' before' pre' s', s = pre' ++ s' /\ length s' <= n' /\
    match_at r (MState before' s' []) = None /\ t = replace_all_fuel n' r f before' s'.
Proof.
  revert before s pre. induction n as [|n IH]; intros before [|c s] pre Hn E Ht; simpl in Hn; try lia;
    try (by destruct pre, t).
  cbn [replace_all_fuel] in E. destruct (match_at r (MState before (c :: s) [])) as [st|] eqn:Em.
  - destruct (Hinert _ _ _ Em) as (w & Hw & Hne & _ & Hlt). rewrite (eats_consumed_since _ _ _ Hw) in E.
    destruct Hw as [Hr _]. cbn [rest] in Hr.
    apply app_eq_inv in E as [(k & E1 & E2)|(k & -> & E2)].
    + destruct k as [|d k].
      * cbn [app] in E2. destruct (IH (consumed st) (rest st) []) as (n' & b' & p' & s' & Hs & H1 & H2 & H3);
          [|by rewrite E2|done|].
        { apply (f_equal length) in Hr. rewrite length_app in Hr. destruct w; [done|]. simpl in *. lia. }
        exists n', b', (w ++ p'), s'. split_and!; try done. by rewrite Hr, Hs, app_assoc.
      * exfalso. apply Hlt. rewrite E1. subst t. cbn in Ht. injection Ht as ->. set_solver.
    + destruct (IH (consumed st) (rest st) k) as (n' & b' & p' & s' & Hs & H1 & H2 & H3); [|done..|].
      { apply (f_equal length) in Hr. rewrite length_app in Hr. destruct w; [done|]. simpl in *. lia. }
      exists n', b', (w ++ p'), s'. split_and!; try done. by rewrite Hr, Hs, app_assoc.
  - destruct pre as [|d pre].
    + exists (S n), before, [], (c :: s). split_and!; [done|simpl; lia|done|].
      cbn [replace_all_fuel]. rewrite Em. by rewrite E.
    + injection E as <- E. destruct (IH (c :: before) s pre ltac:(lia) E Ht) as (n' & b' & p' & s' & -> & H1 & H2 & H3).
      by exists n', b', (c :: p'), s'.
Qed.

(** A piece of the result without ampersands, at the place the replacement starts, is a piece of the text. *)
Lemma replace_all_prefix n before s w t :
  length s <= n -> replace_all_fuel n r f before s = w ++ t -> (c_amp ∉ w) ->
  exists t', s = w ++ t' /\ (t = [] -> t' = []) /\ (head t ≠ Some c_amp -> head t' = head t).
Proof.
  revert before s w. induction n as [|n IH]; intros before [|c s] w Hn E Hw; simpl in Hn; try lia.
  - destruct w, t; try done. by exists [].
  - destruct w, t; try done. by exists [].
  - cbn [replace_all_fuel] in E. destruct w as [|d w].
    + exists (c :: s). split; [done|]. cbn [app] in E.
      destruct (match_at r (MState before (c :: s) [])) as [st|] eqn:Em.
      * destruct (Hinert _ _ _ Em) as (v & Hv & Hne & Hamp & _). rewrite (eats_consumed_since _ _ _ Hv) in E.
        destruct (f v) as [|e fv]; [done|]. injection Hamp as ->. subst t. by cbn.
      * subst t. by cbn.
    + apply not_elem_of_cons in Hw as [Hd Hw].
      destruct (match_at r (MState before (c :: s) [])) as [st|] eqn:Em.
      * destruct (Hinert _ _ _ Em) as (v & Hv & Hne & Hamp & _). rewrite (eats_consumed_since _ _ _ Hv) in E.
        destruct (f v) as [|e fv]; [done|]. injection Hamp as ->. injection E. congruence.
      * injection E as <- E. destruct (IH (c :: before) s w ltac:(lia) E Hw) as (t' & -> & H1 & H2). by exists t'.
Qed.
End replacement.

(** ** The frame of untrusted content cannot be closed from inside *)

Lemma match_at_eats r before s st :
  match_at r (MState before s []) = Some st -> exists w, rsem r (MState before s []) st /\ eats (MState before s []) w st.
Proof.
  intros H. apply rmatch_sound in H as (st' & Hr & [= ->]). destruct (rsem_eats _ _ _ Hr) as [w Hw]. eauto.
Qed.

Lemma rx_ilit_match p w bef s cs k x :
  ascii_lower <$> w = ascii_lower <$> p -> k (MState (reverse w ++ bef) s cs) = Some x ->
  rmatch (rx_ilit p) (MState bef (w ++ s) cs) k = Some x.
Proof.
  revert w bef. induction p as [|c p IH]; intros [|d w] bef E Hk; try done.
  injection E as Ed E. cbn [rx_ilit app]. apply seq_match, class_match; [by rewrite Ed, N.eqb_refl|].
  apply IH; [done|]. by rewrite reverse_cons, <- app_assoc in Hk.
Qed.

(** A closing tag at the start of the text: the name in any case, blanks, [>]. *)
Definition closer (name blanks : jstring) : Prop :=
  ascii_lower <$> name = closeTagName /\ Forall (fun c => is_tag_blank c = true) blanks.

Definition closes (t : jstring) : Prop :=
  exists name blanks u, closer name blanks /\ t = (name ++ blanks ++ [c_gt]) ++ u.

Lemma ascii_lower_not_letter c d : ascii_lower c = d -> is_lower d = false -> c = d.
Proof. intros <-. unfold ascii_lower. destruct (is_upper c) eqn:E; [|done]. unfold is_upper, is_lower in *. lia. Qed.

(** Its only [<] is the first unit; it has no ampersand. *)
Lemma closer_shape name blanks :
  closer name blanks -> exists name', name = c_lt :: name' /\ (c_lt ∉ name' ++ blanks ++ [c_gt])
    /\ (c_amp ∉ name ++ blanks ++ [c_gt]) /\ head name' = Some 47%N.
Proof.
  intros [Hn Hb]. destruct name as [|c name']; [done|].
  pose proof Hn as Hn'. apply (f_equal head) in Hn'. cbn in Hn'. injection Hn' as Hc.
  apply ascii_lower_not_letter in Hc; [|done]. subst c. exists name'. split; [done|].
  apply (f_equal tail) in Hn. cbn [fmap list_fmap tail] in Hn.
  assert (forall d e, d ∈ name' ++ blanks ++ [c_gt] -> ascii_lower e ∉ tail closeTagName -> ascii_lower e = e ->
    is_tag_blank e = false -> e ≠ c_gt -> d ≠ e) as Hno.
  { intros d e Hd He Hle Hbe Hgt ->. rewrite !elem_of_app, list_elem_of_singleton in Hd. destruct Hd as [Hd|[Hd|Hd]].
    - apply He. rewrite <- Hn. by apply list_elem_of_fmap_2.
    - rewrite Forall_forall in Hb. apply Hb in Hd. congruence.
    - done. }
  split_and!.
  - intros Hd. eapply (Hno _ c_lt Hd); try done. apply (bool_decide_unpack _). by vm_compute.
  - change (c_amp ∉ c_lt :: (name' ++ blanks ++ [c_gt])). intros [?|Hd]%elem_of_cons; [done|].
    eapply (Hno _ c_amp Hd); try done. apply (bool_decide_unpack _). by vm_compute.
  - destruct name' as [|d name']; [done|]. apply (f_equal head) in Hn. cbn in Hn. injection Hn as Hd.
    by apply ascii_lower_not_letter in Hd; [subst d|].
Qed.

Lemma closer_match name u bef :
  ascii_lower <$> name = closeTagName -> match_at CLOSER_RE (MState bef (name ++ c_gt :: u) []) ≠ None.
Proof.
  intros Hn. unfold match_at, CLOSER_RE. erewrite seq_match; [done|]. apply rx_ilit_match; [by rewrite Hn|].
  by apply class_match.
Qed.

Lemma spaced_closer_match name blanks u bef :
  ascii_lower <$> name = closeTagName -> Forall (fun c => is_tag_blank c = true) blanks -> blanks ≠ [] ->
  match_at SPACED_CLOSER_RE (MState bef (name ++ blanks ++ c_gt :: u) []) ≠ None.
Proof.
  intros Hn Hb Hne. destruct blanks as [|b blanks]; [done|]. apply Forall_cons in Hb as [Hb Hbs].
  unfold match_at, SPACED_CLOSER_RE. erewrite seq_match; [done|].
  apply rx_ilit_match; [by rewrite Hn|]. cbn [app]. apply seq_match, seq_match, class_match; [done|].
  apply (star_class_greedy _ _ _ _ blanks (c_gt :: u)); [done|done|]. by apply class_match.
Qed.

Lemma closer_re_head r bef s st :
  match_at (rx_seq (rx_ilit closeTagName) r) (MState bef s []) = Some st -> exists w, eats (MState bef s []) w st /\ w ≠ [].
Proof.
  intros (w & Hr & Hw)%match_at_eats. exists w. split; [done|]. intros ->.
  destruct Hr as (m & (m' & (c & s' & Hs & _ & ->) & Hm') & Hr). destruct Hw as [Hw _]. cbn in Hs, Hw. subst s.
  apply rsem_eats in Hm' as (w1 & Hw1 & _), Hr as (w2 & Hw2 & _). cbn in Hw1. rewrite Hw2 in Hw1. subst s'.
  apply (f_equal length) in Hw. simpl in Hw. rewrite !length_app in Hw. lia.
Qed.

Lemma closer_inert r : inert_replacement (rx_seq (rx_ilit closeTagName) r) (fun _ => escapedCloser).
Proof.
  intros bef s st (w & Hw & Hne)%closer_re_head. exists w. split_and!; try done.
  apply (bool_decide_unpack _). by vm_compute.
Qed.

Lemma escaped_has_no_closer content pre t : escapeUntrustedContent content = pre ++ t -> ~ closes t.
Proof.
  intros E (name & blanks & u & Hc & ->). destruct (closer_shape _ _ Hc) as (name' & -> & _ & Hamp & _).
  destruct Hc as [Hn Hb]. unfold escapeUntrustedContent, replace_all in E.
  apply (replace_all_suffix _ _ (closer_inert _)) in E as (n & bef & p & s & Hs & Hlen & Hno & E); [|lia|done].
  symmetry in E. apply (replace_all_prefix _ _ (closer_inert _)) in E as (t' & -> & _); [|done..].
  destruct blanks as [|b blanks].
  - apply (replace_all_suffix _ _ (closer_inert _)) in Hs as (n' & bef' & p' & s' & Hs' & Hlen' & Hno' & E'); [|lia|done].
    symmetry in E'. apply (replace_all_prefix _ _ (closer_inert _)) in E' as (t'' & -> & _); [|done..].
    apply (closer_match _ t'' bef' Hn). by rewrite <- app_assoc in Hno'.
  - apply (spaced_closer_match _ (b :: blanks) t' bef Hn Hb); [done|]. by rewrite <- !app_assoc in Hno.
Qed.

Lemma suffix_head_lt (l : jstring) pre t : l = pre ++ t -> head t = Some c_lt -> (c_lt ∉ tail l) -> pre = [].
Proof.
  intros -> Ht Hl. destruct pre as [|c pre]; [done|]. exfalso. apply Hl. destruct t; [done|]. injection Ht as ->.
  cbn. set_solver.
Qed.

(** C10: safety. Whatever the wrapped text is, the only closing tag of the frame is the one [wrapUntrustedContent] puts
    at its end: no spelling of the closing tag (any case, blanks before the [>]) starts anywhere else. *)
Theorem frame_closes_only_at_its_end content pre t :
  wrapUntrustedContent content = pre ++ t -> closes t <-> t = js "</untrusted-content>".
Proof.
  intros E. split; [|intros ->; exists closeTagName, [], []; by repeat constructor].
  intros (name & blanks & u & Hc & Et). destruct (closer_shape _ _ Hc) as (name' & -> & Hlt & _ & Hsl).
  assert (head t = Some c_lt) as Hh by by subst t.
  assert (t !! 1 = Some 47%N) as H1 by (subst t; destruct name'; [done|by injection Hsl as ->]).
  unfold wrapUntrustedContent in E. apply app_eq_inv in E as [(k & E1 & E2)|(k & _ & E2)].
  { exfalso. destruct k as [|d k]; [by rewrite E2 in Hh|].
    assert (pre = []) as -> by
      (apply (suffix_head_lt _ _ (d :: k) E1); [by rewrite E2 in Hh|apply (bool_decide_unpack _); by vm_compute]).
    cbn [app] in E1. by rewrite E2, <- E1 in H1. }
  destruct k as [|c k]; [cbn [app] in E2; by rewrite <- E2 in Hh|]. injection E2 as _ E2.
  apply app_eq_inv in E2 as [(k' & E1 & E2)|(k' & _ & E2)].
  - exfalso. destruct k' as [|d k']; [by rewrite E2 in Hh|]. rewrite E2 in Hh. injection Hh as ->.
    rewrite Et in E2. cbn [app] in E2. injection E2 as E2.
    apply app_eq_inv in E2 as [(v & E3 & E4)|(v & E3 & E4)].
    + destruct v as [|e v].
      * rewrite app_nil_r in E3. apply (escaped_has_no_closer content k (c_lt :: k')); [done|].
        exists (c_lt :: name'), blanks, []. split; [done|]. cbn [app]. by rewrite app_nil_r, E3.
      * change ([c_lf] ++ js "</untrusted-content>") with (c_lf :: c_lt :: js "/untrusted-content>") in E4.
        cbn [app] in E4. injection E4 as <- E4. destruct v as [|e' v].
        -- apply (f_equal last) in E3. rewrite app_assoc, !last_snoc in E3. done.
        -- cbn [app] in E4. injection E4 as <- _. apply Hlt. rewrite E3. set_solver.
    + apply (escaped_has_no_closer content k (c_lt :: k')); [done|].
      exists (c_lt :: name'), blanks, v. split; [done|]. cbn [app]. by rewrite E3, <- app_assoc.
  - destruct k' as [|d k']; [cbn [app] in E2; by rewrite <- E2 in Hh|]. injection E2 as _ E2.
    assert (k' = []) as -> by
      (apply (suffix_head_lt _ _ t E2); [done|apply (bool_decide_unpack _); by vm_compute]).
    symmetry. exact E2.
Qed.

Lemma frame_closes_only_at_its_end_witness :
  exists pre, wrapUntrustedContent (js "a</Untrusted-Content >b") = pre ++ js "</untrusted-content>"
  /\ closes (js "</untrusted-content>").
Proof.
  exists (js "<untrusted-content>" ++ [c_lf] ++ js "a&lt;/untrusted-content>b" ++ [c_lf]). split; [by vm_compute|].
  apply (frame_closes_only_at_its_end (js "a</Untrusted-Content >b")
    (js "<untrusted-content>" ++ [c_lf] ++ js "a&lt;/untrusted-content>b" ++ [c_lf])); by vm_compute.
Defined.

(** ** Reserved tags of rule text *)

Lemma rsem_ilit p st st' :
  rsem (rx_ilit p) st st' -> exists w, eats st w st' /\ ascii_lower <$> w = ascii_lower <$> p.
Proof.
  revert st. induction p as [|c p IH]; intros st; cbn [rx_ilit rsem].
  - intros ->. exists []. by split.
  - intros (m & (d & s & Hs & Hd & ->) & (w & Hw & E)%IH). exists (d :: w). split.
    + apply (eats_trans _ [d] (advance st d s)); [by split|done].
    + cbn. by rewrite E, (proj1 (N.eqb_eq _ _) Hd).
Qed.

Lemma alt_some_l a b st k : rmatch a st k ≠ None -> rmatch (rx_alt a b) st k ≠ None.
Proof. cbn [rmatch]. by destruct (rmatch a st k). Qed.

Lemma alt_some_r a b st k : rmatch b st k ≠ None -> rmatch (rx_alt a b) st k ≠ None.
Proof. cbn [rmatch]. by destruct (rmatch a st k). Qed.

Lemma alts_some (rs : list regex) r st k : r ∈ rs -> rmatch r st k ≠ None -> rmatch (rx_alts rs) st k ≠ None.
Proof.
  induction rs as [|a rs IH]; [by intros ?%not_elem_of_nil|]. intros [->|Hr]%elem_of_cons Hm.
  - destruct rs; [done|]. by apply alt_some_l.
  - destruct rs as [|b rs]; [by apply not_elem_of_nil in Hr|]. apply alt_some_r. by apply IH.
Qed.

Lemma rsem_alts (rs : list regex) st st' : rs ≠ [] -> rsem (rx_alts rs) st st' -> exists r, r ∈ rs /\ rsem r st st'.
Proof.
  induction rs as [|a rs IH]; [done|]. intros _. destruct rs as [|b rs].
  - intros H. exists a. split; [by left|done].
  - intros [H|(r & Hr & H)%IH]; [exists a|exists r|done]; (split; [set_solver|done]).
Qed.

Definition reservedNames : list jstring :=
  [js "system-interrupt"; js "system-reminder"; js "untrusted-content"; js "rules"].

(** A reserved tag at the start of a text that goes on with [t]. *)
Definition reservedTag (w t : jstring) : Prop :=
  exists slash blanks name p, w = c_lt :: slash ++ blanks ++ name /\ (slash = [] \/ slash = [47%N])
    /\ Forall (fun c => is_ws c = true) blanks /\ p ∈ reservedNames /\ ascii_lower <$> name = ascii_lower <$> p
    /\ (t = [] \/ exists c, head t = Some c /\ (is_ws c || (c =? c_gt)%N || (c =? 47)%N) = true).

Lemma look_sound a st st' : rsem (rx_look a) st st' -> st' = st /\ exists m, rmatch a st Some = Some m.
Proof.
  cbn [rx_look rsem rmatch]. intros [H ->]. destruct (rmatch a st Some) as [m|]; [by split; eauto|done].
Qed.

Lemma reserved_sound bef s st :
  match_at RESERVED_TAG_RE (MState bef s []) = Some st ->
  exists w, eats (MState bef s []) w st /\ reservedTag w (rest st).
Proof.
  intros H. apply rmatch_sound in H as (st' & H & [= ->]).
  destruct H as (m1 & (c & s1 & Hs & Hc & ->) & m2 & H2 & m3 & H3 & m4 & H4 & [-> [x Hx]]%look_sound).
  cbn [rest] in Hs. subst s. apply N.eqb_eq in Hc. symmetry in Hc. apply ascii_lower_not_letter in Hc as ->; [|done].
  assert (exists slash, eats (MState (c_lt :: bef) s1 []) slash m2 /\ (slash = [] \/ slash = [47%N])) as (slash & E2 & Hslash).
  { destruct H2 as [(d & s2 & Hs2 & Hd & ->)| ->]; [|exists []; by split; [|left]].
    apply N.eqb_eq in Hd. symmetry in Hd. apply ascii_lower_not_letter in Hd as ->; [|done].
    exists [47%N]. by split; [|right]. }
  apply rsem_star_class in H3 as (blanks & E3 & Hblanks & _).
  apply rsem_alts in H4 as (r & Hr & H4); [|done].
  destruct (list_elem_of_fmap_1 rx_ilit reservedNames r Hr) as (p & -> & Hp).
  apply rsem_ilit in H4 as (name & E4 & Hname).
  exists (c_lt :: slash ++ blanks ++ name). split.
  - apply (eats_trans _ [c_lt] (MState (c_lt :: bef) s1 [])); [done|]. eapply eats_trans; [done|]. by eapply eats_trans.
  - exists slash, blanks, name, p. split_and!; try done. cbn [rmatch] in Hx. destruct (rest m4) as [|d t]; [by left|right].
    destruct (_ || _) eqn:Ed in Hx; [|done]. by exists d.
Qed.

(** A reserved tag contains neither an ampersand nor a second [<]. *)
Lemma reservedTag_shape w t :
  reservedTag w t -> exists w', w = c_lt :: w' /\ (c_lt ∉ w') /\ (c_amp ∉ w') /\ (t = [] \/ head t ≠ Some c_amp).
Proof.
  intros (slash & blanks & name & p & -> & Hslash & Hblanks & Hp & Hname & Ht). eexists. split; [done|].
  assert (forall e, is_ws e = false -> e ≠ 47%N -> ascii_lower e = e -> e ∉ concat reservedNames ->
    (e ∉ slash ++ blanks ++ name)) as Hno.
  { intros e He1 He2 He3 He4. rewrite !elem_of_app. intros [Hd|[Hd|Hd]].
    - destruct Hslash as [->| ->]; [by apply not_elem_of_nil in Hd|]. by apply list_elem_of_singleton in Hd.
    - rewrite Forall_forall in Hblanks. apply Hblanks in Hd. congruence.
    - apply (list_elem_of_fmap_2 ascii_lower) in Hd. rewrite Hname, He3 in Hd. apply He4.
      assert (ascii_lower <$> p = p) as Hl.
      { revert p Hp Hname Hd. clear. intros p Hp _ _. unfold reservedNames in Hp. rewrite !elem_of_cons in Hp.
        destruct Hp as [->|[->|[->|[->|[]%not_elem_of_nil]]]]; by vm_compute. }
      rewrite Hl in Hd. apply list_elem_of_In, List.in_concat. exists p. by rewrite <- !list_elem_of_In. }
  assert (c_lt ∉ concat reservedNames) by (apply (bool_decide_unpack _); by vm_compute).
  assert (c_amp ∉ concat reservedNames) by (apply (bool_decide_unpack _); by vm_compute).
  split_and!; [by apply Hno; eauto|by apply Hno; eauto|].
  destruct Ht as [->|(c & Hc & Hcl)]; [by left|right]. intros E. rewrite E in Hc. injection Hc as <-. done.
Qed.

Lemma lower_letter d e : ascii_lower d = e -> is_lower e = true -> is_ws d = false /\ d ≠ 47%N.
Proof.
  intros <-. unfold ascii_lower. destruct (is_upper d) eqn:E; unfold is_upper, is_lower, is_ws in *; lia.
Qed.

Lemma reserved_complete w t t' bef :
  reservedTag w t -> (t = [] -> t' = []) -> head t' = head t -> match_at RESERVED_TAG_RE (MState bef (w ++ t') []) ≠ None.
Proof.
  intros (slash & blanks & name & p & -> & Hslash & Hblanks & Hp & Hname & Ht) Hnil Hhd.
  assert (stops is_ws (name ++ t') /\ (forall d r, name = d :: r -> d ≠ 47%N)) as [Hstop Hsl].
  { assert (exists e, head (ascii_lower <$> p) = Some e /\ is_lower e = true) as (e & He & Hlow).
    { unfold reservedNames in Hp. rewrite !elem_of_cons in Hp.
      destruct Hp as [->|[->|[->|[->|[]%not_elem_of_nil]]]]; eexists; by vm_compute. }
    rewrite <- Hname in He. destruct name as [|d name]; [done|]. injection He as Hd.
    destruct (lower_letter d e Hd Hlow) as [H1 H2]. split; [exact H1|]. by intros ? ? [= <- _]. }
  assert (exists x, rmatch (rx_look (rx_alt (rx_class (fun c => is_ws c || (c =? c_gt)%N || (c =? 47)%N)) rx_eol))
    (MState (reverse name ++ reverse blanks ++ reverse slash ++ c_lt :: bef) t' []) Some = Some x) as [x Hx].
  { destruct Ht as [->|(c & Hc & Hcl)]; [rewrite (Hnil eq_refl); by eexists|].
    rewrite Hc in Hhd. destruct t' as [|d t']; [done|]. injection Hhd as ->. cbn [rmatch rx_look rest]. rewrite Hcl. by eexists. }
  assert (rmatch (rx_seqs [rx_star rx_ws; rx_alts (rx_ilit <$> reservedNames);
    rx_look (rx_alt (rx_class (fun c => is_ws c || (c =? c_gt)%N || (c =? 47)%N)) rx_eol)])
    (MState (reverse slash ++ c_lt :: bef) (blanks ++ name ++ t') []) Some ≠ None) as Hrest.
  { cbn [rx_seqs]. cbn [rmatch]. destruct (rmatch (rx_alts (rx_ilit <$> reservedNames))
      (MState (reverse blanks ++ reverse slash ++ c_lt :: bef) (name ++ t') [])
      (fun st' => rmatch (rx_look (rx_alt (rx_class (fun c => is_ws c || (c =? c_gt)%N || (c =? 47)%N)) rx_eol)) st' Some))
      as [y|] eqn:Ey.
    - change (rmatch (rx_star rx_ws) (MState (reverse slash ++ c_lt :: bef) (blanks ++ name ++ t') []) (fun st' =>
        rmatch (rx_alts (rx_ilit <$> reservedNames)) st' (fun st' => rmatch (rx_look (rx_alt (rx_class
          (fun c => is_ws c || (c =? c_gt)%N || (c =? 47)%N)) rx_eol)) st' Some)) ≠ None).
      erewrite (star_class_greedy is_ws _ _ _ blanks (name ++ t')); [done|done|done|exact Ey].
    - exfalso. eapply (alts_some (rx_ilit <$> reservedNames) (rx_ilit p)); [by apply list_elem_of_fmap_2| |exact Ey].
      erewrite (rx_ilit_match p name); [done|done|exact Hx]. }
  unfold match_at, RESERVED_TAG_RE.
  change (match rest (MState bef ((c_lt :: slash ++ blanks ++ name) ++ t') []) with
    | c :: s => if (ascii_lower c_lt =? ascii_lower c)%N then
        rmatch (rx_seq (rx_opt (rx_ichar 47)) (rx_seqs [rx_star rx_ws; rx_alts (rx_ilit <$> reservedNames);
          rx_look (rx_alt (rx_class (fun c => is_ws c || (c =? c_gt)%N || (c =? 47)%N)) rx_eol)]))
          (advance (MState bef ((c_lt :: slash ++ blanks ++ name) ++ t') []) c s) Some else None
    | [] => None end ≠ None).
  cbn [rest app]. change (ascii_lower c_lt =? ascii_lower c_lt)%N with true. cbv iota. unfold advance. cbn [consumed caps].
  rewrite <- !app_assoc. destruct Hslash as [->| ->].
  - apply alt_some_r. exact Hrest.
  - apply alt_some_l. exact Hrest.
Qed.

Lemma reserved_inert : inert_replacement RESERVED_TAG_RE (fun tag => js "&lt;" ++ drop 1 tag).
Proof.
  intros bef s st (w & Hw & Htag)%reserved_sound. destruct (reservedTag_shape _ _ Htag) as (w' & -> & Hlt & Hamp & _).
  exists (c_lt :: w'). split_and!; try done. change (drop 1 (c_lt :: w')) with w'. rewrite elem_of_app.
  intros [H|H]; [|done]. revert H. apply (bool_decide_unpack _). by vm_compute.
Qed.

(** Safety. After [neutralizeReservedPromptTag] no reserved tag is left in a rule's text, opening or closing,
    in any case, with any white space after the [<]: the pattern matches nowhere in the result. *)
Theorem reserved_tags_are_neutralised value pre t bef :
  neutralizeReservedPromptTag value = pre ++ t -> match_at RESERVED_TAG_RE (MState bef t []) = None.
Proof.
  intros E. destruct (match_at RESERVED_TAG_RE (MState bef t [])) as [st|] eqn:Em; [|done]. exfalso.
  apply reserved_sound in Em as (w & [Hw _] & Htag). cbn [rest] in Hw. subst t.
  destruct (reservedTag_shape _ _ Htag) as (w' & -> & _ & Hamp & Hnext).
  apply (replace_all_suffix _ _ reserved_inert) in E as (n & bef' & p & s & Hs & Hlen & Hno & E); [|lia|done].
  symmetry in E. apply (replace_all_prefix _ _ reserved_inert) in E as (t' & -> & Hnil & Hhd);
    [|done|by apply not_elem_of_cons].
  apply (reserved_complete _ _ t' bef' Htag Hnil); [|done].
  destruct Hnext as [Hn|Hn]; [|by apply Hhd]. by rewrite (Hnil Hn), Hn.
Qed.

Lemma reserved_tags_are_neutralised_witness :
  neutralizeReservedPromptTag (js "</ System-Reminder><Button>") = js "&lt;/ System-Reminder><Button>"
  /\ match_at RESERVED_TAG_RE (MState [] (js "<Button>") []) = None.
Proof.
  split; [by vm_compute|].
  apply (reserved_tags_are_neutralised (js "</ System-Reminder><Button>") (js "&lt;/ System-Reminder>") (js "<Button>") []).
  by vm_compute.
Defined.

(** ** XML escapes: no markup, nothing lost *)

(** A reader of the five predefined entities. *)
Definition entities : list (jstring * N) :=
  [(js "&amp;", c_amp); (js "&lt;", c_lt); (js "&gt;", c_gt); (js "&quot;", c_quot); (js "&apos;", c_apos)].

Definition readEntity (s : jstring) : option (N * jstring) :=
  head (omap (fun '(e, c) => (fun r => (c, r)) <$> strip_prefix e s) entities).

Fixpoint unescapeXml (fuel : nat) (s : jstring) : jstring :=
  match fuel, s with
  | S fuel, c :: s' => match readEntity s with
                       | Some (d, r) => d :: unescapeXml fuel r
                       | None => c :: unescapeXml fuel s'
                       end
  | _, _ => []
  end.

Lemma readEntity_entity e c s : (e, c) ∈ entities -> readEntity (e ++ s) = Some (c, s).
Proof.
  unfold entities. rewrite !elem_of_cons.
  intros [[= -> ->]|[[= -> ->]|[[= -> ->]|[[= -> ->]|[[= -> ->]|[]%not_elem_of_nil]]]]]; reflexivity.
Qed.

Lemma readEntity_other c s : c ≠ c_amp -> readEntity (c :: s) = None.
Proof.
  intros Hc. unfold readEntity, entities. assert (c_amp =? c = false)%N as H by (apply N.eqb_neq; congruence).
  assert (forall e : jstring, head e = Some c_amp -> strip_prefix e (c :: s) = None) as Hs
    by (intros [|d e]; [done|]; intros [= ->]; cbn [strip_prefix]; by rewrite H).
  cbn [omap list_omap]. by rewrite !Hs.
Qed.

(** One escaped unit is read back as that unit. *)
Definition readable (f : N -> jstring) : Prop :=
  forall c, (f c = [c] /\ c ≠ c_amp) \/ (f c, c) ∈ entities.

Lemma unescape_readable f s n :
  readable f -> (length (s ≫= f) <= n)%nat -> unescapeXml n (s ≫= f) = s.
Proof.
  intros Hf. revert n. induction s as [|c s IH]; intros n Hn; [by destruct n|].
  change ((c :: s) ≫= f) with (f c ++ (s ≫= f)) in *. rewrite length_app in Hn.
  destruct (Hf c) as [[E Hc]|Hc].
  - rewrite E in *. cbn [length] in Hn. destruct n as [|n]; [lia|]. cbn [app unescapeXml].
    rewrite readEntity_other by done. f_equal. apply IH. lia.
  - assert ([] ∉ entities.*1) as Hne by (apply (bool_decide_unpack _); by vm_compute).
    destruct (f c) as [|d r] eqn:Ef; [by apply (list_elem_of_fmap_2 fst) in Hc|]. cbn [length] in Hn. destruct n as [|n]; [lia|].
    cbn [app unescapeXml]. change (d :: r ++ (s ≫= f)) with ((d :: r) ++ (s ≫= f)).
    rewrite (readEntity_entity _ _ _ Hc). f_equal. apply IH. lia.
Qed.

Lemma escapeTextUnit_readable : readable escapeTextUnit.
Proof.
  intros c. unfold escapeTextUnit. repeat case_match; zify_bool;
    try (match goal with H : (c =? _)%N = true |- _ => apply N.eqb_eq in H; subst c end; right; set_solver).
  left. split; [done|]. by intros ->.
Qed.

Lemma escapeAttributeUnit_readable : readable escapeAttributeUnit.
Proof.
  intros c. unfold escapeAttributeUnit. repeat case_match; zify_bool;
    try (match goal with H : (c =? _)%N = true |- _ => apply N.eqb_eq in H; subst c end; right; set_solver).
  left. split; [done|]. by intros ->.
Qed.

Lemma bind_id (f : N -> jstring) s : Forall (fun c => f c = [c]) s -> s ≫= f = s.
Proof. induction 1 as [|c s Hc _ IH]; [done|]. cbn [mbind list_bind] in *. by rewrite Hc, IH. Qed.

Lemma existsb_Forall {A} (p : A -> bool) l : existsb p l = false -> Forall (fun c => p c = false) l.
Proof. induction l as [|c l IH]; [constructor|]. cbn. intros [H1 H2]%orb_false_iff. constructor; auto. Qed.

Lemma escapeXmlText_bind s : escapeXmlText s = s ≫= escapeTextUnit.
Proof.
  unfold escapeXmlText. destruct (existsb _ s) eqn:E; [done|]. cbn [negb]. symmetry. apply bind_id.
  eapply Forall_impl; [by apply existsb_Forall|]. cbn beta. intros c Hc. change (js "&<>") with [38; 60; 62]%N in Hc.
  cbn [existsb] in Hc. unfold escapeTextUnit, c_amp, c_lt, c_gt. rewrite !orb_false_iff in Hc.
  destruct Hc as (-> & -> & -> & _). done.
Qed.

Lemma escapeXmlAttribute_bind s : escapeXmlAttribute s = s ≫= escapeAttributeUnit.
Proof.
  unfold escapeXmlAttribute. destruct (existsb _ s) eqn:E; [done|]. cbn [negb]. symmetry. apply bind_id.
  eapply Forall_impl; [by apply existsb_Forall|]. cbn beta. intros c Hc. unfold escapeAttributeUnit.
  rewrite !orb_false_iff in Hc. destruct Hc as ((((-> & ->) & ->) & ->) & ->). done.
Qed.

(** The slice of the goal runtime changes nothing. *)
Lemma goalEscapeXmlText_bind s : goalEscapeXmlText s = s ≫= escapeTextUnit.
Proof.
  unfold goalEscapeXmlText.
  assert (forall n, firstEscapable s = Some n -> Forall (fun c => escapeTextUnit c = [c]) (take n s)) as Hpre.
  { induction s as [|c s IH]; intros n; [done|]. cbn [firstEscapable]. destruct (_ || _) eqn:E; [by intros [= <-]|].
    intros (m & Hm & ->)%fmap_Some. cbn [take]. constructor; [|by apply IH].
    rewrite !orb_false_iff in E. unfold escapeTextUnit, c_amp, c_lt, c_gt. by destruct E as ((-> & ->) & ->). }
  destruct (firstEscapable s) as [n|] eqn:E.
  - rewrite <- (take_drop n s) at 3. rewrite bind_app. by rewrite (bind_id _ _ (Hpre n eq_refl)).
  - symmetry. apply bind_id. revert E. clear. induction s as [|c s IH]; [constructor|]. cbn [firstEscapable].
    destruct (_ || _) eqn:E; [done|]. destruct (firstEscapable s); [done|]. intros _. constructor; [|auto].
    rewrite !orb_false_iff in E. unfold escapeTextUnit, c_amp, c_lt, c_gt. by destruct E as ((-> & ->) & ->).
Qed.

Lemma elem_of_escaped (f : N -> jstring) s c : c ∈ s ≫= f -> exists d, c ∈ f d.
Proof. intros (d & Hc & _)%list_elem_of_bind. by exists d. Qed.

(** Round trip. The text and attribute escapes print no markup of their own kind (no angle bracket, and
    in an attribute no quote), lose nothing (reading the entities gives the input back), and the goal runtime's
    sliced version computes the same text. *)
Theorem xml_escape_roundtrip s :
  (c_lt ∉ escapeXmlText s) /\ (c_gt ∉ escapeXmlText s)
  /\ Forall (fun c => c ≠ c_lt /\ c ≠ c_gt /\ c ≠ c_quot /\ c ≠ c_apos) (escapeXmlAttribute s)
  /\ unescapeXml (length (escapeXmlText s)) (escapeXmlText s) = s
  /\ unescapeXml (length (escapeXmlAttribute s)) (escapeXmlAttribute s) = s
  /\ goalEscapeXmlText s = escapeXmlText s.
Proof.
  rewrite escapeXmlText_bind, escapeXmlAttribute_bind, goalEscapeXmlText_bind. split_and!; try done.
  - intros (d & Hd)%elem_of_escaped. revert Hd. unfold escapeTextUnit. repeat case_match; zify_bool; set_solver.
  - intros (d & Hd)%elem_of_escaped. revert Hd. unfold escapeTextUnit. repeat case_match; zify_bool; set_solver.
  - apply Forall_forall. intros c (d & Hd)%elem_of_escaped. revert Hd. unfold escapeAttributeUnit.
    repeat case_match; rewrite ?list_elem_of_singleton; intros Hd; try (by revert Hd; set_solver).
  - apply unescape_readable; [apply escapeTextUnit_readable|done].
  - apply unescape_readable; [apply escapeAttributeUnit_readable|done].
Qed.

(** ** Prompt metadata *)

(** What may be left of the pattern's class: half of a pair, the ampersand of an entity, and line feeds and
    tabs where they are preserved. *)
Definition inertUnit (preserveNewlines : bool) (c : N) : Prop :=
  metadataUnit c = false \/ is_high c = true \/ is_low c = true \/ c = c_amp
  \/ (preserveNewlines = true /\ (c = c_lf \/ c = 9%N)).

(** Every surrogate is half of a pair. *)
Fixpoint paired (s : jstring) : bool :=
  match s with
  | [] => true
  | c :: s' => if is_high c then match s' with d :: s'' => is_low d && paired s'' | [] => false end
               else negb (is_low c) && paired s'
  end.

Lemma hexDigit_plain n : (n < 16)%N -> metadataUnit (hexDigit n) = false /\ is_high (hexDigit n) = false /\ is_low (hexDigit n) = false.
Proof.
  intros Hn. unfold hexDigit, metadataUnit, is_high, is_low, c_amp, c_lt, c_gt, c_quot.
  destruct (N.ltb_spec n 10); lia.
Qed.

Definition plainUnit (c : N) : Prop := metadataUnit c = false \/ c = c_amp.

#[local] Instance plainUnit_dec c : Decision (plainUnit c).
Proof. unfold plainUnit. apply _. Defined.

Lemma plainUnit_paired s t : Forall plainUnit s -> paired (s ++ t) = paired t.
Proof.
  induction 1 as [|c s Hc _ IH]; [done|]. cbn [app paired]. rewrite IH.
  assert (is_high c = false /\ is_low c = false) as [-> ->]; [|done].
  unfold plainUnit, metadataUnit, is_high, is_low, c_amp in *. lia.
Qed.

Lemma unicodeEscape_plain c : Forall plainUnit (unicodeEscape c).
Proof.
  unfold unicodeEscape. rewrite !Forall_cons. split_and!; [by left|by left|..|constructor]; left;
    apply hexDigit_plain, N.mod_lt; done.
Qed.

Lemma escapeMetadataUnit_cases p prev c next :
  let pairs := (is_high c && match next with Some d => is_low d | None => false end)
               || (is_low c && match prev with Some d => is_high d | None => false end) in
  if pairs then escapeMetadataUnit p prev c next = [c]
  else Forall plainUnit (escapeMetadataUnit p prev c next)
       \/ (p = true /\ (c = c_lf \/ c = 9%N) /\ escapeMetadataUnit p prev c next = [c]).
Proof.
  cbv zeta. unfold escapeMetadataUnit. destruct (metadataUnit c) eqn:Em; cbn [negb].
  - destruct (_ || _) eqn:Ep; [done|]. destruct p; cbn [andb].
    + destruct ((c =? c_lf)%N || (c =? 9)%N) eqn:En.
      * right. split_and!; try done. apply orb_true_iff in En as [H%N.eqb_eq|H%N.eqb_eq]; auto.
      * left. repeat case_match; try apply unicodeEscape_plain; (apply (bool_decide_unpack _); by vm_compute).
    + left. repeat case_match; try apply unicodeEscape_plain; (apply (bool_decide_unpack _); by vm_compute).
  - destruct (_ || _); [done|]. left. apply Forall_singleton. by left.
Qed.

Lemma escapeMetadataFrom_inert p prev value : Forall (inertUnit p) (escapeMetadataFrom p prev value).
Proof.
  revert prev. induction value as [|c value IH]; intros prev; [constructor|]. cbn [escapeMetadataFrom].
  apply Forall_app. split; [|apply IH]. pose proof (escapeMetadataUnit_cases p prev c (head value)) as H. cbv zeta in H.
  destruct (_ || _) eqn:Ep in H.
  - rewrite H. constructor; [|constructor]. apply orb_true_iff in Ep as [[E _]%andb_true_iff|[E _]%andb_true_iff];
      [right; by left|right; right; by left].
  - destruct H as [H|(Hp & Hc & ->)].
    + eapply Forall_impl; [exact H|]. intros d [Hd| ->]; [by left|]. do 3 right. by left.
    + constructor; [|constructor]. do 4 right. done.
Qed.

Lemma escapeMetadataFrom_paired p prev value :
  (match prev with Some d => is_high d | None => false end = true ->
   match head value with Some d => is_low d | None => false end = false) ->
  paired (escapeMetadataFrom p prev value) = true.
Proof.
  revert prev. induction value as [value IH] using (induction_ltof1 _ (@length N)). unfold ltof in IH.
  intros prev Hprev. destruct value as [|c value]; [done|]. cbn [escapeMetadataFrom head] in *.
  pose proof (escapeMetadataUnit_cases p prev c (head value)) as H. cbv zeta in H.
  destruct (is_high c && _) eqn:Ehi in H; cbn [orb] in H.
  - rewrite H. apply andb_true_iff in Ehi as [Hh Hl]. destruct value as [|d value]; [done|]. cbn [head] in Hl.
    cbn [escapeMetadataFrom]. pose proof (escapeMetadataUnit_cases p (Some c) d (head value)) as Hd. cbv zeta in Hd.
    rewrite Hl, Hh in Hd. cbn [andb] in Hd. rewrite orb_true_r in Hd. rewrite Hd. cbn [app paired]. rewrite Hh, Hl. cbn [andb].
    apply IH; [cbn; lia|]. intros Hd'. exfalso. unfold is_high, is_low in *. lia.
  - destruct (is_low c && _) eqn:Elo in H.
    + apply andb_true_iff in Elo as [Hl Hh]. rewrite (Hprev Hh) in Hl. done.
    + assert (paired (escapeMetadataFrom p (Some c) value) = true) as Hrest.
      { apply IH; [cbn; lia|]. intros Hc. rewrite Hc in Ehi. done. }
      destruct H as [H|(_ & Hc & ->)]; [by rewrite plainUnit_paired|]. destruct Hc as [->| ->]; exact Hrest.
Qed.

(** Safety. Escaped prompt metadata has no angle bracket and no quote, no control or bidirectional character (line feeds
    and tabs excepted where they are preserved), and every surrogate in it is half of a pair. *)
Theorem metadata_is_inert value preserveNewlines :
  Forall (fun c => inertUnit preserveNewlines c /\ c ≠ c_lt /\ c ≠ c_gt /\ c ≠ c_quot) (escapePromptMetadata value preserveNewlines)
  /\ paired (escapePromptMetadata value preserveNewlines) = true.
Proof.
  split; [|by apply escapeMetadataFrom_paired]. eapply Forall_impl; [apply escapeMetadataFrom_inert|].
  intros c Hc. split; [done|].
  unfold inertUnit, metadataUnit, is_high, is_low, c_amp, c_lt, c_gt, c_quot, c_lf in *.
  split_and!; intros ->; repeat destruct Hc as [Hc|Hc]; try done; by destruct Hc as [_ [?|?]].
Qed.
