(* ===== verification/EditGuards.v ===== *)
(** * Guards of the edit tools

    [tools/plan-mode-guard.ts]: in plan mode only the plan file may be written.
    [tools/auto-generated-guard.ts]: files that look generated, by name or by a marker in their leading
    comment, are refused.  Path resolution ([resolveRawPath]: local URLs, the working directory) and Node's
    [path] module are interfaces. *)
From S2P Require Import Prelude JsString JsRegex PromptFraming.
Open Scope Z_scope.

(** ** The session as the guards see it *)

Record PlanModeState : Type := { enabled : bool; planFilePath : jstring }.

Inductive GuardError : Type :=
| UnresolvedPath (p : jstring)
| PlanModeRename
| PlanModeDelete
| PlanModeOther (plan : jstring)
| AutoGenerated (displayPath detected : jstring).

(** Node's [path], [String.prototype.toLowerCase], and the session's settings and path resolution. *)
Class GuardEnv := {
  basename : jstring -> jstring;
  extname : jstring -> jstring;
  win32_basename : jstring -> jstring;
  toLowerCase : jstring -> jstring;
  resolveRawPath : jstring -> result GuardError jstring;
  planModeState : option PlanModeState;
  blockAutoGenerated : bool
}.

Inductive WriteOp : Type := op_create | op_update | op_delete.

Section plan_mode.
Context `{GuardEnv}.

Definition planModeOn : option PlanModeState :=
  match planModeState with Some state => if enabled state then Some state else None | None => None end.

Definition resolvePlanPath (targetPath : jstring) : result GuardError jstring :=
  resolved ← resolveRawPath targetPath;
  match planModeOn with
  | None => Ok resolved
  | Some state =>
      planResolved ← resolveRawPath (planFilePath state);
      if bool_decide (resolved = planResolved) then Ok resolved
      else if negb (bool_decide (basename resolved = basename planResolved)) then Ok resolved
      else Ok planResolved
  end.

Definition enforcePlanModeWrite (targetPath : jstring) (move : option jstring) (op : WriteOp) : result GuardError unit :=
  match planModeOn with
  | None => Ok tt
  | Some state =>
      resolvedTarget ← resolvePlanPath targetPath;
      resolvedPlan ← resolvePlanPath (planFilePath state);
      match move with
      | Some (_ :: _) => Throw PlanModeRename
      | _ =>
          match op with
          | op_delete => Throw PlanModeDelete
          | _ => if negb (bool_decide (resolvedTarget = resolvedPlan)) then Throw (PlanModeOther (planFilePath state))
                 else Ok tt
          end
      end
  end.

End plan_mode.

(** ** Generated files *)

Definition CHECK_BYTE_COUNT : nat := 1024.
Definition HEADER_LINE_LIMIT : nat := 40.

Definition rx_word : regex := rx_class is_word.
Definition rx_ws_plus : regex := rx_plus rx_ws.
(** A class under the [i] flag: both cases of its ASCII letters. *)
Definition rx_iclass (p : N -> bool) : regex := rx_class (fun c => p (ascii_lower c)).
(** [[a-z0-9_.-]] and [[a-z0-9_./-]] *)
Definition is_name_unit (c : N) : bool := is_lower c || is_digit c || existsb (N.eqb c) (js "_.-").
Definition is_path_unit (c : N) : bool := is_lower c || is_digit c || existsb (N.eqb c) (js "_./-").

Definition KNOWN_GENERATOR_PATTERN : regex :=
  rx_alts [
    rx_seq (rx_ilit (js "protoc"))
      (rx_opt (rx_seq (rx_ilit (js "-gen-")) (rx_plus (rx_class (fun c => is_word c || (c =? 45)%N)))));
    rx_ilit (js "sqlc"); rx_ilit (js "buf");
    rx_seq (rx_ilit (js "swagger")) (rx_opt (rx_ilit (js "-codegen")));
    rx_seq (rx_ilit (js "openapi")) (rx_opt (rx_ilit (js "-generator")));
    rx_ilit (js "grpc-gateway"); rx_ilit (js "mockery"); rx_ilit (js "stringer"); rx_ilit (js "easyjson");
    rx_ilit (js "deepcopy-gen"); rx_ilit (js "defaulter-gen"); rx_ilit (js "conversion-gen");
    rx_ilit (js "client-gen"); rx_ilit (js "lister-gen"); rx_ilit (js "informer-gen");
    rx_ilit (js "kysely-codegen"); rx_ilit (js "napi-rs")].

Definition rx_words (ws : list jstring) : list regex :=
  match ws with [] => [] | w :: ws' => rx_ilit w :: (ws' ≫= fun w => [rx_ws_plus; rx_ilit w]) end.

Definition AUTO_GENERATED_HEADER_MARKERS : list regex := [
  rx_seqs [rx_ilit (js "@generated"); rx_wordb];
  rx_seqs (rx_wordb :: rx_words [js "code"; js "generated"; js "by"] ++ [rx_ws_plus; rx_plus (rx_iclass is_name_unit)]);
  rx_seqs (rx_wordb :: rx_words [js "this"; js "file"; js "was"; js "automatically"; js "generated"] ++ [rx_wordb]);
  rx_seqs (rx_wordb :: rx_words [js "generated"; js "by"] ++ [rx_ws_plus; KNOWN_GENERATOR_PATTERN; rx_wordb]);
  rx_seqs (rx_wordb :: rx_words [js "generated"; js "by"; js "scripts/"] ++ [rx_plus (rx_iclass is_path_unit)]);
  rx_seqs (rx_wordb :: rx_words [js "auto-generated"; js "by"] ++ [rx_ws_plus; rx_plus (rx_iclass is_path_unit)])].

Inductive CommentStyle : Type := slash | hashStyle | sql | html.

#[global] Instance CommentStyle_eq_dec : EqDecision CommentStyle.
Proof. solve_decision. Defined.

Definition COMMENT_STYLES_BY_EXTENSION : list (jstring * CommentStyle) :=
  ((fun e => (js e, slash)) <$>
    [".c"; ".cc"; ".cpp"; ".cs"; ".dart"; ".go"; ".h"; ".hpp"; ".java"; ".js"; ".jsx"; ".kt"; ".kts"; ".mjs"; ".cjs";
     ".php"; ".rs"; ".scala"; ".swift"; ".ts"; ".tsx"]%string)
  ++ ((fun e => (js e, hashStyle)) <$>
    [".py"; ".rb"; ".sh"; ".bash"; ".zsh"; ".yml"; ".yaml"; ".toml"; ".ini"; ".cfg"; ".conf"; ".env"; ".pl"; ".r"]%string)
  ++ [(js ".sql", sql)]
  ++ ((fun e => (js e, html)) <$> [".html"; ".htm"; ".xml"; ".svg"; ".xhtml"]%string).

Definition COMMENT_STYLES_BY_BASENAME : list (jstring * CommentStyle) :=
  (fun e => (js e, hashStyle)) <$> ["dockerfile"; "makefile"; "justfile"]%string.

(** A literal, a dot, one of the extensions, and the end. *)
Definition rx_ext (exts : list string) : regex := rx_alts ((fun e => rx_lit (js e)) <$> exts).

Definition AUTO_GENERATED_FILENAME_PATTERNS : list regex := [
  rx_seq rx_bol (rx_lit (js "zz_generated."));
  rx_seqs [rx_lit (js ".pb."); rx_ext ["go"; "cc"; "h"; "c"; "js"; "ts"]%string; rx_eol];
  rx_seq (rx_lit (js "_pb2.py")) rx_eol;
  rx_seq (rx_lit (js "_pb2_grpc.py")) rx_eol;
  rx_seqs [rx_lit (js ".gen."); rx_ext ["go"; "ts"; "js"; "py"]%string; rx_eol];
  rx_seq (rx_lit (js ".generated.ts")) rx_eol;
  rx_seq rx_bol (rx_seqs [rx_lit (js "generated."); rx_ext ["go"; "ts"; "js"; "py"]%string; rx_eol]);
  rx_seq (rx_lit (js ".swagger.json")) rx_eol;
  rx_seq (rx_lit (js ".openapi.json")) rx_eol;
  rx_seqs [rx_lit (js ".mock."); rx_ext ["go"; "ts"]%string; rx_eol];
  rx_seqs [rx_lit (js ".mock"); rx_opt (rx_char 115); rx_char 46; rx_ext ["go"; "ts"; "js"]%string; rx_eol]].

(** The states of the loop over the header's lines. *)
Record headerState : Type := { headerLines : list jstring; started : bool; inSlashBlock : bool; inHtmlBlock : bool }.

Definition noHeader : headerState :=
  {| headerLines := []; started := false; inSlashBlock := false; inHtmlBlock := false |}.

Definition pushHeader (st : headerState) (l : jstring) (inSlash inHtml : bool) : headerState :=
  {| headerLines := headerLines st ++ [l]; started := true; inSlashBlock := inSlash; inHtmlBlock := inHtml |}.

(** One line; [None] is [break]. *)
Definition headerLine (styles : list CommentStyle) (first : bool) (st : headerState) (l : jstring) : option headerState :=
  let trimmed := trim l in
  let includes_style s := bool_decide (s ∈ styles) in
  if first && starts_with (js "#!") trimmed then Some st
  else if inSlashBlock st then
    Some {| headerLines := headerLines st ++ [trimmed]; started := started st;
            inSlashBlock := negb (includes (js "*/") trimmed); inHtmlBlock := inHtmlBlock st |}
  else if inHtmlBlock st then
    Some {| headerLines := headerLines st ++ [trimmed]; started := started st;
            inSlashBlock := inSlashBlock st; inHtmlBlock := negb (includes (js "-->") trimmed) |}
  else if (length trimmed =? 0)%nat then
    Some (if started st then {| headerLines := headerLines st ++ [[]]; started := started st;
                                inSlashBlock := inSlashBlock st; inHtmlBlock := inHtmlBlock st |} else st)
  else if includes_style slash && starts_with (js "//") trimmed then Some (pushHeader st trimmed false false)
  else if includes_style slash && starts_with (js "/*") trimmed then
    Some (pushHeader st trimmed (negb (includes (js "*/") trimmed)) false)
  else if includes_style hashStyle && starts_with (js "#") trimmed then Some (pushHeader st trimmed false false)
  else if includes_style sql && starts_with (js "--") trimmed then Some (pushHeader st trimmed false false)
  else if includes_style html && starts_with (js "<!--") trimmed then
    Some (pushHeader st trimmed false (negb (includes (js "-->") trimmed)))
  else None.

Fixpoint headerLoop (styles : list CommentStyle) (first : bool) (st : headerState) (ls : list jstring) : headerState :=
  match ls with
  | [] => st
  | l :: ls' => match headerLine styles first st l with
                | Some st' => headerLoop styles false st' ls'
                | None => st
                end
  end.

Definition dropBom (content : jstring) : jstring :=
  match content with c :: rest => if (c =? 65279)%N then rest else content | [] => [] end.

Definition extractLeadingHeaderCommentText (content : jstring) (styles : list CommentStyle) : jstring :=
  match styles with
  | [] => []
  | _ => join [c_lf] (headerLines (headerLoop styles true noHeader
           (take HEADER_LINE_LIMIT (split_crlf (dropBom content)))))
  end.

Definition assoc {A} (k : jstring) (l : list (jstring * A)) : option A :=
  snd <$> List.find (fun e => bool_decide (e.1 = k)) l.

(** [match?.[0]] of the first pattern that matches with a text that is not empty. *)
Definition matched (r : regex) (s : jstring) : option jstring :=
  match exec_from r [] s with
  | Some (st, st') => match consumed_since st st' with [] => None | w => Some w end
  | None => None
  end.

Section generated.
Context `{GuardEnv}.

Definition getCommentStylesForPath (filePath : jstring) : list CommentStyle :=
  let fileName := basename (toLowerCase filePath) in
  match assoc fileName COMMENT_STYLES_BY_BASENAME with
  | Some style => [style]
  | None => match assoc (extname fileName) COMMENT_STYLES_BY_EXTENSION with Some style => [style] | None => [] end
  end.

Definition guardFileName (filePath : jstring) : jstring := win32_basename filePath.

Definition isAutoGeneratedFileName (filePath : jstring) : bool :=
  existsb (fun pattern => test pattern (guardFileName filePath)) AUTO_GENERATED_FILENAME_PATTERNS.

Definition detectAutoGeneratedMarker (content filePath : jstring) : option jstring :=
  let headerCommentText := extractLeadingHeaderCommentText content (getCommentStylesForPath filePath) in
  match headerCommentText with
  | [] => None
  | _ => head (omap (fun markerPattern => matched markerPattern headerCommentText) AUTO_GENERATED_HEADER_MARKERS)
  end.

Definition assertEditableFileName (absolutePath displayPath : jstring) : result GuardError unit :=
  if negb blockAutoGenerated then Ok tt
  else if negb (isAutoGeneratedFileName absolutePath) then Ok tt
  else Throw (AutoGenerated displayPath (guardFileName absolutePath)).

Definition assertEditableFileContent (content displayPath : jstring) : result GuardError unit :=
  if negb blockAutoGenerated then Ok tt
  else match detectAutoGeneratedMarker (take CHECK_BYTE_COUNT content) displayPath with
       | Some marker => Throw (AutoGenerated displayPath marker)
       | None => Ok tt
       end.

End generated.

(** ** Plan mode confines writes *)

Section plan_mode_facts.
Context `{GuardEnv}.

Lemma planModeOn_state state : planModeOn = Some state -> planModeState = Some state /\ enabled state = true.
Proof. unfold planModeOn. repeat case_match; naive_solver. Qed.

(** The plan file itself is where it was. *)
Lemma resolvePlanPath_plan state plan :
  planModeOn = Some state -> resolveRawPath (planFilePath state) = Ok plan ->
  resolvePlanPath (planFilePath state) = Ok plan.
Proof.
  intros Hon Hplan. unfold resolvePlanPath. rewrite Hplan. cbn [mbind result_bind]. rewrite Hon, Hplan.
  cbn [mbind result_bind]. by rewrite bool_decide_eq_true_2.
Qed.

Lemma resolvePlanPath_iff state plan target :
  planModeOn = Some state -> resolveRawPath (planFilePath state) = Ok plan ->
  resolvePlanPath target = Ok plan <->
  exists resolved, resolveRawPath target = Ok resolved /\ (resolved = plan \/ basename resolved = basename plan).
Proof.
  intros Hon Hplan. unfold resolvePlanPath. destruct (resolveRawPath target) as [resolved|e]; cbn [mbind result_bind].
  - rewrite Hon, Hplan. cbn [mbind result_bind].
    case_bool_decide; [|case_bool_decide; cbn [negb]]; naive_solver.
  - split; [done|]. by intros (? & ? & _).
Qed.

Lemma enforce_iff state plan target move op :
  planModeOn = Some state -> resolveRawPath (planFilePath state) = Ok plan ->
  enforcePlanModeWrite target move op = Ok tt <->
  default [] move = [] /\ op <> op_delete /\ resolvePlanPath target = Ok plan.
Proof.
  intros Hon Hplan. unfold enforcePlanModeWrite. rewrite Hon, (resolvePlanPath_plan state plan Hon Hplan).
  destruct (resolvePlanPath target) as [t|e]; cbn [mbind result_bind]; [|naive_solver].
  destruct move as [[|c m]|], op; cbn [default from_option]; try case_bool_decide; naive_solver.
Qed.

(** safety. In plan mode a write is let through exactly when it neither renames nor deletes and its target is the plan
    file, or names it by its base name alone; and then the path the edit goes on to write is the plan file. *)
Theorem plan_mode_confines_writes state plan target move op :
  planModeState = Some state -> enabled state = true -> resolveRawPath (planFilePath state) = Ok plan ->
  (enforcePlanModeWrite target move op = Ok tt <->
   default [] move = [] /\ op <> op_delete /\
   exists resolved, resolveRawPath target = Ok resolved /\ (resolved = plan \/ basename resolved = basename plan))
  /\ (enforcePlanModeWrite target move op = Ok tt -> resolvePlanPath target = Ok plan).
Proof.
  intros Hs He Hplan. assert (planModeOn = Some state) as Hon by by unfold planModeOn; rewrite Hs, He.
  rewrite (enforce_iff _ _ _ _ _ Hon Hplan), (resolvePlanPath_iff _ _ _ Hon Hplan). tauto.
Qed.

End plan_mode_facts.

(** ** The header ends where the code begins *)

Section header.
Context (styles : list CommentStyle).

(** [code] is the first line after the header [hdr]. *)
Definition endsHeader (hdr : list jstring) (code : jstring) : Prop :=
  exists st, foldM (E := unit) (fun '(first, st) l =>
      match headerLine styles first st l with Some st' => Ok (false, st') | None => Throw tt end) (true, noHeader) hdr = Ok st
    /\ headerLine styles st.1 st.2 code = None.

Lemma headerLoop_stops first st hdr code rest :
  (exists st', foldM (E := unit) (fun '(first, st) l =>
      match headerLine styles first st l with Some st' => Ok (false, st') | None => Throw tt end) (first, st) hdr = Ok st'
    /\ headerLine styles st'.1 st'.2 code = None) ->
  forall n, headerLoop styles first st (take n (hdr ++ code :: rest)) = headerLoop styles first st (take n (hdr ++ [code])).
Proof.
  revert first st. induction hdr as [|l hdr IH]; intros first st (st' & Hf & Hc) n; cbn [foldM] in Hf.
  - injection Hf as <-. cbn [fst snd] in Hc. destruct n as [|n]; [done|]. cbn [app take headerLoop]. by rewrite Hc.
  - destruct n as [|n]; [done|]. cbn [app take headerLoop].
    destruct (headerLine styles first st l) as [st1|]; [|done]. apply IH. by exists st'.
Qed.

End header.

Section header_facts.
Context `{GuardEnv}.

(** functional. Only the leading comment is searched for markers: whatever follows the first line of code, a file is
    judged as if it ended there. *)
Theorem markers_below_code_are_ignored path hdr code rest :
  endsHeader (getCommentStylesForPath path) hdr code -> Forall plain_line (hdr ++ code :: rest) ->
  dropBom (join [c_lf] (hdr ++ code :: rest)) = join [c_lf] (hdr ++ code :: rest) ->
  dropBom (join [c_lf] (hdr ++ [code])) = join [c_lf] (hdr ++ [code]) ->
  detectAutoGeneratedMarker (join [c_lf] (hdr ++ code :: rest)) path
  = detectAutoGeneratedMarker (join [c_lf] (hdr ++ [code])) path.
Proof.
  intros Hend Hplain Hb1 Hb2. unfold detectAutoGeneratedMarker, extractLeadingHeaderCommentText.
  destruct (getCommentStylesForPath path) as [|s ss] eqn:Es; [done|].
  rewrite Hb1, Hb2, !split_crlf_join; try (by destruct hdr); try done.
  - by rewrite (headerLoop_stops _ _ _ hdr code rest Hend HEADER_LINE_LIMIT).
  - apply Forall_app in Hplain as [H1 [H2 _]%Forall_cons]. apply Forall_app. by split; [|constructor].
Qed.

End header_facts.

(** ** Concrete runs *)

Definition afterLast (c : N) (p : jstring) : jstring := default [] (last (split_on c p)).

Definition demoGuards (plan : option PlanModeState) : GuardEnv := {|
  basename := afterLast 47; win32_basename := fun p => afterLast 92 (afterLast 47 p);
  extname := fun p => match split_on 46 p with _ :: _ :: _ => 46%N :: afterLast 46 p | _ => [] end;
  toLowerCase := fmap (M := list) ascii_lower; resolveRawPath := fun p => Ok (if starts_with (js "/") p then p else js "/w/" ++ p);
  planModeState := plan; blockAutoGenerated := true |}.

Section examples.
#[local] Existing Instance demoGuards.

Lemma plan_mode_confines_writes_witness :
  let _ := demoGuards (Some {| enabled := true; planFilePath := js "/plans/PLAN.md" |}) in
  enforcePlanModeWrite (js "PLAN.md") None op_update = Ok tt /\ resolvePlanPath (js "PLAN.md") = Ok (js "/plans/PLAN.md")
  /\ enforcePlanModeWrite (js "a.ts") None op_update = Throw (PlanModeOther (js "/plans/PLAN.md")).
Proof.
  cbv zeta. set (G := demoGuards _).
  assert (@enforcePlanModeWrite G (js "PLAN.md") None op_update = Ok tt) as Hok by by vm_compute.
  split; [done|]. split; [|by vm_compute].
  eapply (@plan_mode_confines_writes G {| enabled := true; planFilePath := js "/plans/PLAN.md" |});
    [by vm_compute|done|by vm_compute|exact Hok].
Defined.

Definition handwritten : list jstring := [js "// helpers"; js "const marker = 1;"].

Lemma markers_below_code_are_ignored_witness :
  let _ := demoGuards None in
  detectAutoGeneratedMarker (join [c_lf] (handwritten ++ [js "// @generated"])) (js "a.ts") = None
  /\ detectAutoGeneratedMarker (js "// Code generated by sqlc") (js "a.ts") = Some (js "Code generated by sqlc")
  /\ isAutoGeneratedFileName (js "/w/api.pb.go") = true.
Proof.
  cbv zeta. set (G := demoGuards _). split; [|by vm_compute].
  change (handwritten ++ [js "// @generated"]) with ([js "// helpers"] ++ js "const marker = 1;" :: [js "// @generated"]).
  rewrite (@markers_below_code_are_ignored G (js "a.ts") [js "// helpers"] (js "const marker = 1;") [js "// @generated"]);
    [by vm_compute| |by apply (bool_decide_unpack _); vm_compute|by vm_compute|by vm_compute].
  eexists. split; by vm_compute.
Defined.

End examples.
