(* ===== verification/HashlineExecute.v ===== *)
(** * Execution of hashline edits (hashline/execute.ts)

    The tool call: split the input into sections, merge those of one path, check every name, and for several
    sections run all of them without writing before the first is written.  Each section is parsed, guarded,
    read, stripped of byte order mark and carriage returns, edited (with recovery from a stale read), written
    back, recorded in the read cache and reported with fresh anchors.  Composes the parser, the edit engine,
    recovery, the read cache, the diff preview, the guards and the framing.  The file system ([Bun.file],
    the session's [writethrough], notebooks) is the interface [EditIO]. *)
From S2P Require Import Prelude JsString JsRegex JsMap HashlineHash HashlineApply HashlineApplySpec EditDiff HashlineParser HashlineRoundTrip HashlineAnchors HashlineInput FileReadCache HashlineRecovery EditNormalize PromptFraming EditGuards.
Open Scope Z_scope.

(** ** Errors: every throw of execute.ts and read-file.ts *)

Inductive ExecError : Type :=
| HashlineErr (e : HashlineError)
| GuardErr (e : GuardError)
| FileNotFound (path : jstring)
| FileTooLarge (path : jstring) (size : Z)
| IncompleteRangeLine (h : jstring) (range : jstring * jstring)
| IncompleteRangeHash (range : jstring * jstring)
| MissingLineSuggestion (h : jstring) (lineNum : Z) (opSigil : N)
| MissingLineAmbiguous (h : jstring) (matchCount : Z)
| MissingHashPastEnd (stop count : Z) (path : jstring)
| MissingHashRetry (retryHeader : jstring) (path : jstring) (anchors : list jstring)
| NoChange (path : jstring)
| IOError (what : jstring).

(** A file of the disk is its bytes. *)
Abbreviation bytes := (list N).

Class EditIO := {
  (** [Bun.file(p).text()] *)
  decodeText : bytes -> jstring;
  (** [readEditableNotebookText] and [serializeEditedNotebookText], given the file's bytes *)
  notebookText : bytes -> jstring -> result ExecError jstring;
  notebookBytes : option bytes -> jstring -> jstring -> result ExecError jstring;
  (** [writethrough(path, content)]: what the file holds afterwards, formatters included *)
  writethrough : jstring -> jstring -> result ExecError bytes;
  (** [session.settings.get("edit.hashlineAutoDropPureInsertDuplicates")] *)
  autoDropPureInsertDuplicates_setting : option bool;
  (** [session.cwd] *)
  cwd : jstring;
  (** [Date.now()] at the time the cache records *)
  now : Z
}.

Definition lift {E F A} (f : E -> F) (m : result E A) : result F A :=
  match m with Ok a => Ok a | Throw e => Throw (f e) end.

(** ** Reading files (read-file.ts) *)

Definition MAX_EDIT_FILE_BYTES : Z := 8 * 1024 * 1024.
Definition UTF8_BOM : bytes := [0xef; 0xbb; 0xbf]%N.

Definition fileHasUtf8Bom (file : bytes) : bool := bool_decide (take 3 file = UTF8_BOM).

Section read.
Context `{GuardEnv} `{EditIO}.

Definition isNotebookPath (filePath : jstring) : bool := bool_decide (toLowerCase (extname filePath) = js ".ipynb").

Definition readEditFileText (files : gmap jstring bytes) (absolutePath path : jstring) : result ExecError jstring :=
  match files !! absolutePath with
  | None => Throw (FileNotFound path)
  | Some file =>
      let size := zlength file in
      if MAX_EDIT_FILE_BYTES <? size then Throw (FileTooLarge path size)
      else if isNotebookPath absolutePath then notebookText file path
      else
        let text := decodeText file in
        Ok (if fileHasUtf8Bom file && negb (starts_with [EditNormalize.c_bom] text) then EditNormalize.c_bom :: text else text)
  end.

Definition serializeEditFileText (files : gmap jstring bytes) (absolutePath path content : jstring) : result ExecError jstring :=
  if isNotebookPath absolutePath then notebookBytes (files !! absolutePath) path content else Ok content.

Record ReadHashlineFileResult : Type := { exists_ : bool; rawContent : jstring }.

Definition readHashlineFile (files : gmap jstring bytes) (absolutePath pathText : jstring)
    : result ExecError ReadHashlineFileResult :=
  match readEditFileText files absolutePath pathText with
  | Ok text => Ok {| exists_ := true; rawContent := text |}
  | Throw (FileNotFound p) =>
      if bool_decide (p = pathText) then Ok {| exists_ := false; rawContent := [] |} else Throw (FileNotFound p)
  | Throw e => Throw e
  end.

End read.

Definition hasAnchorScopedEdit (edits : list HashlineEdit) : bool :=
  existsb (fun edit => match edit with
                       | Delete _ => true
                       | Insert (before_anchor _) _ _ _ | Insert (after_anchor _) _ _ _ => true
                       | Insert _ _ _ _ => false
                       end) edits.

(** ** Echoing anchors for a reference without its hash *)

Definition MISSING_HASH_ANCHOR_LIMIT : Z := 20.
Definition DEFAULT_MAX_COLUMN : nat := 1024.

(** [truncateLine(line).text]; the ellipsis is U+2026. *)
Definition truncateLine (l : jstring) : jstring :=
  if (length l <=? DEFAULT_MAX_COLUMN)%nat then l else take DEFAULT_MAX_COLUMN l ++ [8230%N].

Section execute.
Context `{LineHasher} `{GuardEnv} `{EditIO} `{NativeDiff} `{PatchLib} `{NodePath}.
Context {L : LRUCache (list FileReadSnapshot)}.

Definition fileLine (fileLines : list jstring) (n : Z) : jstring := default [] (arr_at fileLines (n - 1)).

Definition currentAnchor (fileLines : list jstring) (n : Z) : jstring := z_str n ++ computeLineHash n (fileLine fileLines n).

Definition formatMissingHashAnchors (fileLines : list jstring) (start stop : Z) : list jstring :=
  let format n := currentAnchor fileLines n ++ HL_BODY_SEP :: truncateLine (fileLine fileLines n) in
  let count := stop - start + 1 in
  if count <=? MISSING_HASH_ANCHOR_LIMIT then format <$> zseq start (Z.to_nat count)
  else (format <$> zseq start (Z.to_nat (MISSING_HASH_ANCHOR_LIMIT - 1))) ++ [js "..."; format stop].

Definition formatMissingHashRetryHeader (fileLines : list jstring) (start stop : Z) (opSigil : N) : jstring :=
  opSigil :: (if start =? stop then currentAnchor fileLines start
              else currentAnchor fileLines start ++ js ".." ++ currentAnchor fileLines stop).

(** The lines of the file with the given hash: how many, and the last of them. *)
Definition linesWithHash (h : jstring) (fileLines : list jstring) : list Z :=
  filter (fun n => computeLineHash n (fileLine fileLines n) = h) (zrange 1 (zlength fileLines)).

Definition normalizedLines (raw : jstring) : list jstring := split_on c_lf (normalizeToLF (bom_text (stripBom raw))).

(** The [catch] of [parseHashlineSection]. *)
Definition explainParseError (files : gmap jstring bytes) (absolutePath pathText : jstring) (err : HashlineError)
    : result ExecError (list HashlineEdit * list jstring) :=
  match err with
  | HashlineMissingLineError h _ opSigil rangeRaw =>
      match rangeRaw with
      | Some range => Throw (IncompleteRangeLine h range)
      | None =>
          source ← readHashlineFile files absolutePath pathText;
          let fileLines := if exists_ source then normalizedLines (rawContent source) else [] in
          match linesWithHash h fileLines with
          | [matchLine] => Throw (MissingLineSuggestion h matchLine opSigil)
          | matches => Throw (MissingLineAmbiguous h (zlength matches))
          end
      end
  | HashlineMissingHashError lineNum raw start stop opSigil rangeRaw =>
      match rangeRaw with
      | Some range => Throw (IncompleteRangeHash range)
      | None =>
          source ← readHashlineFile files absolutePath pathText;
          if negb (exists_ source) then Throw (HashlineErr err)
          else
            let fileLines := normalizedLines (rawContent source) in
            if zlength fileLines <? stop then Throw (MissingHashPastEnd stop (zlength fileLines) pathText)
            else Throw (MissingHashRetry (formatMissingHashRetryHeader fileLines start stop opSigil) pathText
                          (formatMissingHashAnchors fileLines start stop))
      end
  | _ => Throw (HashlineErr err)
  end.

Definition parseHashlineSection (files : gmap jstring bytes) (diff absolutePath pathText : jstring)
    : result ExecError (list HashlineEdit * list jstring) :=
  match parseHashlineWithWarnings diff with
  | Ok r => Ok r
  | Throw err => explainParseError files absolutePath pathText err
  end.

Definition getHashlineApplyOptions : HashlineApplyOptions :=
  {| autoDropPureInsertDuplicates := autoDropPureInsertDuplicates_setting |}.

(** The text, the first changed line and the warnings; the cache's recency moves when it is consulted. *)
Definition applyHashlineEditsWithRecovery (cache : lru) (absolutePath text : jstring) (edits : list HashlineEdit)
    : result ExecError (jstring * option Z * list jstring) * lru :=
  match applyHashlineEdits text edits getHashlineApplyOptions with
  | Ok (r, _) => (Ok (ar_lines r, ar_firstChangedLine r, default [] (ar_warnings r)), cache)
  | Throw (HashlineMismatchError mismatches fileLines) =>
      let '(recovered, cache') := tryRecoverHashlineWithCache cache absolutePath text edits getHashlineApplyOptions in
      (match recovered with
       | Ok (Some r, _) => Ok (rr_lines r, rr_firstChangedLine r, rr_warnings r)
       | Ok (None, _) => Throw (HashlineErr (HashlineMismatchError mismatches fileLines))
       | Throw e => Throw (HashlineErr e)
       end, cache')
  | Throw e => (Throw (HashlineErr e), cache)
  end.

(** ** The session's world, and effects on it *)

Record world : Type := { files : gmap jstring bytes; cache : lru }.

Definition io (A : Type) : Type := world -> result ExecError A * world.

#[local] Instance io_ret : MRet io := fun A a w => (Ok a, w).
#[local] Instance io_bind : MBind io := fun A B f m w =>
  match m w with (Ok a, w') => f a w' | (Throw e, w') => (Throw e, w') end.

Definition pure_io {A} (m : world -> result ExecError A) : io A := fun w => (m w, w).
Definition guard {A} (m : result GuardError A) : io A := pure_io (fun _ => lift GuardErr m).
Definition throw {A} (e : ExecError) : io A := fun w => (Throw e, w).

(** What preflight and execution share: the absolute path, the source, the normalised text and the edited one. *)
Record prepared : Type := {
  p_absolutePath : jstring; p_source : ReadHashlineFileResult; p_normalized : jstring;
  p_lines : jstring; p_firstChangedLine : option Z; p_warnings : list jstring }.

Definition applyWithRecovery (absolutePath text : jstring) (edits : list HashlineEdit)
    : io (jstring * option Z * list jstring) :=
  fun w => let '(r, cache') := applyHashlineEditsWithRecovery (cache w) absolutePath text edits in
           (r, {| files := files w; cache := cache' |}).

Definition prepareSection (s : HashlineInputSection) : io prepared :=
  absolutePath ← guard (resolvePlanPath (path s));
  '(edits, parseWarnings) ← pure_io (fun w => parseHashlineSection (files w) (HashlineInput.diff s) absolutePath (path s));
  _ ← guard (enforcePlanModeWrite (path s) None op_update);
  source ← pure_io (fun w => readHashlineFile (files w) absolutePath (path s));
  _ ← (if negb (exists_ source) && hasAnchorScopedEdit edits then throw (FileNotFound (path s)) else mret tt);
  _ ← (if exists_ source then guard (assertEditableFileContent (rawContent source) (path s)) else mret tt);
  let normalized := normalizeToLF (bom_text (stripBom (rawContent source))) in
  '(lines, first, warnings) ← applyWithRecovery absolutePath normalized edits;
  mret {| p_absolutePath := absolutePath; p_source := source; p_normalized := normalized;
          p_lines := lines; p_firstChangedLine := first; p_warnings := parseWarnings ++ warnings |}.

Definition preflightHashlineSection (s : HashlineInputSection) : io unit :=
  p ← prepareSection s;
  if bool_decide (p_normalized p = p_lines p) then throw (NoChange (path s)) else mret tt.

Inductive ResultOp : Type := res_update | res_create.

Record SectionResult : Type := {
  r_path : jstring; r_text : jstring; r_diff : jstring; r_firstChangedLine : option Z; r_op : ResultOp }.

Definition formatNoChangeDiagnostic (pathText : jstring) : jstring :=
  js "Edits to " ++ pathText ++ js " resulted in no changes being made.".

Definition sectionText (sourcePath : jstring) (existed : bool) (preview : jstring) (warnings : list jstring) : jstring :=
  let warningsBlock := match warnings with
                       | [] => []
                       | _ => [c_lf; c_lf] ++ js "Warnings:" ++ [c_lf] ++ join [c_lf] warnings
                       end in
  let previewBlock := match preview with [] => [] | _ => c_lf :: preview end in
  let headline := match preview with
                  | [] => if existed then js "Updated " ++ sourcePath else js "Created " ++ sourcePath
                  | _ => sourcePath ++ js ":"
                  end in
  headline ++ previewBlock ++ warningsBlock.

Definition storeWritten (absolutePath : jstring) (written : bytes) (lines : jstring) : io unit :=
  fun w => (Ok tt, {| files := <[absolutePath := written]> (files w);
                      cache := recordFull absolutePath (split_on c_lf lines) now (cache w) |}).

(** The write, and the record of what the model is about to see. *)
Definition writeSection (sourcePath : jstring) (p : prepared) : io unit :=
  let b := stripBom (rawContent (p_source p)) in
  let content := bom b ++ restoreLineEndings (p_lines p) (detectLineEnding (bom_text b)) in
  finalContent ← pure_io (fun w => serializeEditFileText (files w) (p_absolutePath p) sourcePath content);
  written ← pure_io (fun _ => writethrough (p_absolutePath p) finalContent);
  storeWritten (p_absolutePath p) written (p_lines p).

Definition executeHashlineSection (s : HashlineInputSection) : io SectionResult :=
  p ← prepareSection s;
  if bool_decide (p_normalized p = p_lines p) then
    mret {| r_path := path s; r_text := formatNoChangeDiagnostic (path s); r_diff := [];
            r_firstChangedLine := None; r_op := res_update |}
  else
    _ ← writeSection (path s) p;
    let diffResult := generateDiffString (p_normalized p) (p_lines p) 4 in
    let pre := preview (buildCompactHashlineDiffPreview (EditDiff.diff diffResult)) in
    mret {| r_path := path s;
            r_text := sectionText (path s) (exists_ (p_source p)) pre (p_warnings p);
            r_diff := EditDiff.diff diffResult;
            r_firstChangedLine := match p_firstChangedLine p with Some n => Some n | None => diff_firstChangedLine diffResult end;
            r_op := if exists_ (p_source p) then res_update else res_create |}.

(** [byPath.get(path)?.push(diff)], paths in the order of their first section. *)
Definition addSection (byPath : jsmap jstring (list jstring)) (s : HashlineInputSection) : jsmap jstring (list jstring) :=
  match m_get (path s) byPath with
  | Some diffs => m_set (path s) (diffs ++ [HashlineInput.diff s]) byPath
  | None => m_set (path s) [HashlineInput.diff s] byPath
  end.

Definition mergeSamePathSections (sections : list HashlineInputSection) : list HashlineInputSection :=
  (fun '(p, diffs) => {| path := p; HashlineInput.diff := join [c_lf] diffs |}) <$> foldl addSection [] sections.

Definition assertHashlineSectionNamesEditable (sections : list HashlineInputSection) : io unit :=
  fun w => (foldM (fun _ s =>
    absolutePath ← lift GuardErr (resolvePlanPath (path s));
    lift GuardErr (assertEditableFileName absolutePath (path s))) tt sections, w).

Fixpoint forEach {A} (f : HashlineInputSection -> io A) (sections : list HashlineInputSection) : io (list A) :=
  match sections with
  | [] => mret []
  | s :: sections' => a ← f s; rest ← forEach f sections'; mret (a :: rest)
  end.

Record ToolResult : Type := { t_text : jstring; t_diff : jstring; t_results : list SectionResult }.

Definition executeHashlineSingle (input : jstring) (inputPath : option jstring) : io ToolResult :=
  sections ← pure_io (fun _ => mergeSamePathSections <$>
    lift HashlineErr (splitHashlineInputs input {| opt_cwd := Some cwd; opt_path := inputPath |}));
  _ ← assertHashlineSectionNamesEditable sections;
  match sections with
  | [s] =>
      r ← executeHashlineSection s;
      mret {| t_text := wrapUntrustedContent (r_text r); t_diff := r_diff r; t_results := [r] |}
  | _ =>
      _ ← forEach preflightHashlineSection sections;
      results ← forEach executeHashlineSection sections;
      mret {| t_text := wrapUntrustedContent (join [c_lf; c_lf] (r_text <$> results));
              t_diff := join [c_lf] (r_diff <$> results); t_results := results |}
  end.

End execute.

(** ** What a run leaves alone *)

Section frames.
Context `{LineHasher} `{GuardEnv} `{EditIO} `{NativeDiff} `{PatchLib} `{NodePath}.
Context {L : LRUCache (list FileReadSnapshot)}.

#[local] Existing Instances io_ret io_bind.

(** The program does not touch the files. *)
Definition reads_only {A} (m : io A) : Prop := forall w, files (m w).2 = files w.

Lemma reads_only_ret {A} (a : A) : reads_only (mret a).
Proof. done. Qed.

Lemma reads_only_pure {A} (m : world -> result ExecError A) : reads_only (pure_io m).
Proof. done. Qed.

Lemma reads_only_throw {A} (e : ExecError) : reads_only (throw (A := A) e).
Proof. done. Qed.

Lemma reads_only_bind {A B} (m : io A) (f : A -> io B) :
  reads_only m -> (forall a, reads_only (f a)) -> reads_only (m ≫= f).
Proof.
  intros Hm Hf w. unfold mbind, io_bind. specialize (Hm w). destruct (m w) as [[a|e] w'] eqn:E; [|done].
  cbn [snd] in Hm. by rewrite (Hf a w').
Qed.

Lemma reads_only_if {A} (b : bool) (m m' : io A) : reads_only m -> reads_only m' -> reads_only (if b then m else m').
Proof. by destruct b. Qed.

Lemma reads_only_apply a t e : reads_only (applyWithRecovery a t e).
Proof. intros w. unfold applyWithRecovery. by destruct (applyHashlineEditsWithRecovery _ _ _ _). Qed.

#[local] Hint Resolve reads_only_ret reads_only_pure reads_only_throw reads_only_if reads_only_apply : gajae.

Lemma prepare_reads_only s : reads_only (prepareSection s).
Proof.
  unfold prepareSection, guard.
  repeat (apply reads_only_bind; [solve [auto with gajae]|let x := fresh in intros x;
    repeat match type of x with prod _ _ => destruct x as [x ?] end]); auto with gajae.
Qed.

Lemma preflight_reads_only s : reads_only (preflightHashlineSection s).
Proof.
  apply reads_only_bind; [apply prepare_reads_only|]. intros p. auto with gajae.
Qed.

Lemma forEach_reads_only {A} (f : HashlineInputSection -> io A) sections :
  (forall s, reads_only (f s)) -> reads_only (forEach f sections).
Proof.
  intros Hf. induction sections as [|s sections IH]; [apply reads_only_ret|]. cbn [forEach].
  apply reads_only_bind; [done|]. intros a. apply reads_only_bind; [done|]. intros rest. apply reads_only_ret.
Qed.

Lemma bind_run {A B} (m : io A) (f : A -> io B) w r w' :
  (m ≫= f) w = (Ok r, w') -> exists a w1, m w = (Ok a, w1) /\ f a w1 = (Ok r, w').
Proof. unfold mbind, io_bind. destruct (m w) as [[a|e] w1]; [|done]. eauto. Qed.

Lemma bind_throw {A B} (m : io A) (f : A -> io B) w e w' :
  (m ≫= f) w = (Throw e, w') ->
  m w = (Throw e, w') \/ exists a w1, m w = (Ok a, w1) /\ f a w1 = (Throw e, w').
Proof. unfold mbind, io_bind. destruct (m w) as [[a|e'] w1]; [eauto|]. intros [= <- <-]. by left. Qed.

(** *** One section *)

Lemma writeSection_run sourcePath p w :
  match writeSection sourcePath p w with
  | (Throw _, w') => w' = w
  | (Ok _, w') => exists finalContent written,
      serializeEditFileText (files w) (p_absolutePath p) sourcePath
        (bom (stripBom (rawContent (p_source p))) ++ restoreLineEndings (p_lines p)
           (detectLineEnding (bom_text (stripBom (rawContent (p_source p)))))) = Ok finalContent
      /\ writethrough (p_absolutePath p) finalContent = Ok written
      /\ files w' = <[p_absolutePath p := written]> (files w)
  end.
Proof.
  unfold writeSection, mbind, io_bind, pure_io. destruct (serializeEditFileText _ _ _ _) as [c|e]; [|done].
  destruct (writethrough (p_absolutePath p) c) as [b|e] eqn:Ew; [|done]. cbn. eauto.
Qed.

(** A section that fails has written nothing; one that succeeds has written its own path or nothing. *)
Lemma execute_run s w :
  match executeHashlineSection s w with
  | (Throw _, w') => files w' = files w
  | (Ok r, w') => r_path r = path s /\ exists p w1, prepareSection s w = (Ok p, w1) /\
      if bool_decide (p_normalized p = p_lines p) then files w' = files w
      else exists finalContent written,
        serializeEditFileText (files w) (p_absolutePath p) (path s)
          (bom (stripBom (rawContent (p_source p))) ++ restoreLineEndings (p_lines p)
             (detectLineEnding (bom_text (stripBom (rawContent (p_source p)))))) = Ok finalContent
        /\ writethrough (p_absolutePath p) finalContent = Ok written
        /\ files w' = <[p_absolutePath p := written]> (files w)
  end.
Proof.
  pose proof (prepare_reads_only s w) as Hf. unfold executeHashlineSection. unfold mbind at 1, io_bind at 1.
  destruct (prepareSection s w) as [[p|e] w1] eqn:Ep; cbn [snd] in Hf; [|done].
  case_bool_decide as Hsame.
  - cbn. split; [done|]. exists p, w1. split; [done|]. by rewrite bool_decide_eq_true_2.
  - unfold mbind, io_bind. pose proof (writeSection_run (path s) p w1) as Hw. rewrite Hf in Hw.
    destruct (writeSection (path s) p w1) as [[[]|e] w2].
    + cbn. split; [done|]. exists p, w1. split; [done|]. by rewrite bool_decide_eq_false_2.
    + by subst w2.
Qed.

Lemma prepare_path s w p w1 : prepareSection s w = (Ok p, w1) -> resolvePlanPath (path s) = Ok (p_absolutePath p)
  /\ enforcePlanModeWrite (path s) None op_update = Ok tt.
Proof.
  unfold prepareSection. intros Hp. apply bind_run in Hp as (a & w2 & Ha & Hp).
  unfold guard, pure_io, lift in Ha. destruct (resolvePlanPath (path s)) as [a'|]; [|done]. injection Ha as -> ->.
  apply bind_run in Hp as ([edits ws] & w3 & _ & Hp). apply bind_run in Hp as ([] & w4 & He & Hp).
  apply bind_run in Hp as (source & w5 & _ & Hp). apply bind_run in Hp as ([] & w6 & _ & Hp).
  apply bind_run in Hp as ([] & w7 & _ & Hp). apply bind_run in Hp as ([[lines first] warnings] & w8 & _ & Hp).
  injection Hp as <- _. cbn [p_absolutePath]. split; [done|].
  unfold guard, pure_io, lift in He. by destruct (enforcePlanModeWrite _ _ _) as [[]|].
Qed.

(** *** Several sections *)

Lemma execute_frame s w k :
  (forall a, resolvePlanPath (path s) = Ok a -> enforcePlanModeWrite (path s) None op_update = Ok tt -> k <> a) ->
  files (executeHashlineSection s w).2 !! k = files w !! k.
Proof.
  intros Hk. pose proof (execute_run s w) as Hr. destruct (executeHashlineSection s w) as [[r|e] w']; cbn [snd];
    [|by rewrite Hr].
  destruct Hr as (_ & p & w1 & Hp & Hr). destruct (prepare_path _ _ _ _ Hp) as [Ha He]. case_bool_decide; [by rewrite Hr|].
  destruct Hr as (? & ? & _ & _ & ->). rewrite lookup_insert_ne; [done|]. intros <-. by apply (Hk _ Ha He).
Qed.

Lemma forEach_execute_frame sections w k :
  (forall s a, s ∈ sections -> resolvePlanPath (path s) = Ok a ->
    enforcePlanModeWrite (path s) None op_update = Ok tt -> k <> a) ->
  files (forEach executeHashlineSection sections w).2 !! k = files w !! k.
Proof.
  revert w. induction sections as [|s sections IH]; intros w Hk; [done|]. cbn [forEach]. unfold mbind, io_bind.
  pose proof (execute_frame s w k) as Hs. destruct (executeHashlineSection s w) as [[r|e] w1]; cbn [snd] in Hs.
  - assert (files w1 !! k = files w !! k) as <- by (apply Hs; intros a; apply Hk; by left).
    pose proof (IH w1) as IHw. destruct (forEach executeHashlineSection sections w1) as [[rs|e] w2]; cbn in *;
      apply IHw; intros s' a Hs'; apply Hk; by right.
  - cbn. apply Hs. intros a. apply Hk. by left.
Qed.

(** The sections of a call. *)
Definition sectionsOf (input : jstring) (inputPath : option jstring) : result ExecError (list HashlineInputSection) :=
  mergeSamePathSections <$> lift HashlineErr (splitHashlineInputs input {| opt_cwd := Some cwd; opt_path := inputPath |}).

(** A call, unfolded once: it fails before anything runs, runs its one section, or runs a batch. *)
Lemma executeHashlineSingle_cases input ip w :
  (exists e, executeHashlineSingle input ip w = (Throw e, w)) \/
  exists sections, sectionsOf input ip = Ok sections /\
    let '(r, w') := executeHashlineSingle input ip w in
    match sections with
    | [s] => let '(r1, w1) := executeHashlineSection s w in
             w' = w1 /\ match r1 with
                        | Ok a => r = Ok {| t_text := wrapUntrustedContent (r_text a); t_diff := r_diff a; t_results := [a] |}
                        | Throw e => r = Throw e end
    | _ => let '(r1, w1) := forEach preflightHashlineSection sections w in
           match r1 with
           | Throw e => r = Throw e /\ w' = w1
           | Ok _ => let '(r2, w2) := forEach executeHashlineSection sections w1 in
                     w' = w2 /\ match r2 with
                                | Ok rs => r = Ok {| t_text := wrapUntrustedContent (join [c_lf; c_lf] (r_text <$> rs));
                                                     t_diff := join [c_lf] (r_diff <$> rs); t_results := rs |}
                                | Throw e => r = Throw e end
           end
    end.
Proof.
  unfold executeHashlineSingle. fold (sectionsOf input ip). unfold mbind, io_bind, pure_io.
  destruct (sectionsOf input ip) as [sections|e]; [|left; by eexists].
  unfold assertHashlineSectionNamesEditable. destruct (foldM _ tt sections) as [[]|e]; [|left; by eexists].
  right. exists sections. split; [done|].
  destruct sections as [|s [|s' sections]].
  - by vm_compute.
  - by destruct (executeHashlineSection s w) as [[a|e] w1].
  - destruct (forEach preflightHashlineSection (s :: s' :: sections) w) as [[us|e] w1]; [|done].
    by destruct (forEach executeHashlineSection (s :: s' :: sections) w1) as [[rs|e] w2].
Qed.


(** C6: safety. In plan mode a call, whatever its input and however it ends, leaves every file but the plan file as it
    was. *)
Theorem plan_mode_protects_files input ip w state plan k :
  planModeState = Some state -> enabled state = true -> resolveRawPath (planFilePath state) = Ok plan ->
  k <> plan -> files (executeHashlineSingle input ip w).2 !! k = files w !! k.
Proof.
  intros Hs He Hplan Hk.
  assert (planModeOn = Some state) as Hon by by unfold planModeOn; rewrite Hs, He.
  assert (forall s a, resolvePlanPath (path s) = Ok a -> enforcePlanModeWrite (path s) None op_update = Ok tt -> k <> a) as Hframe.
  { intros s a Ha Hen ->. apply (enforce_iff _ _ _ _ _ Hon Hplan) in Hen as (_ & _ & Hr). congruence. }
  destruct (executeHashlineSingle_cases input ip w) as [[e' Hc]|(sections & _ & Hc)]; [by rewrite Hc|].
  destruct (executeHashlineSingle input ip w) as [r w']. cbn [snd].
  pose proof (forEach_reads_only preflightHashlineSection sections preflight_reads_only w) as Hpre.
  pose proof (fun w => forEach_execute_frame sections w k (fun s a _ => Hframe s a)) as Hrun.
  destruct sections as [|s [|s' sections]].
  - cbn in Hc. by destruct Hc as [-> _].
  - pose proof (execute_frame s w k (Hframe s)) as Hf. destruct (executeHashlineSection s w). by destruct Hc as [-> _].
  - destruct (forEach preflightHashlineSection (s :: s' :: sections) w) as [[us|e1] w1]; cbn [snd] in Hpre.
    + specialize (Hrun w1). destruct (forEach executeHashlineSection _ w1). destruct Hc as [-> _]. cbn [snd] in Hrun.
      by rewrite Hrun, Hpre.
    + destruct Hc as [_ ->]. by rewrite Hpre.
Qed.

End frames.

(** ** A batch whose dry run passed is written whole *)

Section batch.
Context `{LineHasher} `{GuardEnv} `{EditIO} `{NativeDiff} `{PatchLib} `{NodePath}.
Context {L : LRUCache (list FileReadSnapshot)}.

#[local] Existing Instances io_ret io_bind.

Lemma readHashlineFile_local f f' a p : f !! a = f' !! a -> readHashlineFile f a p = readHashlineFile f' a p.
Proof. intros E. unfold readHashlineFile, readEditFileText. by rewrite E. Qed.

Lemma parseHashlineSection_local f f' d a p :
  f !! a = f' !! a -> parseHashlineSection f d a p = parseHashlineSection f' d a p.
Proof.
  intros E. unfold parseHashlineSection, explainParseError. by rewrite (readHashlineFile_local f f' a p E).
Qed.

(** Preparing a section reads its own file and, for a stale anchor, the cache. *)
Lemma prepare_local s f f' c a :
  resolvePlanPath (path s) = Ok a -> f !! a = f' !! a ->
  (prepareSection s {| files := f; cache := c |}).1 = (prepareSection s {| files := f'; cache := c |}).1.
Proof.
  intros Ha E. unfold prepareSection, mbind, io_bind, guard, pure_io, throw, mret, io_ret, applyWithRecovery. rewrite Ha.
  cbn [lift files cache].
  rewrite (parseHashlineSection_local f f' _ a _ E).
  destruct (parseHashlineSection f' _ a _) as [[edits ws]|e]; [|done].
  destruct (lift GuardErr (enforcePlanModeWrite _ _ _)) as [[]|e]; [|done]. cbn [files cache].
  rewrite (readHashlineFile_local f f' a _ E).
  destruct (readHashlineFile f' a (path s)) as [source|e]; [|done].
  destruct (negb (exists_ source) && hasAnchorScopedEdit edits); [done|].
  destruct (exists_ source); [destruct (lift GuardErr (assertEditableFileContent _ _)) as [[]|e]; [|done]|];
    cbn [files cache]; by destruct (applyHashlineEditsWithRecovery _ _ _ _) as [[[[? ?] ?]|] ?].
Qed.

(** The section does not depend on what the read cache holds: its anchors are fresh, or it fails before. *)
Definition cache_free (w : world) (s : HashlineInputSection) : Prop :=
  forall c, (prepareSection s {| files := files w; cache := c |}).1 = (prepareSection s w).1.

Lemma prepare_later s w w' a :
  cache_free w s -> resolvePlanPath (path s) = Ok a -> files w' !! a = files w !! a ->
  (prepareSection s w').1 = (prepareSection s w).1.
Proof.
  intros Hfree Ha Hf. destruct w' as [f' c']. rewrite (prepare_local s f' (files w) c' a Ha Hf). apply Hfree.
Qed.

(** No write fails. *)
Definition writes_succeed : Prop :=
  (forall f a p c, exists r, serializeEditFileText f a p c = Ok r) /\ (forall a c, exists b, writethrough a c = Ok b).

(** What the section leaves at its path. *)
Definition section_written (w : world) (s : HashlineInputSection) (b : bytes) : Prop :=
  exists p finalContent, (prepareSection s w).1 = Ok p /\
    serializeEditFileText (files w) (p_absolutePath p) (path s)
      (bom (stripBom (rawContent (p_source p))) ++ restoreLineEndings (p_lines p)
         (detectLineEnding (bom_text (stripBom (rawContent (p_source p)))))) = Ok finalContent
    /\ writethrough (p_absolutePath p) finalContent = Ok b.

Lemma serialize_local f f' a p c : f !! a = f' !! a -> serializeEditFileText f a p c = serializeEditFileText f' a p c.
Proof. intros E. unfold serializeEditFileText. by rewrite E. Qed.

Lemma execute_prepared s w0 w a p :
  writes_succeed -> cache_free w0 s -> resolvePlanPath (path s) = Ok a -> files w !! a = files w0 !! a ->
  (prepareSection s w0).1 = Ok p -> p_normalized p <> p_lines p ->
  exists r w' b, executeHashlineSection s w = (Ok r, w') /\ r_path r = path s /\
    section_written w0 s b /\ files w' = <[a := b]> (files w).
Proof.
  intros [Hser Hwr] Hfree Ha Hf Hp Hne. pose proof (prepare_later s w0 w a Hfree Ha Hf) as Hlater. rewrite Hp in Hlater.
  pose proof (execute_run s w) as Hr. pose proof (writeSection_run (path s) p) as Hw.
  assert (exists p' w1, prepareSection s w = (Ok p', w1)) as (p' & w1 & Hpw)
    by (destruct (prepareSection s w) as [[p'|] w1]; [eauto|done]).
  rewrite Hpw in Hlater. injection Hlater as ->.
  destruct (prepare_path _ _ _ _ Hpw) as [Ha' _]. rewrite Ha in Ha'. injection Ha' as ->.
  destruct (executeHashlineSection s w) as [[r|e] w'] eqn:Eexec.
  - destruct Hr as (Hpath & p' & w2 & Hpw' & Hr). rewrite Hpw in Hpw'. injection Hpw' as <- <-.
    rewrite bool_decide_eq_false_2 in Hr by done. destruct Hr as (fc & b & Hfc & Hb & Hfiles).
    exists r, w', b. split_and!; try done. exists p, fc. split_and!; try done.
    by rewrite <- (serialize_local (files w) (files w0) _ _ _ Hf).
  - exfalso. revert Eexec. unfold executeHashlineSection, mbind, io_bind. rewrite Hpw.
    rewrite bool_decide_eq_false_2 by done. specialize (Hw w1). unfold writeSection, mbind, io_bind, pure_io in *.
    destruct (Hser (files w1) (p_absolutePath p) (path s) (bom (stripBom (rawContent (p_source p))) ++ restoreLineEndings
      (p_lines p) (detectLineEnding (bom_text (stripBom (rawContent (p_source p))))))) as [fc Efc]. rewrite Efc.
    destruct (Hwr (p_absolutePath p) fc) as [b Eb]. rewrite Eb. done.
Qed.

Lemma forEach_execute_all w0 sections abs w :
  writes_succeed -> Forall (cache_free w0) sections ->
  Forall2 (fun s a => resolvePlanPath (path s) = Ok a) sections abs -> NoDup abs ->
  (forall a, a ∈ abs -> files w !! a = files w0 !! a) ->
  Forall (fun s => exists p, (prepareSection s w0).1 = Ok p /\ p_normalized p <> p_lines p) sections ->
  exists rs w', forEach executeHashlineSection sections w = (Ok rs, w') /\ r_path <$> rs = path <$> sections /\
    Forall2 (fun s a => exists b, section_written w0 s b /\ files w' !! a = Some b) sections abs /\
    (forall k, k ∉ abs -> files w' !! k = files w !! k).
Proof.
  intros Hws Hfree Hres. revert w. induction Hres as [|s a sections abs Ha Hres IH]; intros w Hnd Hsame Hprep.
  { exists [], w. split_and!; try done. }
  apply Forall_cons in Hfree as [Hf1 Hfree]. apply Forall_cons in Hprep as [(p & Hp & Hne) Hprep].
  apply NoDup_cons in Hnd as [Hna Hnd].
  destruct (execute_prepared s w0 w a p Hws Hf1 Ha) as (r & w1 & b & Hrun & Hrp & Hwritten & Hfiles); [|done..|].
  { apply Hsame. by left. }
  destruct (IH Hfree w1 Hnd) as (rs & w2 & Hrun' & Hpaths & Hall & Hframe); [|done|].
  { intros k Hk. rewrite Hfiles, lookup_insert_ne by (intros ->; done). apply Hsame. by right. }
  exists (r :: rs), w2. split_and!.
  - cbn [forEach]. unfold mbind, io_bind. by rewrite Hrun, Hrun'.
  - cbn. by rewrite Hrp, Hpaths.
  - constructor; [|done]. exists b. split; [done|]. rewrite (Hframe a Hna), Hfiles. by rewrite lookup_insert_eq.
  - intros k [Hk1 Hk2]%not_elem_of_cons. rewrite (Hframe k Hk2), Hfiles. by rewrite lookup_insert_ne.
Qed.

Lemma preflight_prepared s w : (preflightHashlineSection s w).1 = Ok tt ->
  exists p, (prepareSection s w).1 = Ok p /\ p_normalized p <> p_lines p.
Proof.
  unfold preflightHashlineSection, mbind, io_bind. destruct (prepareSection s w) as [[p|e] w1]; [|done].
  case_bool_decide as E; [done|]. intros _. by exists p.
Qed.

Lemma forEach_preflight_all w0 sections w us w1 :
  Forall (cache_free w0) sections -> files w = files w0 ->
  forEach preflightHashlineSection sections w = (Ok us, w1) ->
  Forall (fun s => exists p, (prepareSection s w0).1 = Ok p /\ p_normalized p <> p_lines p) sections.
Proof.
  intros Hfree. revert w us w1. induction Hfree as [|s sections Hs Hfree IH]; intros w us w1 Hf Hrun; [constructor|].
  cbn [forEach] in Hrun. apply bind_run in Hrun as ([] & w2 & Hrun & Hrest).
  apply bind_run in Hrest as (us' & w3 & Hrest & _). constructor.
  - destruct (preflight_prepared s w) as (p & Hp & Hne); [by rewrite Hrun|]. exists p. split; [|done].
    rewrite <- Hp. destruct w as [f c]. cbn [files] in Hf. subst f. symmetry. apply Hs.
  - apply (IH w2 us' w3); [|done]. pose proof (preflight_reads_only s w) as Hro. rewrite Hrun in Hro. cbn [snd] in Hro. congruence.
Qed.


End batch.

(** ** The retry message for a reference without its hash *)

Section retry.
Context `{LineHasher}.

Lemma fileLine_at fileLines n : 1 <= n <= zlength fileLines -> arr_at fileLines (n - 1) = Some (fileLine fileLines n).
Proof.
  intros Hn. unfold fileLine. destruct (arr_at fileLines (n - 1)) as [l|] eqn:E; [done|].
  assert (is_Some (arr_at fileLines (n - 1))) as [l Hl] by (apply arr_at_is_Some; lia). congruence.
Qed.

Definition anchorOf (fileLines : list jstring) (n : Z) : Anchor := mkAnchor n (computeLineHash n (fileLine fileLines n)).

Lemma anchorOf_ok fileLines n : 1 <= n -> anchor_ok (anchorOf fileLines n).
Proof. intros Hn. split_and!; [done| |done]. apply computeLineHash_bigram. Qed.

Lemma anchorOf_holds fileLines n : 1 <= n <= zlength fileLines -> anchorHolds fileLines (anchorOf fileLines n).
Proof. intros Hn. split; [done|]. right. exists (fileLine fileLines n). by split; [apply fileLine_at|]. Qed.

(** Round trip. The answer to an operation that names lines without their hashes can be used as it is printed: the
    header it suggests parses, with the operation's sigil, as the range of the requested lines, both its anchors hold
    for the file it was printed from, and the anchors listed below it are at most twenty-one lines that begin and end
    with the requested endpoints. *)
Theorem retry_header_is_accepted fileLines first last_ sigil lineNum :
  1 <= first <= last_ -> last_ <= zlength fileLines ->
  let format n := currentAnchor fileLines n ++ HL_BODY_SEP :: truncateLine (fileLine fileLines n) in
  let shown := formatMissingHashAnchors fileLines first last_ in
  (exists text, formatMissingHashRetryHeader fileLines first last_ sigil = sigil :: text /\
     parseRange text lineNum sigil = Ok {| start := anchorOf fileLines first; stop := anchorOf fileLines last_ |}) /\
  anchorHolds fileLines (anchorOf fileLines first) /\ anchorHolds fileLines (anchorOf fileLines last_) /\
  zlength shown <= MISSING_HASH_ANCHOR_LIMIT + 1 /\ head shown = Some (format first) /\ last shown = Some (format last_).
Proof.
  intros Hle Hlast format shown. split; [|split; [by apply anchorOf_holds; lia|split; [by apply anchorOf_holds; lia|]]].
  - eexists. split; [done|].
    change (if first =? last_ then _ else _) with (range_text {| start := anchorOf fileLines first; stop := anchorOf fileLines last_ |}).
    apply parseRange_text. split_and!; cbn [start stop]; try (apply anchorOf_ok; lia); [unfold anchorOf, mkAnchor; cbn [line]; lia|].
    unfold anchorOf, mkAnchor. cbn [line hash]. by intros ->.
  - subst shown. unfold formatMissingHashAnchors, MISSING_HASH_ANCHOR_LIMIT.
    destruct (Z.leb_spec (last_ - first + 1) 20).
    + unfold zlength. rewrite length_fmap, length_zseq. split; [lia|].
      replace (Z.to_nat (last_ - first + 1)) with (S (Z.to_nat (last_ - first))) by lia. split.
      * by rewrite zseq_S.
      * replace (S (Z.to_nat (last_ - first))) with (Z.to_nat (last_ - first) + 1)%nat by lia.
        rewrite zseq_app, fmap_app, last_app. rewrite zseq_S. cbn [fmap list_fmap zseq seq last].
        by replace (first + Z.of_nat (Z.to_nat (last_ - first))) with last_ by lia.
    + unfold zlength. rewrite length_app, length_fmap, length_zseq. cbn [length]. split; [lia|]. split; [|by rewrite last_app].
      change (Z.to_nat (20 - 1)) with (S 18). by rewrite zseq_S.
Qed.

End retry.

(** ** Concrete runs *)

Section examples.

(** Files whose bytes are their units, written as they are given. *)
Definition plainIO : EditIO := {|
  decodeText := fun b => b; notebookText := fun b _ => Ok b; notebookBytes := fun _ _ c => Ok c;
  writethrough := fun _ c => Ok c; autoDropPureInsertDuplicates_setting := None; cwd := js "/w"; now := 0 |}.

(** [./p] is [p] in the working directory. *)
Definition dotGuards (plan : option PlanModeState) : GuardEnv := {|
  basename := basename (GuardEnv := demoGuards plan); win32_basename := win32_basename (GuardEnv := demoGuards plan);
  extname := extname (GuardEnv := demoGuards plan); toLowerCase := toLowerCase (GuardEnv := demoGuards plan);
  resolveRawPath := fun p => resolveRawPath (GuardEnv := demoGuards plan) (if starts_with (js "./") p then drop 2 p else p);
  planModeState := plan; blockAutoGenerated := true |}.

#[local] Existing Instances demoHasher wholeDiff blockPatch demoPath plainIO.

Definition replaceProgram (p : jstring) (n : Z) (old : jstring) (new : list jstring) : list jstring :=
  (HL_FILE_PREFIX :: p) :: (HL_OP_REPLACE :: formatLineHash n old) :: new.

Definition demoWorld : world := {|
  files := <[js "/w/a.ts" := join [c_lf] [js "a"; js "b"]]> (<[js "/w/b.ts" := js "c"]> ∅); cache := lru_empty |}.

Definition twoFiles : jstring :=
  join [c_lf] (replaceProgram (js "a.ts") 2 (js "b") [js "x"] ++ replaceProgram (js "b.ts") 1 (js "c") [js "y"]).

Lemma writes_succeed_plain G : writes_succeed (H0 := G).
Proof. split; intros; [unfold serializeEditFileText; case_match|]; by eexists. Qed.



Lemma plan_mode_protects_files_witness :
  let G := dotGuards (Some {| enabled := true; planFilePath := js "/w/PLAN.md" |}) in
  files (executeHashlineSingle twoFiles None demoWorld).2 !! js "/w/a.ts" = Some (join [c_lf] [js "a"; js "b"]).
Proof.
  intros G.
  rewrite (plan_mode_protects_files twoFiles None demoWorld {| enabled := true; planFilePath := js "/w/PLAN.md" |}
             (js "/w/PLAN.md") (js "/w/a.ts")); [|try (vm_compute; reflexivity)..]; [vm_compute; reflexivity|vm_compute; discriminate].
Defined.

Lemma retry_header_is_accepted_witness :
  exists text, formatMissingHashRetryHeader [js "a"; js "b"; js "c"] 1 3 HL_OP_REPLACE = HL_OP_REPLACE :: text /\
    parseRange text 1 HL_OP_REPLACE
    = Ok {| start := anchorOf [js "a"; js "b"; js "c"] 1; stop := anchorOf [js "a"; js "b"; js "c"] 3 |}.
Proof.
  apply (retry_header_is_accepted [js "a"; js "b"; js "c"] 1 3 HL_OP_REPLACE 1); [lia|by vm_compute].
Defined.

(** Sections are merged by the text of their paths. Two spellings of one file pass the dry run, each against the file as
    it is; the first is written, the second no longer finds its line, and the call fails with half of the batch applied. *)
Definition aliased : jstring :=
  join [c_lf] (replaceProgram (js "a.ts") 1 (js "a") [js "x"; js "y"] ++ replaceProgram (js "./a.ts") 2 (js "b") [js "z"]).

Lemma aliased_paths_apply_half_a_batch :
  let G := dotGuards None in
  match sectionsOf aliased None with
  | Ok ss => (forEach preflightHashlineSection ss demoWorld).1 = Ok [tt; tt]
  | Throw _ => False
  end /\
  match executeHashlineSingle aliased None demoWorld with
  | (Throw (HashlineErr (HashlineMismatchError _ _)), w') =>
      files w' !! js "/w/a.ts" = Some (join [c_lf] [js "x"; js "y"; js "b"])
  | _ => False
  end.
Proof. vm_compute. split; reflexivity. Qed.

(** The window between reading and writing is not locked. Two calls that both read the file before either writes it change
    different lines, both succeed, and the first change is gone. *)
Definition editOf (n : Z) (old new : jstring) : HashlineInputSection :=
  {| path := js "a.ts"; HashlineInput.diff := join [c_lf] (tail (replaceProgram (js "a.ts") n old [new])) |}.

Lemma interleaved_calls_lose_an_update :
  let G := dotGuards None in
  match (prepareSection (editOf 1 (js "a") (js "x")) demoWorld).1, (prepareSection (editOf 2 (js "b") (js "y")) demoWorld).1 with
  | Ok first, Ok second =>
      let w1 := writeSection (js "a.ts") first demoWorld in
      let w2 := writeSection (js "a.ts") second w1.2 in
      w1.1 = Ok tt /\ w2.1 = Ok tt /\ files w2.2 !! js "/w/a.ts" = Some (join [c_lf] [js "a"; js "y"])
  | _, _ => False
  end.
Proof. vm_compute. repeat split. Qed.

End examples.
