(* ===== verification/Notebook.v ===== *)
(** * Notebooks as editable text (edit/notebook.ts)

    A notebook is shown to the model as one text, each cell under a marker line [# %% [type] cell:index], and
    an edited text is applied back to the document.  Reading and writing the JSON is not modelled; a cell's
    other fields are carried along as an abstract value. *)
From S2P Require Import Prelude JsString JsRegex.
From Stdlib Require Import ZifyBool ZifyN.
Open Scope Z_scope.

Inductive NotebookCellType : Type := code | markdown | raw.

#[global] Instance NotebookCellType_eq_dec : EqDecision NotebookCellType.
Proof. solve_decision. Defined.

Definition cell_type_text (ty : NotebookCellType) : jstring :=
  match ty with code => js "code" | markdown => js "markdown" | raw => js "raw" end.

(** [source?: string | string[]] *)
Inductive CellSource : Type := no_source | source_text (s : jstring) | source_lines (ls : list jstring).

(** A field that may be missing or null. *)
Inductive field (V : Type) : Type := absent | null | present (v : V).
Arguments absent {V}.
Arguments null {V}.
Arguments present {V} v.

Inductive NotebookError : Type := InvalidRepresentation (displayPath : jstring).

Definition sourceToText (s : CellSource) : jstring :=
  match s with no_source => [] | source_text t => t | source_lines ls => concat ls end.

(** [content.match(/[^\n]*\n|[^\n]+$/g) ?? []]: the lines with their line feeds, and a rest that is not empty. *)
Fixpoint sourcePieces (ls : list jstring) : list jstring :=
  match ls with
  | [] => []
  | [l] => match l with [] => [] | _ => [l] end
  | l :: ls' => (l ++ [c_lf]) :: sourcePieces ls'
  end.

Definition splitNotebookSource (content : jstring) : list jstring :=
  match content with [] => [] | _ => sourcePieces (split_on c_lf content) end.

(** [# %% \[(code|markdown|raw)\](?: cell:(\d+))?] between [^] and [$] *)
Definition CELL_MARKER_RE : regex :=
  rx_seq rx_bol (rx_seqs [
    rx_lit (js "# %% [");
    rx_group 1 (rx_alts [rx_lit (js "code"); rx_lit (js "markdown"); rx_lit (js "raw")]);
    rx_char 93;
    rx_opt (rx_seq (rx_lit (js " cell:")) (rx_group 2 (rx_plus rx_digit)));
    rx_eol]).

Definition cell_type_of (s : jstring) : NotebookCellType :=
  if bool_decide (s = js "code") then code else if bool_decide (s = js "markdown") then markdown else raw.

Definition parseVirtualCellMarker (l : jstring) : option (NotebookCellType * option Z) :=
  match exec CELL_MARKER_RE l with
  | None => None
  | Some m => Some (cell_type_of (default [] (capture 1 m)), parse_int <$> capture 2 m)
  end.

Record ParsedVirtualCell : Type := { cellType : NotebookCellType; cellIndex : option Z; pv_source : jstring }.

(** The cells pushed so far, and the current one with its lines. *)
Definition parseState : Type := list ParsedVirtualCell * option (NotebookCellType * option Z * list jstring).

Definition flushCell (st : parseState) : list ParsedVirtualCell :=
  match st.2 with
  | None => st.1
  | Some (ty, idx, ls) => st.1 ++ [{| cellType := ty; cellIndex := idx; pv_source := join [c_lf] ls |}]
  end.

Definition parseCellLine (displayPath : jstring) (st : parseState) (l : jstring) : result NotebookError parseState :=
  match parseVirtualCellMarker l with
  | Some (ty, idx) => Ok (flushCell st, Some (ty, idx, []))
  | None => match st.2 with
            | None => Throw (InvalidRepresentation displayPath)
            | Some (ty, idx, ls) => Ok (st.1, Some (ty, idx, ls ++ [l]))
            end
  end.

Definition parseNotebookEditableText (text displayPath : jstring) : result NotebookError (list ParsedVirtualCell) :=
  let lines := match text with [] => [] | _ => split_on c_lf text end in
  st ← foldM (parseCellLine displayPath) ([], None) lines;
  Ok (flushCell st).

Section notebook.
(** [metadata] and the fields the code does not name; counts and outputs of a cell; the rest of the document. *)
Context {Other Count Output Doc : Type} (emptyMetadata : Other).

Record NotebookCell : Type := {
  cell_type : NotebookCellType; source : CellSource; execution_count : field Count; outputs : field (list Output); other : Other }.

Record NotebookDocument : Type := { cells : list NotebookCell; doc : Doc }.

Definition createNotebookCell (ty : NotebookCellType) (src : jstring) : NotebookCell :=
  {| cell_type := ty; source := source_lines (splitNotebookSource src);
     execution_count := match ty with code => null | _ => absent end;
     outputs := match ty with code => present [] | _ => absent end; other := emptyMetadata |}.

Definition cellText (index : nat) (cell : NotebookCell) : jstring :=
  let src := sourceToText (source cell) in
  let marker := js "# %% [" ++ cell_type_text (cell_type cell) ++ js "] cell:" ++ z_str (Z.of_nat index) in
  match src with [] => marker | _ => marker ++ c_lf :: src end.

Definition notebookToEditableText (notebook : NotebookDocument) : jstring := join [c_lf] (imap cellText (cells notebook)).

(** The original cell with the edited type and source. *)
Definition editedCell (original : NotebookCell) (parsed : ParsedVirtualCell) : NotebookCell :=
  {| cell_type := cellType parsed;
     source := source_lines (splitNotebookSource (pv_source parsed));
     execution_count := match cellType parsed with
                        | code => match execution_count original with present c => present c | _ => null end
                        | _ => absent end;
     outputs := match cellType parsed with
                | code => match outputs original with present o => present o | _ => present [] end
                | _ => absent end;
     other := other original |}.

(** One parsed cell, with the indices already used. *)
Definition applyCell (notebook : NotebookDocument) (used : list Z) (parsed : ParsedVirtualCell) : NotebookCell * list Z :=
  let originalCell :=
    match cellIndex parsed with
    | Some i => if (0 <=? i) && (i <? zlength (cells notebook)) && negb (bool_decide (i ∈ used))
                then (fun c => (i, c)) <$> arr_at (cells notebook) i else None
    | None => None
    end in
  match originalCell with
  | Some (i, c) => (editedCell c parsed, i :: used)
  | None => (createNotebookCell (cellType parsed) (pv_source parsed), used)
  end.

Fixpoint applyCells (notebook : NotebookDocument) (used : list Z) (parsed : list ParsedVirtualCell) : list NotebookCell :=
  match parsed with
  | [] => []
  | p :: parsed' => let '(c, used') := applyCell notebook used p in c :: applyCells notebook used' parsed'
  end.

Definition applyNotebookEditableText (notebook : NotebookDocument) (text displayPath : jstring)
    : result NotebookError NotebookDocument :=
  parsedCells ← parseNotebookEditableText text displayPath;
  Ok {| cells := applyCells notebook [] parsedCells; doc := doc notebook |}.

(** ** Reading back what is shown *)

(** A cell none of whose lines looks like a marker. *)
Definition no_marker (cell : NotebookCell) : Prop :=
  Forall (fun l => parseVirtualCellMarker l = None) (split_on c_lf (sourceToText (source cell))).

(** A cell as the code writes it: the source as lines, the fields of its type. *)
Definition normalized (cell : NotebookCell) : NotebookCell :=
  editedCell cell {| cellType := cell_type cell; cellIndex := None; pv_source := sourceToText (source cell) |}.

Lemma concat_sourcePieces ls : concat (sourcePieces ls) = join [c_lf] ls.
Proof.
  induction ls as [|l ls IH]; [done|]. destruct ls as [|l' ls].
  - cbn. destruct l; [done|]. cbn. by rewrite app_nil_r.
  - change (sourcePieces (l :: l' :: ls)) with ((l ++ [c_lf]) :: sourcePieces (l' :: ls)).
    cbn [concat]. rewrite IH, (join_cons [c_lf] l) by done. by rewrite <- app_assoc.
Qed.

Lemma splitNotebookSource_concat s : concat (splitNotebookSource s) = s.
Proof. unfold splitNotebookSource. destruct s; [done|]. by rewrite concat_sourcePieces, join_split_on. Qed.

Lemma digits_match bef ds cs k x :
  Forall (fun c => is_digit c = true) ds -> ds <> [] ->
  k (MState (reverse ds ++ bef) [] cs) = Some x ->
  rmatch (rx_plus rx_digit) (MState bef ds cs) k = Some x.
Proof.
  intros Hds Hne Hk. destruct ds as [|d ds]; [done|]. apply Forall_cons in Hds as [Hd Hds].
  apply seq_match, class_match; [done|]. rewrite <- (app_nil_r ds).
  apply (star_class_greedy _ _ _ _ ds []); [done|done|]. by rewrite reverse_cons, <- app_assoc in Hk.
Qed.

Lemma lit_match p bef s cs k x :
  k (MState (reverse p ++ bef) s cs) = Some x -> rmatch (rx_lit p) (MState bef (p ++ s) cs) k = Some x.
Proof.
  revert bef. induction p as [|c p IH]; intros bef Hk; [done|]. rewrite reverse_cons, <- app_assoc in Hk.
  destruct p as [|d p].
  - cbn [rx_lit app]. apply class_match; [apply N.eqb_refl|exact Hk].
  - change (rx_lit (c :: d :: p)) with (rx_seq (rx_char c) (rx_lit (d :: p))).
    apply seq_match, class_match; [apply N.eqb_refl|]. by apply IH.
Qed.

Lemma marker_match ty ds :
  Forall (fun c => is_digit c = true) ds -> ds <> [] ->
  exists m, exec CELL_MARKER_RE (js "# %% [" ++ cell_type_text ty ++ js "] cell:" ++ ds) = Some m
    /\ capture 1 m = Some (cell_type_text ty) /\ capture 2 m = Some ds.
Proof.
  intros Hds Hne. unfold CELL_MARKER_RE. rewrite exec_bol. unfold match_at. eexists. split.
  - apply seq_match. cbn [rmatch consumed]. apply seq_match, lit_match, seq_match, group_match.
    assert (forall k x, k (MState (reverse (cell_type_text ty) ++ reverse (js "# %% [") ++ []) (js "] cell:" ++ ds) []) = Some x ->
      rmatch (rx_alts [rx_lit (js "code"); rx_lit (js "markdown"); rx_lit (js "raw")])
        (MState (reverse (js "# %% [") ++ []) (cell_type_text ty ++ js "] cell:" ++ ds) []) k = Some x) as Halt.
    { intros k x Hk. destruct ty; cbn [rx_alts cell_type_text] in *.
      - by apply alt_match_l, lit_match.
      - apply alt_match_r; [reflexivity|]. by apply alt_match_l, lit_match.
      - apply alt_match_r; [reflexivity|]. apply alt_match_r; [reflexivity|]. by apply lit_match. }
    apply Halt. apply seq_match. change (js "] cell:" ++ ds) with (93%N :: (js " cell:" ++ ds)).
    apply class_match; [done|]. apply seq_match, alt_match_l, seq_match, lit_match, group_match.
    apply digits_match; [done|done|]. by apply eol_match.
  - unfold capture. cbn [caps consumed rest List.find fst snd Nat.eqb fmap option_fmap option_map].
    split; f_equal; apply eats_consumed_since; split; cbn [rest consumed]; by rewrite ?app_nil_r.
Qed.

Lemma parse_marker ty n :
  0 <= n -> parseVirtualCellMarker (js "# %% [" ++ cell_type_text ty ++ js "] cell:" ++ z_str n) = Some (ty, Some n).
Proof.
  intros Hn. destruct (marker_match ty (z_str n)) as (m & Hm & H1 & H2); [by apply z_str_digits| |].
  { destruct (z_str_nonempty n Hn) as (c & ds & -> & _). done. }
  unfold parseVirtualCellMarker. rewrite Hm, H1, H2. cbn [default from_option fmap option_fmap option_map].
  rewrite parse_int_z_str by done. by destruct ty.
Qed.

Definition cellMarker (index : nat) (cell : NotebookCell) : jstring :=
  js "# %% [" ++ cell_type_text (cell_type cell) ++ js "] cell:" ++ z_str (Z.of_nat index).

Definition cellLines (index : nat) (cell : NotebookCell) : list jstring :=
  cellMarker index cell :: match sourceToText (source cell) with [] => [] | src => split_on c_lf src end.

Definition parsedOf (index : nat) (cell : NotebookCell) : ParsedVirtualCell :=
  {| cellType := cell_type cell; cellIndex := Some (Z.of_nat index); pv_source := sourceToText (source cell) |}.

Lemma cellText_lines index cell : cellText index cell = join [c_lf] (cellLines index cell).
Proof.
  unfold cellText, cellLines. fold (cellMarker index cell). cbv zeta.
  destruct (sourceToText (source cell)) as [|c s] eqn:E; [done|].
  rewrite join_cons by apply split_on_nonempty. by rewrite join_split_on.
Qed.

Lemma join_concat sep (lss : list (list jstring)) :
  Forall (fun ls => ls <> []) lss -> join sep (join sep <$> lss) = join sep (concat lss).
Proof.
  induction 1 as [|ls lss Hne Hall IH]; [done|]. destruct lss as [|ls' lss].
  - cbn. by rewrite app_nil_r.
  - change (join sep <$> ls :: ls' :: lss) with (join sep ls :: (join sep <$> ls' :: lss)).
    rewrite join_cons, IH by done. change (concat (ls :: ls' :: lss)) with (ls ++ concat (ls' :: lss)).
    assert (concat (ls' :: lss) <> []) as Hc by (apply Forall_cons in Hall as [H _]; by destruct ls').
    clear IH Hall. induction ls as [|l ls IHl]; [done|]. destruct ls as [|l' ls].
    + cbn [app]. by rewrite (join_cons sep l (concat _)).
    + rewrite (join_cons sep l (l' :: ls)) by done. cbn [app]. rewrite (join_cons sep l (l' :: ls ++ _)) by done.
      rewrite <- !app_assoc. do 2 f_equal. apply IHl. done.
Qed.

Lemma marker_no_lf index cell : c_lf ∉ cellMarker index cell.
Proof.
  unfold cellMarker. rewrite !not_elem_of_app. split_and!.
  - apply (bool_decide_unpack _). by vm_compute.
  - destruct (cell_type cell); apply (bool_decide_unpack _); by vm_compute.
  - apply (bool_decide_unpack _). by vm_compute.
  - pose proof (z_str_digits (Z.of_nat index) ltac:(lia)) as Hd. rewrite Forall_forall in Hd. intros H%Hd. done.
Qed.

Lemma cellLines_no_lf index cell : Forall (fun l => c_lf ∉ l) (cellLines index cell).
Proof. constructor; [apply marker_no_lf|]. case_match; [constructor|apply split_on_pieces]. Qed.

Lemma text_lines nb : cells nb <> [] ->
  split_on c_lf (notebookToEditableText nb) = concat (imap cellLines (cells nb)) /\ notebookToEditableText nb <> [].
Proof.
  intros Hne. unfold notebookToEditableText.
  assert (imap cellText (cells nb) = join [c_lf] <$> imap cellLines (cells nb)) as ->.
  { apply list_eq. intros i. rewrite list_lookup_fmap, !list_lookup_imap. destruct (cells nb !! i); [|done]. cbn.
    by rewrite cellText_lines. }
  rewrite join_concat.
  - assert (concat (imap cellLines (cells nb)) <> []) as Hc by (destruct (cells nb); [done|]; by cbn).
    assert (Forall (fun l => c_lf ∉ l) (concat (imap cellLines (cells nb)))) as Hlf.
    { apply Forall_concat, Forall_forall. intros ls (i & c & -> & _)%elem_of_lookup_imap. apply cellLines_no_lf. }
    split; [by apply split_on_join|]. intros E. apply (f_equal (split_on c_lf)) in E. rewrite split_on_join in E by done.
    destruct (cells nb) as [|c cs]; [done|]. apply (f_equal head) in E. by cbn in E.
  - apply Forall_forall. intros ls (i & c & -> & _)%elem_of_lookup_imap. done.
Qed.

Lemma parse_source displayPath pushed ty idx ls0 ls :
  Forall (fun l => parseVirtualCellMarker l = None) ls ->
  foldM (parseCellLine displayPath) (pushed, Some (ty, idx, ls0)) ls = Ok (pushed, Some (ty, idx, ls0 ++ ls)).
Proof.
  intros Hls. revert ls0. induction Hls as [|l ls Hl _ IH]; intros ls0; cbn [foldM]; [by rewrite app_nil_r|].
  assert (parseCellLine displayPath (pushed, Some (ty, idx, ls0)) l = Ok (pushed, Some (ty, idx, ls0 ++ [l]))) as ->
    by (unfold parseCellLine; by rewrite Hl).
  cbn [mbind result_bind]. rewrite IH. by rewrite <- app_assoc.
Qed.

Lemma parse_cell displayPath st index cell :
  no_marker cell -> exists st', foldM (parseCellLine displayPath) st (cellLines index cell) = Ok st' /\
    flushCell st' = flushCell st ++ [parsedOf index cell].
Proof.
  intros Hno. unfold cellLines. cbn [foldM].
  assert (parseCellLine displayPath st (cellMarker index cell)
    = Ok (flushCell st, Some (cell_type cell, Some (Z.of_nat index), []))) as ->
    by (unfold parseCellLine, cellMarker; by rewrite parse_marker by lia).
  cbn [mbind result_bind]. unfold no_marker in Hno. unfold parsedOf.
  destruct (sourceToText (source cell)) as [|c s].
  - by eexists.
  - rewrite parse_source by done. eexists. split; [done|]. cbn [flushCell fst snd app]. by rewrite join_split_on.
Qed.

Lemma parse_cells displayPath cs k st :
  Forall no_marker cs -> exists st', foldM (parseCellLine displayPath) st (concat (imap (fun i => cellLines (k + i)) cs)) = Ok st' /\
    flushCell st' = flushCell st ++ imap (fun i => parsedOf (k + i)) cs.
Proof.
  intros Hcs. revert k st. induction Hcs as [|c cs Hc _ IH]; intros k st.
  { exists st. by rewrite app_nil_r. }
  rewrite !imap_cons. cbn [concat]. rewrite foldM_app.
  destruct (parse_cell displayPath st (k + 0) c Hc) as (st1 & -> & H1). cbn [mbind result_bind].
  destruct (IH (S k) st1) as (st2 & H2 & H3). exists st2.
  assert (forall {B} (f : nat -> NotebookCell -> B) l, imap ((fun i => f (k + i)%nat) ∘ S) l = imap (fun i => f (S k + i)%nat) l) as Heq.
  { intros B f l. apply imap_ext. intros i x _. cbn. f_equal. lia. }
  rewrite !Heq. split; [exact H2|]. rewrite H3, H1, <- app_assoc. done.
Qed.

Lemma editedCell_parsed c index : editedCell c (parsedOf index c) = normalized c.
Proof. done. Qed.

Lemma apply_parsed nb pre rest used :
  cells nb = pre ++ rest -> Forall (fun i => i < zlength pre) used ->
  applyCells nb used (imap (fun i => parsedOf (length pre + i)) rest) = normalized <$> rest.
Proof.
  revert pre used. induction rest as [|c rest IH]; intros pre used Hnb Hused; [done|]. rewrite imap_cons. cbn [applyCells].
  unfold applyCell. cbn [cellIndex parsedOf]. rewrite Nat.add_0_r.
  assert (arr_at (cells nb) (Z.of_nat (length pre)) = Some c) as Hat.
  { apply arr_at_Some. split; [lia|]. by rewrite Nat2Z.id, Hnb, list_lookup_middle. }
  assert ((0 <=? Z.of_nat (length pre)) && (Z.of_nat (length pre) <? zlength (cells nb))
    && negb (bool_decide (Z.of_nat (length pre) ∈ used)) = true) as ->.
  { assert (Z.of_nat (length pre) ∉ used) as Hnot.
    { rewrite Forall_forall in Hused. intros H%Hused. unfold zlength in H. lia. }
    rewrite bool_decide_eq_false_2 by done. rewrite Hnb. unfold zlength. rewrite length_app. cbn [length negb]. lia. }
  rewrite Hat. cbn [fmap option_fmap option_map]. rewrite editedCell_parsed. cbn [fmap list_fmap]. f_equal.
  assert (imap ((fun i => parsedOf (length pre + i)) ∘ S) rest = imap (fun i => parsedOf (length (pre ++ [c]) + i)) rest) as ->.
  { apply imap_ext. intros i x _. cbn. f_equal. rewrite length_app. cbn. lia. }
  apply IH; [by rewrite Hnb, <- app_assoc|]. unfold zlength in *. rewrite length_app. constructor; [cbn; lia|].
  eapply Forall_impl; [exact Hused|]. cbn. intros; lia.
Qed.

(** Round trip. A notebook whose cell sources have no line that looks like a cell marker survives being shown and
    written back unedited: every cell keeps its type, its source text, its outputs and its other fields, in order. *)
Theorem notebook_text_roundtrip nb displayPath :
  Forall no_marker (cells nb) ->
  applyNotebookEditableText nb (notebookToEditableText nb) displayPath
  = Ok {| cells := normalized <$> cells nb; doc := doc nb |}
  /\ Forall (fun c => sourceToText (source (normalized c)) = sourceToText (source c)) (cells nb).
Proof.
  intros Hno. split.
  - unfold applyNotebookEditableText, parseNotebookEditableText. destruct (decide (cells nb = [])) as [E|Hne].
    + unfold notebookToEditableText. rewrite E. done.
    + destruct (text_lines nb Hne) as [Hlines Htext].
      destruct (parse_cells displayPath (cells nb) 0 ([], None) Hno) as (st' & Hrun & Hflush).
      destruct (notebookToEditableText nb) as [|c0 t0] eqn:Et; [done|]. rewrite Hlines.
      change (imap cellLines (cells nb)) with (imap (fun i => cellLines (0 + i)) (cells nb)). rewrite Hrun. cbn [mbind result_bind].
      rewrite Hflush. cbn [flushCell fst snd app]. do 2 f_equal. apply (apply_parsed nb [] (cells nb)); [done|constructor].
  - apply Forall_forall. intros c _. cbn [normalized editedCell source sourceToText pv_source]. apply splitNotebookSource_concat.
Qed.

End notebook.

(** ** Concrete notebooks *)

Section examples.

Definition demoCell (ty : NotebookCellType) (src : string) : NotebookCell (Other := unit) (Count := Z) (Output := unit) :=
  {| cell_type := ty; source := source_text (js src); execution_count := present 7; outputs := present []; other := tt |}.

Definition demoNotebook : NotebookDocument (Doc := unit) :=
  {| cells := [demoCell code "print(1)"; demoCell markdown ""]; doc := tt |}.

Lemma notebook_text_roundtrip_witness :
  applyNotebookEditableText tt demoNotebook (notebookToEditableText demoNotebook) (js "a.ipynb")
  = Ok {| cells := normalized <$> cells demoNotebook; doc := tt |}.
Proof.
  apply (notebook_text_roundtrip tt demoNotebook (js "a.ipynb")).
  repeat constructor; vm_compute; reflexivity.
Defined.

(** A source line that looks like a marker is not quoted: writing the notebook back unedited cuts its cell in two. *)
Definition percentCell : NotebookDocument (Other := unit) (Count := Z) (Output := unit) (Doc := unit) :=
  {| cells := [{| cell_type := code; source := source_lines [js "a" ++ [c_lf]; js "# %% [markdown]" ++ [c_lf]; js "b"];
                  execution_count := present 7; outputs := present []; other := tt |}]; doc := tt |}.

Lemma marker_in_source_splits_the_cell :
  match applyNotebookEditableText tt percentCell (notebookToEditableText percentCell) (js "a.ipynb") with
  | Ok nb => (fun c => (cell_type c, sourceToText (source c))) <$> cells nb = [(code, js "a"); (markdown, js "b")]
  | Throw _ => False
  end.
Proof. vm_compute. reflexivity. Qed.

End examples.
