(* ===== verification/VimBuffer.v ===== *)
(** * The vim tool's text buffer

    packages/coding-agent/src/vim/buffer.ts and the data types of types.ts: lines, a cursor, offsets into
    the joined text, and the edits the engine performs on them.  The buffer is mutable in the source; here
    every method takes and returns it.  The theorems relate the line view to the text view: offsets and
    positions are inverse to each other, and an edit of an offset range is that edit of the text. *)
From S2P Require Import Prelude JsString.
From Stdlib Require Import ZifyBool ZifyN.
Open Scope Z_scope.

(** ** types.ts *)

Record Position : Type := mkPosition { line : Z; col : Z }.

Record VimFingerprint : Type := mkFingerprint { exists_ : bool; size : Z; mtimeMs : Z; hash : jstring }.

Record VimLoadedFile : Type := mkLoaded {
  absolutePath : jstring; l_displayPath : jstring; l_lines : list jstring; l_trailingNewline : bool;
  fingerprint : option VimFingerprint }.

Record VimBufferSnapshot : Type := mkSnapshot {
  s_displayPath : jstring; s_filePath : jstring; s_lines : list jstring; s_cursor : Position;
  s_modified : bool; s_trailingNewline : bool; s_baseFingerprint : option VimFingerprint;
  s_editabilityChecked : bool }.

#[global] Instance Position_eq_dec : EqDecision Position.
Proof. solve_decision. Defined.
#[global] Instance VimFingerprint_eq_dec : EqDecision VimFingerprint.
Proof. solve_decision. Defined.

Definition clonePosition (p : Position) : Position := mkPosition (line p) (col p).

Definition comparePositions (left right : Position) : Z :=
  if negb (line left =? line right) then line left - line right else col left - col right.

Definition minPosition (left right : Position) : Position :=
  if comparePositions left right <=? 0 then clonePosition left else clonePosition right.

Definition maxPosition (left right : Position) : Position :=
  if comparePositions left right >=? 0 then clonePosition left else clonePosition right.

(** ** The buffer *)

Record VimBuffer : Type := mkBuffer {
  displayPath : jstring; filePath : jstring; lines : list jstring; cursor : Position;
  modified : bool; trailingNewline : bool; baseFingerprint : option VimFingerprint;
  editabilityChecked : bool }.

Definition with_lines (ls : list jstring) (b : VimBuffer) : VimBuffer :=
  mkBuffer (displayPath b) (filePath b) ls (cursor b) (modified b) (trailingNewline b) (baseFingerprint b)
    (editabilityChecked b).
Definition with_cursor (p : Position) (b : VimBuffer) : VimBuffer :=
  mkBuffer (displayPath b) (filePath b) (lines b) p (modified b) (trailingNewline b) (baseFingerprint b)
    (editabilityChecked b).
Definition with_trailingNewline (t : bool) (b : VimBuffer) : VimBuffer :=
  mkBuffer (displayPath b) (filePath b) (lines b) (cursor b) (modified b) t (baseFingerprint b)
    (editabilityChecked b).
Definition with_modified (m : bool) (b : VimBuffer) : VimBuffer :=
  mkBuffer (displayPath b) (filePath b) (lines b) (cursor b) m (trailingNewline b) (baseFingerprint b)
    (editabilityChecked b).

(** [text.length === 0 ? [""] : text.split("\n")] *)
Definition splitText (text : jstring) : list jstring :=
  match text with [] => [[]] | _ => split_on c_lf text end.

(** [lines.length > 0 ? [...lines] : [""]] *)
Definition orEmptyLine (ls : list jstring) : list jstring :=
  match ls with [] => [[]] | _ => ls end.

(** The constructor. *)
Definition newVimBuffer (input : VimLoadedFile) : VimBuffer :=
  mkBuffer (l_displayPath input) (absolutePath input) (orEmptyLine (l_lines input)) (mkPosition 0 0) false
    (l_trailingNewline input) (fingerprint input) false.

Definition lineCount (b : VimBuffer) : Z := zlength (lines b).
Definition lastLineIndex (b : VimBuffer) : Z := Z.max 0 (zlength (lines b) - 1).
Definition clampLine (b : VimBuffer) (l : Z) : Z := Z.min (Z.max l 0) (lastLineIndex b).
Definition getLine (b : VimBuffer) (l : Z) : jstring := default [] (arr_at (lines b) (clampLine b l)).
Definition clampCol (b : VimBuffer) (l c : Z) : Z := Z.min (Z.max c 0) (zlength (getLine b l)).

Definition setCursor (b : VimBuffer) (p : Position) : VimBuffer :=
  with_cursor (mkPosition (clampLine b (line p)) (clampCol b (line p) (col p))) b.
Definition clampCursor (b : VimBuffer) : VimBuffer := setCursor b (cursor b).

Definition clone (b : VimBuffer) : VimBuffer :=
  let c := newVimBuffer (mkLoaded (filePath b) (displayPath b) (lines b) (trailingNewline b) (baseFingerprint b)) in
  mkBuffer (displayPath c) (filePath c) (lines c) (clonePosition (cursor b)) (modified b) (trailingNewline c)
    (baseFingerprint c) (editabilityChecked b).

Definition createSnapshot (b : VimBuffer) : VimBufferSnapshot :=
  mkSnapshot (displayPath b) (filePath b) (lines b) (clonePosition (cursor b)) (modified b) (trailingNewline b)
    (baseFingerprint b) (editabilityChecked b).

Definition restore (b : VimBuffer) (s : VimBufferSnapshot) : VimBuffer :=
  clampCursor
    (mkBuffer (s_displayPath s) (s_filePath s) (orEmptyLine (s_lines s)) (clonePosition (s_cursor s)) (s_modified s)
      (s_trailingNewline s) (s_baseFingerprint s) (s_editabilityChecked s)).

Definition replaceLoadedFile (b : VimBuffer) (input : VimLoadedFile) : VimBuffer :=
  mkBuffer (l_displayPath input) (absolutePath input) (orEmptyLine (l_lines input)) (mkPosition 0 0) false
    (l_trailingNewline input) (fingerprint input) false.

Definition markSaved (b : VimBuffer) (input : VimLoadedFile) : VimBuffer :=
  clampCursor
    (mkBuffer (displayPath b) (filePath b) (orEmptyLine (l_lines input)) (cursor b) false (l_trailingNewline input)
      (fingerprint input) (editabilityChecked b)).

(** The comparison of the fingerprints in [snapshotEqual], by value. *)
Definition fingerprintsEqual (left right : option VimFingerprint) : bool :=
  match left, right with
  | Some f, Some g =>
      Bool.eqb (exists_ f) (exists_ g) && (size f =? size g) && (mtimeMs f =? mtimeMs g)
      && bool_decide (hash f = hash g)
  | None, None => true
  | _, _ => false
  end.

(** [snapshotEqual]: field by field, then the lines. *)
Definition snapshotEqual (left right : VimBufferSnapshot) : bool :=
  if negb (bool_decide (s_displayPath left = s_displayPath right))
     || negb (bool_decide (s_filePath left = s_filePath right))
     || negb (Bool.eqb (s_modified left) (s_modified right))
     || negb (Bool.eqb (s_trailingNewline left) (s_trailingNewline right))
     || negb (line (s_cursor left) =? line (s_cursor right))
     || negb (col (s_cursor left) =? col (s_cursor right))
     || negb (Bool.eqb (s_editabilityChecked left) (s_editabilityChecked right)) then false
  else if negb (fingerprintsEqual (s_baseFingerprint left) (s_baseFingerprint right)) then false
  else if negb (zlength (s_lines left) =? zlength (s_lines right)) then false
  else forallb (fun i => bool_decide (arr_at (s_lines left) i = arr_at (s_lines right) i))
         (zrange 0 (zlength (s_lines left) - 1)).

(** [content.search(/\S/)], [-1] as [0]. *)
Fixpoint searchNonBlank (s : jstring) (i : Z) : Z :=
  match s with [] => -1 | c :: s' => if is_ws c then searchNonBlank s' (i + 1) else i end.

Definition firstNonBlank (b : VimBuffer) (l : Z) : Z :=
  let index := searchNonBlank (getLine b l) 0 in
  if index =? -1 then 0 else index.

(** ** Text and offsets *)

Definition getText (b : VimBuffer) : jstring := join [c_lf] (lines b).

Definition setText (b : VimBuffer) (text : jstring) (trailing : bool) : VimBuffer :=
  let normalizedText := if trailing && ends_with_unit c_lf text then drop_last text else text in
  clampCursor (with_trailingNewline trailing (with_lines (splitText normalizedText) b)).

Definition positionToOffset (b : VimBuffer) (p : Position) : Z :=
  let l := clampLine b (line p) in
  let c := clampCol b l (col p) in
  foldl (fun offset index => offset + zlength (default [] (arr_at (lines b) index)) + 1) 0 (zrange 0 (l - 1)) + c.

Definition currentOffset (b : VimBuffer) : Z := positionToOffset b (cursor b).

(** The loop of [offsetToPosition] from line [l]; [rest] are the lines from there on. *)
Fixpoint offsetLoop (rest : list jstring) (l remaining : Z) : option Position :=
  match rest with
  | [] => None
  | current :: rest' =>
      if remaining <=? zlength current then Some (mkPosition l remaining)
      else
        let remaining := remaining - zlength current in
        match rest' with
        | [] => offsetLoop rest' (l + 1) remaining
        | _ => if remaining =? 0 then Some (mkPosition (l + 1) 0) else offsetLoop rest' (l + 1) (remaining - 1)
        end
  end.

Definition offsetToPosition (b : VimBuffer) (offset : Z) : Position :=
  let text := getText b in
  let clamped := Z.min (Z.max offset 0) (zlength text) in
  match offsetLoop (lines b) 0 clamped with
  | Some p => p
  | None => mkPosition (lastLineIndex b) (zlength (getLine b (lastLineIndex b)))
  end.

Definition setCursorFromOffset (b : VimBuffer) (offset : Z) : VimBuffer :=
  with_cursor (offsetToPosition b offset) b.

(** [replaceOffsets]; the default of [cursorOffset] is [start + replacement.length]. *)
Definition replaceOffsets (b : VimBuffer) (start stop : Z) (replacement : jstring) (cursorOffset : Z) : VimBuffer :=
  let text := getText b in
  let normalizedStart := Z.min (Z.max start 0) (zlength text) in
  let normalizedEnd := Z.min (Z.max stop normalizedStart) (zlength text) in
  let nextText := take (Z.to_nat normalizedStart) text ++ replacement ++ drop (Z.to_nat normalizedEnd) text in
  setCursorFromOffset (clampCursor (with_lines (splitText nextText) b)) cursorOffset.

Definition deleteOffsets (b : VimBuffer) (start stop : Z) : jstring * VimBuffer :=
  let text := getText b in
  let normalizedStart := Z.min (Z.max start 0) (zlength text) in
  let normalizedEnd := Z.min (Z.max stop normalizedStart) (zlength text) in
  (arr_slice text normalizedStart normalizedEnd, replaceOffsets b normalizedStart normalizedEnd [] normalizedStart).

(** ** Line edits *)

Definition deleteLines (b : VimBuffer) (startLine endLine : Z) : list jstring * VimBuffer :=
  let start := clampLine b (Z.min startLine endLine) in
  let stop := clampLine b (Z.max startLine endLine) in
  let removed := arr_slice (lines b) start (stop + 1) in
  let b := with_lines (orEmptyLine (arr_splice (lines b) start (stop - start + 1) [])) b in
  let b := setCursor b (mkPosition (Z.min start (lastLineIndex b)) 0) in
  (removed, if (1 <? zlength (lines b)) || (1 <? zlength removed) then with_trailingNewline true b else b).

Definition insertLines (b : VimBuffer) (index : Z) (newLines : list jstring) : VimBuffer :=
  let at_ := Z.min (Z.max index 0) (zlength (lines b)) in
  let b := with_lines (arr_splice (lines b) at_ 0 (orEmptyLine newLines)) b in
  with_trailingNewline true (setCursor b (mkPosition at_ 0)).

(** [this.lines[target] = content]: the index is inside the array. *)
Definition replaceLine (b : VimBuffer) (l : Z) (content : jstring) : VimBuffer :=
  let target := clampLine b l in
  clampCursor (with_lines (<[Z.to_nat target := content]> (lines b)) b).

Definition joinLines (b : VimBuffer) (startLine count : Z) : VimBuffer :=
  let start := clampLine b startLine in
  let stop := clampLine b (start + Z.max count 1) in
  if stop <=? start then b
  else
    let joined := join [c_space] (trim <$> arr_slice (lines b) start (stop + 1)) in
    let b := with_lines (arr_splice (lines b) start (stop - start + 1) [joined]) b in
    setCursor b (mkPosition start (Z.max 0 (zlength joined - 1))).

(** [content.match(/^ +/)?.[0].length ?? 0] *)
Fixpoint leadingSpaces (s : jstring) : nat :=
  match s with c :: s' => if (c =? c_space)%N then S (leadingSpaces s') else 0%nat | [] => 0%nat end.

(** The body of the loop of [indentLines]; [direction > 0] is [forward]. *)
Definition shiftLine (indentUnit : jstring) (forward : bool) (content : jstring) : jstring :=
  if forward then indentUnit ++ content
  else if starts_with indentUnit content then drop (length indentUnit) content
  else drop (Nat.min (leadingSpaces content) (length indentUnit)) content.

Definition indentLines (b : VimBuffer) (startLine endLine : Z) (indentUnit : jstring) (forward : bool) : VimBuffer :=
  let start := clampLine b (Z.min startLine endLine) in
  let stop := clampLine b (Z.max startLine endLine) in
  clampCursor
    (foldl (fun b l => with_lines (<[Z.to_nat l := shiftLine indentUnit forward (default [] (arr_at (lines b) l))]> (lines b)) b)
       b (zrange start stop)).

Definition getCharacterAtOffset (b : VimBuffer) (offset : Z) : jstring :=
  let text := getText b in
  if (offset <? 0) || (zlength text <=? offset) then []
  else match arr_at text offset with Some c => [c] | None => [] end.

Definition getCharacter (b : VimBuffer) (p : Position) : jstring := getCharacterAtOffset b (positionToOffset b p).

(** ** The text view *)

(** The offset at which line [n] starts: the lines before it with their separators. *)
Definition lineStart (ls : list jstring) (n : nat) : Z := foldr (fun x t => zlength x + 1 + t) 0 (take n ls).

(** A position inside the buffer, which a cursor always is. *)
Definition position_ok (ls : list jstring) (p : Position) : Prop :=
  0 <= line p /\ exists x, ls !! Z.to_nat (line p) = Some x /\ 0 <= col p <= zlength x.

Record buffer_ok (b : VimBuffer) : Prop := {
  ok_lines : lines b ≠ [];
  ok_no_lf : Forall (fun x => c_lf ∉ x) (lines b);
  ok_cursor : position_ok (lines b) (cursor b) }.

Lemma lineStart_cons x ls n : lineStart (x :: ls) (S n) = zlength x + 1 + lineStart ls n.
Proof. done. Qed.

Lemma lineStart_nonneg ls n : 0 <= lineStart ls n.
Proof.
  unfold lineStart. generalize (take n ls). intros k. induction k as [|x k IH]; simpl; [lia|].
  pose proof (zlength_nonneg x). lia.
Qed.

Lemma lineStart_S ls n x : ls !! n = Some x -> lineStart ls (S n) = lineStart ls n + zlength x + 1.
Proof.
  revert n. induction ls as [|y ls IH]; intros n Hn; [done|].
  destruct n as [|n]; simpl in Hn; [simplify_eq; unfold lineStart; simpl; lia|].
  rewrite !lineStart_cons. rewrite (IH n Hn). lia.
Qed.

Lemma lineStart_mono ls n m : (n <= m)%nat -> lineStart ls n <= lineStart ls m.
Proof.
  revert n m. induction ls as [|x ls IH]; intros n m Hnm; [by destruct n, m|].
  destruct n as [|n]; [apply lineStart_nonneg|]. destruct m as [|m]; [lia|].
  rewrite !lineStart_cons. specialize (IH n m). lia.
Qed.

(** Two positions with the same offset are the same. *)
Lemma lineStart_inj ls n m x y c d :
  ls !! n = Some x -> ls !! m = Some y -> 0 <= c <= zlength x -> 0 <= d <= zlength y ->
  lineStart ls n + c = lineStart ls m + d -> n = m /\ c = d.
Proof.
  intros Hx Hy Hc Hd E. pose proof (lineStart_S _ _ _ Hx). pose proof (lineStart_S _ _ _ Hy).
  destruct (Nat.lt_trichotomy n m) as [Hlt|[->|Hlt]].
  - pose proof (lineStart_mono ls (S n) m). lia.
  - lia.
  - pose proof (lineStart_mono ls (S m) n). lia.
Qed.

Lemma zlength_join_cons x ls : ls ≠ [] -> zlength (join [c_lf] (x :: ls)) = zlength x + 1 + zlength (join [c_lf] ls).
Proof. intros H. rewrite join_cons by done. rewrite !zlength_app. change (zlength [c_lf]) with 1. lia. Qed.

(** The offset of a position is at most the length of the text. *)
Lemma lineStart_text ls n x : ls !! n = Some x -> lineStart ls n + zlength x <= zlength (join [c_lf] ls).
Proof.
  revert n. induction ls as [|y ls IH]; intros n Hn; [done|].
  destruct n as [|n]; simpl in Hn.
  - simplify_eq. change (lineStart _ 0) with 0. destruct ls as [|z ls]; [simpl; lia|].
    rewrite zlength_join_cons by done. pose proof (zlength_nonneg (join [c_lf] (z :: ls))). lia.
  - assert (ls ≠ []) by (by intros ->). rewrite lineStart_cons, zlength_join_cons by done.
    specialize (IH n Hn). lia.
Qed.

Lemma offset_sum ls n :
  (n <= length ls)%nat ->
  foldl (fun offset index => offset + zlength (default [] (arr_at ls index)) + 1) 0 (zrange 0 (Z.of_nat n - 1))
  = lineStart ls n.
Proof.
  intros Hn. unfold zrange. replace (Z.to_nat (Z.of_nat n - 1 - 0 + 1)) with n by lia.
  induction n as [|n IH]; [done|]. rewrite zseq_snoc, foldl_app, Z.add_0_l. cbn [foldl]. rewrite IH by lia.
  destruct (lookup_lt_is_Some_2 ls n) as [x Hx]; [lia|].
  rewrite (lineStart_S _ _ _ Hx).
  assert (arr_at ls (Z.of_nat n) = Some x) as ->; [|done].
  apply arr_at_Some. rewrite Nat2Z.id. split; [lia|done].
Qed.

Lemma clampLine_ok b l : lines b ≠ [] -> 0 <= clampLine b l < zlength (lines b).
Proof.
  intros H. unfold clampLine, lastLineIndex. destruct (lines b); [done|]. unfold zlength. simpl. lia.
Qed.

Lemma clampLine_id b l : 0 <= l < zlength (lines b) -> clampLine b l = l.
Proof. unfold clampLine, lastLineIndex. lia. Qed.

Lemma getLine_lookup b l : lines b ≠ [] -> lines b !! Z.to_nat (clampLine b l) = Some (getLine b l).
Proof.
  intros H. pose proof (clampLine_ok b l H) as Hc. apply arr_at_is_Some in Hc as [x Hx].
  unfold getLine. rewrite Hx. by apply arr_at_Some in Hx as [_ ->].
Qed.

Lemma setCursor_ok b p : lines b ≠ [] -> position_ok (lines b) (cursor (setCursor b p)).
Proof.
  intros H. pose proof (clampLine_ok b (line p) H). split; simpl; [lia|].
  exists (getLine b (line p)). split; [by apply getLine_lookup|].
  unfold clampCol. pose proof (zlength_nonneg (getLine b (line p))). lia.
Qed.

Lemma position_line_lt ls p : position_ok ls p -> 0 <= line p < zlength ls.
Proof. intros (? & x & Hx & _). apply lookup_lt_Some in Hx. unfold zlength. lia. Qed.

Lemma clamp_position b p :
  position_ok (lines b) p -> mkPosition (clampLine b (line p)) (clampCol b (line p) (col p)) = p.
Proof.
  intros Hp. pose proof (position_line_lt _ _ Hp) as Hl. destruct Hp as (H0 & x & Hx & Hc).
  rewrite clampLine_id by done. unfold clampCol, getLine. rewrite clampLine_id by done.
  assert (arr_at (lines b) (line p) = Some x) as -> by (by apply arr_at_Some).
  simpl. destruct p as [l c]; simpl in *. f_equal. lia.
Qed.

Lemma positionToOffset_eq b p :
  position_ok (lines b) p -> positionToOffset b p = lineStart (lines b) (Z.to_nat (line p)) + col p.
Proof.
  intros Hp. pose proof (position_line_lt _ _ Hp) as Hl. pose proof (clamp_position b p Hp) as E.
  unfold positionToOffset. rewrite (clampLine_id b (line p)) by done.
  rewrite <- (offset_sum (lines b) (Z.to_nat (line p))) by (unfold zlength in Hl; lia).
  rewrite Z2Nat.id by lia. destruct p as [l c]. simpl in *. injection E as _ Ec. by rewrite Ec.
Qed.

Lemma offsetLoop_spec ls l r :
  ls ≠ [] -> 0 <= r <= zlength (join [c_lf] ls) ->
  exists (n : nat) x c, offsetLoop ls l r = Some (mkPosition (l + Z.of_nat n) c) /\ ls !! n = Some x /\
    0 <= c <= zlength x /\ r = lineStart ls n + c.
Proof.
  revert l r. induction ls as [|x ls IH]; intros l r Hne Hr; [done|]. cbn [offsetLoop].
  destruct (Z.leb_spec r (zlength x)) as [Hle|Hgt].
  { exists 0%nat, x, r. rewrite Z.add_0_r. repeat split; lia. }
  destruct ls as [|y ls]; [simpl in Hr; lia|]. rewrite zlength_join_cons in Hr by done.
  destruct (Z.eqb_spec (r - zlength x) 0) as [|_]; [lia|].
  destruct (IH (l + 1) (r - zlength x - 1)) as (n & z & c & E & Hz & Hc & ER); [done|lia|].
  exists (S n), z, c. rewrite E. repeat split; [do 2 f_equal; lia|done|lia|lia|]. rewrite lineStart_cons. lia.
Qed.

Lemma offsetToPosition_spec b o :
  lines b ≠ [] ->
  position_ok (lines b) (offsetToPosition b o) /\
  positionToOffset b (offsetToPosition b o) = Z.min (Z.max o 0) (zlength (getText b)).
Proof.
  intros H. unfold offsetToPosition. pose proof (zlength_nonneg (getText b)).
  destruct (offsetLoop_spec (lines b) 0 (Z.min (Z.max o 0) (zlength (getText b)))) as (n & x & c & E & Hx & Hc & ER);
    [done|fold (getText b); lia|].
  rewrite E. assert (position_ok (lines b) (mkPosition (0 + Z.of_nat n) c)) as Hok.
  { split; cbn [line col]; [lia|]. exists x. replace (Z.to_nat (0 + Z.of_nat n)) with n by lia. done. }
  split; [done|]. rewrite positionToOffset_eq by done. simpl line. simpl col.
  replace (Z.to_nat (0 + Z.of_nat n)) with n by lia. lia.
Qed.

Lemma position_of_offset b p : position_ok (lines b) p -> offsetToPosition b (positionToOffset b p) = p.
Proof.
  intros Hp. assert (lines b ≠ []) as H. { intros E. apply position_line_lt in Hp. rewrite E in Hp. unfold zlength in Hp. simpl in Hp. lia. }
  destruct (offsetToPosition_spec b (positionToOffset b p) H) as [Hq E]. revert Hq E.
  generalize (offsetToPosition b (positionToOffset b p)). intros q Hq E.
  rewrite !positionToOffset_eq in E by done.
  destruct Hp as (Hp0 & x & Hx & Hc), Hq as (Hq0 & y & Hy & Hd).
  pose proof (lineStart_text _ _ _ Hx). pose proof (lineStart_nonneg (lines b) (Z.to_nat (line p))).
  unfold getText in E. rewrite Z.max_l, Z.min_l in E by lia.
  destruct (lineStart_inj _ _ _ _ _ _ _ Hy Hx Hd Hc E) as [En Ec].
  destruct q as [l c], p as [l' c']. simpl in *. f_equal; lia.
Qed.

Lemma join_splitText t : join [c_lf] (splitText t) = t.
Proof. unfold splitText. destruct t; [done|]. apply join_split_on. Qed.

Lemma splitText_ok t : splitText t ≠ [] /\ Forall (fun x => c_lf ∉ x) (splitText t).
Proof.
  unfold splitText. destruct t.
  - split; [done|]. constructor; [apply not_elem_of_nil|constructor].
  - split; [apply split_on_nonempty|apply split_on_pieces].
Qed.

(** The unit at a position: of its line, the newline after it, or nothing at the end of the text. *)
Definition unitAt (ls : list jstring) (p : Position) : jstring :=
  match ls !! Z.to_nat (line p) with
  | Some x => match x !! Z.to_nat (col p) with
              | Some c => [c]
              | None => if line p =? zlength ls - 1 then [] else [c_lf]
              end
  | None => []
  end.

Lemma join_lookup ls n x (c : nat) :
  ls !! n = Some x -> (c <= length x)%nat ->
  join [c_lf] ls !! Z.to_nat (lineStart ls n + Z.of_nat c) =
  match x !! c with Some u => Some u | None => if (S n =? length ls)%nat then None else Some c_lf end.
Proof.
  revert n. induction ls as [|y ls IH]; intros n Hn Hc; [done|].
  destruct ls as [|z ls].
  - destruct n as [|n]; [|done]. simpl in Hn. simplify_eq. change (lineStart _ 0) with 0. rewrite Z.add_0_l, Nat2Z.id.
    simpl. by destruct (x !! c).
  - rewrite join_cons by done. destruct n as [|n].
    + simpl in Hn. simplify_eq. change (lineStart _ 0) with 0. rewrite Z.add_0_l, Nat2Z.id.
      destruct (x !! c) as [u|] eqn:E; [by rewrite lookup_app_l by (by eapply lookup_lt_Some)|].
      apply lookup_ge_None in E. rewrite lookup_app_r by done. by replace (c - length x)%nat with 0%nat by lia.
    + rewrite lineStart_cons. specialize (IH n Hn Hc). pose proof (lineStart_nonneg (z :: ls) n).
      rewrite lookup_app_r by (unfold zlength; lia).
      replace (Z.to_nat (zlength y + 1 + lineStart (z :: ls) n + Z.of_nat c) - length y)%nat
        with (S (Z.to_nat (lineStart (z :: ls) n + Z.of_nat c))) by (unfold zlength; lia).
      change ([c_lf] ++ join [c_lf] (z :: ls)) with (c_lf :: join [c_lf] (z :: ls)).
      change ((c_lf :: ?l) !! S ?k) with (l !! k). rewrite IH. done.
Qed.

(** ** The text is what is edited *)

(** Offsets and positions are inverse to each other, and the unit at an offset is the unit of its line at its column. *)
Theorem offsets_and_positions_agree b (Hok : buffer_ok b) :
  (forall p, position_ok (lines b) p ->
    0 <= positionToOffset b p <= zlength (getText b) /\ offsetToPosition b (positionToOffset b p) = p /\
    getCharacter b p = unitAt (lines b) p) /\
  (forall o, 0 <= o <= zlength (getText b) ->
    position_ok (lines b) (offsetToPosition b o) /\ positionToOffset b (offsetToPosition b o) = o).
Proof.
  destruct Hok as [Hne _ _]. split.
  - intros p Hp. split; [|split; [by apply position_of_offset|]].
    + rewrite positionToOffset_eq by done. destruct Hp as (? & x & Hx & ?).
      pose proof (lineStart_text _ _ _ Hx). pose proof (lineStart_nonneg (lines b) (Z.to_nat (line p))).
      unfold getText. lia.
    + unfold getCharacter, getCharacterAtOffset, unitAt. pose proof (position_line_lt _ _ Hp) as Hl.
      rewrite positionToOffset_eq by done. destruct Hp as (H0 & x & Hx & Hc). rewrite Hx.
      pose proof (join_lookup (lines b) (Z.to_nat (line p)) x (Z.to_nat (col p)) Hx) as J.
      rewrite Z2Nat.id in J by lia. pose proof (lineStart_nonneg (lines b) (Z.to_nat (line p))).
      unfold arr_at, getText. unfold zlength in *. specialize (J ltac:(lia)).
      destruct (Z.ltb_spec (lineStart (lines b) (Z.to_nat (line p)) + col p) 0); [lia|]. simpl. rewrite J.
      destruct (x !! Z.to_nat (col p)) as [u|] eqn:Eu.
      { apply lookup_lt_Some in J. case_match; [lia|done]. }
      destruct (Nat.eqb_spec (S (Z.to_nat (line p))) (length (lines b))) as [El|El].
      { replace (line p =? Z.of_nat (length (lines b)) - 1) with true by lia. by case_match. }
      replace (line p =? Z.of_nat (length (lines b)) - 1) with false by lia.
      apply lookup_lt_Some in J. case_match; [lia|done].
  - intros o Ho. destruct (offsetToPosition_spec b o Hne) as [Hp E]. split; [done|]. rewrite E. lia.
Qed.

(** What [replaceOffsets] does to the text: the clamped range is replaced, the cursor goes to the clamped offset. *)
Definition spliceText (text : jstring) (start stop : Z) (replacement : jstring) : jstring :=
  let start := Z.min (Z.max start 0) (zlength text) in
  let stop := Z.min (Z.max stop start) (zlength text) in
  take (Z.to_nat start) text ++ replacement ++ drop (Z.to_nat stop) text.

(** An edit of an offset range is that edit of the text, puts the cursor at the given offset of the new text, and
    leaves everything else of the buffer alone. *)
Lemma replaceOffsets_spec b start stop replacement cursorOffset :
  let b' := replaceOffsets b start stop replacement cursorOffset in
  buffer_ok b' /\
  getText b' = spliceText (getText b) start stop replacement /\
  currentOffset b' = Z.min (Z.max cursorOffset 0) (zlength (getText b')) /\
  modified b' = modified b /\ trailingNewline b' = trailingNewline b /\ filePath b' = filePath b.
Proof.
  unfold replaceOffsets. fold (spliceText (getText b) start stop replacement).
  set (b1 := clampCursor (with_lines (splitText (spliceText (getText b) start stop replacement)) b)).
  assert (getText b1 = spliceText (getText b) start stop replacement) as Ht by apply join_splitText.
  pose proof (splitText_ok (spliceText (getText b) start stop replacement)) as [Hne Hlf].
  destruct (offsetToPosition_spec b1 cursorOffset Hne) as [Hp Ho].
  split; [by constructor|]. split; [exact Ht|]. split; [exact Ho|]. done.
Qed.

(** Deleting a range returns the text it takes out: putting it back at the cursor restores the text. *)
Lemma deleteOffsets_spec b start stop :
  let '(removed, b') := deleteOffsets b start stop in
  getText b' = spliceText (getText b) start stop [] /\
  getText (replaceOffsets b' (currentOffset b') (currentOffset b') removed (currentOffset b')) = getText b.
Proof.
  unfold deleteOffsets, spliceText. set (text := getText b). cbn zeta.
  set (s := Z.min (Z.max start 0) (zlength text)). set (e := Z.min (Z.max stop s) (zlength text)).
  pose proof (zlength_nonneg text).
  destruct (replaceOffsets_spec b s e [] s) as (_ & Ht & Hc & _). fold text in Ht.
  set (b' := replaceOffsets b s e [] s) in *.
  assert (getText b' = take (Z.to_nat s) text ++ drop (Z.to_nat e) text) as Ht'.
  { rewrite Ht. unfold spliceText. cbn zeta. rewrite app_nil_l. by replace (Z.min (Z.max s 0) (zlength text)) with s by lia; replace (Z.min (Z.max e s) (zlength text)) with e by lia. }
  split; [exact Ht'|].
  assert (zlength (take (Z.to_nat s) text) = s) as Hs by (unfold zlength in *; rewrite length_take; lia).
  assert (currentOffset b' = s) as ->.
  { rewrite Hc, Ht', zlength_app, Hs. pose proof (zlength_nonneg (drop (Z.to_nat e) text)). lia. }
  destruct (replaceOffsets_spec b' s s (arr_slice text s e) s) as (_ & -> & _).
  unfold spliceText. cbn zeta. rewrite Ht'. rewrite zlength_app, Hs.
  pose proof (zlength_nonneg (drop (Z.to_nat e) text)).
  replace (Z.min (Z.max s 0) (s + zlength (drop (Z.to_nat e) text))) with s by lia.
  replace (Z.min (Z.max s s) (s + zlength (drop (Z.to_nat e) text))) with s by lia.
  assert (length (take (Z.to_nat s) text) = Z.to_nat s) as Hn by (unfold zlength in Hs; lia).
  rewrite take_app_length' by done. rewrite drop_app_length' by done.
  unfold arr_slice. rewrite app_assoc, take_take_drop.
  replace (Z.to_nat s + (Z.to_nat e - Z.to_nat s))%nat with (Z.to_nat e) by lia. apply take_drop.
Qed.

(** Replacing or deleting between offsets is splicing the text of the buffer, for any offsets: the result is well formed, the
    cursor stands at the clamped offset, nothing else changes, and what a deletion removed can be put back. *)
Theorem offset_edits_edit_the_text b start stop replacement cursorOffset :
  (let b' := replaceOffsets b start stop replacement cursorOffset in
   buffer_ok b' /\
   getText b' = spliceText (getText b) start stop replacement /\
   currentOffset b' = Z.min (Z.max cursorOffset 0) (zlength (getText b')) /\
   modified b' = modified b /\ trailingNewline b' = trailingNewline b /\ filePath b' = filePath b) /\
  (let '(removed, b') := deleteOffsets b start stop in
   getText b' = spliceText (getText b) start stop [] /\
   getText (replaceOffsets b' (currentOffset b') (currentOffset b') removed (currentOffset b')) = getText b).
Proof. split; [apply replaceOffsets_spec|apply deleteOffsets_spec]. Qed.

(** ** Snapshots *)

Lemma forallb_arr_at (l k : list jstring) :
  zlength l = zlength k ->
  forallb (fun i => bool_decide (arr_at l i = arr_at k i)) (zrange 0 (zlength l - 1)) = true <-> l = k.
Proof.
  intros Hlen. rewrite forallb_forall. split; [|intros -> ? ?; by apply bool_decide_eq_true].
  intros H. apply list_eq_same_length with (length k); [done|unfold zlength in Hlen; lia|].
  intros i x y Hi Hx Hy. specialize (H (Z.of_nat i)).
  assert (In (Z.of_nat i) (zrange 0 (zlength l - 1))) as Hin.
  { apply list_elem_of_In, elem_of_zrange. unfold zlength in *. lia. }
  apply H, bool_decide_eq_true in Hin. unfold arr_at in Hin.
  destruct (Z.ltb_spec (Z.of_nat i) 0); [lia|]. rewrite Nat2Z.id in Hin. congruence.
Qed.

Lemma fingerprintsEqual_spec f g : fingerprintsEqual f g = true <-> f = g.
Proof.
  destruct f as [[e z t h]|], g as [[e' z' t' h']|]; simpl; try done.
  rewrite !andb_true_iff, Bool.eqb_true_iff, !Z.eqb_eq, bool_decide_eq_true. naive_solver.
Qed.

(** [snapshotEqual] is equality of snapshots. *)
Lemma snapshotEqual_spec s t : snapshotEqual s t = true <-> s = t.
Proof.
  assert (forall (b c : bool), (if negb b then false else c) = b && c) as Hif by (by intros [] []).
  unfold snapshotEqual. rewrite <- !negb_andb, !Hif.
  rewrite !andb_true_iff, !bool_decide_eq_true, !Bool.eqb_true_iff, !Z.eqb_eq, fingerprintsEqual_spec.
  destruct s as [d f ls [l c] m tn fp ec], t as [d' f' ls' [l' c'] m' tn' fp' ec']. simpl. split.
  - intros (H & E & Hlen & Hls). apply forallb_arr_at in Hls; [|done]. naive_solver.
  - intros [= -> -> -> -> -> -> -> -> ->]. split_and!; try done. by apply forallb_arr_at.
Qed.

Lemma orEmptyLine_id ls : ls ≠ [] -> orEmptyLine ls = ls.
Proof. by destruct ls. Qed.

(** Restoring a snapshot of a buffer gives that buffer, whatever happened since. *)
Lemma restore_createSnapshot b b' : buffer_ok b -> restore b' (createSnapshot b) = b.
Proof.
  intros [Hne _ Hc]. unfold restore, createSnapshot. simpl. rewrite orEmptyLine_id by done.
  pose proof (clamp_position b (cursor b) Hc) as E. destruct b as [d f ls [l c] m tn fp ec].
  unfold clampCursor, setCursor, with_cursor. simpl in *. f_equal. exact E.
Qed.

(** ** Every operation keeps the buffer well formed *)

Abbreviation no_lf := (Forall (fun x : jstring => c_lf ∉ x)).

Lemma clamp_ok b : lines b ≠ [] -> no_lf (lines b) -> buffer_ok (clampCursor b).
Proof. intros H1 H2. constructor; [done|done|exact (setCursor_ok b _ H1)]. Qed.

Lemma set_cursor_ok b p : lines b ≠ [] -> no_lf (lines b) -> buffer_ok (setCursor b p).
Proof. intros H1 H2. constructor; [done|done|exact (setCursor_ok b _ H1)]. Qed.

Lemma with_trailingNewline_ok t b : buffer_ok b -> buffer_ok (with_trailingNewline t b).
Proof. by intros [? ? ?]. Qed.

Lemma with_modified_ok t b : buffer_ok b -> buffer_ok (with_modified t b).
Proof. by intros [? ? ?]. Qed.

Lemma orEmptyLine_ok ls : no_lf ls -> orEmptyLine ls ≠ [] /\ no_lf (orEmptyLine ls).
Proof. destruct ls; [|done]. intros _. split; [done|]. repeat constructor. apply not_elem_of_nil. Qed.

Lemma arr_splice_no_lf ls s d items : no_lf ls -> no_lf items -> no_lf (arr_splice ls s d items).
Proof. intros H1 H2. unfold arr_splice. rewrite !Forall_app. split_and!; [by apply Forall_take|done|by apply Forall_drop]. Qed.

Lemma arr_splice_nonempty {A} (ls : list A) s d items : items ≠ [] -> arr_splice ls s d items ≠ [].
Proof. intros H E. unfold arr_splice in E. by apply app_eq_nil in E as [_ [? _]%app_eq_nil]. Qed.

Lemma trim_start_subset c s : c ∈ trim_start s -> c ∈ s.
Proof. induction s as [|d s IH]; simpl; [done|]. case_match; [|done]. intros Hc. apply elem_of_cons. right. by apply IH. Qed.

Lemma trim_end_subset c s : c ∈ trim_end s -> c ∈ s.
Proof.
  induction s as [|d s IH]; simpl; [done|]. intros H. apply elem_of_cons. destruct (trim_end s) as [|e t] eqn:E.
  - case_match; [by apply elem_of_nil in H|]. apply list_elem_of_singleton in H. by left.
  - apply elem_of_cons in H as [H|H]; [by left|]. right. by apply IH.
Qed.

Lemma trim_subset c s : c ∈ trim s -> c ∈ s.
Proof. intros H. by apply trim_start_subset, trim_end_subset. Qed.

Lemma join_absent_unit c sep ls : c ∉ sep -> Forall (fun x => c ∉ x) ls -> c ∉ join sep ls.
Proof.
  intros Hs. induction ls as [|x ls IH]; intros H; [apply not_elem_of_nil|].
  apply Forall_cons in H as [Hx Hls]. destruct ls as [|y ls]; [done|]. rewrite join_cons by done.
  rewrite !not_elem_of_app. split_and!; [done|done|by apply IH].
Qed.

Lemma shiftLine_no_lf u f x : c_lf ∉ u -> c_lf ∉ x -> c_lf ∉ shiftLine u f x.
Proof.
  intros Hu Hx. unfold shiftLine. repeat case_match.
  - by apply not_elem_of_app.
  - intros Hd. by apply Hx, (subseteq_drop (length u) x).
  - intros Hd. by apply Hx, (subseteq_drop (Nat.min (leadingSpaces x) (length u)) x).
Qed.

Lemma deleteLines_ok b s e : no_lf (lines b) -> buffer_ok (deleteLines b s e).2.
Proof.
  intros H. unfold deleteLines. set (ls := arr_splice _ _ _ _).
  destruct (orEmptyLine_ok ls) as [H1 H2]; [apply arr_splice_no_lf; [done|constructor]|].
  cbn [snd]. case_match; [apply with_trailingNewline_ok|]; by apply set_cursor_ok.
Qed.

Lemma insertLines_ok b i new : no_lf (lines b) -> no_lf new -> buffer_ok (insertLines b i new).
Proof.
  intros H1 H2. destruct (orEmptyLine_ok new H2). apply with_trailingNewline_ok, set_cursor_ok; simpl.
  - by apply arr_splice_nonempty.
  - by apply arr_splice_no_lf.
Qed.

Lemma replaceLine_ok b l x : lines b ≠ [] -> no_lf (lines b) -> c_lf ∉ x -> buffer_ok (replaceLine b l x).
Proof.
  intros H1 H2 H3. apply clamp_ok; simpl; [|by apply Forall_insert].
  intros E. apply (f_equal length) in E. rewrite length_insert in E. by destruct (lines b).
Qed.

Lemma joinLines_ok b s c : buffer_ok b -> buffer_ok (joinLines b s c).
Proof.
  intros Hok. unfold joinLines. case_match; [done|]. destruct Hok as [_ Hlf _]. apply set_cursor_ok; simpl.
  - by apply arr_splice_nonempty.
  - apply arr_splice_no_lf; [done|]. constructor; [|constructor]. apply join_absent_unit.
    + intros E%list_elem_of_singleton. done.
    + apply Forall_fmap. apply Forall_take, Forall_drop. eapply Forall_impl; [exact Hlf|]. intros x Hx E. by apply Hx, trim_subset.
Qed.

Lemma indentLines_ok b s e u f : lines b ≠ [] -> no_lf (lines b) -> c_lf ∉ u -> buffer_ok (indentLines b s e u f).
Proof.
  intros H1 H2 H3. unfold indentLines. generalize (zrange (clampLine b (Z.min s e)) (clampLine b (Z.max s e))). intros is_.
  revert b H1 H2. induction is_ as [|i is_ IH]; intros b H1 H2; simpl; [by apply clamp_ok|]. apply IH; simpl.
  - intros E. apply (f_equal length) in E. rewrite length_insert in E. by destruct (lines b).
  - apply Forall_insert; [done|]. apply shiftLine_no_lf; [done|]. destruct (arr_at (lines b) i) as [x|] eqn:E; simpl.
    + apply arr_at_Some in E as [_ E]. by eapply Forall_lookup_1 in H2.
    + apply not_elem_of_nil.
Qed.

Lemma setText_ok b t tr : buffer_ok (setText b t tr).
Proof. destruct (splitText_ok (if tr && ends_with_unit c_lf t then drop_last t else t)). by apply clamp_ok. Qed.

Lemma restore_ok b s : no_lf (s_lines s) -> buffer_ok (restore b s).
Proof. intros H. destruct (orEmptyLine_ok (s_lines s) H). by apply clamp_ok. Qed.

Lemma newVimBuffer_ok f : no_lf (l_lines f) -> buffer_ok (newVimBuffer f).
Proof.
  intros H. destruct (orEmptyLine_ok (l_lines f) H) as [H1 H2]. constructor; [done|done|].
  split; simpl; [lia|]. destruct (orEmptyLine (l_lines f)) as [|x ls]; [done|]. exists x. split; [done|]. pose proof (zlength_nonneg x). lia.
Qed.

Lemma markSaved_ok b f : no_lf (l_lines f) -> buffer_ok (markSaved b f).
Proof. intros H. destruct (orEmptyLine_ok (l_lines f) H). by apply clamp_ok. Qed.

#[export] Hint Resolve clamp_ok set_cursor_ok with_trailingNewline_ok with_modified_ok deleteLines_ok insertLines_ok
  replaceLine_ok joinLines_ok indentLines_ok setText_ok restore_ok newVimBuffer_ok markSaved_ok : gajae.

(** The calls the engine makes on its buffer. *)
Inductive buffer_op : Type :=
| OpSetCursor (p : Position)
| OpSetCursorFromOffset (o : Z)
| OpSetText (t : jstring) (trailing : bool)
| OpReplaceOffsets (s e : Z) (r : jstring) (c : Z)
| OpDeleteOffsets (s e : Z)
| OpDeleteLines (s e : Z)
| OpInsertLines (i : Z) (new : list jstring)
| OpReplaceLine (l : Z) (x : jstring)
| OpJoinLines (s c : Z)
| OpIndentLines (s e : Z) (u : jstring) (forward : bool)
| OpRestore (s : VimBufferSnapshot)
| OpMarkSaved (f : VimLoadedFile)
| OpReplaceLoadedFile (f : VimLoadedFile).

Definition run_buffer_op (b : VimBuffer) (op : buffer_op) : VimBuffer :=
  match op with
  | OpSetCursor p => setCursor b p
  | OpSetCursorFromOffset o => setCursorFromOffset b o
  | OpSetText t tr => setText b t tr
  | OpReplaceOffsets s e r c => replaceOffsets b s e r c
  | OpDeleteOffsets s e => (deleteOffsets b s e).2
  | OpDeleteLines s e => (deleteLines b s e).2
  | OpInsertLines i new => insertLines b i new
  | OpReplaceLine l x => replaceLine b l x
  | OpJoinLines s c => joinLines b s c
  | OpIndentLines s e u f => indentLines b s e u f
  | OpRestore s => restore b s
  | OpMarkSaved f => markSaved b f
  | OpReplaceLoadedFile f => replaceLoadedFile b f
  end.

(** Lines handed in as lines have no newline in them. *)
Definition op_lines (op : buffer_op) : list jstring :=
  match op with
  | OpInsertLines _ new => new
  | OpReplaceLine _ x => [x]
  | OpIndentLines _ _ u _ => [u]
  | OpRestore s => s_lines s
  | OpMarkSaved f | OpReplaceLoadedFile f => l_lines f
  | _ => []
  end.

Lemma run_buffer_op_ok b op : buffer_ok b -> no_lf (op_lines op) -> buffer_ok (run_buffer_op b op).
Proof.
  intros Hok Hop. pose proof Hok as [H1 H2 H3]. destruct op; cbn [run_buffer_op op_lines] in *;
    try (apply Forall_cons in Hop as [Hop _]); try solve [eauto with gajae].
  - constructor; [done|done|]. exact (proj1 (offsetToPosition_spec b o H1)).
  - apply replaceOffsets_spec.
  - apply replaceOffsets_spec.
Qed.

(** Whatever sequence of operations runs on a loaded file, the buffer has a line and its cursor is inside, its text splits
    into its lines, and a snapshot holds the whole state: restoring it gives the buffer back, and equality of snapshots is
    equality of buffers. *)
Theorem buffer_stays_well_formed f ops
    (Hf : no_lf (l_lines f)) (Hops : Forall (fun op => no_lf (op_lines op)) ops) :
  let b := foldl run_buffer_op (newVimBuffer f) ops in
  buffer_ok b /\ splitText (getText b) = lines b /\
  (forall b', restore b' (createSnapshot b) = b) /\
  (forall b', snapshotEqual (createSnapshot b) (createSnapshot b') = true <-> b' = b).
Proof.
  assert (forall b, buffer_ok b -> buffer_ok (foldl run_buffer_op b ops)) as Hrun.
  { induction Hops as [|op ops Hop Hops IH]; intros b Hb; simpl; [done|]. by apply IH, run_buffer_op_ok. }
  specialize (Hrun (newVimBuffer f) (newVimBuffer_ok f Hf)). set (b := foldl _ _ _) in *. cbn zeta. clearbody b.
  split; [done|]. split.
  { destruct Hrun as [H1 H2 _]. unfold splitText. destruct (getText b) as [|c t] eqn:E.
    - destruct (lines b) as [|x [|y ls]] eqn:El; [done| |].
      + unfold getText in E. rewrite El in E. simpl in E. by subst.
      + unfold getText in E. rewrite El, join_cons in E by done. by destruct x.
    - rewrite <- E. by apply split_on_join. }
  split; [intros b'; by apply restore_createSnapshot|].
  intros b'. rewrite snapshotEqual_spec. split; [|by intros ->].
  intros E. destruct b as [? ? ? [? ?] ? ? ? ?], b' as [? ? ? [? ?] ? ? ? ?]. unfold createSnapshot, clonePosition in E. simpl in E. congruence.
Qed.

(** ** Witnesses *)

Definition demo_file : VimLoadedFile := mkLoaded (js "/w/a.txt") (js "a.txt") [js "ab"; []; js "  c"] true None.

Definition demo_ops : list buffer_op :=
  [OpInsertLines 1 [js "x"; js "y"]; OpReplaceOffsets 1 4 (c_lf :: js "zz") 4; OpIndentLines 0 9 (js "  ") false;
   OpSetCursor (mkPosition 7 7)].

Lemma demo_ops_plain : Forall (fun op => no_lf (op_lines op)) demo_ops.
Proof. repeat constructor; intros H; repeat (apply elem_of_cons in H as [H|H]; [done|]); by apply elem_of_nil in H. Qed.

Lemma demo_file_plain : no_lf (l_lines demo_file).
Proof. repeat constructor; intros H; repeat (apply elem_of_cons in H as [H|H]; [done|]); by apply elem_of_nil in H. Qed.

Lemma buffer_stays_well_formed_witness :
  let b := foldl run_buffer_op (newVimBuffer demo_file) demo_ops in
  lines b = [js "a"; js "zz"; js "y"; []; js "c"] /\ cursor b = mkPosition 4 1 /\ splitText (getText b) = lines b.
Proof.
  split; [vm_compute; reflexivity|]. split; [vm_compute; reflexivity|].
  apply (buffer_stays_well_formed demo_file demo_ops demo_file_plain demo_ops_plain).
Defined.

Lemma offsets_and_positions_agree_witness :
  offsetToPosition (newVimBuffer demo_file) 3 = mkPosition 1 0 /\
  positionToOffset (newVimBuffer demo_file) (mkPosition 1 0) = 3 /\
  offsetToPosition (newVimBuffer demo_file) (positionToOffset (newVimBuffer demo_file) (mkPosition 2 2)) = mkPosition 2 2.
Proof.
  split; [vm_compute; reflexivity|]. split; [vm_compute; reflexivity|].
  apply (proj1 (offsets_and_positions_agree (newVimBuffer demo_file) (newVimBuffer_ok _ demo_file_plain))).
  split; [simpl; lia|]. exists (js "  c"). split; [reflexivity|vm_compute; split; discriminate].
Defined.
