(* ===== verification/VimCommands.v ===== *)
(** * Ex commands

    packages/coding-agent/src/vim/commands.ts: the text after [:] in the vim tool to a command.  A place in
    the source text ([index], [nextIndex]) is the rest of the text from there on. *)
From S2P Require Import Prelude JsString JsRegex.
From Stdlib Require Import ZifyBool ZifyN.
Open Scope Z_scope.

(** ** types.ts: commands and errors *)

Record VimLineRange : Type := mkRange { start : Z; stop : Z }.

Inductive ExRange : Type :=
| All
| Lines (r : VimLineRange).

Inductive VimExCommand : Type :=
| ExWrite (force : bool)
| ExUpdate (force : bool)
| ExQuit (force : bool)
| ExWriteQuit (force : bool)
| ExEdit (force : bool) (path : option jstring)
| ExGotoLine (l : Z)
| ExSubstitute (range : option ExRange) (pattern replacement flags : jstring)
| ExDelete (range : option ExRange)
| ExYank (range : option ExRange)
| ExPut (range : option ExRange) (before : bool)
| ExCopy (range : option ExRange) (destination : Z)
| ExMove (range : option ExRange) (destination : Z)
| ExSort (range : option ExRange) (flags : jstring)
| ExJoin (range : option ExRange) (trimWhitespace : bool)
| ExGlobal (range : option ExRange) (pattern command : jstring) (invert : bool)
| ExAppend (range : option VimLineRange) (text : jstring)
| ExInsertBefore (range : option VimLineRange) (text : jstring).

(** One constructor per throw site. *)
Inductive ExError : Type :=
| MissingAddress (separator : N)
| MissingDelimiter
| MalformedSubstitute
| MissingDestination
| InvalidDestination
| EmptyCommand
| PercentAlone
| UnsupportedCommand (input : jstring).

Record VimExParseContext : Type := mkContext { currentLine : Z; lastLine : Z }.

(** ** Addresses and ranges *)

Definition clampExLine (l : Z) (context : VimExParseContext) : Z := Z.min (Z.max l 1) (Z.max 1 (lastLine context)).

Fixpoint readDigits (s : jstring) : jstring * jstring :=
  match s with
  | c :: s' => if is_digit c then let '(d, r) := readDigits s' in (c :: d, r) else ([], s)
  | [] => ([], [])
  end.

Definition c_plus : N := 43.
Definition c_minus : N := 45.

(** The loop over signed offsets; every round consumes a sign, so the length of the text is enough fuel. *)
Fixpoint addressOffsets (fuel : nat) (l : Z) (s : jstring) : Z * jstring :=
  match fuel, s with
  | S f, c :: s' =>
      if ((c =? c_plus) || (c =? c_minus))%N then
        let '(digits, r) := readDigits s' in
        let offset := match digits with [] => 1 | _ => parse_int digits end in
        addressOffsets f (if (c =? c_plus)%N then l + offset else l - offset) r
      else (l, s)
  | _, _ => (l, s)
  end.

Definition parseLineAddress (s : jstring) (context : VimExParseContext) (relativeBase : Z) : option (Z * jstring) :=
  let base :=
    match s with
    | [] => None
    | c :: s' =>
        if is_digit c then let '(digits, r) := readDigits s in Some (parse_int digits, r)
        else if (c =? 46)%N then Some (currentLine context, s')
        else if (c =? 36)%N then Some (lastLine context, s')
        else if ((c =? c_plus) || (c =? c_minus))%N then Some (relativeBase, s)
        else None
    end in
  match base with
  | None => None
  | Some (l, r) => let '(l, r) := addressOffsets (length r) l r in Some (clampExLine l context, r)
  end.

Fixpoint skipSpaces (s : jstring) : jstring :=
  match s with c :: s' => if (c =? c_space)%N then skipSpaces s' else s | [] => [] end.

(** [/^(\d+)(?:\s*,\s*(\d+))?/] *)
Definition RANGE_RE : regex :=
  rx_seqs [rx_bol; rx_group 1 (rx_plus rx_digit);
           rx_opt (rx_seqs [rx_star rx_ws; rx_char 44; rx_star rx_ws; rx_group 2 (rx_plus rx_digit)])].

Definition parseLineRange (raw : jstring) (context : option VimExParseContext)
    : result ExError (option ExRange * jstring) :=
  match raw with
  | c :: raw' =>
      if (c =? 37)%N then Ok (Some All, trim_start raw')
      else
        match context with
        | None =>
            match match_at RANGE_RE (MState [] raw []) with
            | None => Ok (None, raw)
            | Some st =>
                let first := default [] (capture 1 st) in
                let second := default first (capture 2 st) in
                Ok (Some (Lines (mkRange (parse_int first) (parse_int second))), trim_start (rest st))
            end
        | Some ctx =>
            match parseLineAddress raw ctx (currentLine ctx) with
            | None => Ok (None, raw)
            | Some (first, r) =>
                match skipSpaces r with
                | sep :: r' =>
                    if negb (sep =? 44)%N && negb (sep =? 59)%N then
                      Ok (Some (Lines (mkRange first first)), trim_start (sep :: r'))
                    else
                      match parseLineAddress (skipSpaces r') ctx (if (sep =? 59)%N then first else currentLine ctx) with
                      | None => Throw (MissingAddress sep)
                      | Some (second, r'') => Ok (Some (Lines (mkRange first second)), trim_start r'')
                      end
                | [] => Ok (Some (Lines (mkRange first first)), [])
                end
            end
        end
  | [] => Ok (None, [])
  end.

(** ** Substitute *)

(** The loop of [parseDelimitedSegments]; [segments] in order. *)
Fixpoint segmentLoop (delimiter : N) (s : jstring) (segments : list jstring) (current : jstring) (escaped : bool)
    : list jstring * jstring :=
  match s with
  | [] => (segments, current)
  | c :: s' =>
      if escaped then segmentLoop delimiter s' segments (current ++ [c]) false
      else if (c =? 92)%N then segmentLoop delimiter s' segments (current ++ [c]) true
      else if (c =? delimiter)%N && (length segments <? 2)%nat then
        segmentLoop delimiter s' (segments ++ [current]) [] false
      else segmentLoop delimiter s' segments (current ++ [c]) false
  end.

Definition parseDelimitedSegments (raw : jstring) : result ExError (jstring * jstring * jstring) :=
  match raw with
  | [] => Throw MissingDelimiter
  | delimiter :: raw' =>
      match segmentLoop delimiter raw' [] [] false with
      | ([pattern; replacement], current) => Ok (pattern, replacement, trim current)
      | _ => Throw MalformedSubstitute
      end
  end.

(** ** Destinations and [:global] *)

(** [Number.parseInt(s, 10)]; [None] is [NaN]. *)
Definition parseIntOpt (s : jstring) : option Z :=
  let s := trim_start s in
  let '(neg, s) :=
    match s with
    | c :: s' => if (c =? c_minus)%N then (true, s') else if (c =? c_plus)%N then (false, s') else (false, s)
    | [] => (false, [])
    end in
  match s with
  | c :: _ => if is_digit c then Some (if neg then - parse_int s else parse_int s) else None
  | [] => None
  end.

(** [/^\d+$/.test(s)] *)
Definition allDigits (s : jstring) : bool := match s with [] => false | _ => forallb is_digit s end.

Definition parseDestination (raw : jstring) (context : option VimExParseContext) : result ExError Z :=
  let trimmed := trim raw in
  if (length trimmed =? 0)%nat then Throw MissingDestination
  else if allDigits trimmed then Ok (parse_int trimmed)
  else
    let address :=
      match context with
      | Some ctx => match parseLineAddress trimmed ctx (currentLine ctx) with
                    | Some (l, r) => if (length (trim r) =? 0)%nat then Some l else None
                    | None => None
                    end
      | None => None
      end in
    match address with
    | Some l => Ok l
    | None => match parseIntOpt trimmed with Some d => Ok d | None => Throw InvalidDestination end
    end.


(** The pattern of [matchGlobalCommand]: a command name, blanks, a delimiter, a lazy pattern, the same delimiter,
    the rest of the line. *)
Definition GLOBAL_RE : regex :=
  rx_seqs [rx_bol;
           rx_group 1 (rx_alts [rx_lit (js "g"); rx_lit (js "v"); rx_lit (js "g!"); rx_lit (js "global");
                                rx_lit (js "global!"); rx_lit (js "vglobal")]);
           rx_star rx_ws; rx_group 2 (rx_one_of (js "/|#")); rx_group 3 (rx_plus_lazy rx_any); rx_backref 2;
           rx_group 4 (rx_star rx_any); rx_eol].

Definition is_text (s : jstring) (l : list string) : bool := existsb (fun t => bool_decide (s = js t)) l.

Definition matchGlobalCommand (s : jstring) : option (jstring * jstring * bool) :=
  match match_at GLOBAL_RE (MState [] s []) with
  | None => None
  | Some st =>
      let name := default [] (capture 1 st) in
      let command := trim (default (js "d") (capture 4 st)) in
      Some (default [] (capture 3 st), match command with [] => js "d" | _ => command end,
            is_text name ["v"; "vglobal"]%string || ends_with_unit 33 name)
  end.

(** [/^\s/.test(s) || /^[\d.$+-]/.test(s)] *)
Definition startsDestination (s : jstring) : bool :=
  match s with c :: _ => is_ws c || is_digit c || existsb (N.eqb c) (js ".$+-") | [] => false end.

Fixpoint matchDestinationCommand (s : jstring) (prefixes : list string) : option jstring :=
  match prefixes with
  | [] => None
  | prefix :: prefixes' =>
      if starts_with (js prefix) s then
        match drop (length (js prefix)) s with
        | [] => Some []
        | suffix => if startsDestination suffix then Some (trim suffix) else matchDestinationCommand s prefixes'
        end
      else matchDestinationCommand s prefixes'
  end.

(** ** The dispatcher *)

Definition prefixed (s : jstring) (l : list string) : bool := existsb (fun t => starts_with (js t) s) l.

(** [range === "all" ? undefined : range] *)
Definition lineRangeOnly (range : option ExRange) : option VimLineRange :=
  match range with Some (Lines r) => Some r | _ => None end.

(** [/^s(?:\W|$)/.test(rest)] *)
Definition isShortSubstitute (s : jstring) : bool :=
  match s with
  | c :: s' => (c =? 115)%N && match s' with d :: _ => negb (is_word d) | [] => true end
  | [] => false
  end.

Definition substituteOf (range : option ExRange) (raw : jstring) : result ExError VimExCommand :=
  '(pattern, replacement, flags) ← parseDelimitedSegments raw; Ok (ExSubstitute range pattern replacement flags).

(** The commands that take a range, on the text after it. *)
Definition parseRanged (input : jstring) (context : option VimExParseContext) (range : option ExRange) (rest : jstring)
    : result ExError VimExCommand :=
  match matchGlobalCommand rest with
  | Some (pattern, command, invert) => Ok (ExGlobal range pattern command invert)
  | None =>
  if is_text rest ["sort"]%string || prefixed rest ["sort "; "sort!"]%string then Ok (ExSort range (trim (drop 4 rest)))
  else if is_text rest ["j"; "join"; "j!"; "join!"]%string then Ok (ExJoin range (negb (ends_with_unit 33 rest)))
  else if prefixed rest ["substitute"]%string then substituteOf range (drop 10 rest)
  else if isShortSubstitute rest then substituteOf range (drop 1 rest)
  else if is_text rest ["d"; "del"; "delete"]%string || prefixed rest ["d "; "del "; "delete "]%string then Ok (ExDelete range)
  else if is_text rest ["y"; "ya"; "yank"]%string || prefixed rest ["y "; "ya "; "yank "]%string then Ok (ExYank range)
  else if is_text rest ["pu"; "put"; "pu!"; "put!"]%string then Ok (ExPut range (ends_with_unit 33 rest))
  else match matchDestinationCommand rest ["copy"; "co"; "t"]%string with
  | Some d => destination ← parseDestination d context; Ok (ExCopy range destination)
  | None =>
  match matchDestinationCommand rest ["move"; "mo"; "m"]%string with
  | Some d => destination ← parseDestination d context; Ok (ExMove range destination)
  | None =>
  if is_text rest ["a"; "append"]%string || prefixed rest ["a "; "append "]%string then
    Ok (ExAppend (lineRangeOnly range)
         (trim_start (if prefixed rest ["append"]%string then drop 6 rest else drop 1 rest)))
  else if is_text rest ["i"; "insert"]%string || prefixed rest ["i "; "insert "]%string then
    Ok (ExInsertBefore (lineRangeOnly range)
         (trim_start (if prefixed rest ["insert"]%string then drop 6 rest else drop 1 rest)))
  else Throw (UnsupportedCommand input)
  end end end.

Definition parseExCommand (input : jstring) (context : option VimExParseContext) : result ExError VimExCommand :=
  let trimmed := trim input in
  let normalized := if starts_with (js ":") trimmed then trim_start (drop 1 trimmed) else trimmed in
  if (length normalized =? 0)%nat then Throw EmptyCommand
  else if allDigits normalized then Ok (ExGotoLine (parse_int normalized))
  else if is_text normalized ["w"; "write"]%string then Ok (ExWrite false)
  else if is_text normalized ["w!"; "write!"]%string then Ok (ExWrite true)
  else if is_text normalized ["update"; "up"]%string then Ok (ExUpdate false)
  else if is_text normalized ["update!"; "up!"]%string then Ok (ExUpdate true)
  else if is_text normalized ["wq"; "x"; "xit"; "exit"]%string then Ok (ExWriteQuit false)
  else if is_text normalized ["wq!"; "x!"; "xit!"; "exit!"]%string then Ok (ExWriteQuit true)
  else if is_text normalized ["q"; "quit"]%string then Ok (ExQuit false)
  else if is_text normalized ["q!"; "quit!"]%string then Ok (ExQuit true)
  else if is_text normalized ["e"; "edit"]%string then Ok (ExEdit false None)
  else if is_text normalized ["e!"; "edit!"]%string then Ok (ExEdit true None)
  else if prefixed normalized ["e "; "edit "]%string then
    Ok (ExEdit false (Some (trim (if prefixed normalized ["edit "]%string then drop 5 normalized else drop 2 normalized))))
  else if prefixed normalized ["e! "; "edit! "]%string then
    Ok (ExEdit true (Some (trim (if prefixed normalized ["edit! "]%string then drop 6 normalized else drop 3 normalized))))
  else
    match matchGlobalCommand normalized with
    | Some (pattern, command, invert) => Ok (ExGlobal None pattern command invert)
    | None =>
        '(range, rest) ← parseLineRange normalized context;
        match range, rest with
        | Some All, [] => Throw PercentAlone
        | Some (Lines r), [] => Ok (ExGotoLine (start r))
        | _, _ => parseRanged input context range rest
        end
    end.

(** ** Lemmas *)

Definition cmd_range (c : VimExCommand) : option ExRange :=
  match c with
  | ExSubstitute r _ _ _ | ExDelete r | ExYank r | ExPut r _ | ExCopy r _ | ExMove r _ | ExSort r _ | ExJoin r _
  | ExGlobal r _ _ _ => r
  | ExAppend r _ | ExInsertBefore r _ => Lines <$> r
  | _ => None
  end.

Definition range_ok (context : VimExParseContext) (r : option ExRange) : Prop :=
  match r with
  | Some (Lines r) => 1 <= start r <= Z.max 1 (lastLine context) /\ 1 <= stop r <= Z.max 1 (lastLine context)
  | _ => True
  end.

Lemma clampExLine_ok l context : 1 <= clampExLine l context <= Z.max 1 (lastLine context).
Proof. unfold clampExLine. lia. Qed.

Lemma parseLineAddress_ok s context base l r :
  parseLineAddress s context base = Some (l, r) -> 1 <= l <= Z.max 1 (lastLine context).
Proof.
  unfold parseLineAddress. destruct (match s with [] => _ | _ => _ end) as [[l0 r0]|]; [|done].
  destruct (addressOffsets _ _ _) as [l1 r1]. intros [= <- <-]. apply clampExLine_ok.
Qed.

Lemma parseLineRange_ok raw context range r :
  parseLineRange raw (Some context) = Ok (range, r) -> range_ok context range.
Proof.
  unfold parseLineRange. intros H. repeat case_match; simplify_eq; simpl; try done;
    repeat match goal with E : parseLineAddress _ _ _ = Some _ |- _ => apply parseLineAddress_ok in E end; done.
Qed.

(** Walk down the dispatch of a command whose parse succeeded. *)
Ltac ex_dispatch :=
  repeat match goal with
  | H : Ok _ = Ok _ |- _ => injection H as H; subst; cbn [cmd_range]; auto; fail
  | H : (if ?b then _ else _) = Ok _ |- _ => destruct b
  | H : match matchDestinationCommand ?s ?l with _ => _ end = Ok _ |- _ => destruct (matchDestinationCommand s l)
  | H : match matchGlobalCommand ?s with _ => _ end = Ok _ |- _ => destruct (matchGlobalCommand s) as [[[? ?] ?]|]
  | H : (_ ≫= _) = Ok _ |- _ => apply bind_Ok in H as (? & _ & H)
  | H : (let '(_, _) := ?x in _) = Ok _ |- _ => destruct x
  end.

Lemma parseRanged_range input context range r c :
  parseRanged input context range r = Ok c ->
  cmd_range c = range \/ cmd_range c = Lines <$> lineRangeOnly range.
Proof. unfold parseRanged, substituteOf. intros H. ex_dispatch; try discriminate. Qed.

Lemma parseExCommand_cases input context c :
  parseExCommand input context = Ok c ->
  cmd_range c = None \/
  exists normalized range r, parseLineRange normalized context = Ok (range, r) /\ parseRanged input context range r = Ok c.
Proof.
  unfold parseExCommand. generalize (if starts_with (js ":") (trim input) then trim_start (drop 1 (trim input)) else trim input).
  intros s H.
  repeat match goal with H : (if ?b then _ else _) = Ok _ |- _ => destruct b; [try discriminate; injection H as <-; by left|] end.
  destruct (matchGlobalCommand s) as [[[? ?] ?]|]; [injection H as <-; by left|].
  apply bind_Ok in H as ([range r] & E & H).
  destruct range as [[|q]|]; [destruct r; [discriminate|]|destruct r; [injection H as <-; by left|]|]; right; eauto 6.
Qed.

(** ** What is parsed *)

(** The line numbers of a command parsed against a buffer lie in the buffer. *)
Theorem ex_ranges_stay_in_the_buffer input context c
    (H : parseExCommand input (Some context) = Ok c) : range_ok context (cmd_range c).
Proof.
  apply parseExCommand_cases in H as [->|(s & range & r & E & H)]; [done|].
  apply parseLineRange_ok in E. apply parseRanged_range in H as [->| ->]; [done|]. by destruct range as [[|]|].
Qed.

(** A part of a substitute command as it is written between delimiters: no delimiter but behind a backslash,
    and no backslash left open at its end. *)
Fixpoint delimited (d : N) (s : jstring) (escaped : bool) : bool :=
  match s with
  | [] => negb escaped
  | c :: s' => if escaped then delimited d s' false
               else if (c =? 92)%N then delimited d s' true
               else negb (c =? d)%N && delimited d s' false
  end.

Lemma segmentLoop_delimited d s t segments current e :
  delimited d s e = true ->
  segmentLoop d (s ++ t) segments current e = segmentLoop d t segments (current ++ s) false.
Proof.
  revert current e. induction s as [|c s IH]; intros current e H; simpl in *.
  - apply negb_true_iff in H as ->. by rewrite app_nil_r.
  - destruct e; [rewrite IH by done; by rewrite <- app_assoc|].
    destruct (c =? 92)%N; [rewrite IH by done; by rewrite <- app_assoc|].
    apply andb_true_iff in H as [Hc H]. apply negb_true_iff in Hc. rewrite Hc. simpl.
    rewrite IH by done. by rewrite <- app_assoc.
Qed.

Lemma segmentLoop_rest d s segments current :
  (length segments = 2)%nat -> 92%N ∉ s ->
  segmentLoop d s segments current false = (segments, current ++ s).
Proof.
  intros Hl. revert current. induction s as [|c s IH]; intros current H; simpl; [by rewrite app_nil_r|].
  apply not_elem_of_cons in H as [Hc H]. destruct (N.eqb_spec c 92); [congruence|].
  rewrite Hl. simpl. rewrite andb_false_r, IH by done. by rewrite <- app_assoc.
Qed.

(** [trim] leaves text alone that neither starts nor ends with white space. *)
Definition trimmed (s : jstring) : Prop := trim s = s.

Lemma trimmed_intro c s d : is_ws c = false -> is_ws d = false -> trim (c :: s ++ [d]) = c :: s ++ [d].
Proof.
  intros Hc Hd. unfold trim. cbn [trim_start]. rewrite Hc.
  change (c :: s ++ [d]) with ((c :: s) ++ [d]). by rewrite trim_end_app_nonws.
Qed.

Lemma is_text_head c s l :
  forallb (fun t => match js t with d :: _ => negb (c =? d)%N | [] => false end) l = true ->
  is_text (c :: s) l = false /\ prefixed (c :: s) l = false.
Proof.
  intros H. induction l as [|t l IH]; [done|]. simpl in H. apply andb_true_iff in H as [Ht Hl].
  destruct (IH Hl) as [E1 E2]. unfold is_text, prefixed in *. simpl. rewrite E1, E2, !orb_false_r.
  destruct (js t) as [|d u]; [done|]. apply negb_true_iff, N.eqb_neq in Ht. split.
  - apply bool_decide_eq_false. congruence.
  - simpl. apply andb_false_iff. left. apply N.eqb_neq. congruence.
Qed.

Lemma lit_head d u b c s cs k : (c =? d)%N = false -> rmatch (rx_lit (d :: u)) (MState b (c :: s) cs) k = None.
Proof. rewrite N.eqb_sym. intros H. destruct u; simpl; by rewrite H. Qed.

Lemma matchGlobal_head c s : (c =? 103)%N = false -> (c =? 118)%N = false -> matchGlobalCommand (c :: s) = None.
Proof.
  intros H1 H2. unfold matchGlobalCommand, match_at, GLOBAL_RE. cbn [rx_seqs rmatch rx_alts consumed].
  change (js "g") with [103%N]. change (js "v") with [118%N]. change (js "g!") with (103 :: [33])%N.
  change (js "global") with (103%N :: js "lobal"). change (js "global!") with (103%N :: js "lobal!").
  change (js "vglobal") with (118%N :: js "global"). by rewrite !lit_head by done.
Qed.

(** [:a,bs/pattern/replacement/flags] *)
Definition substituteText (a b : Z) (pattern replacement flags : jstring) : jstring :=
  58%N :: z_str a ++ 44%N :: z_str b ++ 115%N :: 47%N :: pattern ++ 47%N :: replacement ++ 47%N :: flags.

Lemma text_differs c d s l :
  forallb (fun t => match js t with
                    | [] => false | [e] => negb (c =? e)%N | e :: f :: _ => negb ((c =? e)%N && (d =? f)%N)
                    end) l = true ->
  is_text (c :: d :: s) l = false /\ prefixed (c :: d :: s) l = false.
Proof.
  intros H. induction l as [|t l IH]; [done|]. simpl in H. apply andb_true_iff in H as [Ht Hl].
  destruct (IH Hl) as [E1 E2]. unfold is_text, prefixed in *. simpl. rewrite E1, E2, !orb_false_r.
  destruct (js t) as [|e [|f u]]; [done| |].
  - apply negb_true_iff, N.eqb_neq in Ht. split; [apply bool_decide_eq_false; congruence|].
    simpl. apply andb_false_iff. left. apply N.eqb_neq. congruence.
  - apply negb_true_iff in Ht. split; [apply bool_decide_eq_false; intros [= -> -> _]; by rewrite !N.eqb_refl in Ht|].
    simpl. rewrite (N.eqb_sym e), (N.eqb_sym f), andb_assoc, Ht. done.
Qed.

Lemma digit_differs c s l :
  is_digit c = true -> forallb (fun t => match js t with d :: _ => is_lower d | [] => false end) l = true ->
  is_text (c :: s) l = false /\ prefixed (c :: s) l = false.
Proof.
  intros Hc H. apply is_text_head. induction l as [|t l IH]; [done|]. simpl in *.
  apply andb_true_iff in H as [Ht Hl]. apply andb_true_iff. split; [|by apply IH].
  destruct (js t) as [|d u]; [done|]. apply negb_true_iff, N.eqb_neq. intros ->.
  unfold is_digit, is_lower in *. lia.
Qed.

Lemma readDigits_app s c t : Forall (fun c => is_digit c = true) s -> is_digit c = false -> readDigits (s ++ c :: t) = (s, c :: t).
Proof. intros Hs Hc. induction Hs as [|d s Hd Hs IH]; simpl; [by rewrite Hc|]. by rewrite Hd, IH. Qed.

Lemma parseLineAddress_number l c t context base :
  1 <= l <= lastLine context -> is_digit c = false -> (c =? c_plus)%N = false -> (c =? c_minus)%N = false ->
  parseLineAddress (z_str l ++ c :: t) context base = Some (l, c :: t).
Proof.
  intros Hl Hc H1 H2. pose proof (z_str_digits l ltac:(lia)) as Hd.
  pose proof (readDigits_app (z_str l) c t Hd Hc) as Er.
  destruct (z_str_nonempty l) as (d & s & Ez & Hd' & _); [lia|]. rewrite Ez in *.
  unfold parseLineAddress. change ((d :: s) ++ c :: t) with (d :: s ++ c :: t) in *. cbn zeta iota. rewrite Hd', Er. cbn [addressOffsets length].
  rewrite H1, H2. simpl orb. cbv iota. rewrite <- Ez, parse_int_z_str by lia.
  unfold clampExLine. do 2 f_equal. lia.
Qed.

Lemma trim_id s c d : head s = Some c -> last s = Some d -> is_ws c = false -> is_ws d = false -> trim s = s.
Proof.
  intros Hh Hl Hc Hd. unfold trim. destruct s as [|x s]; [done|]. injection Hh as ->. cbn [trim_start]. rewrite Hc.
  apply last_Some in Hl as [t ->]. by apply trim_end_app_nonws.
Qed.

Lemma digit_nonws c : is_digit c = true -> is_ws c = false.
Proof. unfold is_digit, is_ws. intros H. lia. Qed.

Lemma word_nonws c : is_word c = true -> is_ws c = false.
Proof. unfold is_word, is_digit, is_lower, is_upper, is_ws. intros H. lia. Qed.

Lemma parse_segments pattern replacement flags :
  delimited 47 pattern false = true -> delimited 47 replacement false = true -> Forall (fun c => is_word c = true) flags ->
  parseDelimitedSegments (47%N :: pattern ++ 47%N :: replacement ++ 47%N :: flags) = Ok (pattern, replacement, flags).
Proof.
  intros Hp Hr Hf. unfold parseDelimitedSegments. rewrite segmentLoop_delimited by done. cbn [segmentLoop].
  rewrite app_nil_l. change ((47 =? 92)%N) with false. change ((47 =? 47)%N && _) with true. cbv iota.
  rewrite app_nil_l, segmentLoop_delimited by done. cbn [segmentLoop].
  change ((47 =? 92)%N) with false. change ((47 =? 47)%N && _) with true. cbv iota. rewrite app_nil_l.
  rewrite segmentLoop_rest; [|done|].
  - simpl. f_equal. f_equal. destruct flags as [|c f]; [done|].
    destruct (last (c :: f)) as [d|] eqn:El; [|by apply last_None in El].
    apply trim_id with c d; [done|done|by apply word_nonws, (Forall_inv Hf)|].
    apply word_nonws. apply last_Some in El as [t El]. rewrite El in Hf. by apply Forall_app in Hf as [_ [? _]%Forall_cons].
  - intros H. rewrite Forall_forall in Hf. by specialize (Hf _ H).
Qed.

Lemma parseLineRange_numbers context a b tail :
  1 <= a <= lastLine context -> 1 <= b <= lastLine context ->
  parseLineRange (z_str a ++ 44%N :: z_str b ++ 115%N :: tail) (Some context)
  = Ok (Some (Lines (mkRange a b)), 115%N :: tail).
Proof.
  intros Ha Hb. pose proof (parseLineAddress_number a 44 (z_str b ++ 115%N :: tail) context (currentLine context) Ha eq_refl eq_refl eq_refl) as E1.
  pose proof (parseLineAddress_number b 115 tail context (currentLine context) Hb eq_refl eq_refl eq_refl) as E2.
  destruct (z_str_nonempty a) as (c & s & Ez & Hc & _); [lia|].
  destruct (z_str_nonempty b) as (d & t & Ez' & Hd & _); [lia|].
  unfold parseLineRange. rewrite Ez in *. change ((c :: s) ++ ?x) with (c :: s ++ x) in *. cbv iota.
  replace (c =? 37)%N with false by (unfold is_digit in Hc; lia). rewrite E1.
  change (skipSpaces (44%N :: ?x)) with (44%N :: x). cbv iota.
  change (negb (44 =? 44)%N && _) with false. cbv iota. change (44 =? 59)%N with false. cbv iota.
  assert (skipSpaces (z_str b ++ 115%N :: tail) = z_str b ++ 115%N :: tail) as ->.
  { rewrite Ez'. simpl. by replace (d =? c_space)%N with false by (unfold is_digit, c_space in *; lia). }
  rewrite E2. done.
Qed.

Lemma parseRanged_substitute input context range pattern replacement flags :
  delimited 47 pattern false = true -> delimited 47 replacement false = true -> Forall (fun c => is_word c = true) flags ->
  parseRanged input context range (115%N :: 47%N :: pattern ++ 47%N :: replacement ++ 47%N :: flags)
  = Ok (ExSubstitute range pattern replacement flags).
Proof.
  intros Hp Hr Hf. unfold parseRanged. rewrite matchGlobal_head by done.
  repeat match goal with
  | |- context [is_text (115%N :: 47%N :: ?t) ?l] => rewrite (proj1 (text_differs 115 47 t l eq_refl))
  | |- context [prefixed (115%N :: 47%N :: ?t) ?l] => rewrite (proj2 (text_differs 115 47 t l eq_refl))
  end. cbn [orb]. change (isShortSubstitute (115%N :: 47%N :: _)) with true. cbv iota.
  unfold substituteOf. change (drop 1 (115%N :: ?x)) with x. by rewrite parse_segments by done.
Qed.

(** A substitute command written with line numbers of the buffer is parsed to exactly its range, pattern,
    replacement and flags; escaped delimiters stay escaped. *)
Theorem substitute_text_is_recovered context a b pattern replacement flags
    (Ha : 1 <= a <= lastLine context) (Hb : 1 <= b <= lastLine context)
    (Hp : delimited 47 pattern false = true) (Hr : delimited 47 replacement false = true)
    (Hf : Forall (fun c => is_word c = true) flags) :
  parseExCommand (substituteText a b pattern replacement flags) (Some context)
  = Ok (ExSubstitute (Some (Lines (mkRange a b))) pattern replacement flags).
Proof.
  unfold parseExCommand. set (tail := pattern ++ 47%N :: replacement ++ 47%N :: flags).
  assert (trim (substituteText a b pattern replacement flags) = substituteText a b pattern replacement flags) as ->.
  { destruct (last (47%N :: flags)) as [d|] eqn:El; [|by apply last_None in El].
    apply trim_id with 58%N d; [done| |done|].
    - rewrite <- El. assert (substituteText a b pattern replacement flags
        = (58%N :: z_str a ++ 44%N :: z_str b ++ 115%N :: 47%N :: pattern ++ 47%N :: replacement) ++ 47%N :: flags) as ->.
      { unfold substituteText. cbn [app]. by repeat (rewrite <- app_assoc; cbn [app]). }
      by rewrite last_app_cons.
    - apply last_Some in El as [t El]. assert (d ∈ 47%N :: flags) as Hd by (rewrite El; set_solver).
      apply elem_of_cons in Hd as [->|Hd]; [done|]. rewrite Forall_forall in Hf. by apply word_nonws, Hf. }
  destruct (z_str_nonempty a) as (c & s & Ez & Hc & _); [lia|].
  assert (trim_start (drop 1 (substituteText a b pattern replacement flags)) = c :: s ++ 44%N :: z_str b ++ 115%N :: 47%N :: tail) as En.
  { unfold substituteText. rewrite Ez. simpl. by rewrite digit_nonws. }
  change (starts_with (js ":") (substituteText a b pattern replacement flags)) with true. cbv iota. rewrite En.
  change (length (c :: _) =? 0)%nat with false. cbv iota.
  assert (allDigits (c :: s ++ 44%N :: z_str b ++ 115%N :: 47%N :: tail) = false) as ->.
  { apply not_true_iff_false. unfold allDigits. rewrite forallb_forall. intros H.
    specialize (H 44%N). simpl in H. discriminate H. right. apply in_or_app. right. by left. }
  repeat match goal with
  | |- context [is_text (c :: ?t) ?l] => rewrite (proj1 (digit_differs c t l Hc eq_refl)); cbv iota
  | |- context [prefixed (c :: ?t) ?l] => rewrite (proj2 (digit_differs c t l Hc eq_refl)); cbv iota
  end.
  rewrite matchGlobal_head by (unfold is_digit in Hc; lia).
  change (c :: s ++ 44%N :: z_str b ++ 115%N :: 47%N :: tail) with ((c :: s) ++ 44%N :: z_str b ++ 115%N :: 47%N :: tail).
  rewrite <- Ez. rewrite (parseLineRange_numbers context a b _ Ha Hb). cbn [mbind result_bind].
  exact (parseRanged_substitute _ _ _ _ _ _ Hp Hr Hf).
Qed.

(** ** Witnesses *)

Lemma ex_ranges_stay_in_the_buffer_witness :
  parseExCommand (js ":.,+30d") (Some (mkContext 4 10)) = Ok (ExDelete (Some (Lines (mkRange 4 10)))) /\
  range_ok (mkContext 4 10) (cmd_range (ExDelete (Some (Lines (mkRange 4 10))))).
Proof.
  split; [vm_compute; reflexivity|]. apply (ex_ranges_stay_in_the_buffer (js ":.,+30d")). vm_compute. reflexivity.
Defined.

Lemma substitute_text_is_recovered_witness :
  substituteText 2 12 (js "a\/b") (js "c d") (js "gi") = js ":2,12s/a\/b/c d/gi" /\
  parseExCommand (js ":2,12s/a\/b/c d/gi") (Some (mkContext 1 20))
  = Ok (ExSubstitute (Some (Lines (mkRange 2 12))) (js "a\/b") (js "c d") (js "gi")).
Proof.
  split; [vm_compute; reflexivity|].
  exact (substitute_text_is_recovered (mkContext 1 20) 2 12 (js "a\/b") (js "c d") (js "gi")
    ltac:(simpl; lia) ltac:(simpl; lia) eq_refl eq_refl ltac:(repeat constructor)).
Defined.

(** [:update] and [:wq] save by running the text of a write command. *)
Lemma write_commands_parse context :
  parseExCommand (js "w") context = Ok (ExWrite false) /\ parseExCommand (js "w!") context = Ok (ExWrite true).
Proof. by destruct context. Qed.
