(* ===== verification/VimEngine.v ===== *)
(** * The vim tool's engine: changes, undo, insert mode and ex commands

    packages/coding-agent/src/vim/engine.ts: atomic changes, the undo and redo stacks, pending inserts, ex
    commands; of tools/vim.ts the text that is saved and the save after a call.  Exceptions leave what was
    already mutated in place, so an operation is a function from an engine to an engine and a result.  Key
    dispatch of normal and visual mode is not modelled: a change they make is a list of buffer operations. *)
From S2P Require Import Prelude JsString JsRegex VimBuffer VimCommands.
From Stdlib Require Import ZifyBool ZifyN.
Open Scope Z_scope.

(** ** State *)

Inductive VimInputMode : Type :=
| m_normal | m_insert | m_visual | m_visual_line | m_command | m_search_forward | m_search_backward.

Inductive RegisterKind : Type := r_char | r_line.

Record VimRegister : Type := mkRegister { kind : RegisterKind; text : jstring }.

Record VimUndoEntry : Type := mkEntry { before : VimBufferSnapshot; after : VimBufferSnapshot }.

Record PendingChange : Type := mkPending {
  p_before : VimBufferSnapshot; p_tokens : list jstring; moveCursorLeftOnEscape : bool; inserted : bool }.

(** The stacks have their top first.  [written] is the log of saves: path and text. *)
Record VimEngine : Type := mkEngine {
  buffer : VimBuffer; inputMode : VimInputMode; selectionAnchor : option Position; register : VimRegister;
  undoStack : list VimUndoEntry; redoStack : list VimUndoEntry; pendingInput : jstring;
  lastChangeTokens : option (list jstring); pendingChange : option PendingChange; closed : bool;
  written : list (jstring * jstring) }.

Definition newVimEngine (b : VimBuffer) : VimEngine :=
  mkEngine b m_normal None (mkRegister r_char []) [] [] [] None None false [].

Definition set_buffer (b : VimBuffer) (e : VimEngine) : VimEngine :=
  mkEngine b (inputMode e) (selectionAnchor e) (register e) (undoStack e) (redoStack e) (pendingInput e)
    (lastChangeTokens e) (pendingChange e) (closed e) (written e).
Definition set_mode (m : VimInputMode) (e : VimEngine) : VimEngine :=
  mkEngine (buffer e) m (selectionAnchor e) (register e) (undoStack e) (redoStack e) (pendingInput e)
    (lastChangeTokens e) (pendingChange e) (closed e) (written e).
Definition set_anchor (a : option Position) (e : VimEngine) : VimEngine :=
  mkEngine (buffer e) (inputMode e) a (register e) (undoStack e) (redoStack e) (pendingInput e)
    (lastChangeTokens e) (pendingChange e) (closed e) (written e).
Definition set_register (r : VimRegister) (e : VimEngine) : VimEngine :=
  mkEngine (buffer e) (inputMode e) (selectionAnchor e) r (undoStack e) (redoStack e) (pendingInput e)
    (lastChangeTokens e) (pendingChange e) (closed e) (written e).
Definition set_stacks (u r : list VimUndoEntry) (e : VimEngine) : VimEngine :=
  mkEngine (buffer e) (inputMode e) (selectionAnchor e) (register e) u r (pendingInput e)
    (lastChangeTokens e) (pendingChange e) (closed e) (written e).
Definition set_input (s : jstring) (e : VimEngine) : VimEngine :=
  mkEngine (buffer e) (inputMode e) (selectionAnchor e) (register e) (undoStack e) (redoStack e) s
    (lastChangeTokens e) (pendingChange e) (closed e) (written e).
Definition set_lastChange (t : option (list jstring)) (e : VimEngine) : VimEngine :=
  mkEngine (buffer e) (inputMode e) (selectionAnchor e) (register e) (undoStack e) (redoStack e) (pendingInput e)
    t (pendingChange e) (closed e) (written e).
Definition set_pending (p : option PendingChange) (e : VimEngine) : VimEngine :=
  mkEngine (buffer e) (inputMode e) (selectionAnchor e) (register e) (undoStack e) (redoStack e) (pendingInput e)
    (lastChangeTokens e) p (closed e) (written e).
Definition set_closed (c : bool) (e : VimEngine) : VimEngine :=
  mkEngine (buffer e) (inputMode e) (selectionAnchor e) (register e) (undoStack e) (redoStack e) (pendingInput e)
    (lastChangeTokens e) (pendingChange e) c (written e).
Definition add_written (p t : jstring) (e : VimEngine) : VimEngine :=
  mkEngine (buffer e) (inputMode e) (selectionAnchor e) (register e) (undoStack e) (redoStack e) (pendingInput e)
    (lastChangeTokens e) (pendingChange e) (closed e) (written e ++ [(p, t)]).

Inductive VimError : Type :=
| EParse (e : ExError)
| EHost (message : jstring)
| EPatternNotFound (pattern : jstring)
| EUnsavedChanges
| ENotInInsertMode
| EUnsupportedGlobal (command : jstring).

(** ** The host: callbacks, regular expressions built from typed patterns, case mapping *)

Class VimHost : Type := {
  (** [callbacks.beforeMutate]: may refuse; otherwise returns whether the file is now known to be editable. *)
  beforeMutate : VimBuffer -> result jstring bool;
  (** [callbacks.loadBuffer] and [callbacks.saveBuffer], the latter with [force]. *)
  loadBuffer : jstring -> result jstring VimLoadedFile;
  saveBuffer : VimBuffer -> bool -> result jstring VimLoadedFile;
  (** The matches of [createSearchRegex(pattern, ignoreCase ? "gi" : "g")] in a line: place and length. *)
  searchMatches : jstring -> bool -> jstring -> list (nat * nat);
  (** [toLowerCase] *)
  lowerCase : jstring -> jstring }.

(** ** State and error monad *)

Definition M (A : Type) : Type := VimEngine -> VimEngine * result VimError A.

#[global] Instance M_ret : MRet M := fun A a e => (e, Ok a).
#[global] Instance M_bind : MBind M := fun A B f m e =>
  match m e with (e', Ok a) => f a e' | (e', Throw x) => (e', Throw x) end.

Definition getE {A} (f : VimEngine -> A) : M A := fun e => (e, Ok (f e)).
Definition modifyE (f : VimEngine -> VimEngine) : M unit := fun e => (f e, Ok tt).
Definition throwE {A} (x : VimError) : M A := fun e => (e, Throw x).
Definition liftE {A} (r : result jstring A) : M A :=
  fun e => (e, match r with Ok a => Ok a | Throw m => Throw (EHost m) end).

(** [`${buffer.getText()}${buffer.trailingNewline ? "\n" : ""}`] *)
Definition serializeBufferText (b : VimBuffer) : jstring := getText b ++ (if trailingNewline b then [c_lf] else []).

(** ** Undo *)

Definition with_editabilityChecked (c : bool) (b : VimBuffer) : VimBuffer :=
  mkBuffer (displayPath b) (filePath b) (lines b) (cursor b) (modified b) (trailingNewline b) (baseFingerprint b) c.

Definition pushUndo (entry : VimUndoEntry) (changeTokens : list jstring) (e : VimEngine) : VimEngine :=
  if snapshotEqual (before entry) (after entry) then e
  else
    let e := set_stacks (entry :: undoStack e) [] e in
    match changeTokens with [] => e | _ => set_lastChange (Some changeTokens) e end.

Section Engine.
Context `{VimHost}.

Definition ensureEditable : M unit :=
  b ← getE buffer; checked ← liftE (beforeMutate b);
  modifyE (fun e => set_buffer (with_editabilityChecked checked (buffer e)) e).

(** [#applyAtomicChange]; the mutator may itself throw. *)
Definition applyAtomicChange (tokens : list jstring) (mutator : M unit) : M unit :=
  ensureEditable;;
  snapshot ← getE (fun e => createSnapshot (buffer e));
  mutator;;
  modifyE (fun e =>
    let e := set_buffer (with_modified true (buffer e)) e in
    pushUndo (mkEntry snapshot (createSnapshot (buffer e))) tokens e).

(** The loop of [#undo]. *)
Fixpoint undoLoop (count : nat) (e : VimEngine) : VimEngine :=
  match count, undoStack e with
  | S n, entry :: stack =>
      undoLoop n (set_buffer (restore (buffer e) (before entry)) (set_stacks stack (entry :: redoStack e) e))
  | _, _ => e
  end.

Fixpoint redoLoop (count : nat) (e : VimEngine) : VimEngine :=
  match count, redoStack e with
  | S n, entry :: stack =>
      redoLoop n (set_buffer (restore (buffer e) (after entry)) (set_stacks (entry :: undoStack e) stack e))
  | _, _ => e
  end.

Definition undo (count : nat) : M unit :=
  ensureEditable;;
  modifyE (fun e => set_pending None (set_anchor None (set_mode m_normal (undoLoop count e)))).

Definition redo (count : nat) : M unit :=
  ensureEditable;;
  modifyE (fun e => set_pending None (set_anchor None (set_mode m_normal (redoLoop count e)))).

(** ** Insert mode *)

Definition beginPendingChange (prefixTokens : list jstring) (moveLeft : bool) (e : VimEngine) : VimEngine :=
  set_pending (Some (mkPending (createSnapshot (buffer e)) prefixTokens moveLeft false)) e.

Definition markPendingInserted (e : VimEngine) : VimEngine :=
  match pendingChange e with
  | Some p => set_pending (Some (mkPending (p_before p) (p_tokens p) (moveCursorLeftOnEscape p) true)) e
  | None => e
  end.

Definition pushPendingTokens (tokens : list jstring) (e : VimEngine) : VimEngine :=
  match pendingChange e with
  | Some p => set_pending (Some (mkPending (p_before p) (p_tokens p ++ tokens) (moveCursorLeftOnEscape p) (inserted p))) e
  | None => e
  end.

Definition commitPendingChange (e : VimEngine) : VimEngine :=
  match pendingChange e with
  | None => e
  | Some p => set_pending None (pushUndo (mkEntry (p_before p) (createSnapshot (buffer e))) (p_tokens p) e)
  end.

Definition startInsertChange (tokens : list jstring) (mutator : M unit) (moveLeft : bool) : M unit :=
  ensureEditable;;
  modifyE (beginPendingChange tokens moveLeft);;
  mutator;;
  modifyE (fun e => set_mode m_insert (set_buffer (with_modified true (buffer e)) e)).

Definition rollbackPendingInsert (e : VimEngine) : VimEngine :=
  let e := match pendingChange e with
           | Some p => set_pending None (set_buffer (restore (buffer e) (p_before p)) e)
           | None => e
           end in
  set_input [] (set_anchor None (set_mode m_normal e)).

Definition exitInsertMode (e : VimEngine) : VimEngine :=
  let e := pushPendingTokens [js "Esc"] e in
  let e := match pendingChange e with
           | Some p => if moveCursorLeftOnEscape p && inserted p && (0 <? col (cursor (buffer e))) then
                         set_buffer (setCursor (buffer e)
                           (mkPosition (line (cursor (buffer e))) (col (cursor (buffer e)) - 1))) e
                       else e
           | None => e
           end in
  commitPendingChange (set_mode m_normal e).

(** Text typed at the cursor: the branches of [#executeInsert] that insert. *)
Definition typeText (t : jstring) (tokens : list jstring) (e : VimEngine) : VimEngine :=
  let offset := currentOffset (buffer e) in
  let b := with_modified true (replaceOffsets (buffer e) offset offset t (offset + zlength t)) in
  markPendingInserted (pushPendingTokens tokens (set_buffer b e)).

(** The branches that delete back to an offset. *)
Definition deleteBack (from : Z) (tokens : list jstring) (e : VimEngine) : VimEngine :=
  let offset := currentOffset (buffer e) in
  let b := with_modified true (deleteOffsets (buffer e) from offset).2 in
  markPendingInserted (pushPendingTokens tokens (set_buffer b e)).

Definition wordCategory (c : option N) : N :=
  match c with
  | None => 0
  | Some c => if is_ws c then 0 else if is_word c then 1 else 2
  end%N.

(** [previousWordStart(text, offset, false)]; both loops move left, so the start index is enough fuel. *)
Fixpoint skipBack (fuel : nat) (go : Z -> bool) (index : Z) : Z :=
  match fuel with
  | O => index
  | S f => if (0 <? index) && go index then skipBack f go (index - 1) else index
  end.

Definition previousWordStart (t : jstring) (offset : Z) : Z :=
  let index := Z.min (Z.max (offset - 1) 0) (zlength t) in
  let index := skipBack (Z.to_nat index) (fun i => (wordCategory (arr_at t i) =? 0)%N) index in
  let category := wordCategory (arr_at t index) in
  skipBack (Z.to_nat index) (fun i => (wordCategory (arr_at t (i - 1)) =? category)%N) index.

(** [#executeInsert] on one key; [executeNormal] runs the normal-mode command after Ctrl-O.  Returns how many
    keys were used. *)
Definition executeInsert (executeNormal : list jstring -> M nat) (token : jstring) (following : list jstring) : M nat :=
  if bool_decide (token = js "Esc") then modifyE exitInsertMode;; mret 1%nat
  else if bool_decide (token = js "CR") then
    modifyE (fun e => let e := typeText [c_lf] [token] e in set_buffer (with_trailingNewline true (buffer e)) e);; mret 1%nat
  else if bool_decide (token = js "BS") then
    modifyE (fun e => let offset := currentOffset (buffer e) in
                      if 0 <? offset then deleteBack (offset - 1) [token] e else e);; mret 1%nat
  else if bool_decide (token = js "Tab") then modifyE (typeText [9%N] [token]);; mret 1%nat
  else if bool_decide (token = js "C-w") then
    modifyE (fun e =>
      let offset := currentOffset (buffer e) in
      let start := previousWordStart (getText (buffer e)) offset in
      deleteBack (if (start =? offset) && (0 <? start) then start - 1 else start) [token] e);; mret 1%nat
  else if bool_decide (token = js "C-u") then
    modifyE (fun e =>
      let lineStart := positionToOffset (buffer e) (mkPosition (line (cursor (buffer e))) 0) in
      if lineStart <? currentOffset (buffer e) then deleteBack lineStart [token] e else e);; mret 1%nat
  else if bool_decide (token = js "C-o") then
    match following with
    | [] => mret 1%nat
    | _ =>
        savedMode ← getE inputMode;
        modifyE (set_mode m_normal);;
        used ← executeNormal following;
        modifyE (set_mode savedMode);;
        mret (S used)
    end
  else modifyE (typeText token [token]);; mret 1%nat.

(** [for (const char of text)]: a surrogate pair is one character. *)
Fixpoint codePoints (t : jstring) : list jstring :=
  match t with
  | [] => []
  | c :: t' =>
      match t' with
      | d :: t'' => if ((55296 <=? c) && (c <=? 56319) && (56320 <=? d) && (d <=? 57343))%N then [c; d] :: codePoints t''
                    else [c] :: codePoints t'
      | [] => [[c]]
      end
  end.

Definition literalTextToReplayTokens (t : jstring) : list jstring :=
  (fun char => if bool_decide (char = [10%N]) then js "CR" else if bool_decide (char = [9%N]) then js "Tab" else char)
  <$> codePoints t.

Definition applyLiteralInsert (t : jstring) (exit : bool) : M unit :=
  mode ← getE inputMode; pending ← getE pendingChange;
  match mode, pending with
  | m_insert, Some _ =>
      (match t with
       | [] => mret tt
       | _ => modifyE (fun e =>
           let e := typeText t (literalTextToReplayTokens t) e in
           if existsb (N.eqb c_lf) t then
             set_buffer (with_trailingNewline (trailingNewline (buffer e) || ends_with_unit c_lf t) (buffer e)) e
           else e)
       end);;
      (if exit then modifyE exitInsertMode else mret tt)
  | _, _ => throwE ENotInInsertMode
  end.

(** ** Ex commands *)

Definition resolveExRange (range : option ExRange) (defaultStart defaultEnd : Z) (b : VimBuffer) : VimLineRange :=
  let totalLines := Z.max 1 (lineCount b) in
  match range with
  | Some All => mkRange 1 totalLines
  | _ =>
      let next := match range with Some (Lines r) => r | _ => mkRange defaultStart defaultEnd end in
      let start := Z.max 1 (Z.min (VimCommands.start next) totalLines) in
      mkRange start (Z.max start (Z.min (stop next) totalLines))
  end.

(** The range of most commands: the cursor's line when there is none. *)
Definition exRange (range : option ExRange) (b : VimBuffer) : VimLineRange :=
  resolveExRange range (line (cursor b) + 1) (line (cursor b) + 1) b.

(** [s.replace(/ab/g, r)] for two literal units. *)
Fixpoint replacePair (a b r : N) (s : jstring) : jstring :=
  match s with
  | c :: s' =>
      match s' with
      | d :: s'' => if ((c =? a) && (d =? b))%N then r :: replacePair a b r s'' else c :: replacePair a b r s'
      | [] => [c]
      end
  | [] => []
  end.

Definition decodeReplacement (replacement : jstring) : jstring :=
  replacePair 92 92 92 (replacePair 92 47 47 replacement).

(** [GetSubstitution] of ECMA-262 for a pattern without groups: [$$], [$&], [$`] and [$'] in a replacement text. *)
Fixpoint expandDollar (matched pre post template : jstring) : jstring :=
  match template with
  | c :: t =>
      match t with
      | d :: t' =>
          if (c =? 36)%N then
            if (d =? 36)%N then 36%N :: expandDollar matched pre post t'
            else if (d =? 38)%N then matched ++ expandDollar matched pre post t'
            else if (d =? 96)%N then pre ++ expandDollar matched pre post t'
            else if (d =? 39)%N then post ++ expandDollar matched pre post t'
            else c :: expandDollar matched pre post t
          else c :: expandDollar matched pre post t
      | [] => [c]
      end
  | [] => []
  end.

(** [s.replace(/&/g, match)]; [pre] is what was already scanned. *)
Fixpoint replaceAmpersands (template pre s : jstring) : jstring :=
  match s with
  | c :: s' => (if (c =? 38)%N then expandDollar [38%N] pre s' template else [c]) ++ replaceAmpersands template (pre ++ [c]) s'
  | [] => []
  end.

(** [line.replace(regex, callback)] on the matches from place [at_] on: the new text and the replacements made. *)
Fixpoint substituteLine (replacement : jstring) (global : bool) (matches : list (nat * nat)) (at_ : nat) (count : Z)
    (s : jstring) : jstring * Z :=
  match matches with
  | [] => (drop at_ s, count)
  | (i, n) :: matches' =>
      let matched := take n (drop i s) in
      let keep := negb global && (0 <? count) in
      let '(tail, count') := substituteLine replacement global matches' (i + n) (if keep then count else count + 1) s in
      (take (i - at_) (drop at_ s) ++ (if keep then matched else replaceAmpersands matched [] (decodeReplacement replacement))
         ++ tail, count')
  end.

(** The loop of [:substitute] over the lines. *)
Fixpoint substituteLines (pattern replacement : jstring) (ignoreCase global : bool) (ls : list Z) (b : VimBuffer)
    (replacements : Z) : VimBuffer * Z :=
  match ls with
  | [] => (b, replacements)
  | l :: ls' =>
      let s := getLine b l in
      let '(nextLine, n) := substituteLine replacement global (searchMatches pattern ignoreCase s) 0 0 s in
      substituteLines pattern replacement ignoreCase global ls' (replaceLine b l nextLine) (replacements + n)
  end.

Definition hasFlag (c : N) (flags : jstring) : bool := existsb (N.eqb c) flags.

Definition mutate (f : VimBuffer -> VimBuffer) : M unit := modifyE (fun e => set_buffer (f (buffer e)) e).

Definition write (force : bool) : M unit :=
  b ← getE buffer;
  loaded ← liftE (saveBuffer b force);
  modifyE (fun e => set_stacks [] [] (set_buffer (markSaved (buffer e) loaded)
                      (add_written (filePath b) (serializeBufferText b) e))).

Definition moveLines (range : VimLineRange) (destination : Z) (b : VimBuffer) : VimBuffer :=
  let dest := Z.max 0 (Z.min destination (lineCount b)) in
  let count := stop range - start range + 1 in
  let moved := arr_slice (lines b) (start range - 1) (start range - 1 + count) in
  let remaining := arr_splice (lines b) (start range - 1) count [] in
  let adjustedDest := if stop range - 1 <? dest then dest - zlength moved else dest in
  setCursor (with_lines (orEmptyLine (arr_splice remaining adjustedDest 0 moved)) b) (mkPosition adjustedDest 0).

Definition sortLines (range : VimLineRange) (ignoreCase reverse_ : bool) (b : VimBuffer) : VimBuffer :=
  let key s := if ignoreCase then lowerCase s else s in
  let sorted := sort_by (fun x y => compareUnits (key x) (key y)) (arr_slice (lines b) (start range - 1) (stop range)) in
  let sorted := if reverse_ then reverse sorted else sorted in
  with_lines (take (Z.to_nat (start range - 1)) (lines b) ++ sorted
              ++ drop (Z.to_nat (start range - 1) + length sorted) (lines b)) b.

(** [:global] with [d]: splice the selected lines out, last first. *)
Definition deleteSelected (selected : list Z) (b : VimBuffer) : VimBuffer :=
  let remaining := foldr (fun i ls => arr_splice ls i 1 []) (lines b) selected in
  with_trailingNewline true (clampCursor (with_lines (orEmptyLine remaining) b)).

Definition splitLines (t : jstring) : list jstring := match t with [] => [[]] | _ => split_on c_lf t end.

Definition executeExCommand (command : VimExCommand) : M unit :=
  b ← getE buffer;
  match command with
  | ExGotoLine l => mutate (fun b => setCursor b (mkPosition (Z.max 0 (l - 1)) 0))
  | ExWrite force => write force
  | ExUpdate force => if modified b then write force else mret tt
  | ExWriteQuit force => write force;; modifyE (set_closed true)
  | ExQuit force => if modified b && negb force then throwE EUnsavedChanges else modifyE (set_closed true)
  | ExEdit force path =>
      if modified b && negb force then throwE EUnsavedChanges
      else
        loaded ← liftE (loadBuffer (default (displayPath b) path));
        modifyE (fun e => set_stacks [] [] (set_pending None (set_input [] (set_anchor None (set_mode m_normal
                            (set_buffer (replaceLoadedFile (buffer e) loaded) e))))))
  | ExSubstitute range pattern replacement flags =>
      let r := exRange range b in
      let run b := substituteLines pattern replacement (hasFlag 105 flags) (hasFlag 103 flags)
                     (zrange (start r - 1) (stop r - 1)) b 0 in
      applyAtomicChange [js ":substitute"] (mutate (fun b => (run b).1));;
      if (run b).2 =? 0 then throwE (EPatternNotFound pattern) else mret tt
  | ExDelete range =>
      let r := exRange range b in
      applyAtomicChange [js ":delete"]
        (modifyE (fun e => let '(removed, b) := deleteLines (buffer e) (start r - 1) (stop r - 1) in
                           set_register (mkRegister r_line (join [c_lf] removed)) (set_buffer b e)))
  | ExYank range =>
      let r := exRange range b in
      modifyE (set_register (mkRegister r_line (join [c_lf] (arr_slice (lines b) (start r - 1) (stop r)))))
  | ExPut range before =>
      r ← getE register;
      match text r with
      | [] => mret tt
      | _ =>
          let anchor := exRange range b in
          let at_ := if before then Z.max 0 (start anchor - 1) else Z.min (stop anchor) (lineCount b) in
          applyAtomicChange [js ":put"] (mutate (fun b => insertLines b at_ (split_on c_lf (text r))))
      end
  | ExCopy range destination =>
      let r := exRange range b in
      let dest := Z.max 0 (Z.min destination (lineCount b)) in
      applyAtomicChange [js ":copy"]
        (mutate (fun b => insertLines b dest (arr_slice (lines b) (start r - 1) (stop r))))
  | ExMove range destination =>
      let r := exRange range b in
      applyAtomicChange [js ":move"] (mutate (moveLines r destination))
  | ExSort range flags =>
      let r := resolveExRange (Some (default All range)) 1 (lineCount b) b in
      applyAtomicChange [js ":sort"] (mutate (sortLines r (hasFlag 105 flags) (hasFlag 33 flags)))
  | ExJoin range trimWhitespace =>
      let current := line (cursor b) + 1 in
      let base := resolveExRange range current
                    (match range with Some _ => current | None => Z.min (lineCount b) (current + 1) end) b in
      let endLine := if start base =? stop base then Z.min (lineCount b) (stop base + 1) else stop base in
      let count := endLine - start base + 1 in
      if count <? 2 then mret tt
      else
        let startIndex := start base - 1 in
        applyAtomicChange [js ":join"] (mutate (fun b =>
          if trimWhitespace then joinLines b startIndex (count - 1)
          else
            let joined := mjoin (arr_slice (lines b) startIndex endLine) in
            setCursor (with_lines (arr_splice (lines b) startIndex count [joined]) b)
              (mkPosition startIndex (Z.max 0 (zlength joined - 1)))))
  | ExAppend range t =>
      let at_ := Z.min (stop (exRange (Lines <$> range) b)) (lineCount b) in
      applyAtomicChange [js ":append"] (mutate (fun b => insertLines b at_ (splitLines t)))
  | ExInsertBefore range t =>
      let at_ := Z.max 0 (start (exRange (Lines <$> range) b) - 1) in
      applyAtomicChange [js ":insert"] (mutate (fun b => insertLines b at_ (splitLines t)))
  | ExGlobal range pattern sub invert =>
      let r := resolveExRange (Some (default All range)) 1 (lineCount b) b in
      applyAtomicChange [js ":global"]
        (if is_text sub ["d"; "delete"]%string then
           mutate (fun b => deleteSelected
             (filter (fun i => xorb invert (negb (length (searchMatches pattern false (getLine b i)) =? 0)%nat) = true)
                (zrange (start r - 1) (stop r - 1))) b)
         else throwE (EUnsupportedGlobal sub))
  end.

Definition executeEx (input : jstring) : M unit :=
  b ← getE buffer;
  match parseExCommand input (Some (mkContext (line (cursor b) + 1) (lineCount b))) with
  | Ok command => executeExCommand command
  | Throw x => throwE (EParse x)
  end.

(** [#paste] *)
Definition paste (after_ : bool) (count : nat) (r : VimRegister) (b : VimBuffer) : VimBuffer :=
  match text r with
  | [] => b
  | _ =>
      match kind r with
      | r_line =>
          let ls := split_on c_lf (text r) in
          let at_ := if after_ then line (cursor b) + 1 else line (cursor b) in
          foldl (fun b (i : nat) => insertLines b (at_ + Z.of_nat i * zlength ls) ls) b (seq 0 count)
      | r_char =>
          let t := mjoin (replicate count (text r)) in
          let offset := currentOffset b + (if after_ then 1 else 0) in
          replaceOffsets b offset offset t (offset + zlength t)
      end
  end.

(** tools/vim.ts: the save at the end of a call that is not paused. *)
Definition autoSave (pause : bool) : M unit :=
  e ← getE id;
  if negb (closed e) && modified (buffer e) && negb pause then
    loaded ← liftE (saveBuffer (buffer e) false);
    modifyE (fun e => set_buffer (markSaved (buffer e) loaded) (add_written (filePath (buffer e)) (serializeBufferText (buffer e)) e))
  else mret tt.

End Engine.

(** ** Sessions *)

(** What the user does between calls: motions, normal-mode changes, typing, undo, redo, ex commands.  Keys go where
    the mode sends them: insert keys only in insert mode, everything else outside it. *)
Inductive vim_op : Type :=
| VMove (p : Position)
| VAtomic (tokens : list jstring) (ops : list buffer_op)
| VStartInsert (tokens : list jstring) (ops : list buffer_op) (moveLeft : bool)
| VKey (token : jstring)
| VLiteral (t : jstring) (exit : bool)
| VRollback
| VUndo (count : nat)
| VRedo (count : nat)
| VEx (input : jstring).

Definition in_insert (e : VimEngine) : bool := match inputMode e with m_insert => true | _ => false end.

Section Sessions.
Context `{VimHost}.

Definition edit_buffer (ops : list buffer_op) : M unit := mutate (fun b => foldl run_buffer_op b ops).

Definition vim_step (op : vim_op) : M unit :=
  e ← getE id;
  match op with
  | VMove p => mutate (fun b => setCursor b p)
  | VAtomic tokens ops => if in_insert e then mret tt else applyAtomicChange tokens (edit_buffer ops)
  | VStartInsert tokens ops moveLeft => if in_insert e then mret tt else startInsertChange tokens (edit_buffer ops) moveLeft
  | VKey token => if in_insert e then executeInsert (fun _ => mret 0%nat) token [];; mret tt else mret tt
  | VLiteral t exit => applyLiteralInsert t exit
  | VRollback => modifyE rollbackPendingInsert
  | VUndo count => if in_insert e then mret tt else undo count
  | VRedo count => if in_insert e then mret tt else redo count
  | VEx input => if in_insert e then mret tt else executeEx input
  end.

Definition vim_run (e : VimEngine) (ops : list vim_op) : VimEngine := foldl (fun e op => (vim_step op e).1) e ops.

(** ** The history *)

(** What undo is about: the lines, the final newline and whether there are unsaved changes. *)
Definition content (b : VimBuffer) : list jstring * bool * bool := (lines b, trailingNewline b, modified b).
Definition s_content (s : VimBufferSnapshot) : list jstring * bool * bool := (s_lines s, s_trailingNewline s, s_modified s).

(** From [cur] back to [base] through the recorded changes, newest first; and forward through the undone ones. *)
Fixpoint history (cur : list jstring * bool * bool) (stack : list VimUndoEntry) (base : list jstring * bool * bool) : Prop :=
  match stack with
  | [] => cur = base
  | entry :: stack' => s_content (after entry) = cur /\ history (s_content (before entry)) stack' base
  end.

Fixpoint future (cur : list jstring * bool * bool) (stack : list VimUndoEntry) : Prop :=
  match stack with
  | [] => True
  | entry :: stack' => s_content (before entry) = cur /\ future (s_content (after entry)) stack'
  end.

Definition entry_ok (entry : VimUndoEntry) : Prop := s_lines (before entry) ≠ [] /\ s_lines (after entry) ≠ [].

(** The text before the change that is being typed, if there is one. *)
Definition settled (e : VimEngine) : list jstring * bool * bool :=
  match pendingChange e with Some p => s_content (p_before p) | None => content (buffer e) end.

Record engine_ok (base : list jstring * bool * bool) (e : VimEngine) : Prop := {
  eo_lines : lines (buffer e) ≠ [];
  eo_pending : forall p, pendingChange e = Some p -> s_lines (p_before p) ≠ [];
  eo_mode : in_insert e = true <-> is_Some (pendingChange e);
  eo_entries : Forall entry_ok (undoStack e) /\ Forall entry_ok (redoStack e);
  eo_history : history (settled e) (undoStack e) base;
  eo_future : future (settled e) (redoStack e) }.

Lemma run_buffer_op_nonempty b op : lines b ≠ [] -> lines (run_buffer_op b op) ≠ [].
Proof.
  intros Hb. assert (forall ls, orEmptyLine ls ≠ []) as Hor by (by intros []).
  assert (forall t, splitText t ≠ []) as Hsp by (intros t; apply splitText_ok).
  assert (forall (ls : list jstring) i x, ls ≠ [] -> <[i := x]> ls ≠ []) as Hins.
  { intros ls i x Hls E. apply Hls. apply (f_equal length) in E. rewrite length_insert in E. by destruct ls. }
  destruct op; cbn [run_buffer_op]; try (simpl; auto; fail).
  - unfold deleteLines. cbn [snd]. case_match; simpl; apply Hor.
  - simpl. apply arr_splice_nonempty, Hor.
  - unfold joinLines. case_match; [done|]. simpl. by apply arr_splice_nonempty.
  - unfold indentLines. simpl. generalize (zrange (clampLine b (Z.min s e)) (clampLine b (Z.max s e))). intros is_.
    revert b Hb. induction is_ as [|i is_ IH]; intros b Hb; simpl; [done|]. apply IH. simpl. by apply Hins.
Qed.

Lemma run_buffer_ops_nonempty ops b : lines b ≠ [] -> lines (foldl run_buffer_op b ops) ≠ [].
Proof. revert b. induction ops as [|op ops IH]; intros b Hb; simpl; [done|]. by apply IH, run_buffer_op_nonempty. Qed.

Lemma content_restore b s : s_lines s ≠ [] -> content (restore b s) = s_content s.
Proof. intros Hs. unfold content, restore, s_content. simpl. by rewrite orEmptyLine_id. Qed.

Lemma lines_restore b s : s_lines s ≠ [] -> lines (restore b s) ≠ [].
Proof. intros Hs. unfold restore. simpl. by rewrite orEmptyLine_id. Qed.

Lemma s_content_snapshot b : s_content (createSnapshot b) = content b.
Proof. done. Qed.

(** ** Operations keep the history *)

(** Only the buffer and what has no part in undo may have changed. *)
Definition frame (e e' : VimEngine) : Prop :=
  inputMode e' = inputMode e /\ pendingChange e' = pendingChange e /\
  undoStack e' = undoStack e /\ redoStack e' = redoStack e.

Lemma engine_ok_frame base e e' :
  engine_ok base e -> frame e e' -> lines (buffer e') ≠ [] ->
  (pendingChange e = None -> content (buffer e') = content (buffer e)) -> engine_ok base e'.
Proof.
  intros [H1 H2 H3 H4 H5 H6] (Em & Ep & Eu & Er) Hl Hc.
  assert (settled e' = settled e) as Es. { unfold settled. rewrite Ep. destruct (pendingChange e); [done|by apply Hc]. }
  constructor; unfold in_insert; rewrite ?Em, ?Ep, ?Eu, ?Er, ?Es; done.
Qed.

Lemma ensureEditable_eq e :
  ensureEditable e = match beforeMutate (buffer e) with
                     | Ok c => (set_buffer (with_editabilityChecked c (buffer e)) e, Ok tt)
                     | Throw m => (e, Throw (EHost m))
                     end.
Proof. unfold ensureEditable, getE, liftE, modifyE, mbind, M_bind. by destruct (beforeMutate (buffer e)). Qed.

Lemma ensureEditable_ok base e : engine_ok base e -> exists e', frame e e' /\ engine_ok base e' /\
  content (buffer e') = content (buffer e) /\ (ensureEditable e = (e', Ok tt) \/ exists x, ensureEditable e = (e', Throw x)).
Proof.
  intros Hok. rewrite ensureEditable_eq. destruct (beforeMutate (buffer e)) as [c|m].
  - exists (set_buffer (with_editabilityChecked c (buffer e)) e). split; [done|]. split; [|split; [done|by left]].
    apply (engine_ok_frame base e); [done|done|apply Hok|done].
  - exists e. split; [done|]. split; [done|]. split; [done|]. right. eauto.
Qed.

(** A mutator works on the buffer and the register only, and changes nothing when it throws. *)
Definition good_mutator (m : M unit) : Prop := forall e e' r,
  m e = (e', r) -> lines (buffer e) ≠ [] ->
  frame e e' /\ lines (buffer e') ≠ [] /\ (r = Ok tt \/ content (buffer e') = content (buffer e)).

Lemma mutate_good f : (forall b, lines b ≠ [] -> lines (f b) ≠ []) -> good_mutator (mutate f).
Proof. intros Hf e e' r [= <- <-] Hl. split; [done|]. split; [by apply Hf|by left]. Qed.

Lemma edit_buffer_good ops : good_mutator (edit_buffer ops).
Proof. apply mutate_good. intros b. apply run_buffer_ops_nonempty. Qed.

Lemma throwE_good x : good_mutator (throwE x).
Proof. intros e e' r [= <- <-] Hl. split; [done|]. split; [done|by right]. Qed.

Lemma not_insert_pending base e : engine_ok base e -> in_insert e = false -> pendingChange e = None.
Proof.
  intros Hok Hm. destruct (pendingChange e) eqn:E; [|done]. destruct Hok as [_ _ [_ H3] _ _ _].
  rewrite E in H3. specialize (H3 ltac:(by eexists)). congruence.
Qed.

(** Recording a change that was made from a settled text. *)
Lemma pushUndo_ok base e s tokens :
  engine_ok base e -> pendingChange e = None -> s_lines s ≠ [] ->
  forall e', frame e e' -> lines (buffer e') ≠ [] -> s_content s = content (buffer e) ->
  engine_ok base (pushUndo (mkEntry s (createSnapshot (buffer e'))) tokens e').
Proof.
  intros Hok Hp Hs e' Hf Hl Hc. unfold pushUndo. simpl. destruct (snapshotEqual _ _) eqn:Eq.
  - apply (engine_ok_frame base e); [done|done|done|]. intros _. apply snapshotEqual_spec in Eq. rewrite Eq in Hc. exact Hc.
  - pose proof Hok as [H1 H2 H3 [H4 H4'] H5 H6]. destruct Hf as (Em & Ep & Eu & Er).
    assert (settled e = content (buffer e)) as Hset by (unfold settled; by rewrite Hp).
    assert (engine_ok base (set_stacks (mkEntry s (createSnapshot (buffer e')) :: undoStack e') [] e')) as Hok'.
    { constructor; simpl; [done| | | | |done].
      - rewrite Ep. exact H2.
      - unfold in_insert. simpl. rewrite Em, Ep. exact H3.
      - split; [|constructor]. rewrite Eu. constructor; [by split|done].
      - unfold settled. simpl. rewrite Ep, Hp. split; [done|]. rewrite Eu, Hc, <- Hset. exact H5. }
    destruct tokens; [exact Hok'|]. apply (engine_ok_frame base _ _ Hok'); [done|done|done].
Qed.

Lemma applyAtomicChange_ok base e tokens m :
  engine_ok base e -> in_insert e = false -> good_mutator m -> engine_ok base (applyAtomicChange tokens m e).1.
Proof.
  intros Hok Hm Hg. pose proof (not_insert_pending _ _ Hok Hm) as Hp.
  unfold applyAtomicChange, mbind, M_bind. destruct (ensureEditable_ok base e Hok) as (e1 & Hf & Hok1 & Hc & E).
  destruct E as [->|[x ->]]; [|done]. cbn. assert (pendingChange e1 = None) as Hp1 by (destruct Hf as (_ & -> & _); done).
  destruct (m e1) as [e2 r] eqn:Em. destruct (Hg e1 e2 r Em (eo_lines _ _ Hok1)) as (Hf2 & Hl2 & Hr).
  destruct r as [[]|x]; simpl.
  - apply (pushUndo_ok base e1 (createSnapshot (buffer e1)) tokens Hok1 Hp1 (eo_lines _ _ Hok1) (set_buffer (with_modified true (buffer e2)) e2)); done.
  - destruct Hr as [Hr|Hr]; [done|]. by apply (engine_ok_frame base e1).
Qed.

Lemma startInsert_ok base e tokens m moveLeft :
  engine_ok base e -> in_insert e = false -> good_mutator m -> (forall e, exists e', m e = (e', Ok tt)) ->
  engine_ok base (startInsertChange tokens m moveLeft e).1.
Proof.
  intros Hok Hm Hg Ht. pose proof (not_insert_pending _ _ Hok Hm) as Hp.
  unfold startInsertChange, mbind, M_bind. destruct (ensureEditable_ok base e Hok) as (e1 & Hf & Hok1 & Hc & E).
  destruct E as [->|[x ->]]; [|done]. cbn -[beginPendingChange].
  assert (pendingChange e1 = None) as Hp1 by (destruct Hf as (_ & -> & _); done).
  destruct (Ht (beginPendingChange tokens moveLeft e1)) as [e2 Em]. rewrite Em. simpl.
  destruct (Hg _ _ _ Em) as ((_ & Ep & Eu & Er) & Hl & _); [apply Hok1|]. simpl in Ep, Eu, Er.
  pose proof Hok1 as [H1 H2 H3 H4 H5 H6]. assert (settled e1 = content (buffer e1)) as Hset by (unfold settled; by rewrite Hp1).
  constructor; simpl; [done| | | | |].
  - intros p. rewrite Ep. intros [= <-]. exact H1.
  - rewrite Ep. split; eauto.
  - by rewrite Eu, Er.
  - unfold settled. simpl. rewrite Ep, Eu. simpl. rewrite s_content_snapshot, <- Hset. done.
  - unfold settled. simpl. rewrite Ep, Er. simpl. rewrite s_content_snapshot, <- Hset. done.
Qed.

(** While text is typed the pending change keeps the text it started from. *)
Lemma typing_ok base e e' :
  engine_ok base e -> in_insert e = true -> inputMode e' = inputMode e -> undoStack e' = undoStack e ->
  redoStack e' = redoStack e -> lines (buffer e') ≠ [] ->
  (forall p, pendingChange e = Some p -> exists p', pendingChange e' = Some p' /\ p_before p' = p_before p) ->
  engine_ok base e'.
Proof.
  intros [H1 H2 H3 H4 H5 H6] Hi Em Eu Er Hl Hp. destruct (proj1 H3 Hi) as [p Ep].
  destruct (Hp p Ep) as (p' & Ep' & Eb). assert (settled e' = settled e) as Es by (unfold settled; by rewrite Ep, Ep', Eb).
  constructor; [done| | |by rewrite Eu, Er|by rewrite Es, Eu|by rewrite Es, Er].
  - intros q. rewrite Ep'. intros [= <-]. rewrite Eb. by apply H2.
  - unfold in_insert in *. rewrite Em, Hi, Ep'. split; eauto.
Qed.

Lemma rollback_ok base e : engine_ok base e -> engine_ok base (rollbackPendingInsert e).
Proof.
  intros Hok. pose proof Hok as [H1 H2 H3 H4 H5 H6]. unfold rollbackPendingInsert.
  destruct (pendingChange e) as [p|] eqn:Ep; simpl.
  - pose proof (H2 p eq_refl) as Hp. assert (settled e = s_content (p_before p)) as Hs by (unfold settled; by rewrite Ep).
    constructor; [exact (lines_restore _ _ Hp)|done| |done| |].
    + unfold in_insert. simpl. split; [done|]. by intros [? ?].
    + change (settled _) with (content (restore (buffer e) (p_before p))). by rewrite content_restore, <- Hs by done.
    + change (settled _) with (content (restore (buffer e) (p_before p))). by rewrite content_restore, <- Hs by done.
  - assert (settled e = content (buffer e)) as Hs by (unfold settled; by rewrite Ep).
    constructor; [done|intros q; simpl; by rewrite Ep| |done| |].
    + unfold in_insert. simpl. rewrite Ep. split; [done|]. by intros [? ?].
    + unfold settled. simpl. by rewrite Ep, <- Hs.
    + unfold settled. simpl. by rewrite Ep, <- Hs.
Qed.

Lemma pushUndo_set_pending entry tokens q e :
  set_pending q (pushUndo entry tokens e) = pushUndo entry tokens (set_pending q e).
Proof. unfold pushUndo. case_match; [done|]. by destruct tokens. Qed.

(** Ending insert mode records the whole insert as one change. *)
Lemma commit_ok base e e' p :
  engine_ok base e -> pendingChange e = Some p -> inputMode e' = m_normal ->
  undoStack e' = undoStack e -> redoStack e' = redoStack e -> lines (buffer e') ≠ [] ->
  forall p', pendingChange e' = Some p' -> p_before p' = p_before p -> engine_ok base (commitPendingChange e').
Proof.
  intros Hok Ep Em Eu Er Hl p' Ep' Eb. pose proof (rollback_ok base e Hok) as Hr.
  unfold commitPendingChange. rewrite Ep', pushUndo_set_pending, Eb.
  assert (s_lines (p_before p) ≠ []) as Hne by exact (eo_pending base e Hok p Ep).
  unfold rollbackPendingInsert in Hr. rewrite Ep in Hr. revert Hr. set (e0 := set_input [] _). intros Hr.
  apply (pushUndo_ok base e0 (p_before p) (p_tokens p') Hr eq_refl Hne (set_pending None e')); [|done|].
  - split; [exact Em|]. done.
  - symmetry. by apply content_restore.
Qed.

Lemma exitInsert_ok base e : engine_ok base e -> in_insert e = true -> engine_ok base (exitInsertMode e).
Proof.
  intros Hok Hi. destruct (proj1 (eo_mode _ _ Hok) Hi) as [p Ep]. unfold exitInsertMode, pushPendingTokens. rewrite Ep.
  cbn [pendingChange set_pending]. case_match; (eapply (commit_ok base e _ p Hok Ep); try done; simpl; apply Hok).
Qed.

Lemma typeText_ok base e t tokens : engine_ok base e -> in_insert e = true -> engine_ok base (typeText t tokens e).
Proof.
  intros Hok Hi. destruct (proj1 (eo_mode _ _ Hok) Hi) as [p Ep].
  unfold typeText, markPendingInserted, pushPendingTokens. cbn [pendingChange set_buffer set_pending]. rewrite Ep. cbn [pendingChange set_pending].
  apply (typing_ok base e); try done; [apply splitText_ok|].
  intros q. rewrite Ep. intros [= <-]. by eexists.
Qed.

Lemma deleteBack_ok base e i tokens : engine_ok base e -> in_insert e = true -> engine_ok base (deleteBack i tokens e).
Proof.
  intros Hok Hi. destruct (proj1 (eo_mode _ _ Hok) Hi) as [p Ep].
  unfold deleteBack, markPendingInserted, pushPendingTokens. cbn [pendingChange set_buffer set_pending]. rewrite Ep. cbn [pendingChange set_pending].
  apply (typing_ok base e); try done; [apply splitText_ok|].
  intros q. rewrite Ep. intros [= <-]. by eexists.
Qed.

Lemma typed_insert e t tokens : in_insert (typeText t tokens e) = in_insert e.
Proof. unfold typeText, markPendingInserted, pushPendingTokens. cbn [pendingChange set_buffer]. by destruct (pendingChange e) eqn:Ep; simpl; rewrite ?Ep. Qed.

Lemma set_newline_ok base e t : engine_ok base e -> in_insert e = true -> engine_ok base (set_buffer (with_trailingNewline t (buffer e)) e).
Proof.
  intros Hok Hi. apply (typing_ok base e); try done; [apply Hok|]. intros q Ep. by exists q.
Qed.

Lemma executeInsert_ok base e token : engine_ok base e -> in_insert e = true ->
  engine_ok base (executeInsert (fun _ => mret 0%nat) token [] e).1.
Proof.
  intros Hok Hi. unfold executeInsert.
  destruct (bool_decide (token = js "Esc")); [exact (exitInsert_ok base e Hok Hi)|].
  destruct (bool_decide (token = js "CR")).
  { change (engine_ok base (let e' := typeText [c_lf] [token] e in set_buffer (with_trailingNewline true (buffer e')) e')).
    apply set_newline_ok; [by apply typeText_ok|by rewrite typed_insert]. }
  destruct (bool_decide (token = js "BS")).
  { change (engine_ok base (if 0 <? currentOffset (buffer e) then deleteBack (currentOffset (buffer e) - 1) [token] e else e)).
    case_match; [by apply deleteBack_ok|done]. }
  destruct (bool_decide (token = js "Tab")); [exact (typeText_ok base e _ _ Hok Hi)|].
  destruct (bool_decide (token = js "C-w")); [exact (deleteBack_ok base e _ _ Hok Hi)|].
  destruct (bool_decide (token = js "C-u")).
  { set (i := positionToOffset (buffer e) (mkPosition (line (cursor (buffer e))) 0)).
    change (engine_ok base (if i <? currentOffset (buffer e) then deleteBack i [token] e else e)).
    case_match; [by apply deleteBack_ok|done]. }
  destruct (bool_decide (token = js "C-o")); [exact Hok|exact (typeText_ok base e _ _ Hok Hi)].
Qed.

Lemma applyLiteralInsert_ok base e t exit : engine_ok base e -> engine_ok base (applyLiteralInsert t exit e).1.
Proof.
  intros Hok. unfold applyLiteralInsert, getE, mbind, M_bind. destruct (inputMode e) eqn:Em; try done.
  destruct (pendingChange e) as [p|] eqn:Ep; [|done].
  assert (in_insert e = true) as Hi by (unfold in_insert; by rewrite Em).
  assert (forall e', engine_ok base e' -> in_insert e' = true ->
    engine_ok base ((if exit then modifyE exitInsertMode else mret tt) e').1) as Hexit.
  { intros e' H1 H2. destruct exit; [by apply exitInsert_ok|done]. }
  destruct t as [|c t]; [by apply Hexit|]. unfold modifyE at 1. cbv iota beta.
  apply Hexit; destruct (existsb (N.eqb c_lf) (c :: t)).
  - apply set_newline_ok; [by apply typeText_ok|by rewrite typed_insert].
  - by apply typeText_ok.
  - change (in_insert (typeText (c :: t) (literalTextToReplayTokens (c :: t)) e) = true). by rewrite typed_insert.
  - by rewrite typed_insert.
Qed.

(** One step of undo and of redo, seen through the contents and the stacks. *)
Definition view (e : VimEngine) := (content (buffer e), undoStack e, redoStack e).

Definition view_undo (v : list jstring * bool * bool * list VimUndoEntry * list VimUndoEntry) :=
  match v with (_, entry :: u, r) => (s_content (before entry), u, entry :: r) | _ => v end.
Definition view_redo (v : list jstring * bool * bool * list VimUndoEntry * list VimUndoEntry) :=
  match v with (_, u, entry :: r) => (s_content (after entry), entry :: u, r) | _ => v end.

Lemma undoLoop_ok base n e :
  engine_ok base e -> pendingChange e = None ->
  engine_ok base (undoLoop n e) /\ pendingChange (undoLoop n e) = None /\ view (undoLoop n e) = Nat.iter n view_undo (view e).
Proof.
  revert e. induction n as [|n IH]; intros e Hok Hp; [done|].
  rewrite Nat.iter_succ_r. cbn [undoLoop]. destruct (undoStack e) as [|en u] eqn:Eu.
  - unfold view at 2. rewrite Eu. simpl. split; [done|]. split; [done|].
    unfold view. rewrite Eu. clear. induction n as [|n IH]; simpl; [done|]. by rewrite <- IH.
  - pose proof Hok as [H1 H2 H3 [H4 H4'] H5 H6]. rewrite Eu in H4, H5. simpl in H5. destruct H5 as [Ha Hh].
    apply Forall_cons in H4 as [[Hb Hb'] H4]. assert (settled e = content (buffer e)) as Hs by (unfold settled; by rewrite Hp).
    set (e1 := set_buffer (restore (buffer e) (before en)) (set_stacks u (en :: redoStack e) e)).
    assert (content (buffer e1) = s_content (before en)) as Ec by (by apply content_restore).
    assert (settled e1 = s_content (before en)) as Hs1 by (unfold settled; simpl; by rewrite Hp).
    assert (engine_ok base e1) as Hok1.
    { constructor; [exact (lines_restore _ _ Hb)|exact H2|exact H3| | |].
      - split; [done|]. simpl. by constructor.
      - by rewrite Hs1.
      - rewrite Hs1. split; [done|]. by rewrite Ha. }
    destruct (IH e1 Hok1 Hp) as (K1 & K2 & K3). split; [done|]. split; [done|]. rewrite K3. f_equal.
    unfold view. rewrite Ec, Eu. done.
Qed.

Lemma redoLoop_ok base n e :
  engine_ok base e -> pendingChange e = None ->
  engine_ok base (redoLoop n e) /\ pendingChange (redoLoop n e) = None /\ view (redoLoop n e) = Nat.iter n view_redo (view e).
Proof.
  revert e. induction n as [|n IH]; intros e Hok Hp; [done|].
  rewrite Nat.iter_succ_r. cbn [redoLoop]. destruct (redoStack e) as [|en r] eqn:Er.
  - unfold view at 2. rewrite Er. simpl. split; [done|]. split; [done|].
    unfold view. rewrite Er. destruct (undoStack e); clear; induction n as [|n IH]; simpl; try done; by rewrite <- IH.
  - pose proof Hok as [H1 H2 H3 [H4 H4'] H5 H6]. rewrite Er in H4', H6. simpl in H6. destruct H6 as [Ha Hh].
    apply Forall_cons in H4' as [[Hb Hb'] H4']. assert (settled e = content (buffer e)) as Hs by (unfold settled; by rewrite Hp).
    set (e1 := set_buffer (restore (buffer e) (after en)) (set_stacks (en :: undoStack e) r e)).
    assert (content (buffer e1) = s_content (after en)) as Ec by (by apply content_restore).
    assert (settled e1 = s_content (after en)) as Hs1 by (unfold settled; simpl; by rewrite Hp).
    assert (engine_ok base e1) as Hok1.
    { constructor; [exact (lines_restore _ _ Hb')|exact H2|exact H3| | |].
      - split; [|done]. simpl. by constructor.
      - rewrite Hs1. split; [done|]. by rewrite Ha.
      - by rewrite Hs1. }
    destruct (IH e1 Hok1 Hp) as (K1 & K2 & K3). split; [done|]. split; [done|]. rewrite K3. f_equal.
    unfold view. rewrite Ec, Er. by destruct (undoStack e).
Qed.

(** Redoing undoes undoing. *)
Lemma view_undo_redo n c u r base :
  (n <= length u)%nat -> history c u base ->
  Nat.iter n view_redo (Nat.iter n view_undo (c, u, r)) = (c, u, r).
Proof.
  revert c u r. induction n as [|n IH]; intros c u r Hn Hh; [done|].
  destruct u as [|en u]; [simpl in Hn; lia|]. simpl in Hh. destruct Hh as [Ha Hh].
  rewrite (Nat.iter_succ_r n _ view_undo). cbn [view_undo].
  rewrite Nat.iter_succ. rewrite IH; [|simpl in Hn; lia|done]. cbn [view_redo]. by rewrite Ha.
Qed.

Lemma view_undo_all c u r base :
  history c u base -> exists r', Nat.iter (length u) view_undo (c, u, r) = (base, [], r').
Proof.
  revert c r. induction u as [|en u IH]; intros c r Hh; [exists r; by rewrite <- Hh|].
  cbn [length]. rewrite Nat.iter_succ_r. cbn [view_undo]. apply IH. apply Hh.
Qed.

Lemma fresh_engine_ok e :
  lines (buffer e) ≠ [] -> pendingChange e = None -> in_insert e = false -> undoStack e = [] -> redoStack e = [] ->
  engine_ok (content (buffer e)) e.
Proof.
  intros Hl Hp Hm Hu Hr. constructor; [done|by rewrite Hp|rewrite Hm, Hp; split; [done|by intros [? ?]]| | |].
  - rewrite Hu, Hr. by split.
  - unfold settled. by rewrite Hp, Hu.
  - by rewrite Hr.
Qed.

Lemma newVimEngine_ok f : engine_ok (content (newVimBuffer f)) (newVimEngine (newVimBuffer f)).
Proof. apply (fresh_engine_ok (newVimEngine (newVimBuffer f))); try done. simpl. by destruct (l_lines f). Qed.

Lemma write_ok base e force : engine_ok base e -> in_insert e = false -> exists base', engine_ok base' (write force e).1.
Proof.
  intros Hok Hm. unfold write, getE, liftE, modifyE, mbind, M_bind. destruct (saveBuffer (buffer e) force) as [l|m]; [|by exists base].
  eexists. apply fresh_engine_ok; try done; simpl; [by destruct (l_lines l)|]. by eapply not_insert_pending.
Qed.

Lemma insertLines_nonempty b i new : lines (insertLines b i new) ≠ [].
Proof. simpl. apply arr_splice_nonempty. by destruct new. Qed.

Lemma replaceLine_nonempty b l x : lines b ≠ [] -> lines (replaceLine b l x) ≠ [].
Proof. apply (run_buffer_op_nonempty b (OpReplaceLine l x)). Qed.

Lemma substituteLines_nonempty p r i g ls b n : lines b ≠ [] -> lines (substituteLines p r i g ls b n).1 ≠ [].
Proof.
  revert b n. induction ls as [|l ls IH]; intros b n Hb; [done|]. cbn [substituteLines].
  destruct (substituteLine _ _ _ _ _ _). by apply IH, replaceLine_nonempty.
Qed.

Lemma sortLines_nonempty r i v b : lines b ≠ [] -> lines (sortLines r i v b) ≠ [].
Proof.
  intros Hb E. unfold sortLines in E. simpl in E. apply app_eq_nil in E as [E1 [E2 E3]%app_eq_nil].
  rewrite E2 in E3. simpl in E3. rewrite Nat.add_0_r in E3.
  apply Hb. by rewrite <- (take_drop (Z.to_nat (start r - 1)) (lines b)), E1, E3.
Qed.

Lemma executeExCommand_ok base e c :
  engine_ok base e -> in_insert e = false -> exists base', engine_ok base' (executeExCommand c e).1.
Proof.
  intros Hok Hm. pose proof (not_insert_pending _ _ Hok Hm) as Hp.
  assert (forall tokens m, good_mutator m -> exists base', engine_ok base' (applyAtomicChange tokens m e).1) as Hatomic.
  { intros tokens m Hg. exists base. by apply applyAtomicChange_ok. }
  assert (forall f, (forall b, lines (f b) = lines b /\ content (f b) = content b) -> exists base', engine_ok base' (mutate f e).1) as Hmove.
  { intros f Hf. exists base. apply (engine_ok_frame base e); [done|done|simpl; rewrite (proj1 (Hf _)); apply Hok|intros _; apply Hf]. }
  unfold executeExCommand, mbind, M_bind, getE. cbv iota beta. destruct c.
  - by eapply write_ok.
  - destruct (modified (buffer e)); [by eapply write_ok|by exists base].
  - destruct (modified (buffer e) && negb force); [by exists base|]. exists base. apply (engine_ok_frame base e); [done|done|apply Hok|done].
  - destruct (write_ok base e force Hok Hm) as [base' H']. exists base'. unfold mbind, M_bind.
    destruct (write force e) as [e' [[]|x]]; [|done]. apply (engine_ok_frame base' e'); [done|done|apply H'|done].
  - destruct (modified (buffer e) && negb force); [by exists base|]. unfold liftE, modifyE, mbind, M_bind. destruct (loadBuffer _) as [l|m]; [|by exists base].
    eexists. apply fresh_engine_ok; try done. simpl. by destruct (l_lines l).
  - by apply Hmove.
  - unfold mbind, M_bind. match goal with |- context [applyAtomicChange ?t ?m e] =>
      destruct (Hatomic t m) as [base' H'] end.
    { apply mutate_good. intros b. apply substituteLines_nonempty. }
    exists base'. destruct (applyAtomicChange _ _ e) as [e' [[]|x]]; [|done]. by case_match.
  - apply Hatomic. intros e1 e' r Hr Hl. unfold modifyE in Hr.
    match type of Hr with context [deleteLines ?b ?s ?t] =>
      pose proof (run_buffer_op_nonempty b (OpDeleteLines s t) Hl) as K; cbn [run_buffer_op] in K; destruct (deleteLines b s t) end.
    injection Hr as <- <-. split; [done|]. split; [done|by left].
  - exists base. apply (engine_ok_frame base e); [done|done|apply Hok|done].
  - destruct (text (register e)); [by exists base|].
    apply Hatomic, mutate_good. intros b _. apply insertLines_nonempty.
  - apply Hatomic, mutate_good. intros b _. apply insertLines_nonempty.
  - apply Hatomic, mutate_good. intros b _. simpl. by destruct (arr_splice _ _ _ _).
  - apply Hatomic, mutate_good. intros b. apply sortLines_nonempty.
  - match goal with |- context [if ?c <? 2 then _ else _] => destruct (c <? 2) end; [by exists base|].
    apply Hatomic, mutate_good. intros b Hb. destruct trimWhitespace; [|simpl; by apply arr_splice_nonempty].
    match goal with |- lines (joinLines b ?s ?c) ≠ _ => exact (run_buffer_op_nonempty b (OpJoinLines s c) Hb) end.
  - apply Hatomic. destruct (is_text command _); [|apply throwE_good]. apply mutate_good. intros b _. simpl. by destruct (foldr _ _ _).
  - apply Hatomic, mutate_good. intros b _. apply insertLines_nonempty.
  - apply Hatomic, mutate_good. intros b _. apply insertLines_nonempty.
Qed.

(** Leaving visual mode and the selection does not touch the history. *)
Lemma settle_engine_ok base e : engine_ok base e -> pendingChange e = None -> engine_ok base (set_pending None (set_anchor None (set_mode m_normal e))).
Proof.
  intros [H1 H2 H3 H4 H5 H6] Hp. unfold settled in H5, H6. rewrite Hp in H5, H6.
  constructor; [exact H1|done| |exact H4|exact H5|exact H6]. split; [done|by intros [? ?]].
Qed.

Lemma undo_ok base e n : engine_ok base e -> in_insert e = false -> engine_ok base (undo n e).1.
Proof.
  intros Hok Hm. unfold undo, modifyE, mbind, M_bind.
  destruct (ensureEditable_ok base e Hok) as (e1 & Hf & Hok1 & _ & [->|[x ->]]); [|done].
  pose proof (not_insert_pending _ _ Hok Hm) as Hp. assert (pendingChange e1 = None) as Hp1 by (destruct Hf as (_ & -> & _); done).
  destruct (undoLoop_ok base n e1 Hok1 Hp1) as (K1 & K2 & _). by apply settle_engine_ok.
Qed.

Lemma redo_ok base e n : engine_ok base e -> in_insert e = false -> engine_ok base (redo n e).1.
Proof.
  intros Hok Hm. unfold redo, modifyE, mbind, M_bind.
  destruct (ensureEditable_ok base e Hok) as (e1 & Hf & Hok1 & _ & [->|[x ->]]); [|done].
  pose proof (not_insert_pending _ _ Hok Hm) as Hp. assert (pendingChange e1 = None) as Hp1 by (destruct Hf as (_ & -> & _); done).
  destruct (redoLoop_ok base n e1 Hok1 Hp1) as (K1 & K2 & _). by apply settle_engine_ok.
Qed.

Lemma vim_step_ok base e op :
  engine_ok base e -> exists base', engine_ok base' (vim_step op e).1 /\ ((forall i, op ≠ VEx i) -> base' = base).
Proof.
  intros Hok. unfold vim_step, getE, mbind at 1, M_bind at 1. unfold id.
  assert (forall e', engine_ok base e' -> exists base', engine_ok base' e' /\ ((forall i, op ≠ VEx i) -> base' = base)) as Hsame by eauto.
  assert (forall m : M unit, (in_insert e = false -> exists base', engine_ok base' (m e).1 /\ ((forall i, op ≠ VEx i) -> base' = base)) ->
    exists base', engine_ok base' ((if in_insert e then (mret tt : M unit) else m) e).1 /\ ((forall i, op ≠ VEx i) -> base' = base)) as Hout.
  { intros m Hm. destruct (in_insert e); [by apply Hsame|by apply Hm]. }
  destruct op.
  - apply (Hsame (set_buffer (setCursor (buffer e) p) e)), (engine_ok_frame base e); [done|done|apply Hok|done].
  - apply Hout. intros Hm. apply Hsame. apply applyAtomicChange_ok; [done|done|apply edit_buffer_good].
  - apply Hout. intros Hm. apply Hsame. apply startInsert_ok; [done|done|apply edit_buffer_good|]. intros e'. by eexists.
  - apply Hsame. destruct (in_insert e) eqn:Hm; [|done]. pose proof (executeInsert_ok base e token Hok Hm) as K. unfold mbind, M_bind.
    destruct (executeInsert _ _ _ e) as [e' [?|?]]; exact K.
  - by apply Hsame, applyLiteralInsert_ok.
  - by apply Hsame, rollback_ok.
  - apply Hout. intros Hm. apply Hsame. by apply undo_ok.
  - apply Hout. intros Hm. apply Hsame. by apply redo_ok.
  - apply Hout. intros Hm. unfold executeEx, getE, mbind, M_bind. destruct (parseExCommand _ _) as [c|x]; [|by apply Hsame].
    destruct (executeExCommand_ok base e c Hok Hm) as [base' K]. exists base'. split; [exact K|]. intros K'. by destruct (K' input).
Qed.

Lemma vim_run_ok ops base e :
  engine_ok base e -> exists base', engine_ok base' (vim_run e ops) /\
    (Forall (fun op => forall i, op ≠ VEx i) ops -> base' = base).
Proof.
  revert base e. induction ops as [|op ops IH]; intros base e Hok; [by exists base|].
  destruct (vim_step_ok base e op Hok) as (base1 & Hok1 & E1). destruct (IH base1 _ Hok1) as (base2 & Hok2 & E2).
  exists base2. split; [done|]. intros [H1 H2]%Forall_cons. by rewrite E2, E1.
Qed.

Lemma undo_view base e n e' :
  engine_ok base e -> in_insert e = false -> undo n e = (e', Ok tt) ->
  engine_ok base e' /\ in_insert e' = false /\ view e' = Nat.iter n view_undo (view e).
Proof.
  intros Hok Hm E. pose proof (undo_ok base e n Hok Hm) as Hok'. rewrite E in Hok'. split; [done|].
  unfold undo, modifyE, mbind, M_bind in E. destruct (ensureEditable_ok base e Hok) as (e1 & Hf & Hok1 & Hc & [Ee|[x Ee]]); rewrite Ee in E; [|done].
  pose proof (not_insert_pending _ _ Hok Hm) as Hp. pose proof Hf as (_ & Ep & Eu & Er). rewrite Hp in Ep.
  destruct (undoLoop_ok base n e1 Hok1 Ep) as (_ & _ & Hv). injection E as <-. split; [done|].
  unfold view at 2 in Hv. rewrite Hc, Eu, Er in Hv. exact Hv.
Qed.

Lemma redo_view base e n e' :
  engine_ok base e -> in_insert e = false -> redo n e = (e', Ok tt) -> view e' = Nat.iter n view_redo (view e).
Proof.
  intros Hok Hm E. unfold redo, modifyE, mbind, M_bind in E.
  destruct (ensureEditable_ok base e Hok) as (e1 & Hf & Hok1 & Hc & [Ee|[x Ee]]); rewrite Ee in E; [|done].
  pose proof (not_insert_pending _ _ Hok Hm) as Hp. pose proof Hf as (_ & Ep & Eu & Er). rewrite Hp in Ep.
  destruct (redoLoop_ok base n e1 Hok1 Ep) as (_ & _ & Hv). injection E as <-.
  unfold view at 2 in Hv. rewrite Hc, Eu, Er in Hv. exact Hv.
Qed.


End Sessions.

(** ** Witnesses and findings *)

(** Occurrences of a literal pattern, for the examples. *)
Fixpoint occurrences (p s : jstring) (at_ skip : nat) : list (nat * nat) :=
  match s with
  | [] => []
  | _ :: s' =>
      match skip with
      | S k => occurrences p s' (S at_) k
      | O => if starts_with p s then (at_, length p) :: occurrences p s' (S at_) (length p - 1)
             else occurrences p s' (S at_) 0
      end
  end.

(** readTextFile of tools/vim.ts on the text of a file. *)
Definition loadText (path t : jstring) : VimLoadedFile :=
  let trailing := ends_with_unit c_lf t in
  mkLoaded path path (splitText (if trailing then drop_last t else t)) trailing None.

Definition demoHost : VimHost := {|
  beforeMutate := fun _ => Ok true;
  loadBuffer := fun path => Ok (loadText path []);
  saveBuffer := fun b _ => Ok (loadText (displayPath b) (serializeBufferText b));
  searchMatches := fun p _ s => occurrences p s 0 0;
  lowerCase := fmap (fun c => if is_upper c then (c + 32)%N else c) |}.

Definition demoEngine (ls : list jstring) : VimEngine := newVimEngine (newVimBuffer (mkLoaded (js "f") (js "f") ls true None)).

Definition demo_session : list vim_op :=
  [VAtomic [js "d"; js "d"] [OpDeleteLines 0 0]; VStartInsert [js "i"] [] true; VKey (js "x"); VKey (js "CR"); VKey (js "Esc")].


(** A substitute that finds nothing still marks the buffer as modified and records a change, so that the next
    [:q] refuses to close it. *)
Theorem failed_substitute_marks_modified :
  let '(e, r) := @executeEx demoHost (js "s/zz/y/") (demoEngine [js "a"]) in
  r = Throw (EPatternNotFound (js "zz")) /\ lines (buffer e) = [js "a"] /\ modified (buffer e) = true /\
  length (undoStack e) = 1%nat /\ (@executeEx demoHost (js "q") e).2 = Throw EUnsavedChanges.
Proof. vm_compute. repeat split. Qed.

(** Moving lines to a place inside the moved range carries them past the lines that follow. *)
Theorem move_into_itself_moves_on :
  lines (buffer (@executeEx demoHost (js "2,4m3") (demoEngine [js "1"; js "2"; js "3"; js "4"; js "5"; js "6"])).1)
  = [js "1"; js "5"; js "6"; js "2"; js "3"; js "4"].
Proof. vm_compute. reflexivity. Qed.

(** Undo after the save at the end of a call restores the old text as unmodified: it is not written again, and the
    file keeps the text the buffer no longer shows. *)
Theorem undo_after_save_is_not_written :
  let host := demoHost in
  let e := vim_run (demoEngine [js "a"; js "b"]) [VAtomic [js "d"; js "d"] [OpDeleteLines 0 0]] in
  let e := (autoSave false e).1 in
  let e := (autoSave false (vim_run e [VUndo 1])).1 in
  written e = [(js "f", js "b" ++ [c_lf])] /\ serializeBufferText (buffer e) = js "a" ++ [c_lf] ++ js "b" ++ [c_lf] /\
  modified (buffer e) = false.
Proof. vm_compute. repeat split. Qed.

(** Undo through Ctrl-O ends the pending change but not insert mode: what is typed next is not recorded, and undo
    and redo lose it. *)
Theorem ctrl_o_undo_orphans_typing :
  let host := demoHost in
  let e := vim_run (demoEngine [js "a"]) [VAtomic [js "x"] [OpReplaceLine 0 (js "b")]; VStartInsert [js "i"] [] true] in
  let e := (executeInsert (fun _ => undo 1;; mret 1%nat) (js "C-o") [js "u"] e).1 in
  let e := vim_run e [VKey (js "z"); VKey (js "Esc")] in
  lines (buffer e) = [js "za"] /\ undoStack e = [] /\ lines (buffer (vim_run e [VRedo 1])) = [js "b"].
Proof. vm_compute. repeat split. Qed.

(** A newline typed into a replacement ends up inside a line: the buffer then counts fewer lines than its text
    has, and deleting line 2 deletes both. *)
Theorem substitute_newline_merges_lines :
  let host := demoHost in
  let e := (executeEx (js "s/,/" ++ [c_lf] ++ js "/") (demoEngine [js "a,b"])).1 in
  lineCount (buffer e) = 1 /\ splitText (getText (buffer e)) = [js "a"; js "b"] /\
  lines (buffer (executeEx (js "2d") e).1) = [[]].
Proof. vm_compute. repeat split. Qed.

(** A match that contains a dollar sequence is not put back as it is by [&]. *)
Theorem ampersand_expands_dollars :
  lines (buffer (@executeEx demoHost (js "s/$$/(&)/") (demoEngine [js "x$$y"])).1) = [js "x($)y"].
Proof. vm_compute. reflexivity. Qed.

(** Sorting leaves the cursor behind the end of its line. *)
Theorem sort_leaves_the_cursor_outside :
  let host := demoHost in
  let e := vim_run (demoEngine [js "zzzz"; js "a"]) [VMove (mkPosition 0 4); VEx (js "sort")] in
  lines (buffer e) = [js "a"; js "zzzz"] /\ cursor (buffer e) = mkPosition 0 4 /\ ~ buffer_ok (buffer e).
Proof.
  split; [vm_compute; reflexivity|]. split; [vm_compute; reflexivity|]. vm_compute.
  intros [_ _ [_ (x & Hx & _ & Hc)]]. injection Hx as <-. by apply Hc.
Qed.
