(* ===== verification/PathLock.v ===== *)
(** * The path mutation lock (edit/path-mutation-lock.ts)

    Edits of the same path exclude each other: an asynchronous mutex per resolved path, taken in
    lexicographic order for operations on several paths.  Calls of [withEditPathMutation] are tasks that
    interleave at their awaits; a step relation on the mutexes and the tasks covers every interleaving.
    The file lock taken inside each mutex is not code of this component: taking it may fail, which sends
    the task into its [finally] blocks. *)
From S2P Require Import Prelude JsString JsMap.
From Stdlib Require Import ZifyBool ZifyN.

(** ** The order of paths: [Array.prototype.sort] compares code units *)

(** [[...new Set(paths.map(path.resolve))].sort()] *)
Definition lockOrder (resolve : jstring -> jstring) (absolutePaths : list jstring) : list jstring :=
  sort_by compareUnits (foldl s_add [] (resolve <$> absolutePaths)).

(** ** The asynchronous mutex *)

Record mutex : Type := { locked : bool; waiters : list nat }.

Definition createAsyncMutex : mutex := {| locked := false; waiters := [] |}.

(** [acquire()] by task [i]: whether it holds the mutex at once, or waits. *)
Definition acquire (m : mutex) (i : nat) : mutex * bool :=
  if negb (locked m) then ({| locked := true; waiters := waiters m |}, true)
  else ({| locked := locked m; waiters := waiters m ++ [i] |}, false).

(** [release()]: the mutex passes to the first waiter, or is unlocked. *)
Definition release (m : mutex) : mutex * option nat :=
  match waiters m with
  | next :: rest => ({| locked := locked m; waiters := rest |}, Some next)
  | [] => ({| locked := false; waiters := [] |}, None)
  end.

(** ** Tasks: calls of [withEditPathMutation] *)

Inductive phase : Type := Acquiring | Waiting | Running | Releasing | Finished.

#[global] Instance phase_eq_dec : EqDecision phase.
Proof. solve_decision. Defined.

(** [runAt(index)] with the first [held] paths of [plan] locked. *)
Record task : Type := { plan : list jstring; held : nat; at_ : phase }.

Definition newTask (resolve : jstring -> jstring) (absolutePaths : list jstring) : task :=
  {| plan := lockOrder resolve absolutePaths; held := 0; at_ := Acquiring |}.

Record state : Type := { mutexes : gmap jstring mutex; tasks : list task }.

(** [mutexFor]: created on first use. *)
Definition mutexFor (p : jstring) (ms : gmap jstring mutex) : mutex := default createAsyncMutex (ms !! p).

Definition setTask (i : nat) (t : task) (st : state) : state := {| mutexes := mutexes st; tasks := <[i := t]> (tasks st) |}.
Definition setMutex (p : jstring) (m : mutex) (st : state) : state :=
  {| mutexes := <[p := m]> (mutexes st); tasks := tasks st |}.
Definition withPhase (h : nat) (a : phase) (t : task) : task := {| plan := plan t; held := h; at_ := a |}.

(** The await of the next waiter is resolved: it now holds the path it waited for. *)
Definition wake (next : option nat) (st : state) : state :=
  match next with
  | None => st
  | Some j => match tasks st !! j with
              | Some t => setTask j (withPhase (S (held t)) Acquiring t) st
              | None => st
              end
  end.

(** One step of task [i]; [fail] says that taking a file lock throws. *)
Definition stepTask (i : nat) (fail : bool) (st : state) : option state :=
  t ← tasks st !! i;
  match at_ t with
  | Acquiring =>
      if fail then if (held t =? 0)%nat then None else Some (setTask i (withPhase (held t) Releasing t) st)
      else match plan t !! held t with
           | None => Some (setTask i (withPhase (held t) Running t) st)
           | Some p =>
               let '(m, granted) := acquire (mutexFor p (mutexes st)) i in
               Some (setTask i (if (granted : bool) then withPhase (S (held t)) Acquiring t else withPhase (held t) Waiting t)
                       (setMutex p m st))
           end
  | Waiting => None
  | Running => if fail then None else Some (setTask i (withPhase (held t) Releasing t) st)
  | Releasing =>
      if fail then None
      else match held t with
           | O => Some (setTask i (withPhase 0 Finished t) st)
           | S h =>
               match plan t !! h with
               | None => None
               | Some p =>
                   let '(m, next) := release (mutexFor p (mutexes st)) in
                   Some (wake next (setTask i (withPhase h Releasing t) (setMutex p m st)))
               end
           end
  | Finished => None
  end.

Definition step (st st' : state) : Prop := exists i fail, stepTask i fail st = Some st'.

Definition initial (resolve : jstring -> jstring) (calls : list (list jstring)) : state :=
  {| mutexes := ∅; tasks := newTask resolve <$> calls |}.

(** A task holds the first [held] paths of its plan. *)
Definition holds (t : task) (p : jstring) : Prop := exists k, (k < held t)%nat /\ plan t !! k = Some p.

(** ** The order is strict and total *)

Definition before (a b : jstring) : Prop := (compareUnits a b < 0)%Z.

Lemma before_irrefl a : ~ before a a.
Proof. unfold before. rewrite compareUnits_refl. lia. Qed.

Lemma before_trans a b c : before a b -> before b c -> before a c.
Proof.
  unfold before. intros H1 H2. pose proof (compareUnits_trans a b c ltac:(lia) ltac:(lia)).
  destruct (Z.eq_dec (compareUnits a c) 0) as [E|]; [|lia]. apply compareUnits_eq in E as ->.
  rewrite compareUnits_antisym in H2. lia.
Qed.

Lemma lockOrder_sorted resolve ps : StronglySorted before (lockOrder resolve ps).
Proof.
  unfold lockOrder. set (s := foldl s_add [] (resolve <$> ps)).
  assert (NoDup (sort_by compareUnits s)) as Hnd by (rewrite sort_by_perm; apply s_adds_NoDup; constructor).
  pose proof (sort_by_sorted compareUnits s compareUnits_trans) as Hs.
  assert (forall a b, (0 < compareUnits a b)%Z -> (compareUnits b a <= 0)%Z) as Htot
    by (intros a b; rewrite compareUnits_antisym; lia).
  specialize (Hs Htot). induction Hs as [|x l Hs IH Hx]; [constructor|]. apply NoDup_cons in Hnd as [Hnx Hnd].
  constructor; [by apply IH|]. apply Forall_forall. intros y Hy. rewrite Forall_forall in Hx. specialize (Hx y Hy).
  unfold before. destruct (Z.eq_dec (compareUnits x y) 0) as [->%compareUnits_eq|]; [done|lia].
Qed.

(** Later paths of a plan come after earlier ones. *)
Lemma sorted_lookup l i j a b :
  StronglySorted before l -> l !! i = Some a -> l !! j = Some b -> (i < j)%nat -> before a b.
Proof.
  intros Hs. revert i j. induction Hs as [|x l Hs IH Hx]; intros [|i] [|j] Ha Hb Hij; try done; try lia.
  - injection Ha as ->. rewrite Forall_forall in Hx. apply Hx. by eapply list_elem_of_lookup_2.
  - apply (IH i j); [done|done|lia].
Qed.

(** ** The invariant *)

Definition next_path (t : task) : option jstring := plan t !! held t.

Record task_ok (t : task) : Prop := {
  ok_sorted : StronglySorted before (plan t);
  ok_held : (held t <= length (plan t))%nat;
  ok_running : at_ t = Running -> held t = length (plan t);
  ok_finished : at_ t = Finished -> held t = 0%nat }.

Record inv (st : state) : Prop := {
  inv_task : forall i t, tasks st !! i = Some t -> task_ok t;
  inv_wait : forall p i, i ∈ waiters (mutexFor p (mutexes st)) <->
    exists t, tasks st !! i = Some t /\ at_ t = Waiting /\ next_path t = Some p;
  inv_queue : forall p, NoDup (waiters (mutexFor p (mutexes st)));
  inv_locked : forall p, locked (mutexFor p (mutexes st)) = true <-> exists i t, tasks st !! i = Some t /\ holds t p;
  inv_owner : forall p i j t u, tasks st !! i = Some t -> tasks st !! j = Some u -> holds t p -> holds u p -> i = j;
  inv_busy : forall p, waiters (mutexFor p (mutexes st)) <> [] -> locked (mutexFor p (mutexes st)) = true;
  inv_waiting : forall i t, tasks st !! i = Some t -> at_ t = Waiting -> is_Some (next_path t) }.

Lemma mutexFor_insert p q m ms : mutexFor q (<[p := m]> ms) = if decide (p = q) then m else mutexFor q ms.
Proof. unfold mutexFor. by destruct (decide (p = q)) as [->|]; [rewrite lookup_insert_eq|rewrite lookup_insert_ne]. Qed.

Lemma lookup_setTask i t t' st j u :
  tasks st !! i = Some t ->
  tasks (setTask i t' st) !! j = Some u <-> (j = i /\ u = t') \/ (j <> i /\ tasks st !! j = Some u).
Proof.
  intros Hi. cbn [setTask tasks]. destruct (decide (j = i)) as [->|Hne].
  - rewrite list_lookup_insert_eq by (by eapply lookup_lt_Some). naive_solver.
  - rewrite list_lookup_insert_ne by done. naive_solver.
Qed.

Lemma holds_S h a t p : holds (withPhase (S h) a t) p <-> holds (withPhase h a t) p \/ plan t !! h = Some p.
Proof.
  unfold holds. cbn [withPhase held plan]. split.
  - intros (k & Hk & E). destruct (decide (k = h)) as [->|]; [by right|left; exists k; split; [lia|done]].
  - intros [(k & Hk & E)|E]; [exists k|exists h]; (split; [lia|done]).
Qed.

Lemma holds_phase a b h t p : holds (withPhase h a t) p <-> holds (withPhase h b t) p.
Proof. done. Qed.

Lemma holds_self a t p : holds (withPhase (held t) a t) p <-> holds t p.
Proof. done. Qed.

Lemma plan_once t h p : task_ok t -> plan t !! h = Some p -> ~ holds (withPhase h (at_ t) t) p.
Proof.
  intros Hok Hp (k & Hk & E). cbn in *. apply (before_irrefl p). exact (sorted_lookup _ _ _ _ _ (ok_sorted t Hok) E Hp Hk).
Qed.

(** A step that changes neither what the task holds nor whether it waits. *)
Lemma inv_rephase i t a st :
  inv st -> tasks st !! i = Some t -> at_ t <> Waiting -> a <> Waiting -> task_ok (withPhase (held t) a t) ->
  inv (setTask i (withPhase (held t) a t) st).
Proof.
  intros Hinv Hi Hw Ha Hok. set (t' := withPhase (held t) a t).
  pose proof (lookup_setTask i t t' st) as Hl. split.
  - intros j u [[-> ->]|[_ Hj]]%Hl; [done|by eapply inv_task|done].
  - intros p j. cbn [setTask mutexes]. rewrite (inv_wait st Hinv). split.
    + intros (u & Hj & Hu & Hn). exists u. split; [|done]. apply Hl; [done|]. right. split; [|done]. intros ->. congruence.
    + intros (u & Hj & Hu & Hn). apply Hl in Hj as [[-> ->]|[_ Hj]]; [done|by exists u|done].
  - apply Hinv.
  - intros p. cbn [setTask mutexes]. rewrite (inv_locked st Hinv). split.
    + intros (j & u & Hj & Hu). destruct (decide (j = i)) as [->|Hne].
      * exists i, t'. split; [apply Hl; [done|by left]|]. replace u with t in Hu by congruence. done.
      * exists j, u. split; [|done]. apply Hl; [done|]. by right.
    + intros (j & u & Hj & Hu). apply Hl in Hj as [[-> ->]|[_ Hj]]; [by exists i, t|by exists j, u|done].
  - intros p j k u v Hj Hk Hu Hv. apply Hl in Hj as [[-> ->]|[Hji Hj]], Hk as [[-> ->]|[Hki Hk]]; try done.
    + by apply (inv_owner st Hinv p i k t v).
    + by apply (inv_owner st Hinv p j i u t).
    + by apply (inv_owner st Hinv p j k u v).
  - apply Hinv.
  - intros j u Hj Hu. apply Hl in Hj as [[-> ->]|[_ Hj]]; [done|by eapply inv_waiting|done].
Qed.

(** Taking a free mutex. *)
Lemma inv_grant i t p st :
  inv st -> tasks st !! i = Some t -> at_ t = Acquiring -> next_path t = Some p ->
  locked (mutexFor p (mutexes st)) = false ->
  inv (setTask i (withPhase (S (held t)) Acquiring t)
        (setMutex p {| locked := true; waiters := waiters (mutexFor p (mutexes st)) |} st)).
Proof.
  intros Hinv Hi Ha Hp Hfree. set (t' := withPhase (S (held t)) Acquiring t).
  assert (waiters (mutexFor p (mutexes st)) = []) as Hw.
  { destruct (waiters (mutexFor p (mutexes st))) eqn:E; [done|]. pose proof (inv_busy st Hinv p) as Hb. rewrite E in Hb.
    rewrite Hb in Hfree; done. }
  assert (forall j u, tasks st !! j = Some u -> ~ holds u p) as Hnone.
  { intros j u Hj Hu. assert (locked (mutexFor p (mutexes st)) = true) as E by (apply (inv_locked st Hinv); eauto). congruence. }
  assert (forall q, holds t' q <-> holds t q \/ q = p) as Ht'.
  { intros q. unfold t'. rewrite holds_S. unfold next_path in Hp. rewrite Hp. unfold holds. cbn. naive_solver. }
  set (st1 := setMutex _ _ st). assert (tasks st1 !! i = Some t) as Hi1 by done.
  pose proof (lookup_setTask i t t' st1) as Hl. split.
  - intros j u [[-> ->]|[_ Hj]]%Hl; [|by eapply (inv_task st)|done].
    destruct (inv_task st Hinv i t Hi) as [Hs Hh Hr Hf]. split; cbn; try done.
    unfold next_path in Hp. apply lookup_lt_Some in Hp. lia.
  - intros q j. cbn [setTask st1 setMutex mutexes]. rewrite mutexFor_insert.
    assert (waiters (if decide (p = q) then {| locked := true; waiters := waiters (mutexFor p (mutexes st)) |}
      else mutexFor q (mutexes st)) = waiters (mutexFor q (mutexes st))) as -> by by destruct (decide (p = q)) as [->|].
    rewrite (inv_wait st Hinv). split.
    + intros (u & Hj & Hu & Hn). exists u. split; [|done]. apply Hl; [done|]. right. split; [|done]. intros ->. congruence.
    + intros (u & Hj & Hu & Hn). apply Hl in Hj as [[-> ->]|[_ Hj]]; [done|by exists u|done].
  - intros q. cbn [setTask st1 setMutex mutexes]. rewrite mutexFor_insert. destruct (decide (p = q)); apply Hinv.
  - intros q. cbn [setTask st1 setMutex mutexes]. rewrite mutexFor_insert. destruct (decide (p = q)) as [->|Hne].
    + split; [|done]. intros _. exists i, t'. split; [apply Hl; [done|by left]|]. apply Ht'. by right.
    + rewrite (inv_locked st Hinv). split.
      * intros (j & u & Hj & Hu). destruct (decide (j = i)) as [->|Hji].
        -- exists i, t'. split; [apply Hl; [done|by left]|]. apply Ht'. left. by replace t with u by congruence.
        -- exists j, u. split; [|done]. apply Hl; [done|]. by right.
      * intros (j & u & Hj & Hu). apply Hl in Hj as [[-> ->]|[_ Hj]]; [|by exists j, u|done].
        apply Ht' in Hu as [Hu| ->]; [by exists i, t|done].
  - intros q j k u v Hj Hk Hu Hv. apply Hl in Hj as [[-> ->]|[Hji Hj]], Hk as [[-> ->]|[Hki Hk]]; try done.
    + apply Ht' in Hu as [Hu| ->]; [by apply (inv_owner st Hinv q i k t v)|]. exfalso. by eapply Hnone.
    + apply Ht' in Hv as [Hv| ->]; [by apply (inv_owner st Hinv q j i u t)|]. exfalso. by eapply Hnone.
    + by apply (inv_owner st Hinv q j k u v).
  - intros q. cbn [setTask st1 setMutex mutexes]. rewrite mutexFor_insert. destruct (decide (p = q)); [done|apply Hinv].
  - intros j u Hj Hu. apply Hl in Hj as [[-> ->]|[_ Hj]]; [done|by eapply (inv_waiting st)|done].
Qed.

(** Waiting for a mutex that is held. *)
Lemma inv_enqueue i t p st :
  inv st -> tasks st !! i = Some t -> at_ t = Acquiring -> next_path t = Some p ->
  locked (mutexFor p (mutexes st)) = true ->
  inv (setTask i (withPhase (held t) Waiting t)
        (setMutex p {| locked := true; waiters := waiters (mutexFor p (mutexes st)) ++ [i] |} st)).
Proof.
  intros Hinv Hi Ha Hp Hlocked. set (t' := withPhase (held t) Waiting t).
  assert (forall q, holds t' q <-> holds t q) as Ht' by done.
  set (st1 := setMutex _ _ st). assert (tasks st1 !! i = Some t) as Hi1 by done.
  pose proof (lookup_setTask i t t' st1) as Hl.
  assert (forall q, i ∉ waiters (mutexFor q (mutexes st))) as Hnot.
  { intros q (u & Hu & Hw & _)%(inv_wait st Hinv). congruence. }
  split.
  - intros j u [[-> ->]|[_ Hj]]%Hl; [|by eapply (inv_task st)|done].
    destruct (inv_task st Hinv i t Hi) as [Hs Hh Hr Hf]. by split.
  - intros q j. cbn [setTask st1 setMutex mutexes]. rewrite mutexFor_insert. destruct (decide (p = q)) as [->|Hne].
    + cbn [waiters]. rewrite elem_of_app, list_elem_of_singleton, (inv_wait st Hinv). split.
      * intros [(u & Hj & Hu & Hn)| ->].
        -- exists u. split; [|done]. apply Hl; [done|]. right. split; [|done]. intros ->. congruence.
        -- exists t'. split; [apply Hl; [done|by left]|done].
      * intros (u & Hj & Hu & Hn). apply Hl in Hj as [[-> ->]|[_ Hj]]; [by right|left; by exists u|done].
    + rewrite (inv_wait st Hinv). split.
      * intros (u & Hj & Hu & Hn). exists u. split; [|done]. apply Hl; [done|]. right. split; [|done]. intros ->. congruence.
      * intros (u & Hj & Hu & Hn). apply Hl in Hj as [[-> ->]|[_ Hj]]; [|by exists u|done].
        unfold next_path in Hn, Hp. cbn in Hn. congruence.
  - intros q. cbn [setTask st1 setMutex mutexes]. rewrite mutexFor_insert. destruct (decide (p = q)); [|apply Hinv].
    cbn [waiters]. apply NoDup_app. split_and!; [apply Hinv| |apply NoDup_singleton].
    intros j Hj ->%list_elem_of_singleton. by apply (Hnot p).
  - intros q. cbn [setTask st1 setMutex mutexes]. rewrite mutexFor_insert.
    assert (locked (if decide (p = q) then {| locked := true; waiters := waiters (mutexFor p (mutexes st)) ++ [i] |}
      else mutexFor q (mutexes st)) = locked (mutexFor q (mutexes st))) as -> by by destruct (decide (p = q)) as [->|].
    rewrite (inv_locked st Hinv). split.
    + intros (j & u & Hj & Hu). destruct (decide (j = i)) as [->|Hji].
      * exists i, t'. split; [apply Hl; [done|by left]|]. apply Ht'. by replace t with u by congruence.
      * exists j, u. split; [|done]. apply Hl; [done|]. by right.
    + intros (j & u & Hj & Hu). apply Hl in Hj as [[-> ->]|[_ Hj]]; [by exists i, t|by exists j, u|done].
  - intros q j k u v Hj Hk Hu Hv. apply Hl in Hj as [[-> ->]|[Hji Hj]], Hk as [[-> ->]|[Hki Hk]]; try done.
    + by apply (inv_owner st Hinv q i k t v).
    + by apply (inv_owner st Hinv q j i u t).
    + by apply (inv_owner st Hinv q j k u v).
  - intros q. cbn [setTask st1 setMutex mutexes]. rewrite mutexFor_insert. destruct (decide (p = q)); [done|apply Hinv].
  - intros j u Hj Hu. apply Hl in Hj as [[-> ->]|[_ Hj]]; [|by eapply (inv_waiting st)|done].
    unfold next_path in *. cbn. by eexists.
Qed.

(** What is left after a release. *)
Lemma holds_released t h p q :
  task_ok t -> held t = S h -> plan t !! h = Some p ->
  holds (withPhase h Releasing t) q <-> holds t q /\ q <> p.
Proof.
  intros Hok Hh Hp. rewrite <- (holds_self Releasing t q), Hh, holds_S. split.
  - intros Hq. split; [by left|]. intros ->. by apply (plan_once t h p Hok Hp).
  - intros [[Hq|Hq] Hne]; [done|congruence].
Qed.

Lemma task_ok_released t h : task_ok t -> held t = S h -> task_ok (withPhase h Releasing t).
Proof. intros [Hs Hh Hr Hf] E. split; cbn; try done. lia. Qed.

Lemma holds_plan t h p : held t = S h -> plan t !! h = Some p -> holds t p.
Proof. intros E Hp. exists h. split; [lia|done]. Qed.

(** Unlocking a mutex nobody waits for. *)
Lemma inv_unlock i t h p st :
  inv st -> tasks st !! i = Some t -> at_ t = Releasing -> held t = S h -> plan t !! h = Some p ->
  waiters (mutexFor p (mutexes st)) = [] ->
  inv (setTask i (withPhase h Releasing t) (setMutex p {| locked := false; waiters := [] |} st)).
Proof.
  intros Hinv Hi Ha Hh Hp Hw. set (t' := withPhase h Releasing t).
  pose proof (inv_task st Hinv i t Hi) as Hok. pose proof (fun q => holds_released t h p q Hok Hh Hp) as Ht'. fold t' in Ht'.
  set (st1 := setMutex _ _ st). assert (tasks st1 !! i = Some t) as Hi1 by done.
  pose proof (lookup_setTask i t t' st1) as Hl. split.
  - intros j u [[-> ->]|[_ Hj]]%Hl; [by apply task_ok_released|by eapply (inv_task st)|done].
  - intros q j. cbn [setTask st1 setMutex mutexes]. rewrite mutexFor_insert.
    assert (waiters (if decide (p = q) then {| locked := false; waiters := [] |} else mutexFor q (mutexes st))
      = waiters (mutexFor q (mutexes st))) as -> by by destruct (decide (p = q)) as [->|].
    rewrite (inv_wait st Hinv). split.
    + intros (u & Hj & Hu & Hn). exists u. split; [|done]. apply Hl; [done|]. right. split; [|done]. intros ->. congruence.
    + intros (u & Hj & Hu & Hn). apply Hl in Hj as [[-> ->]|[_ Hj]]; [done|by exists u|done].
  - intros q. cbn [setTask st1 setMutex mutexes]. rewrite mutexFor_insert.
    destruct (decide (p = q)); [constructor|apply Hinv].
  - intros q. cbn [setTask st1 setMutex mutexes]. rewrite mutexFor_insert. destruct (decide (p = q)) as [->|Hne].
    + split; [done|]. intros (j & u & Hj & Hu). apply Hl in Hj as [[-> ->]|[Hji Hj]]; [|exfalso; apply Hji|done].
      * by apply Ht' in Hu as [_ ?].
      * apply (inv_owner st Hinv q j i u t); try done. by eapply holds_plan.
    + rewrite (inv_locked st Hinv). split.
      * intros (j & u & Hj & Hu). destruct (decide (j = i)) as [->|Hji].
        -- exists i, t'. split; [apply Hl; [done|by left]|]. apply Ht'. split; [by replace t with u by congruence|done].
        -- exists j, u. split; [|done]. apply Hl; [done|]. by right.
      * intros (j & u & Hj & Hu). apply Hl in Hj as [[-> ->]|[_ Hj]]; [|by exists j, u|done].
        apply Ht' in Hu as [Hu _]. by exists i, t.
  - intros q j k u v Hj Hk Hu Hv. apply Hl in Hj as [[-> ->]|[Hji Hj]], Hk as [[-> ->]|[Hki Hk]]; try done.
    + apply Ht' in Hu as [Hu _]. by apply (inv_owner st Hinv q i k t v).
    + apply Ht' in Hv as [Hv _]. by apply (inv_owner st Hinv q j i u t).
    + by apply (inv_owner st Hinv q j k u v).
  - intros q. cbn [setTask st1 setMutex mutexes]. rewrite mutexFor_insert. destruct (decide (p = q)); [done|apply Hinv].
  - intros j u Hj Hu. apply Hl in Hj as [[-> ->]|[_ Hj]]; [done|by eapply (inv_waiting st)|done].
Qed.

(** Passing a mutex to the first task that waits for it. *)
Lemma inv_pass i t h p j u rest st :
  inv st -> tasks st !! i = Some t -> at_ t = Releasing -> held t = S h -> plan t !! h = Some p ->
  waiters (mutexFor p (mutexes st)) = j :: rest ->
  tasks st !! j = Some u -> at_ u = Waiting -> next_path u = Some p -> j <> i ->
  inv (setTask j (withPhase (S (held u)) Acquiring u)
        (setTask i (withPhase h Releasing t) (setMutex p {| locked := true; waiters := rest |} st))).
Proof.
  intros Hinv Hi Ha Hh Hp Hw Hj Hu Hn Hji. set (t' := withPhase h Releasing t). set (u' := withPhase (S (held u)) Acquiring u).
  pose proof (inv_task st Hinv i t Hi) as Hok. pose proof (inv_task st Hinv j u Hj) as Hoku.
  pose proof (fun q => holds_released t h p q Hok Hh Hp) as Ht'. fold t' in Ht'.
  assert (holds t p) as Htp by by eapply holds_plan.
  assert (forall q, holds u' q <-> holds u q \/ q = p) as Hu'.
  { intros q. unfold u'. rewrite holds_S. unfold next_path in Hn. rewrite Hn. unfold holds. cbn. naive_solver. }
  assert (NoDup (j :: rest)) as Hnd by (rewrite <- Hw; apply Hinv). apply NoDup_cons in Hnd as [Hjr Hnd].
  set (st2 := setTask i t' _).
  assert (forall k v, tasks (setTask j u' st2) !! k = Some v <->
    (k = j /\ v = u') \/ (k = i /\ v = t') \/ (k <> i /\ k <> j /\ tasks st !! k = Some v)) as Hl.
  { intros k v. rewrite (lookup_setTask j u u' st2).
    - unfold st2. rewrite (lookup_setTask i t) by done. naive_solver.
    - unfold st2. apply (lookup_setTask i t); [done|]. by right. }
  assert (forall q, mutexFor q (mutexes (setTask j u' st2)) = if decide (p = q) then {| locked := true; waiters := rest |}
    else mutexFor q (mutexes st)) as Hm by (intros q; apply mutexFor_insert).
  assert (locked (mutexFor p (mutexes st)) = true) as Hlocked by (apply (inv_locked st Hinv); eauto).
  split.
  - intros k v [[-> ->]|[[-> ->]|(_ & _ & Hk)]]%Hl; [|by apply task_ok_released|by eapply (inv_task st)].
    destruct Hoku as [Hs Hh' Hr Hf]. split; cbn; try done. unfold next_path in Hn. apply lookup_lt_Some in Hn. lia.
  - intros q k. rewrite Hm.
    assert (k ∈ waiters (if decide (p = q) then {| locked := true; waiters := rest |} else mutexFor q (mutexes st)) <->
      k <> j /\ k ∈ waiters (mutexFor q (mutexes st))) as ->.
    { destruct (decide (p = q)) as [<-|Hne]; cbn [waiters].
      - rewrite Hw, elem_of_cons. split; [intros Hk; split; [by intros ->|by right]|by intros [? [?|?]]].
      - split; [intros Hk; split; [|done]|by intros [_ ?]]. intros ->. apply (inv_wait st Hinv) in Hk as (v & Hv & _ & Hvn). congruence. }
    rewrite (inv_wait st Hinv). split.
    + intros (Hkj & v & Hk & Hv & Hvn). exists v. split; [|done]. apply Hl. right. right. split_and!; try done. intros ->. congruence.
    + intros (v & Hk & Hv & Hvn). apply Hl in Hk as [[-> ->]|[[-> ->]|(_ & Hkj & Hk)]]; try done. split; [done|]. by exists v.
  - intros q. rewrite Hm. destruct (decide (p = q)); [done|apply Hinv].
  - intros q. rewrite Hm.
    assert (locked (if decide (p = q) then {| locked := true; waiters := rest |} else mutexFor q (mutexes st))
      = locked (mutexFor q (mutexes st))) as -> by by destruct (decide (p = q)) as [<-|].
    rewrite (inv_locked st Hinv). split.
    + intros (k & v & Hk & Hv). destruct (decide (q = p)) as [->|Hqp].
      { exists j, u'. split; [apply Hl; by left|]. apply Hu'. by right. }
      destruct (decide (k = j)) as [->|Hkj]; [|destruct (decide (k = i)) as [->|Hki]].
      * exists j, u'. split; [apply Hl; by left|]. apply Hu'. left. by replace u with v by congruence.
      * exists i, t'. split; [apply Hl; right; by left|]. apply Ht'. split; [by replace t with v by congruence|done].
      * exists k, v. split; [apply Hl; right; by right|done].
    + intros (k & v & Hk & Hv). apply Hl in Hk as [[-> ->]|[[-> ->]|(_ & _ & Hk)]]; [| |by exists k, v].
      * apply Hu' in Hv as [Hv| ->]; [by exists j, u|by exists i, t].
      * apply Ht' in Hv as [Hv _]. by exists i, t.
  - assert (forall q k v, tasks (setTask j u' st2) !! k = Some v -> holds v q ->
      (q = p /\ k = j) \/ (q <> p /\ exists v0, tasks st !! k = Some v0 /\ holds v0 q)) as Hback.
    { intros q k v Hk Hv. apply Hl in Hk as [[-> ->]|[[-> ->]|(Hki & Hkj & Hk)]].
      - apply Hu' in Hv as [Hv| ->]; [|by left]. destruct (decide (q = p)) as [->|Hqp]; [by left|right; eauto].
      - apply Ht' in Hv as [Hv Hqp]. right. eauto.
      - destruct (decide (q = p)) as [->|Hqp]; [|right; eauto]. exfalso. apply Hki. by apply (inv_owner st Hinv p k i v t). }
    intros q k l v w Hk Hkl Hv Hww. pose proof (Hback q k v Hk Hv) as [[? ->]|(Hqp & v0 & Hk0 & Hv0)];
      pose proof (Hback q l w Hkl Hww) as [[? ->]|(? & w0 & Hl0 & Hw0)]; try done. by apply (inv_owner st Hinv q k l v0 w0).
  - intros q. rewrite Hm. destruct (decide (p = q)); [done|apply Hinv].
  - intros k v Hk Hv. apply Hl in Hk as [[-> ->]|[[-> ->]|(_ & _ & Hk)]]; [done|done|by eapply (inv_waiting st)].
Qed.

Lemma inv_step st st' : inv st -> step st st' -> inv st'.
Proof.
  intros Hinv (i & fail & Hs). unfold stepTask in Hs. destruct (tasks st !! i) as [t|] eqn:Hi; [|done]. cbn [mbind option_bind] in Hs.
  pose proof (inv_task st Hinv i t Hi) as [Hsorted Hle Hrun Hfin].
  destruct (at_ t) eqn:Ha; try done.
  - destruct fail.
    { destruct (Nat.eqb_spec (held t) 0); [done|]. injection Hs as <-. by apply inv_rephase; [..|split]; try done; congruence. }
    destruct (plan t !! held t) as [p|] eqn:Hp.
    + unfold acquire in Hs. destruct (locked (mutexFor p (mutexes st))) eqn:El; cbn [negb] in Hs; injection Hs as <-.
      * by apply inv_enqueue.
      * by apply inv_grant.
    + injection Hs as <-. apply inv_rephase; try done; [congruence|]. split; cbn; try done. intros _.
      apply lookup_ge_None in Hp. lia.
  - destruct fail; [done|]. injection Hs as <-. by apply inv_rephase; [..|split]; try done; congruence.
  - destruct fail; [done|]. destruct (held t) as [|h] eqn:Hh.
    + injection Hs as <-. rewrite <- Hh. apply inv_rephase; try done; [congruence|]. split; cbn; try done. lia.
    + destruct (plan t !! h) as [p|] eqn:Hp; [|done]. unfold release in Hs.
      destruct (waiters (mutexFor p (mutexes st))) as [|j rest] eqn:Ew; injection Hs as <-.
      * by apply inv_unlock.
      * assert (j ∈ waiters (mutexFor p (mutexes st))) as Hjw by (rewrite Ew; by left).
        apply (inv_wait st Hinv) in Hjw as (u & Hj & Hu & Hn).
        assert (j <> i) as Hji by (intros ->; congruence).
        assert (locked (mutexFor p (mutexes st)) = true) as Hl by (apply (inv_busy st Hinv); by rewrite Ew).
        unfold wake. rewrite Hl.
        rewrite list_lookup_insert_ne, Hj by done.
        by apply (inv_pass i t h p j u rest).
Qed.

Lemma inv_initial resolve calls : inv (initial resolve calls).
Proof.
  assert (forall p, mutexFor p (mutexes (initial resolve calls)) = createAsyncMutex) as Hm
    by (intros p; unfold mutexFor; cbn; by rewrite lookup_empty).
  assert (forall i t, tasks (initial resolve calls) !! i = Some t -> exists ps, t = newTask resolve ps) as Ht.
  { intros i t Hi. unfold initial in Hi. cbn [tasks] in Hi. rewrite list_lookup_fmap in Hi. apply fmap_Some in Hi as (ps & _ & ->). by exists ps. }
  split.
  - intros i t (ps & ->)%Ht. split; cbn; try done; [apply lockOrder_sorted|lia].
  - intros p i. rewrite Hm. split; [by intros ?%not_elem_of_nil|]. by intros (t & (ps & ->)%Ht & [=] & _).
  - intros p. rewrite Hm. constructor.
  - intros p. rewrite Hm. split; [done|]. intros (i & t & (ps & ->)%Ht & k & Hk & _). cbn in Hk. lia.
  - intros p i j t u (ps & ->)%Ht _ (k & Hk & _). cbn in Hk. lia.
  - intros p. by rewrite Hm.
  - by intros i t (ps & ->)%Ht.
Qed.

Lemma inv_reachable resolve calls st : rtc step (initial resolve calls) st -> inv st.
Proof.
  intros Hr. remember (initial resolve calls) as s0 eqn:E. assert (inv s0) as H0 by (subst; apply inv_initial).
  clear E. induction Hr as [|a b c Hab _ IH]; [done|]. apply IH. by eapply inv_step.
Qed.

(** ** Progress *)

(** The task holding the mutex another one waits for is itself further along the order. *)
Lemma waiting_chain st i t p :
  inv st -> tasks st !! i = Some t -> at_ t = Waiting -> next_path t = Some p ->
  exists j u, tasks st !! j = Some u /\ holds u p.
Proof.
  intros Hinv Hi Hw Hn. apply (inv_locked st Hinv), (inv_busy st Hinv).
  assert (i ∈ waiters (mutexFor p (mutexes st))) as Hin by (apply (inv_wait st Hinv); eauto).
  intros E. rewrite E in Hin. by apply not_elem_of_nil in Hin.
Qed.

(** A task that is neither finished nor waiting can move. *)
Lemma task_moves st i t :
  inv st -> tasks st !! i = Some t -> at_ t <> Finished -> at_ t <> Waiting -> exists st', step st st'.
Proof.
  intros Hinv Hi Hf Hw. pose proof (ok_held t (inv_task st Hinv i t Hi)) as Hle.
  destruct (at_ t) eqn:Ha; try done.
  - destruct (plan t !! held t) as [p|] eqn:Hp.
    + destruct (acquire (mutexFor p (mutexes st)) i) as [m g] eqn:Em. eexists. exists i, false.
      unfold stepTask. rewrite Hi. cbn [mbind option_bind]. by rewrite Ha, Hp, Em.
    + eexists. exists i, false. unfold stepTask. rewrite Hi. cbn [mbind option_bind]. by rewrite Ha, Hp.
  - eexists. exists i, false. unfold stepTask. rewrite Hi. cbn [mbind option_bind]. by rewrite Ha.
  - destruct (held t) as [|h] eqn:Hh.
    + eexists. exists i, false. unfold stepTask. rewrite Hi. cbn [mbind option_bind]. by rewrite Ha, Hh.
    + destruct (lookup_lt_is_Some_2 (plan t) h) as [p Hp]; [lia|].
      destruct (release (mutexFor p (mutexes st))) as [m next] eqn:Em. eexists. exists i, false.
      unfold stepTask. rewrite Hi. cbn [mbind option_bind]. by rewrite Ha, Hh, Hp, Em.
Qed.

(** Among waiting tasks there is none that waits for a path no earlier than every other one's. *)
Lemma maximal_wait (ts : list (nat * jstring)) :
  ts <> [] -> exists i p, (i, p) ∈ ts /\ forall j q, (j, q) ∈ ts -> ~ before p q.
Proof.
  induction ts as [|[i p] ts IH]; [done|]. intros _. destruct (decide (ts = [])) as [->|Hne].
  - exists i, p. split; [by left|]. intros j q [[= -> ->]|H]%elem_of_cons; [apply before_irrefl|by apply not_elem_of_nil in H].
  - destruct (IH Hne) as (j & q & Hj & Hmax). destruct (Z_lt_dec (compareUnits q p) 0) as [Hqp|Hqp].
    + exists i, p. split; [by left|]. intros k r [[= -> ->]|H]%elem_of_cons; [apply before_irrefl|].
      intros Hpr. apply (Hmax k r H). exact (before_trans q p r Hqp Hpr).
    + exists j, q. split; [by right|]. intros k r [[= -> ->]|H]%elem_of_cons; [exact Hqp|by apply (Hmax k r)].
Qed.

Lemma no_deadlock st : inv st -> Exists (fun t => at_ t <> Finished) (tasks st) -> exists st', step st st'.
Proof.
  intros Hinv Hex.
  destruct (decide (Exists (fun t => at_ t <> Finished /\ at_ t <> Waiting) (tasks st))) as [Hmove|Hstuck].
  { apply Exists_exists in Hmove as (t & (i & Hi)%list_elem_of_lookup_1 & Hf & Hw). by eapply task_moves. }
  exfalso. rewrite <- Forall_Exists_neg in Hstuck.
  assert (forall i t, tasks st !! i = Some t -> at_ t = Finished \/ at_ t = Waiting) as Hall.
  { intros i t Hi. rewrite Forall_lookup in Hstuck. specialize (Hstuck i t Hi). destruct (at_ t); auto; destruct Hstuck; done. }
  set (ts := omap (fun '(i, t) => match at_ t with Waiting => (fun p => (i, p)) <$> next_path t | _ => None end)
    (imap (fun i t => (i, t)) (tasks st))).
  assert (forall i p, (i, p) ∈ ts <-> exists t, tasks st !! i = Some t /\ at_ t = Waiting /\ next_path t = Some p) as Hts.
  { intros i p. unfold ts. rewrite list_elem_of_omap. split.
    - intros ([j t] & Hin & E). apply elem_of_lookup_imap in Hin as (k & x & [= <- <-] & Hk).
      destruct (at_ t) eqn:Ha; try done. destruct (next_path t) eqn:Hn; [|done]. injection E as <- <-. eauto.
    - intros (t & Hi & Ha & Hn). exists (i, t). split; [apply elem_of_lookup_imap; eauto|]. by rewrite Ha, Hn. }
  assert (ts <> []) as Hne.
  { apply Exists_exists in Hex as (t & (i & Hi)%list_elem_of_lookup_1 & Hf). destruct (Hall i t Hi) as [?|Hw]; [done|].
    destruct (inv_waiting st Hinv i t Hi Hw) as [p Hp]. intros E.
    assert ((i, p) ∈ ts) as Hin by (apply Hts; eauto). rewrite E in Hin. by apply not_elem_of_nil in Hin. }
  destruct (maximal_wait ts Hne) as (i & p & (t & Hi & Hw & Hn)%Hts & Hmax).
  destruct (waiting_chain st i t p Hinv Hi Hw Hn) as (j & u & Hj & k & Hk & Hkp).
  destruct (Hall j u Hj) as [Hf|Hwu].
  - pose proof (ok_finished u (inv_task st Hinv j u Hj) Hf). lia.
  - destruct (inv_waiting st Hinv j u Hj Hwu) as [q Hq]. apply (Hmax j q); [apply Hts; eauto|].
    exact (sorted_lookup _ _ _ _ _ (ok_sorted u (inv_task st Hinv j u Hj)) Hkp Hq Hk).
Qed.

(** ** Termination *)

(** The steps a task has left. *)
Definition weight (t : task) : nat :=
  match at_ t with
  | Acquiring => 3 * (length (plan t) - held t) + length (plan t) + 3
  | Waiting => 3 * (length (plan t) - held t) + length (plan t) + 2
  | Running => length (plan t) + 2
  | Releasing => held t + 1
  | Finished => 0
  end.

Definition total_weight (st : state) : nat := sum_list_with weight (tasks st).

Lemma sum_list_with_cons {A} (f : A -> nat) x l : sum_list_with f (x :: l) = f x + sum_list_with f l.
Proof. done. Qed.

Lemma weight_setTask i t t' st :
  tasks st !! i = Some t -> total_weight (setTask i t' st) + weight t = total_weight st + weight t'.
Proof.
  unfold total_weight. cbn [setTask tasks]. revert i. induction (tasks st) as [|x l IH]; intros [|i] Hi; try done.
  - injection Hi as ->. change (<[0%nat := t']> (t :: l)) with (t' :: l). rewrite !sum_list_with_cons. lia.
  - change (<[S i := t']> (x :: l)) with (x :: <[i := t']> l). rewrite !sum_list_with_cons. specialize (IH i Hi). lia.
Qed.

(** Every step, waking included, uses up some of the steps left. *)
Lemma step_decreases st st' : inv st -> step st st' -> total_weight st' < total_weight st.
Proof.
  intros Hinv (i & fail & Hs). unfold stepTask in Hs. destruct (tasks st !! i) as [t|] eqn:Hi; [|done]. cbn [mbind option_bind] in Hs.
  pose proof (ok_held t (inv_task st Hinv i t Hi)) as Hle. pose proof (ok_running t (inv_task st Hinv i t Hi)) as Hrun.
  assert (forall p m t', total_weight (setTask i t' (setMutex p m st)) + weight t = total_weight st + weight t') as Hset
    by (intros p m t'; exact (weight_setTask i t t' (setMutex p m st) Hi)).
  pose proof (fun t' => weight_setTask i t t' st Hi) as Hset0.
  destruct (at_ t) eqn:Ha; try done.
  - destruct fail.
    { destruct (Nat.eqb_spec (held t) 0); [done|]. injection Hs as <-. specialize (Hset0 (withPhase (held t) Releasing t)).
      unfold weight in Hset0. rewrite Ha in Hset0. cbn [withPhase plan held at_] in Hset0. lia. }
    destruct (plan t !! held t) as [p|] eqn:Hp.
    + apply lookup_lt_Some in Hp. destruct (acquire _ _) as [m g]. injection Hs as <-.
      specialize (Hset p m (if g then withPhase (S (held t)) Acquiring t else withPhase (held t) Waiting t)).
      unfold weight in Hset. rewrite Ha in Hset. destruct g; cbn [withPhase plan held at_] in *; lia.
    + injection Hs as <-. specialize (Hset0 (withPhase (held t) Running t)).
      unfold weight in Hset0. rewrite Ha in Hset0. cbn [withPhase plan held at_] in Hset0. lia.
  - destruct fail; [done|]. injection Hs as <-. specialize (Hset0 (withPhase (held t) Releasing t)). specialize (Hrun eq_refl).
    unfold weight in Hset0. rewrite Ha in Hset0. cbn [withPhase plan held at_] in Hset0. lia.
  - destruct fail; [done|]. destruct (held t) as [|h] eqn:Hh.
    + injection Hs as <-. specialize (Hset0 (withPhase 0 Finished t)).
      unfold weight in Hset0. rewrite Ha, Hh in Hset0. cbn [withPhase plan held at_] in Hset0. lia.
    + destruct (plan t !! h) as [p|] eqn:Hp; [|done]. unfold release in Hs.
      destruct (waiters (mutexFor p (mutexes st))) as [|j rest] eqn:Ew; injection Hs as <-.
      * specialize (Hset p {| locked := false; waiters := [] |} (withPhase h Releasing t)).
        unfold weight in Hset. rewrite Ha, Hh in Hset. cbn [withPhase plan held at_] in *. lia.
      * assert (j ∈ waiters (mutexFor p (mutexes st))) as Hjw by (rewrite Ew; by left).
        apply (inv_wait st Hinv) in Hjw as (u & Hj & Hu & Hn).
        assert (j <> i) as Hji by (intros ->; congruence). set (st2 := setTask i _ _).
        assert (tasks st2 !! j = Some u) as Hj2 by (apply (lookup_setTask i t); [done|by right]).
        specialize (Hset p {| locked := locked (mutexFor p (mutexes st)); waiters := rest |} (withPhase h Releasing t)). fold st2 in Hset.
        pose proof (weight_setTask j u (withPhase (S (held u)) Acquiring u) st2 Hj2) as Hset2.
        change (<[i := withPhase h Releasing t]> (tasks st) !! j) with (tasks st2 !! j). rewrite Hj2. apply lookup_lt_Some in Hn.
        unfold weight in Hset, Hset2. rewrite Ha, Hh in Hset. rewrite Hu in Hset2. cbn [withPhase plan held at_] in *. lia.
Qed.

Lemma run_bounded n st st' : inv st -> nsteps step n st st' -> n + total_weight st' <= total_weight st.
Proof.
  intros Hinv Hn. induction Hn as [|n a b c Hab Hbc IH]; [lia|].
  specialize (IH (inv_step a b Hinv Hab)). pose proof (step_decreases a b Hinv Hab). lia.
Qed.

(** C9: safety. Two calls that run at the same time touch no path in common, in every interleaving of any number of calls:
    a path is held by at most one of them, and the ones that run hold all of theirs. *)
Theorem edits_of_a_path_exclude_each_other resolve calls st i j t u p :
  rtc step (initial resolve calls) st -> tasks st !! i = Some t -> tasks st !! j = Some u -> i <> j ->
  at_ t = Running -> at_ u = Running -> p ∈ plan t -> p ∉ plan u.
Proof.
  intros Hr Hi Hj Hij Ht Hu Hpt Hpu. pose proof (inv_reachable _ _ _ Hr) as Hinv. apply Hij.
  assert (forall k v, tasks st !! k = Some v -> at_ v = Running -> p ∈ plan v -> holds v p) as Hall.
  { intros k v Hk Hv (n & Hn)%list_elem_of_lookup_1. exists n. split; [|done].
    rewrite (ok_running v (inv_task st Hinv k v Hk) Hv). by eapply lookup_lt_Some. }
  exact (inv_owner st Hinv p i j t u Hi Hj (Hall i t Hi Ht Hpt) (Hall j u Hj Hu Hpu)).
Qed.

(** C7: liveness. Because every call takes its paths in the same order, calls never block each other for good: every run is
    bounded by the steps its calls have to make, and a run that cannot go on has finished all of them. *)
Theorem calls_never_deadlock resolve calls n st :
  nsteps step n (initial resolve calls) st ->
  n <= total_weight (initial resolve calls) /\
  ((forall st', ~ step st st') -> Forall (fun t => at_ t = Finished) (tasks st)).
Proof.
  intros Hn. split.
  - pose proof (run_bounded n _ _ (inv_initial resolve calls) Hn). lia.
  - intros Hstop. assert (inv st) as Hinv by (apply (inv_reachable resolve calls), (rtc_nsteps_2 n), Hn).
    destruct (decide (Forall (fun t => at_ t = Finished) (tasks st))) as [|Hf]; [done|]. exfalso.
    apply not_Forall_Exists in Hf; [|apply _]. destruct (no_deadlock st Hinv Hf) as [st' Hs]. by apply (Hstop st').
Qed.

(** ** A concrete run: two calls that name two paths in opposite orders *)

Definition twoCalls : state := initial id [[js "/b"; js "/a"]; [js "/a"; js "/b"]].

(** The first call locks both paths and runs while the second waits for the first path in order; then the second. *)
Definition finishAll : list nat := [0; 1; 0; 0; 0; 0; 0; 0; 1; 1; 1; 1; 1; 1]%nat.

Fixpoint runSchedule (order : list nat) (st : state) : option state :=
  match order with [] => Some st | i :: rest => st' ← stepTask i false st; runSchedule rest st' end.

Lemma runSchedule_steps order st st' : runSchedule order st = Some st' -> nsteps step (length order) st st'.
Proof.
  revert st. induction order as [|i order IH]; intros st; cbn [runSchedule length]; [intros [= ->]; constructor|].
  destruct (stepTask i false st) as [st1|] eqn:E; [|done]. cbn [mbind option_bind]. intros H%IH.
  econstructor; [|exact H]. by exists i, false.
Qed.

Lemma finished_stops st : Forall (fun t => bool_decide (at_ t = Finished)) (tasks st) -> forall st', ~ step st st'.
Proof.
  intros Hf st' (i & fail & Hs). unfold stepTask in Hs. destruct (tasks st !! i) as [t|] eqn:Hi; [|done].
  rewrite Forall_lookup in Hf. specialize (Hf i t Hi). apply bool_decide_unpack in Hf. cbn in Hs. by rewrite Hf in Hs.
Qed.

Lemma calls_never_deadlock_witness :
  match runSchedule finishAll twoCalls with
  | Some st => (length finishAll <= total_weight twoCalls)%nat /\ Forall (fun t => at_ t = Finished) (tasks st)
  | None => False
  end.
Proof.
  destruct (runSchedule finishAll twoCalls) as [st|] eqn:E; [|exfalso; revert E; vm_compute; discriminate].
  destruct (calls_never_deadlock id [[js "/b"; js "/a"]; [js "/a"; js "/b"]] (length finishAll) st) as [H1 H2].
  - apply runSchedule_steps. exact E.
  - split; [exact H1|]. apply H2. apply finished_stops.
    assert (match runSchedule finishAll twoCalls with
            | Some st => forallb (fun t => bool_decide (at_ t = Finished)) (tasks st) | None => false end = true) as Hall
      by (vm_compute; reflexivity).
    rewrite E in Hall. apply forallb_True. by rewrite Hall.
Defined.

Lemma edits_of_a_path_exclude_each_other_witness :
  match runSchedule [0; 0; 1; 1]%nat (initial id [[js "/a"]; [js "/b"]]) with
  | Some st => match tasks st with
               | [t; u] => at_ t = Running /\ at_ u = Running /\ js "/a" ∈ plan t /\ js "/a" ∉ plan u
               | _ => False
               end
  | None => False
  end.
Proof.
  destruct (runSchedule [0; 0; 1; 1]%nat (initial id [[js "/a"]; [js "/b"]])) as [st|] eqn:E;
    [|exfalso; revert E; vm_compute; discriminate].
  destruct (tasks st) as [|t [|u [|v ts]]] eqn:Et; try (exfalso; revert Et; revert E; vm_compute; intros [= <-]; discriminate).
  assert (at_ t = Running /\ at_ u = Running /\ js "/a" ∈ plan t) as (Ht & Hu & Hp).
  { revert Et. revert E. vm_compute. intros [= <-] [= <- <-]. repeat split. left. }
  split_and!; try done.
  apply (edits_of_a_path_exclude_each_other id [[js "/a"]; [js "/b"]] st 0 1 t u (js "/a")); try done.
  - apply (rtc_nsteps_2 4). exact (runSchedule_steps [0; 0; 1; 1]%nat _ _ E).
  - by rewrite Et.
  - by rewrite Et.
Defined.
