(* ===== verification/FallbackChain.v ===== *)
(** * Model fallback chains (session/fallback-chain-controller.ts)

    The in-memory policy state of one fallback chain: which entry of the configured chain is
    active, how many requests it and the whole turn have been charged, which failures were
    recorded, and which entries were already restored once after a credential rotation. Each
    method of [FallbackChainController] is a function on the record [Controller]; private fields
    keep their name. A selector is tested for truthiness by the source, so an empty selector
    counts as a missing one. *)
From S2P Require Import Prelude JsNumber.
Open Scope Z_scope.

Inductive FallbackTriggerClass : Type :=
| rate_limit | quota | auth | credential | server | unknown | other.

Record ConfiguredFallbackChain : Type := {
  role : string;
  entries : list string;
  origin : string;
  identity : option string;
  explicitHead : bool
}.

Record FallbackFailure : Type := {
  selector : string;
  triggerClass : FallbackTriggerClass;
  reason : string
}.

Inductive FallbackFailureResult : Type := retry | advance_ | exhausted.

Record Skip : Type := { skip_selector : string; skip_reason : string }.

Record FallbackChainRuntimeState : Type := {
  rs_activeIndex : Z;
  rs_attemptsUsed : Z;
  rs_totalAttemptsUsed : Z;
  rs_attemptStarted : bool;
  rs_restoredEntryIndices : list Z;
  rs_tried : list FallbackFailure;
  rs_skips : list Skip;
  rs_exhaustedForTurn : bool
}.

Record Controller : Type := {
  chain : ConfiguredFallbackChain;
  maxAttempts : Z;
  activeIndex : Z;
  attemptsUsed : Z;
  tried : list FallbackFailure;
  attemptStarted : bool;
  totalAttemptsUsed : Z;
  restoredEntryIndices : gset Z;
  skips : list Skip;
  exhaustedForTurn : bool
}.

Definition entryCount (c : Controller) : Z := zlength (entries (chain c)).

(** [new FallbackChainController(chain, maxAttempts)] *)
Definition newController (ch : ConfiguredFallbackChain) (max : number) : result string Controller :=
  match max with
  | Fin q =>
      if negb (Q_is_integer q) || Qltb q 1
      then Throw "fallback.maxAttempts must be a positive integer"%string
      else Ok {| chain := ch; maxAttempts := Qfloor q; activeIndex := 0; attemptsUsed := 0;
                 tried := []; attemptStarted := false; totalAttemptsUsed := 0;
                 restoredEntryIndices := ∅; skips := [];
                 exhaustedForTurn := zlength (entries ch) =? 0 |}
  | _ => Throw "fallback.maxAttempts must be a positive integer"%string
  end.

Definition snapshotRuntimeState (c : Controller) : FallbackChainRuntimeState :=
  {| rs_activeIndex := activeIndex c; rs_attemptsUsed := attemptsUsed c;
     rs_totalAttemptsUsed := totalAttemptsUsed c; rs_attemptStarted := attemptStarted c;
     rs_restoredEntryIndices := elements (restoredEntryIndices c); rs_tried := tried c;
     rs_skips := skips c; rs_exhaustedForTurn := exhaustedForTurn c |}.

Definition restoreRuntimeState (s : FallbackChainRuntimeState) (c : Controller) : Controller :=
  {| chain := chain c; maxAttempts := maxAttempts c; activeIndex := rs_activeIndex s;
     attemptsUsed := rs_attemptsUsed s; tried := rs_tried s;
     attemptStarted := rs_attemptStarted s; totalAttemptsUsed := rs_totalAttemptsUsed s;
     restoredEntryIndices := list_to_set (rs_restoredEntryIndices s); skips := rs_skips s;
     exhaustedForTurn := rs_exhaustedForTurn s |}.

Definition maxTotalAttempts (c : Controller) : Z :=
  maxAttempts c * entryCount c + Z.of_nat (size (restoredEntryIndices c)).

(** [undefined] past the end of the chain. *)
Definition currentSelector (c : Controller) : option string :=
  arr_at (entries (chain c)) (activeIndex c).

(** The selector where the source tests it: [undefined] and the empty string are falsy. *)
Definition truthySelector (c : Controller) : option string :=
  match currentSelector c with
  | Some s => if decide (s = ""%string) then None else Some s
  | None => None
  end.

Definition isExhausted (c : Controller) : bool := exhaustedForTurn c.

Definition with_position (c : Controller) (idx used : Z) (started : bool) (total : Z)
    (ex : bool) : Controller :=
  {| chain := chain c; maxAttempts := maxAttempts c; activeIndex := idx; attemptsUsed := used;
     tried := tried c; attemptStarted := started; totalAttemptsUsed := total;
     restoredEntryIndices := restoredEntryIndices c; skips := skips c; exhaustedForTurn := ex |}.

Definition with_tried (c : Controller) (t : list FallbackFailure) : Controller :=
  {| chain := chain c; maxAttempts := maxAttempts c; activeIndex := activeIndex c;
     attemptsUsed := attemptsUsed c; tried := t; attemptStarted := attemptStarted c;
     totalAttemptsUsed := totalAttemptsUsed c;
     restoredEntryIndices := restoredEntryIndices c; skips := skips c;
     exhaustedForTurn := exhaustedForTurn c |}.

Definition with_restored (c : Controller) (r : gset Z) : Controller :=
  {| chain := chain c; maxAttempts := maxAttempts c; activeIndex := activeIndex c;
     attemptsUsed := attemptsUsed c; tried := tried c; attemptStarted := attemptStarted c;
     totalAttemptsUsed := totalAttemptsUsed c; restoredEntryIndices := r; skips := skips c;
     exhaustedForTurn := exhaustedForTurn c |}.

Definition with_skips (c : Controller) (s : list Skip) : Controller :=
  {| chain := chain c; maxAttempts := maxAttempts c; activeIndex := activeIndex c;
     attemptsUsed := attemptsUsed c; tried := tried c; attemptStarted := attemptStarted c;
     totalAttemptsUsed := totalAttemptsUsed c; restoredEntryIndices := restoredEntryIndices c;
     skips := s; exhaustedForTurn := exhaustedForTurn c |}.

Definition advance (c : Controller) : bool * Controller :=
  if exhaustedForTurn c then (false, c)
  else
    let i := activeIndex c + 1 in
    if entryCount c <=? i
    then (false, with_position c i 0 false (totalAttemptsUsed c) true)
    else (true, with_position c i 0 false (totalAttemptsUsed c) false).

Definition onResolutionSkip (why : string) (c : Controller) : bool * Controller :=
  match truthySelector c with
  | Some s => advance (with_skips c (skips c ++ [{| skip_selector := s; skip_reason := why |}]))
  | None => advance c
  end.

Definition onAttemptStarted (c : Controller) : Controller :=
  match truthySelector c with
  | None => c
  | Some _ =>
      if exhaustedForTurn c then c
      else if maxTotalAttempts c <=? totalAttemptsUsed c
      then with_position c (entryCount c) (attemptsUsed c) (attemptStarted c)
             (totalAttemptsUsed c) true
      else with_position c (activeIndex c) (attemptsUsed c + 1) true
             (totalAttemptsUsed c + 1) (exhaustedForTurn c)
  end.

Definition discardStartedAttempt (c : Controller) : Controller :=
  if negb (attemptStarted c) then c
  else with_position c (activeIndex c) (Z.max 0 (attemptsUsed c - 1)) false
         (Z.max 0 (totalAttemptsUsed c - 1)) (exhaustedForTurn c).

Definition resetAttemptBudget (c : Controller) : Controller :=
  with_restored (with_tried (with_position c (activeIndex c) 0 false 0 (exhaustedForTurn c)) []) ∅.

Definition seedResolution (idx : Z) (sk : list Skip) (c : Controller) : Controller :=
  let i := Z.min (Z.max 0 idx) (entryCount c) in
  with_skips (with_restored (with_position c i 0 false 0 (entryCount c <=? i)) ∅) sk.

Definition onAttemptFailure (tc : FallbackTriggerClass) (why : string) (c : Controller)
    : FallbackFailureResult * Controller :=
  match truthySelector c with
  | None => (exhausted, c)
  | Some s =>
      if exhaustedForTurn c then (exhausted, c)
      else
        let used := if attemptStarted c then attemptsUsed c else attemptsUsed c + 1 in
        let total := if attemptStarted c then totalAttemptsUsed c else totalAttemptsUsed c + 1 in
        let c1 := with_position c (activeIndex c) used false total (exhaustedForTurn c) in
        let c2 := with_tried c1
          (tried c ++ [{| selector := s; triggerClass := tc; reason := why |}]) in
        if maxTotalAttempts c2 <=? total
        then (exhausted, with_position c2 (entryCount c) used false total true)
        else if used <? maxAttempts c then (retry, c2)
        else let '(more, c3) := advance c2 in (if more then advance_ else exhausted, c3)
  end.

Definition recordEscapedArgumentsFailure (why : string) (adv : bool) (c : Controller)
    : bool * Controller :=
  match truthySelector c with
  | None => (false, c)
  | Some s =>
      if exhaustedForTurn c then (false, c)
      else
        let c1 := with_position c (activeIndex c) (maxAttempts c) false
                    (totalAttemptsUsed c + 1) (exhaustedForTurn c) in
        let c2 := with_tried c1
          (tried c ++ [{| selector := s; triggerClass := unknown; reason := why |}]) in
        if adv then advance c2 else (activeIndex c + 1 <? entryCount c, c2)
  end.

Definition restorePreviousEntryForRetry (c : Controller) : bool * Controller :=
  let prev := activeIndex c - 1 in
  if (prev <? 0) || exhaustedForTurn c || bool_decide (prev ∈ restoredEntryIndices c)
     || (maxTotalAttempts c <=? totalAttemptsUsed c)
  then (false, c)
  else (true, with_position (with_restored c ({[prev]} ∪ restoredEntryIndices c)) prev
                (maxAttempts c - 1) false (totalAttemptsUsed c) false).

Definition resetSticky (c : Controller) : Controller :=
  with_skips (with_restored (with_tried
    (with_position c 0 0 false 0 (entryCount c =? 0)) []) ∅) [].

Definition resetForNewTurn (c : Controller) : Controller := resetSticky c.

(** Delays; [attemptK] is a count. *)
Definition cappedExponentialWithFullJitter (baseDelayMs maxDelayMs : Q) (attemptK : Z)
    (random : Q) : Z :=
  let exponential := (baseDelayMs * Qpow2 (Z.max 0 (attemptK - 1)))%Q in
  let cap := if Qltb 0 maxDelayMs then Qmin exponential maxDelayMs else exponential in
  Qfloor (Qmax 0 cap * Qmax 0 (Qmin 1 random)).

Definition effectiveFallbackDelay := cappedExponentialWithFullJitter.

Definition compactionRetryDelay (baseDelayMs maxDelayMs : Q) (attempt : Z)
    (retryAfterMs : option number) : Q :=
  let exponential := (baseDelayMs * Qpow2 (Z.max 0 attempt))%Q in
  let hint := match retryAfterMs with Some (Fin h) => Qmax 0 h | _ => 0%Q end in
  let hinted := Qmax exponential hint in
  let bounded := if Qltb 0 maxDelayMs then Qmin hinted maxDelayMs else hinted in
  Qmax 0 bounded.

(** ** Runs of a controller *)

(** The public operations that change a controller, [restoreRuntimeState] apart. *)
Inductive op : Type :=
| OpSkip (why : string)
| OpStart
| OpDiscard
| OpResetBudget
| OpSeed (idx : Z) (sk : list Skip)
| OpFailure (tc : FallbackTriggerClass) (why : string)
| OpEscaped (why : string) (adv : bool)
| OpAdvance
| OpRestorePrevious
| OpNewTurn.

Definition exec_op (o : op) (c : Controller) : Controller :=
  match o with
  | OpSkip why => (onResolutionSkip why c).2
  | OpStart => onAttemptStarted c
  | OpDiscard => discardStartedAttempt c
  | OpResetBudget => resetAttemptBudget c
  | OpSeed idx sk => seedResolution idx sk c
  | OpFailure tc why => (onAttemptFailure tc why c).2
  | OpEscaped why adv => (recordEscapedArgumentsFailure why adv c).2
  | OpAdvance => (advance c).2
  | OpRestorePrevious => (restorePreviousEntryForRetry c).2
  | OpNewTurn => resetForNewTurn c
  end.

(** Every state a controller of this chain can be in; a runtime state that is restored was
    snapshotted from such a controller. *)
Inductive reachable (ch : ConfiguredFallbackChain) (max : number) : Controller -> Prop :=
| reach_new c : newController ch max = Ok c -> reachable ch max c
| reach_op c o : reachable ch max c -> reachable ch max (exec_op o c)
| reach_restore c d : reachable ch max c -> reachable ch max d ->
    reachable ch max (restoreRuntimeState (snapshotRuntimeState d) c).

Record ctrl_ok (c : Controller) : Prop := {
  ok_max : 1 <= maxAttempts c;
  ok_index : 0 <= activeIndex c <= entryCount c;
  ok_exhausted : exhaustedForTurn c = (entryCount c <=? activeIndex c);
  ok_used : 0 <= attemptsUsed c;
  ok_total : 0 <= totalAttemptsUsed c;
  ok_started : attemptStarted c = true -> 1 <= totalAttemptsUsed c;
  ok_restored : forall i, i ∈ restoredEntryIndices c -> 0 <= i < entryCount c - 1
}.

Ltac unfold_ctrl :=
  unfold with_position, with_tried, with_restored, with_skips, entryCount, maxTotalAttempts in *;
  simpl in *; unfold entryCount in *; simpl in *.

Lemma truthy_current c s : truthySelector c = Some s -> currentSelector c = Some s.
Proof. unfold truthySelector. repeat case_match; naive_solver. Qed.

Lemma current_Some_iff c : is_Some (currentSelector c) <-> 0 <= activeIndex c < entryCount c.
Proof. apply arr_at_is_Some. Qed.

Lemma advance_ok c : ctrl_ok c -> ctrl_ok (advance c).2.
Proof.
  intros [Hm Hi He Hu Ht Hs Hr]. unfold advance.
  destruct (exhaustedForTurn c) eqn:Hex; [by constructor; simpl; rewrite ?Hex|].
  symmetry in He. zify_bool.
  destruct (Z.leb_spec (entryCount c) (activeIndex c + 1)); constructor; unfold_ctrl;
    try done; try lia; symmetry; (apply Z.leb_le || apply Z.leb_gt); lia.
Qed.

Lemma with_tried_ok c t : ctrl_ok c -> ctrl_ok (with_tried c t).
Proof. intros []. constructor; done. Qed.

Lemma with_skips_ok c sk : ctrl_ok c -> ctrl_ok (with_skips c sk).
Proof. intros []. constructor; done. Qed.

(** Charging the active entry and leaving the position alone. *)
Lemma with_charge_ok c used st total ex :
  ctrl_ok c -> 0 <= used -> 0 <= total -> (st = true -> 1 <= total) ->
  exhaustedForTurn c = ex ->
  ctrl_ok (with_position c (activeIndex c) used st total ex).
Proof. intros [] ??? <-. constructor; done. Qed.

(** Moving past the end of the chain. *)
Lemma with_end_ok c used total :
  ctrl_ok c -> 0 <= used -> 0 <= total -> forall st, (st = true -> 1 <= total) ->
  ctrl_ok (with_position c (entryCount c) used st total true).
Proof.
  intros [] ????. constructor; unfold_ctrl; try done; [|by rewrite Z.leb_refl].
  split; [apply zlength_nonneg|lia].
Qed.

#[local] Hint Resolve advance_ok with_tried_ok with_skips_ok with_charge_ok with_end_ok : gajae.

Lemma chain_exec_op_ok o c : ctrl_ok c -> ctrl_ok (exec_op o c).
Proof.
  intros Hok. pose proof Hok as [Hm Hi He Hu Ht Hs Hr].
  pose proof (zlength_nonneg (entries (chain c))) as Hlen.
  destruct o; simpl.
  - unfold onResolutionSkip. case_match; auto with gajae.
  - unfold onAttemptStarted. repeat case_match; auto with gajae.
    apply with_charge_ok; auto; lia.
  - unfold discardStartedAttempt. case_match; [done|]. apply with_charge_ok; auto; lia.
  - constructor; unfold_ctrl; try done; by intros ? ?%not_elem_of_empty.
  - constructor; unfold_ctrl; try done; try lia; try by intros ? ?%not_elem_of_empty.
  - unfold onAttemptFailure.
    case_match; [|done]. destruct (exhaustedForTurn c) eqn:Hex; [done|].
    set (used := if attemptStarted c then _ else _).
    set (total := if attemptStarted c then _ else _).
    assert (0 <= used) by (subst used; case_match; lia).
    assert (0 <= total) by (subst total; case_match; lia).
    set (c2 := with_tried _ _).
    assert (ctrl_ok c2).
    { subst c2. by apply with_tried_ok, with_charge_ok. }
    case_match; [by apply (with_end_ok c2)|]. case_match; [done|].
    pose proof (advance_ok c2 ltac:(done)). by destruct (advance c2).
  - unfold recordEscapedArgumentsFailure.
    case_match; [|done]. destruct (exhaustedForTurn c) eqn:Hex; [done|].
    set (c2 := with_tried _ _).
    assert (ctrl_ok c2).
    { subst c2. apply with_tried_ok, with_charge_ok; try done; lia. }
    case_match; auto with gajae.
  - auto with gajae.
  - unfold restorePreviousEntryForRetry.
    case_match; [done|]. zify_bool. rewrite H2 in He. symmetry in He. zify_bool.
    constructor; unfold_ctrl; try done; try lia.
    intros i Hin. apply elem_of_union in Hin as [->%elem_of_singleton|?]; [lia|auto].
  - constructor; unfold_ctrl; try done; try lia; by intros ? ?%not_elem_of_empty.
Qed.

Lemma newController_inv ch max c :
  newController ch max = Ok c ->
  exists q, max = Fin q /\ 1 <= Qfloor q /\
    c = {| chain := ch; maxAttempts := Qfloor q; activeIndex := 0; attemptsUsed := 0;
           tried := []; attemptStarted := false; totalAttemptsUsed := 0;
           restoredEntryIndices := ∅; skips := [];
           exhaustedForTurn := zlength (entries ch) =? 0 |}.
Proof.
  unfold newController. destruct max as [q| | |]; try done.
  destruct (negb _ || _) eqn:E; [done|]. apply orb_false_iff in E as [_ E%Qltb_ge].
  intros [= <-]. exists q.
  split_and!; [done| |done]. change 1%Z with (Qfloor 1). by apply Qfloor_resp_le.
Qed.

Lemma newController_ok ch max c : newController ch max = Ok c -> ctrl_ok c.
Proof.
  intros (q & -> & Hq & ->)%newController_inv.
  constructor; unfold_ctrl; try done; try by intros ? ?%not_elem_of_empty.
  all: pose proof (zlength_nonneg (entries ch)); lia.
Qed.

Lemma exec_op_config o c :
  chain (exec_op o c) = chain c /\ maxAttempts (exec_op o c) = maxAttempts c.
Proof.
  destruct o; simpl;
    unfold onResolutionSkip, onAttemptStarted, discardStartedAttempt, onAttemptFailure,
      recordEscapedArgumentsFailure, restorePreviousEntryForRetry, advance;
    repeat case_match; simplify_eq/=; done.
Qed.

Lemma reachable_config ch max c :
  reachable ch max c -> exists q, max = Fin q /\ chain c = ch /\ maxAttempts c = Qfloor q.
Proof.
  induction 1 as [c Hc|c o _ (q & ? & ? & ?)|c d _ (q & ? & ? & ?) _ _].
  - apply newController_inv in Hc as (q & -> & _ & ->). by exists q.
  - exists q. by destruct (exec_op_config o c) as [-> ->].
  - by exists q.
Qed.

Lemma restore_snapshot c d :
  chain c = chain d -> maxAttempts c = maxAttempts d ->
  restoreRuntimeState (snapshotRuntimeState d) c = d.
Proof.
  intros Hc Hm. unfold restoreRuntimeState, snapshotRuntimeState. simpl.
  rewrite Hc, Hm, list_to_set_elements_L. by destruct d.
Qed.

Lemma reachable_ok ch max c : reachable ch max c -> ctrl_ok c.
Proof.
  induction 1 as [c Hc|c o _ IH|c d Hc _ Hd IH].
  - by eapply newController_ok.
  - by apply chain_exec_op_ok.
  - apply reachable_config in Hc as (q & -> & ? & ?).
    apply reachable_config in Hd as (q' & [= <-] & ? & ?).
    rewrite restore_snapshot; congruence.
Qed.

(** ** One turn *)

(** The operations of one turn as the session drives it: a request fails, an entry cannot be
    resolved, a started request is taken back, or a failure advanced the chain and a rotated
    credential restores the entry that failed. *)
Inductive turn_step : Controller -> Controller -> Prop :=
| turn_fail c tc why :
    turn_step c (onAttemptFailure tc why (onAttemptStarted c)).2
| turn_skip c why : turn_step c (onResolutionSkip why c).2
| turn_discard c : turn_step c (discardStartedAttempt (onAttemptStarted c))
| turn_rotate c tc why c1 c2 :
    onAttemptFailure tc why (onAttemptStarted c) = (advance_, c1) ->
    restorePreviousEntryForRetry c1 = (true, c2) -> turn_step c c2.

(** What is charged so far fits in the entries already passed, the restored attempts and the
    attempts of the active entry. *)
Record turn_inv (c : Controller) : Prop := {
  ti_ok : ctrl_ok c;
  ti_tried : zlength (tried c) <= totalAttemptsUsed c;
  ti_triedMax : zlength (tried c) <= maxTotalAttempts c;
  ti_idle : attemptStarted c = false;
  ti_used : exhaustedForTurn c = false -> attemptsUsed c < maxAttempts c;
  ti_total : exhaustedForTurn c = false ->
    totalAttemptsUsed c <=
      maxAttempts c * activeIndex c + Z.of_nat (size (restoredEntryIndices c)) + attemptsUsed c
}.

(** A failing request on an idle controller whose active selector is usable. *)
Definition failed (c : Controller) (s : string) (tc : FallbackTriggerClass) (why : string)
    (i used : Z) (ex : bool) : Controller :=
  with_tried (with_position c i used false (totalAttemptsUsed c + 1) ex)
    (tried c ++ [{| selector := s; triggerClass := tc; reason := why |}]).

Lemma turn_budget_left c :
  turn_inv c -> exhaustedForTurn c = false -> totalAttemptsUsed c < maxTotalAttempts c.
Proof.
  intros [[] ? _ Hi Hu Ht] Hex. specialize (Hu Hex). specialize (Ht Hex).
  rewrite Hex in *. symmetry in ok_exhausted0. zify_bool. unfold maxTotalAttempts. nia.
Qed.

Lemma truthy_position c used st total ex :
  truthySelector (with_position c (activeIndex c) used st total ex) = truthySelector c.
Proof. done. Qed.

(** The outcome of a failing request on each branch: the cap on the whole turn takes no attempt
    away from the active entry, nor from the ones after it. *)
Lemma fail_outcome c s tc why :
  turn_inv c -> truthySelector c = Some s -> exhaustedForTurn c = false ->
  onAttemptFailure tc why (onAttemptStarted c) =
    if attemptsUsed c + 1 <? maxAttempts c
    then (retry, failed c s tc why (activeIndex c) (attemptsUsed c + 1) false)
    else if activeIndex c + 1 <? entryCount c
    then (advance_, failed c s tc why (activeIndex c + 1) 0 false)
    else (exhausted, failed c s tc why (entryCount c)
            (if maxTotalAttempts c <=? totalAttemptsUsed c + 1 then attemptsUsed c + 1 else 0)
            true).
Proof.
  intros Hinv Hs Hex. pose proof (turn_budget_left _ Hinv Hex) as Hb.
  pose proof Hinv as [[] ? _ Hi Hu Ht].
  specialize (Hu Hex). specialize (Ht Hex).
  rewrite Hex in *. symmetry in ok_exhausted0. zify_bool.
  unfold onAttemptFailure, onAttemptStarted. rewrite Hs, Hex.
  destruct (Z.leb_spec (maxTotalAttempts c) (totalAttemptsUsed c)); [lia|].
  rewrite truthy_position, Hs.
  unfold failed, advance. unfold_ctrl.
  destruct (Z.ltb_spec (attemptsUsed c + 1) (maxAttempts c)).
  - case_match; zify_bool; [nia|done].
  - destruct (Z.ltb_spec (activeIndex c + 1) (zlength (entries (chain c)))).
    + case_match; zify_bool; [nia|].
      by destruct (Z.leb_spec (zlength (entries (chain c))) (activeIndex c + 1)); [lia|].
    + case_match; [done|].
      destruct (Z.leb_spec (zlength (entries (chain c))) (activeIndex c + 1)); [|lia].
      by replace (activeIndex c + 1) with (zlength (entries (chain c))) by lia.
Qed.

Lemma fail_stuck c tc why :
  truthySelector c = None \/ exhaustedForTurn c = true ->
  onAttemptFailure tc why (onAttemptStarted c) = (exhausted, c).
Proof.
  intros H. assert (onAttemptStarted c = c) as ->.
  { unfold onAttemptStarted. destruct H as [->| ->]; by repeat case_match. }
  unfold onAttemptFailure. destruct H as [->| ->]; by repeat case_match.
Qed.

Lemma fail_tried_bound c :
  turn_inv c -> exhaustedForTurn c = false -> zlength (tried c) + 1 <= maxTotalAttempts c.
Proof. intros Hinv Hex. pose proof (turn_budget_left _ Hinv Hex). destruct Hinv. lia. Qed.

Lemma failed_inv c s tc why i used ex :
  turn_inv c -> exhaustedForTurn c = false ->
  ctrl_ok (failed c s tc why i used ex) ->
  (ex = false -> used < maxAttempts c /\
     maxAttempts c * activeIndex c + attemptsUsed c + 1 <= maxAttempts c * i + used) ->
  turn_inv (failed c s tc why i used ex).
Proof.
  intros Hinv Hex Hok H. pose proof (fail_tried_bound _ Hinv Hex) as Hb.
  destruct Hinv. specialize (ti_total0 Hex).
  constructor; unfold failed in *; unfold_ctrl; rewrite ?zlength_app; try done;
    try (unfold zlength at 2; simpl); try lia; intros Hf; specialize (H Hf); lia.
Qed.

Lemma turn_fail_inv c tc why :
  turn_inv c -> turn_inv (onAttemptFailure tc why (onAttemptStarted c)).2.
Proof.
  intros Hinv.
  destruct (truthySelector c) as [s|] eqn:Hs; [|by rewrite fail_stuck; auto].
  destruct (exhaustedForTurn c) eqn:Hex; [by rewrite fail_stuck; auto|].
  pose proof (chain_exec_op_ok (OpFailure tc why) _ (chain_exec_op_ok OpStart _ (ti_ok _ Hinv))) as Hok.
  simpl in Hok. rewrite (fail_outcome _ s) in * by done.
  pose proof (ti_used _ Hinv Hex). pose proof (ok_max _ (ti_ok _ Hinv)).
  destruct (Z.ltb_spec (attemptsUsed c + 1) (maxAttempts c)); [|case_match];
    apply failed_inv; try done; intros _; nia.
Qed.

Lemma turn_skip_inv c why : turn_inv c -> turn_inv (onResolutionSkip why c).2.
Proof.
  intros Hinv. pose proof (chain_exec_op_ok (OpSkip why) _ (ti_ok _ Hinv)) as Hok. simpl in Hok.
  assert ((exists sk, (onResolutionSkip why c).2 = with_skips c sk) \/
    exists sk ex, (onResolutionSkip why c).2 =
      with_skips (with_position c (activeIndex c + 1) 0 false (totalAttemptsUsed c) ex) sk
      /\ exhaustedForTurn c = false) as [[sk E]|(sk & ex & E & Hex)].
  { unfold onResolutionSkip, advance. destruct c; simpl.
    repeat case_match; simplify_eq/=; eauto 6; left; by eexists. }
  - rewrite E in *. destruct Hinv. by constructor.
  - rewrite E in *. destruct Hinv. specialize (ti_total0 Hex). specialize (ti_used0 Hex).
    pose proof (ok_max _ Hok). constructor; unfold_ctrl; try done; intros; nia.
Qed.

Lemma turn_discard_id c : turn_inv c -> discardStartedAttempt (onAttemptStarted c) = c.
Proof.
  intros Hinv. pose proof (turn_budget_left _ Hinv) as Hb. pose proof (ti_idle _ Hinv) as Hi.
  pose proof (ok_used _ (ti_ok _ Hinv)). pose proof (ok_total _ (ti_ok _ Hinv)).
  unfold onAttemptStarted. case_match; [|unfold discardStartedAttempt; by rewrite Hi].
  destruct (exhaustedForTurn c) eqn:Hex; [unfold discardStartedAttempt; by rewrite Hi|].
  case_match; zify_bool; [specialize (Hb eq_refl); lia|].
  unfold discardStartedAttempt, with_position. simpl.
  rewrite !Z.max_r by lia. rewrite !Z.add_simpl_r. destruct c; simpl in *; congruence.
Qed.

Lemma restore_true c c' :
  restorePreviousEntryForRetry c = (true, c') ->
  (activeIndex c - 1 ∉ restoredEntryIndices c) /\
  c' = with_position (with_restored c ({[activeIndex c - 1]} ∪ restoredEntryIndices c))
         (activeIndex c - 1) (maxAttempts c - 1) false (totalAttemptsUsed c) false.
Proof.
  unfold restorePreviousEntryForRetry. case_match; [done|]. intros [= <-]. zify_bool. done.
Qed.

Lemma turn_rotate_inv c tc why c1 c2 :
  turn_inv c -> onAttemptFailure tc why (onAttemptStarted c) = (advance_, c1) ->
  restorePreviousEntryForRetry c1 = (true, c2) -> turn_inv c2.
Proof.
  intros Hinv Hf Hr.
  assert (turn_inv c1) as H1 by (change c1 with (advance_, c1).2; rewrite <- Hf; by apply turn_fail_inv).
  pose proof (chain_exec_op_ok OpRestorePrevious _ (ti_ok _ H1)) as Hok. simpl in Hok.
  rewrite Hr in Hok. apply restore_true in Hr as [Hni ->].
  assert (exhaustedForTurn c1 = false /\ attemptsUsed c1 = 0) as [Hex Hu].
  { destruct (truthySelector c) as [s|] eqn:Hs; [|by rewrite fail_stuck in Hf; auto].
    destruct (exhaustedForTurn c) eqn:Hex; [by rewrite fail_stuck in Hf; auto|].
    rewrite (fail_outcome _ s) in Hf by done. repeat case_match; by simplify_eq. }
  destruct H1. specialize (ti_total0 Hex). pose proof (ok_max _ ti_ok0).
  constructor; unfold_ctrl; rewrite ?size_union, ?size_singleton by set_solver; try done; nia.
Qed.

Lemma turn_step_inv c c' : turn_inv c -> turn_step c c' -> turn_inv c'.
Proof.
  intros Hinv. destruct 1.
  - by apply turn_fail_inv.
  - by apply turn_skip_inv.
  - by rewrite turn_discard_id.
  - by eapply turn_rotate_inv.
Qed.

Lemma resetForNewTurn_inv c : ctrl_ok c -> turn_inv (resetForNewTurn c).
Proof.
  intros Hok. pose proof (chain_exec_op_ok OpNewTurn _ Hok) as Hok'. simpl in Hok'.
  pose proof (ok_max _ Hok). pose proof (zlength_nonneg (entries (chain c))).
  constructor; unfold_ctrl; rewrite ?size_empty; try done; try nia.
  all: change (zlength (@nil FallbackFailure)) with 0; nia.
Qed.

Lemma turn_run_inv c c' : ctrl_ok c -> rtc turn_step (resetForNewTurn c) c' -> turn_inv c'.
Proof.
  intros Hok%resetForNewTurn_inv Hr. induction Hr; [done|]. eauto using turn_step_inv.
Qed.

Lemma turn_step_config c c' :
  turn_step c c' -> chain c' = chain c /\ maxAttempts c' = maxAttempts c.
Proof.
  pose proof exec_op_config as Hc.
  destruct 1 as [c tc why|c why|c|c tc why c1 c2 H1 H2].
  - destruct (Hc (OpFailure tc why) (onAttemptStarted c)), (Hc OpStart c). simpl in *. split; congruence.
  - apply (Hc (OpSkip why)).
  - destruct (Hc OpDiscard (onAttemptStarted c)), (Hc OpStart c). simpl in *. split; congruence.
  - apply restore_true in H2 as [_ ->].
    destruct (Hc (OpFailure tc why) (onAttemptStarted c)), (Hc OpStart c). simpl in *.
    rewrite H1 in *. simpl in *. split; congruence.
Qed.

Lemma turn_config c c' :
  rtc turn_step c c' -> chain c' = chain c /\ maxAttempts c' = maxAttempts c.
Proof.
  induction 1 as [|c c1 c2 Hs _ [IH1 IH2]]; [done|].
  apply turn_step_config in Hs as [? ?]. split; congruence.
Qed.

(** The restored entries are distinct and none is the last one. *)
Lemma restored_size c :
  ctrl_ok c -> entryCount c <> 0 -> Z.of_nat (size (restoredEntryIndices c)) <= entryCount c - 1.
Proof.
  intros Hok Hne. pose proof (zlength_nonneg (entries (chain c))).
  set (all := list_to_set (zseq 0 (Z.to_nat (entryCount c - 1))) : gset Z).
  assert (restoredEntryIndices c ⊆ all) as Hsub.
  { intros i Hi%(ok_restored _ Hok). subst all. apply elem_of_list_to_set, elem_of_zseq. lia. }
  apply subseteq_size in Hsub. subst all.
  rewrite size_list_to_set, length_zseq in Hsub; [unfold entryCount in *; lia|].
  apply NoDup_fmap_2; [intros ???; lia|apply NoDup_seq].
Qed.

(** ** A turn in which every request fails *)

(** [n] requests that start and fail, one after the other. *)
Definition failRequests (n : nat) (tc : FallbackTriggerClass) (why : string) (c : Controller)
    : Controller :=
  Nat.iter n (fun c => (onAttemptFailure tc why (onAttemptStarted c)).2) c.

(** The requests a chain allows, in order: every entry [m] times. *)
Fixpoint schedule (m : nat) (es : list string) : list string :=
  match es with [] => [] | e :: es' => replicate m e ++ schedule m es' end.

Lemma schedule_length m es : length (schedule m es) = (m * length es)%nat.
Proof.
  induction es as [|e es IH]; simpl; [lia|].
  rewrite length_app, length_replicate, IH. lia.
Qed.

Lemma schedule_lookup m es i u :
  (u < m)%nat -> schedule m es !! (m * i + u)%nat = es !! i.
Proof.
  revert i. induction es as [|e es IH]; intros i Hu; [done|]. simpl.
  destruct i as [|i].
  - rewrite lookup_app_l by (rewrite length_replicate; lia). simpl.
    apply lookup_replicate_2. lia.
  - rewrite lookup_app_r by (rewrite length_replicate; lia). rewrite length_replicate.
    replace (m * S i + u - m)%nat with (m * i + u)%nat by lia. by apply IH.
Qed.

(** The position after [n] failing requests. *)
Record at_request (m : nat) (es : list string) (n : nat) (c : Controller) : Prop := {
  ar_inv : turn_inv c;
  ar_max : maxAttempts c = Z.of_nat m;
  ar_entries : entries (chain c) = es;
  ar_tried : selector <$> tried c = take n (schedule m es);
  ar_exhausted : exhaustedForTurn c = bool_decide (m * length es <= n)%nat;
  ar_position : exhaustedForTurn c = false ->
    Z.of_nat n = maxAttempts c * activeIndex c + attemptsUsed c
}.

Lemma at_request_step m es n c tc why :
  Forall (fun e => e <> ""%string) es -> (n < m * length es)%nat ->
  at_request m es n c -> at_request m es (S n) (onAttemptFailure tc why (onAttemptStarted c)).2.
Proof.
  intros Hes Hn [Hinv Hm He Ht Hx Hp].
  rewrite bool_decide_eq_false_2 in Hx by lia. specialize (Hp Hx).
  pose proof (turn_fail_inv _ tc why Hinv) as Hinv'.
  pose proof (ti_used _ Hinv Hx) as Hu. destruct (ti_ok _ Hinv) as [_ Hi Hxe Hu0 _ _ _].
  rewrite Hx in Hxe. symmetry in Hxe. zify_bool.
  unfold entryCount in Hxe, Hi. rewrite He in Hxe, Hi.
  destruct (lookup_lt_is_Some_2 es (Z.to_nat (activeIndex c))) as [s Hs].
  { unfold zlength in Hxe. lia. }
  assert (truthySelector c = Some s) as Hsel.
  { unfold truthySelector, currentSelector. rewrite He.
    assert (arr_at es (activeIndex c) = Some s) as -> by (apply arr_at_Some; split; [lia|done]).
    rewrite decide_False; [done|]. by eapply (Forall_lookup_1 _ _ _ _ Hes). }
  assert (take (S n) (schedule m es) = take n (schedule m es) ++ [s]) as Hsn.
  { apply take_S_r.
    replace n with (m * Z.to_nat (activeIndex c) + Z.to_nat (attemptsUsed c))%nat by nia.
    rewrite schedule_lookup; [done|lia]. }
  assert (selector <$> tried c ++ [{| selector := s; triggerClass := tc; reason := why |}] =
    take (S n) (schedule m es)) as Htr by by rewrite fmap_app, Ht, Hsn.
  rewrite (fail_outcome _ s) in * by done.
  unfold entryCount, zlength in *. rewrite He in *.
  repeat case_match; zify_bool; constructor; try done; unfold failed; unfold_ctrl; try done;
    try (symmetry; first [apply bool_decide_eq_true_2 | apply bool_decide_eq_false_2]; nia); nia.
Qed.

Lemma at_request_start m ch c :
  ctrl_ok c -> maxAttempts c = Z.of_nat m -> entries (chain c) = ch ->
  at_request m ch 0 (resetForNewTurn c).
Proof.
  intros Hok Hm He. pose proof (ok_max _ Hok). constructor; unfold_ctrl; try done; try nia.
  - by apply resetForNewTurn_inv.
  - rewrite He. unfold zlength. apply eq_true_iff_eq. rewrite Z.eqb_eq, bool_decide_eq_true. nia.
Qed.

Lemma failRequests_at m es n c tc why :
  Forall (fun e => e <> ""%string) es -> (n <= m * length es)%nat ->
  at_request m es 0 c -> at_request m es n (failRequests n tc why c).
Proof.
  intros Hes Hn H0. induction n as [|n IH]; [done|]. simpl.
  apply at_request_step; [done|lia|]. apply IH. lia.
Qed.

(** ** Theorems *)

(** Invariant. In every state a controller can reach, by any sequence of its public
    operations and of restores of snapshots, the active index stays inside the chain or just past
    it, the turn is exhausted exactly when no entry is selected, the counters are never negative,
    and only entries before the last one were restored. *)
Theorem controller_invariant ch max c :
  reachable ch max c ->
  0 <= activeIndex c <= zlength (entries ch) /\
  (isExhausted c = true <-> currentSelector c = None) /\
  0 <= attemptsUsed c /\ 0 <= totalAttemptsUsed c /\
  (forall i, i ∈ restoredEntryIndices c -> 0 <= i < zlength (entries ch) - 1).
Proof.
  intros Hr. pose proof (reachable_ok _ _ _ Hr) as [].
  apply reachable_config in Hr as (q & -> & <- & _).
  split; [done|]. split; [|done]. unfold isExhausted.
  rewrite ok_exhausted0, Z.leb_le, eq_None_not_Some, current_Some_iff. lia.
Qed.

(** C18: safety. Within a turn, whatever mixture of failed requests, skipped entries, taken-back
    requests and credential rotations came before, the next failing request of a usable entry is
    charged and answered by that entry's own budget alone: retry while the entry has attempts
    left, advance when it has none and an entry follows, exhausted only at the last entry. The
    cap on the whole turn therefore never consumes attempts reserved for entries downstream. *)
Theorem fallback_budget_reserved ch max c c' s tc why :
  reachable ch max c -> rtc turn_step (resetForNewTurn c) c' ->
  truthySelector c' = Some s -> isExhausted c' = false ->
  totalAttemptsUsed (onAttemptStarted c') = totalAttemptsUsed c' + 1 /\
  (onAttemptFailure tc why (onAttemptStarted c')).1 =
    if attemptsUsed c' + 1 <? maxAttempts c' then retry
    else if activeIndex c' + 1 <? entryCount c' then advance_ else exhausted.
Proof.
  intros Hr%reachable_ok Hrun Hs Hex.
  pose proof (turn_run_inv _ _ Hr Hrun) as Hinv. pose proof (turn_budget_left _ Hinv Hex).
  split; [|rewrite (fail_outcome _ s) by done; by repeat case_match].
  unfold onAttemptStarted. unfold isExhausted in Hex. rewrite Hs, Hex.
  case_match; zify_bool; [lia|done].
Qed.


(** Functional. A turn in which every request fails asks the entries of the chain in order,
    each exactly [maxAttempts] times: the recorded selectors after [n] requests are the first [n]
    of that schedule, and the chain is exhausted at the last of them and not before. *)
Theorem fallback_visits_in_order ch max c n tc why :
  reachable ch max c -> Forall (fun e => e <> ""%string) (entries ch) ->
  (n <= Z.to_nat (maxAttempts c) * length (entries ch))%nat ->
  let c' := failRequests n tc why (resetForNewTurn c) in
  selector <$> tried c' = take n (schedule (Z.to_nat (maxAttempts c)) (entries ch)) /\
  isExhausted c' = bool_decide (Z.to_nat (maxAttempts c) * length (entries ch) <= n)%nat.
Proof.
  intros Hr Hes Hn c'. pose proof (reachable_ok _ _ _ Hr) as Hok.
  apply reachable_config in Hr as (q & -> & <- & _). pose proof (ok_max _ Hok).
  destruct (failRequests_at (Z.to_nat (maxAttempts c)) (entries (chain c)) n
    (resetForNewTurn c) tc why Hes Hn) as [_ _ _ Ht Hx _]; [|done].
  apply at_request_start; [done|lia|done].
Qed.

(** bounds. The jittered retry delay is never negative and, with a positive cap, never above
    it; the compaction retry delay is never negative, with a positive cap never above it, and
    without a cap at least the exponential back-off and any finite retry-after hint. *)
Theorem retry_delays_bounded base maxDelay attemptK random hint :
  0 <= effectiveFallbackDelay base maxDelay attemptK random /\
  ((0 < maxDelay)%Q -> (inject_Z (effectiveFallbackDelay base maxDelay attemptK random) <= maxDelay)%Q) /\
  (0 <= compactionRetryDelay base maxDelay attemptK hint)%Q /\
  ((0 < maxDelay)%Q -> (compactionRetryDelay base maxDelay attemptK hint <= maxDelay)%Q) /\
  ((maxDelay <= 0)%Q ->
    (base * Qpow2 (Z.max 0 attemptK) <= compactionRetryDelay base maxDelay attemptK hint)%Q /\
    forall h, hint = Some (Fin h) -> (h <= compactionRetryDelay base maxDelay attemptK hint)%Q).
Proof.
  unfold effectiveFallbackDelay, cappedExponentialWithFullJitter, compactionRetryDelay.
  set (e1 := (base * Qpow2 (Z.max 0 (attemptK - 1)))%Q).
  set (e2 := (base * Qpow2 (Z.max 0 attemptK))%Q).
  set (j := Qmax 0 (Qmin 1 random)).
  assert (0 <= j /\ j <= 1)%Q as [Hj0 Hj1].
  { subst j. split; [apply Q.le_max_l|]. apply Q.max_lub; [done|apply Q.le_min_l]. }
  set (hv := match hint with Some (Fin h) => Qmax 0 h | _ => 0%Q end).
  set (cap := if Qltb 0 maxDelay then Qmin e1 maxDelay else e1).
  set (bounded := if Qltb 0 maxDelay then Qmin (Qmax e2 hv) maxDelay else Qmax e2 hv).
  assert (0 <= Qmax 0 cap)%Q as Hcap by apply Q.le_max_l.
  split_and!.
  - change 0 with (Qfloor 0). apply Qfloor_resp_le. by apply Qmult_le_0_compat.
  - intros Hm. eapply Qle_trans; [apply Qfloor_le|].
    rewrite <- (Qmult_1_r maxDelay). apply Qmult_le_compat_nonneg; [split|done]; [done|].
    apply Q.max_lub; [lra|]. subst cap. apply Qltb_lt in Hm as ->. apply Q.le_min_r.
  - apply Q.le_max_l.
  - intros Hm. apply Q.max_lub; [lra|]. subst bounded. apply Qltb_lt in Hm as ->. apply Q.le_min_r.
  - intros Hm. subst bounded. apply Qltb_ge in Hm as ->.
    split; [|intros h ->; subst hv; simpl];
      (eapply Qle_trans; [|apply Q.le_max_r]); [apply Q.le_max_l|].
    eapply Qle_trans; [|apply Q.le_max_r]. apply Q.le_max_r.
Qed.

(** ** A concrete chain *)

Definition demoChain : ConfiguredFallbackChain :=
  {| role := "default"; entries := ["anthropic/a"; "openai/b"; "google/c"]; origin := "settings";
     identity := None; explicitHead := true |}.

Definition demoController : Controller :=
  {| chain := demoChain; maxAttempts := 2; activeIndex := 0; attemptsUsed := 0; tried := [];
     attemptStarted := false; totalAttemptsUsed := 0; restoredEntryIndices := ∅; skips := [];
     exhaustedForTurn := false |}.

Lemma demo_reachable : reachable demoChain (Fin 2) demoController.
Proof. apply reach_new. reflexivity. Qed.

(** The first entry used up with a rotation and restored, then failing again: the turn stands at
    the second entry with its full budget. *)
Definition demoRotated : Controller :=
  failRequests 1 server "boom"
    (restorePreviousEntryForRetry (failRequests 2 server "boom" demoController)).2.

Lemma demo_rotated_turn : rtc turn_step (resetForNewTurn demoController) demoRotated.
Proof.
  eapply rtc_l; [apply (turn_fail _ server "boom")|].
  eapply rtc_l; [eapply (turn_rotate _ server "boom")|]; [vm_compute; reflexivity..|].
  eapply rtc_l; [apply (turn_fail _ server "boom")|].
  match goal with |- rtc _ ?a ?b => replace b with a by (vm_compute; reflexivity) end.
  apply rtc_refl.
Qed.

Lemma controller_invariant_witness :
  0 <= activeIndex demoController <= 3.
Proof. apply (controller_invariant demoChain (Fin 2) demoController demo_reachable). Defined.

Lemma fallback_budget_reserved_witness :
  (onAttemptFailure quota "again" (onAttemptStarted demoRotated)).1 = retry.
Proof.
  apply (fallback_budget_reserved demoChain (Fin 2) demoController demoRotated "openai/b"
    quota "again" demo_reachable demo_rotated_turn); vm_compute; reflexivity.
Defined.


Lemma fallback_visits_in_order_witness :
  selector <$> tried (failRequests 5 server "boom" (resetForNewTurn demoController)) =
    ["anthropic/a"; "anthropic/a"; "openai/b"; "openai/b"; "google/c"].
Proof.
  apply (fallback_visits_in_order demoChain (Fin 2) demoController 5 server "boom"
    demo_reachable); [by repeat constructor|simpl; lia].
Defined.
