(* ===== verification/ToolChoiceQueue.v ===== *)
(** * The tool-choice queue (session/tool-choice-queue.ts)

    Directives that force the model's next tool choices. A directive owns an iterator; the head
    directive is advanced once per turn and its yield is in flight until it is resolved, rejected
    or degraded. Directives are compared by identity in [degradeInFlight], so each carries the
    number it was allocated with. A callback that only observes ([onResolved]) is an event; a
    callback whose answer the queue uses ([onRejected]) is a function. Callbacks do not re-enter
    the queue, as none in the program does. *)
From S2P Require Import Prelude.

Section ToolChoiceQueue.
(** The provider's tool-choice values and the handlers of forced tools are opaque here. *)
Context {ToolChoice Invoker : Type}.

Inductive RejectReason : Type := aborted | error | cleared | removed.

Record RejectInfo : Type := { choice : ToolChoice; reject_reason : RejectReason }.

Inductive RejectOutcome : Type := requeue | drop.

(** [onResolved] is kept as whether it is set. *)
Record DirectiveCallbacks : Type := {
  onResolved : bool;
  onRejected : option (RejectInfo -> option RejectOutcome);
  onInvoked : option Invoker
}.

(** An iterator: the value of its [i]-th [next()], and how often it was advanced. *)
Record Generator : Type := { gen_at : nat -> option ToolChoice; gen_pos : nat }.

(** [generator.next()]: [None] when done, and done for good. *)
Definition next (g : Generator) : option (ToolChoice * Generator) :=
  match gen_at g (gen_pos g) with
  | Some c => Some (c, {| gen_at := gen_at g; gen_pos := S (gen_pos g) |})
  | None => None
  end.

Definition iter_of (l : list ToolChoice) : Generator :=
  {| gen_at := fun i => l !! i; gen_pos := 0 |}.

Definition onceGen (c : ToolChoice) : Generator := iter_of [c].

Record ToolChoiceDirective : Type := {
  ident : nat;
  generator : Generator;
  label : string;
  callbacks : DirectiveCallbacks
}.

Record PushOptions : Type := {
  now : bool;
  opt_label : option string;
  opt_callbacks : DirectiveCallbacks
}.

Record InFlight : Type := { directive : ToolChoiceDirective; yielded : ToolChoice }.

(** Callback invocations, in order. *)
Inductive Event : Type :=
| Resolved (l : string) (c : ToolChoice)
| Rejected (l : string) (c : ToolChoice) (r : RejectReason).

Record Queue : Type := {
  queue : list ToolChoiceDirective;
  inFlight : option InFlight;
  lastResolvedLabel : option string;
  allocated : nat;
  events : list Event
}.

Definition emptyQueue : Queue :=
  {| queue := []; inFlight := None; lastResolvedLabel := None; allocated := 0; events := [] |}.

Definition with_queue (st : Queue) (q : list ToolChoiceDirective) : Queue :=
  {| queue := q; inFlight := inFlight st; lastResolvedLabel := lastResolvedLabel st;
     allocated := allocated st; events := events st |}.

Definition with_flight (st : Queue) (f : option InFlight) : Queue :=
  {| queue := queue st; inFlight := f; lastResolvedLabel := lastResolvedLabel st;
     allocated := allocated st; events := events st |}.

Definition with_event (st : Queue) (e : Event) : Queue :=
  {| queue := queue st; inFlight := inFlight st; lastResolvedLabel := lastResolvedLabel st;
     allocated := allocated st; events := events st ++ [e] |}.

Definition with_lastLabel (st : Queue) (l : option string) : Queue :=
  {| queue := queue st; inFlight := inFlight st; lastResolvedLabel := l;
     allocated := allocated st; events := events st |}.

(** A new directive object at the head or the tail of the queue. *)
Definition enqueue (g : Generator) (l : string) (cb : DirectiveCallbacks) (front : bool)
    (st : Queue) : Queue :=
  let d := {| ident := allocated st; generator := g; label := l; callbacks := cb |} in
  {| queue := if front then d :: queue st else queue st ++ [d]; inFlight := inFlight st;
     lastResolvedLabel := lastResolvedLabel st; allocated := S (allocated st);
     events := events st |}.

Definition noOptions : PushOptions :=
  {| now := false; opt_label := None;
     opt_callbacks := {| onResolved := false; onRejected := None; onInvoked := None |} |}.

Definition push (g : Generator) (options : option PushOptions) (st : Queue) : Queue :=
  let o := default noOptions options in
  enqueue g (default "anonymous"%string (opt_label o)) (opt_callbacks o) (now o) st.

Definition pushOnce (c : ToolChoice) (options : option PushOptions) (st : Queue) : Queue :=
  push (onceGen c) options st.

Definition pushSequence (cs : list ToolChoice) (options : option PushOptions) (st : Queue) : Queue :=
  push (iter_of cs) options st.

(** The loop of [nextToolChoice]: every finished head is shifted away. *)
Fixpoint advanceHead (q : list ToolChoiceDirective)
    : option (ToolChoice * ToolChoiceDirective) * list ToolChoiceDirective :=
  match q with
  | [] => (None, [])
  | head :: rest =>
      match next (generator head) with
      | None => advanceHead rest
      | Some (c, g) =>
          let head' := {| ident := ident head; generator := g; label := label head;
                          callbacks := callbacks head |} in
          (Some (c, head'), head' :: rest)
      end
  end.

Definition nextToolChoice (st : Queue) : option ToolChoice * Queue :=
  match advanceHead (queue st) with
  | (Some (c, d), q) =>
      (Some c, with_flight (with_queue st q) (Some {| directive := d; yielded := c |}))
  | (None, q) => (None, with_queue st q)
  end.

Definition resolve (st : Queue) : Queue :=
  match inFlight st with
  | None => with_flight st None
  | Some f =>
      let st1 := with_lastLabel (with_flight st None) (Some (label (directive f))) in
      if onResolved (callbacks (directive f))
      then with_event st1 (Resolved (label (directive f)) (yielded f)) else st1
  end.

Definition reject (r : RejectReason) (st : Queue) : Queue :=
  match inFlight st with
  | None => with_flight st None
  | Some f =>
      let st1 := with_flight st None in
      let d := directive f in
      match onRejected (callbacks d) with
      | None => st1
      | Some h =>
          let st2 := with_event st1 (Rejected (label d) (yielded f) r) in
          match h {| choice := yielded f; reject_reason := r |} with
          | Some requeue =>
              enqueue (onceGen (yielded f)) (label d +:+ "-requeued")
                {| onResolved := false; onRejected := onRejected (callbacks d);
                   onInvoked := onInvoked (callbacks d) |} true st2
          | _ => st2
          end
      end
  end.

Definition degradeInFlight (st : Queue) : option string * Queue :=
  match inFlight st with
  | None => (None, with_flight st None)
  | Some f =>
      let st1 := with_flight st None in
      (Some (label (directive f)),
       match queue st with
       | h :: rest => if decide (ident h = ident (directive f)) then with_queue st1 rest else st1
       | [] => st1
       end)
  end.

Definition hasInFlight (st : Queue) : bool := bool_decide (is_Some (inFlight st)).

Definition peekInFlightInvoker (st : Queue) : option Invoker :=
  f ← inFlight st; onInvoked (callbacks (directive f)).

Definition removeByLabel (l : string) (st : Queue) : Queue :=
  let st1 := match inFlight st with
             | Some f => if decide (label (directive f) = l) then reject removed st else st
             | None => st
             end in
  with_queue st1 (filter (fun d => label d <> l) (queue st1)).

Definition clear (st : Queue) : Queue :=
  let st1 := if hasInFlight st then reject cleared st else st in
  with_lastLabel (with_queue st1 []) None.

Definition consumeLastServedLabel (st : Queue) : option string * Queue :=
  (lastResolvedLabel st, with_lastLabel st None).

Definition inspect (st : Queue) : list string := label <$> queue st.

(** ** Identity of directives *)

(** Every directive in sight was allocated, and no two queued ones are the same object. *)
Record queue_ok (st : Queue) : Prop := {
  q_nodup : NoDup (ident <$> queue st);
  q_alloc : forall d, d ∈ queue st -> ident d < allocated st;
  q_flight : forall f, inFlight st = Some f -> ident (directive f) < allocated st
}.

(** Queued identities are a sub-list of the earlier ones. *)
Lemma queue_ok_sublist st q :
  queue_ok st -> (ident <$> q) `sublist_of` (ident <$> queue st) -> queue_ok (with_queue st q).
Proof.
  intros [Hn Ha Hf] Hs. constructor; simpl; [by eapply sublist_NoDup| |done].
  intros d Hd. assert (ident d ∈ ident <$> queue st) as Hi.
  { eapply elem_of_sublist; [|done]. by apply list_elem_of_fmap_2. }
  apply list_elem_of_fmap in Hi as (d' & -> & ?). by apply Ha.
Qed.

Lemma enqueue_ok g l cb front st : queue_ok st -> queue_ok (enqueue g l cb front st).
Proof.
  intros [Hn Ha Hf]. assert (allocated st ∉ ident <$> queue st) as Hfresh.
  { intros (d & Hd & Hin)%list_elem_of_fmap. apply Ha in Hin. lia. }
  constructor; simpl.
  - destruct front; [by constructor|]. rewrite fmap_app. apply NoDup_app. split_and!; [done| |].
    + intros x Hx [->|[]%elem_of_nil]%elem_of_cons. done.
    + apply NoDup_singleton.
  - intros d Hd. assert (d ∈ queue st \/ ident d = allocated st) as [?%Ha|]; [|lia..].
    destruct front; set_solver.
  - intros f ?%Hf. lia.
Qed.

Lemma with_flight_ok st : queue_ok st -> queue_ok (with_flight st None).
Proof. by intros []. Qed.

Lemma with_event_ok st e : queue_ok st -> queue_ok (with_event st e).
Proof. by intros []. Qed.

Lemma with_lastLabel_ok st l : queue_ok st -> queue_ok (with_lastLabel st l).
Proof. by intros []. Qed.

Lemma advanceHead_idents q :
  (ident <$> (advanceHead q).2) `sublist_of` (ident <$> q).
Proof.
  induction q as [|h q IH]; simpl; [done|]. destruct (next _) as [[c g]|]; simpl; [done|].
  by apply sublist_cons.
Qed.

Lemma advanceHead_head q c d q' :
  advanceHead q = (Some (c, d), q') -> exists rest, q' = d :: rest.
Proof.
  induction q as [|h q IH]; simpl; [done|]. destruct (next _) as [[? ?]|]; [|done].
  intros [= <- <- <-]. eauto.
Qed.

Lemma nextToolChoice_ok st : queue_ok st -> queue_ok (nextToolChoice st).2.
Proof.
  intros Hok. unfold nextToolChoice.
  pose proof (queue_ok_sublist st _ Hok (advanceHead_idents (queue st))) as Hok'.
  destruct (advanceHead (queue st)) as [[[c d]|] q] eqn:E; simpl in *; [|done].
  destruct Hok' as [Hn Ha Hf]. constructor; simpl in *; [done..|].
  intros f [= <-]. simpl. apply advanceHead_head in E as [rest ->]. apply Ha. set_solver.
Qed.

Lemma reject_ok r st : queue_ok st -> queue_ok (reject r st).
Proof.
  intros Hok. unfold reject.
  repeat case_match; auto using with_flight_ok, with_event_ok, enqueue_ok.
Qed.

Lemma resolve_ok st : queue_ok st -> queue_ok (resolve st).
Proof.
  intros Hok. unfold resolve.
  repeat case_match; auto using with_flight_ok, with_event_ok, with_lastLabel_ok.
Qed.

Lemma degrade_ok st : queue_ok st -> queue_ok (degradeInFlight st).2.
Proof.
  intros Hok. unfold degradeInFlight. destruct (inFlight st); [|by apply with_flight_ok].
  simpl. destruct (queue st) as [|h rest] eqn:E; [by apply with_flight_ok|].
  case_decide; [|by apply with_flight_ok].
  apply (queue_ok_sublist (with_flight st None)); [by apply with_flight_ok|].
  simpl. rewrite E. simpl. by apply sublist_cons.
Qed.

Lemma removeByLabel_ok l st : queue_ok st -> queue_ok (removeByLabel l st).
Proof.
  intros Hok. unfold removeByLabel.
  set (st1 := match inFlight st with Some _ => _ | None => _ end).
  assert (queue_ok st1) by (subst st1; repeat case_match; auto using reject_ok).
  apply queue_ok_sublist; [done|].
  generalize (queue st1) as q. induction q as [|d q IH]; [done|].
  rewrite filter_cons. case_decide; simpl; [by apply sublist_skip|by apply sublist_cons].
Qed.

Lemma clear_ok st : queue_ok st -> queue_ok (clear st).
Proof.
  intros Hok. unfold clear. apply with_lastLabel_ok.
  apply queue_ok_sublist; [case_match; auto using reject_ok|apply sublist_nil_l].
Qed.

(** The public operations. *)
Inductive op : Type :=
| OpPush (g : Generator) (o : option PushOptions)
| OpNext | OpResolve
| OpReject (r : RejectReason)
| OpDegrade
| OpRemove (l : string)
| OpClear
| OpConsumeLabel.

Definition exec_op (o : op) (st : Queue) : Queue :=
  match o with
  | OpPush g opts => push g opts st
  | OpNext => (nextToolChoice st).2
  | OpResolve => resolve st
  | OpReject r => reject r st
  | OpDegrade => (degradeInFlight st).2
  | OpRemove l => removeByLabel l st
  | OpClear => clear st
  | OpConsumeLabel => (consumeLastServedLabel st).2
  end.

Lemma choice_exec_op_ok o st : queue_ok st -> queue_ok (exec_op o st).
Proof.
  destruct o; simpl; auto using nextToolChoice_ok, resolve_ok, reject_ok, degrade_ok,
    removeByLabel_ok, clear_ok, with_lastLabel_ok.
  intros. by apply enqueue_ok.
Qed.

Lemma exec_ops_ok ops : queue_ok (foldl (fun st o => exec_op o st) emptyQueue ops).
Proof.
  assert (queue_ok emptyQueue) as H by by constructor; [constructor|set_solver|].
  revert H. generalize emptyQueue as st.
  induction ops as [|o ops IH]; intros st Hok; simpl; [done|]. by apply IH, choice_exec_op_ok.
Qed.

(** ** Serving the queue *)

(** One turn that is served. *)
Definition turn (st : Queue) : option ToolChoice * Queue :=
  let '(c, st1) := nextToolChoice st in (c, resolve st1).

(** The choices of [n] served turns. *)
Fixpoint serve (n : nat) (st : Queue) : list ToolChoice :=
  match n with
  | 0 => []
  | S n => let '(c, st1) := turn st in option_list c ++ serve n st1
  end.

(** The values an iterator still has to yield. *)
Definition gen_yields (g : Generator) (l : list ToolChoice) : Prop :=
  forall i, gen_at g (gen_pos g + i) = l !! i.

Definition pending (q : list ToolChoiceDirective) (ls : list (list ToolChoice)) : Prop :=
  Forall2 (fun d l => gen_yields (generator d) l) q ls.

Lemma iter_of_yields l : gen_yields (iter_of l) l.
Proof. intros i. done. Qed.

Lemma next_spec g l :
  gen_yields g l ->
  match l with
  | [] => next g = None
  | c :: l' => exists g', next g = Some (c, g') /\ gen_yields g' l'
  end.
Proof.
  intros Hg. unfold next. pose proof (Hg 0) as H0. rewrite Nat.add_0_r in H0. rewrite H0.
  destruct l as [|c l']; simpl; [done|]. eexists. split; [done|].
  intros i. simpl. specialize (Hg (S i)). by rewrite Nat.add_succ_r in Hg.
Qed.

Lemma advanceHead_spec q ls :
  pending q ls ->
  match mjoin ls with
  | [] => advanceHead q = (None, [])
  | c :: rest => exists d q' ls', advanceHead q = (Some (c, d), q') /\ pending q' ls' /\
                   mjoin ls' = rest
  end.
Proof.
  induction 1 as [|h l q ls Hg Hq IH]; [done|]. simpl.
  pose proof (next_spec _ _ Hg) as Hn. destruct l as [|c l']; simpl.
  - by rewrite Hn.
  - destruct Hn as (g' & -> & Hg'). do 3 eexists. split_and!; [done| |].
    + by constructor.
    + done.
Qed.

Lemma resolve_queue st : queue (resolve st) = queue st.
Proof. unfold resolve. by repeat case_match. Qed.

Lemma serve_pending n st ls : pending (queue st) ls -> serve n st = take n (mjoin ls).
Proof.
  revert st ls. induction n as [|n IH]; intros st ls Hp; [done|].
  pose proof (advanceHead_spec _ _ Hp) as H. simpl. unfold turn, nextToolChoice.
  destruct (mjoin ls) as [|c rest].
  - rewrite H. simpl. rewrite (IH _ []); [by destruct n|]. rewrite resolve_queue. constructor.
  - destruct H as (d & q' & ls' & -> & Hp' & Hj). simpl. f_equal. rewrite <- Hj.
    apply IH. by rewrite resolve_queue.
Qed.

(** The order in which pushed sequences stand in the queue: [now] goes to the head. *)
Definition push_order (pushes : list (list ToolChoice * option PushOptions))
    : list (list ToolChoice) :=
  foldl (fun acc p => if now (default noOptions p.2) then p.1 :: acc else acc ++ [p.1]) [] pushes.

Definition pushAll (pushes : list (list ToolChoice * option PushOptions)) (st : Queue) : Queue :=
  foldl (fun st p => pushSequence p.1 p.2 st) st pushes.

Lemma pushAll_pending pushes st acc :
  pending (queue st) acc ->
  pending (queue (pushAll pushes st))
    (foldl (fun acc p => if now (default noOptions p.2) then p.1 :: acc else acc ++ [p.1])
       acc pushes).
Proof.
  revert st acc. induction pushes as [|[cs o] pushes IH]; intros st acc Hp; simpl; [done|].
  apply IH. unfold pushSequence, push, enqueue. simpl.
  destruct (now _); [by constructor|]. apply Forall2_app; [done|].
  by repeat constructor.
Qed.

(** Functional. Served turn after turn, the queue yields the pushed tool-choice sequences one
    after the other in queue order, each in its own order and none lost or repeated, and then
    nothing more. *)
Theorem tool_choices_served_in_order pushes n :
  serve n (pushAll pushes emptyQueue) = take n (mjoin (push_order pushes)).
Proof. apply serve_pending, pushAll_pending. constructor. Qed.

(** Error. A rejected yield whose callback answers [requeue] is replayed: the next turn
    yields exactly the lost choice, with the same invocation handler, and the turn after it goes
    on exactly where the queue stood before, with nothing lost or doubled. *)
Theorem rejected_choice_is_replayed st f h r :
  inFlight st = Some f -> onRejected (callbacks (directive f)) = Some h ->
  h {| choice := yielded f; reject_reason := r |} = Some requeue ->
  exists st2,
    nextToolChoice (reject r st) = (Some (yielded f), st2) /\
    peekInFlightInvoker st2 = peekInFlightInvoker st /\
    (nextToolChoice (resolve st2)).1 = (nextToolChoice st).1 /\
    queue (nextToolChoice (resolve st2)).2 = queue (nextToolChoice st).2.
Proof.
  intros Hf Hh Hr. unfold reject. rewrite Hf, Hh, Hr. simpl.
  eexists. split; [reflexivity|]. split; [unfold peekInFlightInvoker; by rewrite Hf|].
  unfold nextToolChoice at 1 3. rewrite resolve_queue. simpl.
  unfold nextToolChoice. by destruct (advanceHead (queue st)) as [[[??]|]?].
Qed.

(** safety. After any sequence of operations, degrading the in-flight yield clears it without
    firing a callback, so the directive has no chance to requeue itself; the queue loses at most
    that directive, and when the directive stands at the head it is gone for good. *)
Theorem degrade_bypasses_requeue ops f :
  let st := foldl (fun st o => exec_op o st) emptyQueue ops in
  inFlight st = Some f ->
  let '(l, st') := degradeInFlight st in
  l = Some (label (directive f)) /\ inFlight st' = None /\ events st' = events st /\
  queue st' `sublist_of` queue st /\
  (ident <$> head (queue st) = Some (ident (directive f)) ->
     ident (directive f) ∉ ident <$> queue st').
Proof.
  intros st Hf. pose proof (exec_ops_ok ops : queue_ok st) as Hok.
  unfold degradeInFlight. rewrite Hf. destruct (queue st) as [|h rest] eqn:E; simpl.
  - split_and!; try done; simpl; by rewrite E.
  - destruct Hok as [Hn _ _]. rewrite E in Hn. apply NoDup_cons in Hn as [Hn _].
    case_decide as Hid; simpl; rewrite ?E; split_and!; try done.
    + by apply sublist_cons.
    + by rewrite <- Hid.
    + congruence.
Qed.

End ToolChoiceQueue.

(** ** Concrete runs *)

Definition demoRequeue : option (@PushOptions string unit) :=
  Some {| now := false; opt_label := Some "user-force"%string;
          opt_callbacks := {| onResolved := false; onRejected := Some (fun _ => Some requeue);
                              onInvoked := Some tt |} |}.

Definition demoFlight : @Queue string unit :=
  (nextToolChoice (pushSequence ["edit"; "none"]%string demoRequeue emptyQueue)).2.

Lemma rejected_choice_is_replayed_witness :
  exists st2, nextToolChoice (reject aborted demoFlight) = (Some "edit"%string, st2).
Proof.
  destruct (rejected_choice_is_replayed demoFlight
    {| directive := {| ident := 0; generator := {| gen_at := fun i => ["edit"; "none"]%string !! i;
         gen_pos := 1 |}; label := "user-force"; callbacks := {| onResolved := false;
         onRejected := Some (fun _ => Some requeue); onInvoked := Some tt |} |};
       yielded := "edit"%string |} (fun _ => Some requeue) aborted eq_refl eq_refl eq_refl)
    as (st2 & H & _).
  exists st2. exact H.
Defined.

Lemma degrade_bypasses_requeue_witness :
  queue (degradeInFlight demoFlight).2 = [] /\
  inFlight (degradeInFlight demoFlight).2 = None.
Proof.
  split; [reflexivity|].
  pose proof (degrade_bypasses_requeue
    [OpPush (iter_of ["edit"; "none"]%string) demoRequeue; OpNext] _ eq_refl) as H.
  apply H.
Defined.
