(* ===== verification/YieldQueue.v ===== *)
(** * The yield queue (session/yield-queue.ts)

    Entries of several kinds wait here until the session yields; a flush turns them into messages
    through the dispatcher registered for their kind, one message per contiguous run of entries of
    the same origin. The dispatchers' callbacks are functions that may throw. What the queue hands
    to its environment is recorded: the messages injected while streaming, the batches injected
    when idle, the dropped entries, and the idle flushes that are scheduled and have not run. The
    answers of the environment (is the session streaming, does scheduling throw, is idle delivery
    admitted) are arguments of the operations that ask for them. *)
From S2P Require Import Prelude JsMap.

Inductive Admission : Type := admitted | refusedTerminal | refusedForNow.

Section YieldQueue.
Context {Entry Message : Type}.

Record YieldDispatcher : Type := {
  isStale : option (Entry -> result string bool);
  groupKey : option (Entry -> result string string);
  build : list Entry -> result string (option Message)
}.

Record YieldQueue : Type := {
  dispatchers : jsmap string (nat * YieldDispatcher);
  entries : jsmap string (list Entry);
  idleFlushPending : bool;
  idleFlushPendingOwner : option nat;
  (** how many registration objects and owner symbols were made *)
  registrations : nat;
  symbols : nat;
  (** the environment *)
  scheduled : list nat;
  streamed : list Message;
  idleBatches : list (list Message);
  dropped : list (string * list Entry)
}.

Definition newQueue : YieldQueue :=
  {| dispatchers := []; entries := []; idleFlushPending := false; idleFlushPendingOwner := None;
     registrations := 0; symbols := 0; scheduled := []; streamed := []; idleBatches := [];
     dropped := [] |}.

Definition with_maps (q : YieldQueue) (ds : jsmap string (nat * YieldDispatcher))
    (es : jsmap string (list Entry)) (regs : nat) : YieldQueue :=
  {| dispatchers := ds; entries := es; idleFlushPending := idleFlushPending q;
     idleFlushPendingOwner := idleFlushPendingOwner q; registrations := regs;
     symbols := symbols q; scheduled := scheduled q; streamed := streamed q;
     idleBatches := idleBatches q; dropped := dropped q |}.

Definition with_entries (q : YieldQueue) (es : jsmap string (list Entry)) : YieldQueue :=
  with_maps q (dispatchers q) es (registrations q).

Definition with_pending (q : YieldQueue) (b : bool) (o : option nat) (syms : nat) (sch : list nat)
    : YieldQueue :=
  {| dispatchers := dispatchers q; entries := entries q; idleFlushPending := b;
     idleFlushPendingOwner := o; registrations := registrations q; symbols := syms;
     scheduled := sch; streamed := streamed q; idleBatches := idleBatches q;
     dropped := dropped q |}.

Definition with_output (q : YieldQueue) (s : list Message) (i : list (list Message))
    (d : list (string * list Entry)) : YieldQueue :=
  {| dispatchers := dispatchers q; entries := entries q; idleFlushPending := idleFlushPending q;
     idleFlushPendingOwner := idleFlushPendingOwner q; registrations := registrations q;
     symbols := symbols q; scheduled := scheduled q; streamed := s; idleBatches := i;
     dropped := d |}.

(** Returns the registration the unregister function closes over. *)
Definition register (kind : string) (d : YieldDispatcher) (q : YieldQueue) : nat * YieldQueue :=
  (registrations q,
   with_maps q (m_set kind (registrations q, d) (dispatchers q)) (entries q)
     (S (registrations q))).

Definition unregister (kind : string) (stored : nat) (q : YieldQueue) : YieldQueue :=
  match m_get kind (dispatchers q) with
  | Some (s, _) =>
      if decide (s = stored)
      then with_maps q (m_delete kind (dispatchers q)) (m_delete kind (entries q)) (registrations q)
      else q
  | None => q
  end.

Definition releaseOwner (owner : nat) (q : YieldQueue) : YieldQueue :=
  if decide (idleFlushPendingOwner q = Some owner)
  then with_pending q false None (symbols q) (scheduled q) else q.

(** [scheduleThrows]: whether the environment's scheduler throws. *)
Definition scheduleIdleFlush (scheduleThrows : bool) (q : YieldQueue) : YieldQueue :=
  if idleFlushPending q then q
  else
    let owner := symbols q in
    let q1 := with_pending q true (Some owner) (S owner) (scheduled q) in
    if scheduleThrows then releaseOwner owner q1
    else with_pending q1 true (Some owner) (S owner) (scheduled q ++ [owner]).

Definition enqueue (kind : string) (entry : Entry) (streaming scheduleThrows : bool)
    (q : YieldQueue) : YieldQueue :=
  if negb (m_has kind (dispatchers q)) then q
  else
    let q1 := with_entries q
      (m_set kind (default [] (m_get kind (entries q)) ++ [entry]) (entries q)) in
    if negb streaming then scheduleIdleFlush scheduleThrows q1 else q1.

Definition has (kind : option string) (q : YieldQueue) : bool :=
  match kind with
  | Some k => match m_get k (entries q) with Some (_ :: _) => true | _ => false end
  | None => existsb (fun e => negb (bool_decide (e.2 = []))) (entries q)
  end.

(** Whether an entry is delivered; a stale check that throws drops it. *)
Definition survives (d : YieldDispatcher) (e : Entry) : bool :=
  match isStale d with
  | None => true
  | Some f => match f e with Ok stale => negb stale | Throw _ => false end
  end.

Definition survivorsOf (d : YieldDispatcher) (es : list Entry) : list Entry :=
  filter (fun e => survives d e = true) es.

Fixpoint push_last {A} (groups : list (list A)) (e : A) : list (list A) :=
  match groups with
  | [] => []
  | [g] => [g ++ [e]]
  | g :: gs => g :: push_last gs e
  end.

Definition groupStep (d : YieldDispatcher) (acc : list (list Entry) * option string) (e : Entry)
    : result string (list (list Entry) * option string) :=
  let '(groups, current) := acc in
  key ← match groupKey d with Some f => f e | None => Ok "default"%string end;
  if bool_decide (groups <> []) && bool_decide (current = Some key)
  then Ok (push_last groups e, current)
  else Ok (groups ++ [[e]], Some key).

Definition groupRuns (d : YieldDispatcher) (survivors : list Entry) : result string (list (list Entry)) :=
  acc ← foldM (groupStep d) ([], None) survivors; Ok acc.1.

(** Messages of the groups; a build that throws or answers null is skipped. *)
Definition buildGroups (d : YieldDispatcher) (groups : list (list Entry)) : list Message :=
  flat_map (fun g => match build d g with Ok (Some m) => [m] | _ => [] end) groups.

(** [#build]; its [null] is the empty list of messages. *)
Definition buildMessages (d : YieldDispatcher) (es : list Entry) : result string (list Message) :=
  match survivorsOf d es with
  | [] => Ok []
  | survivors => groups ← groupRuns d survivors; Ok (buildGroups d groups)
  end.

Definition drain (kind : string) (q : YieldQueue) : list Entry * YieldQueue :=
  match m_get kind (entries q) with
  | None | Some [] => ([], q)
  | Some es => (es, with_entries q (m_delete kind (entries q)))
  end.

(** The loop of [#flushEntries] over the dispatchers; [idle] collects the idle messages. *)
Fixpoint flushKinds (streamingMode : bool) (ds : jsmap string (nat * YieldDispatcher))
    (idle : list Message) (q : YieldQueue) : result string (list Message) * YieldQueue :=
  match ds with
  | [] => (Ok idle, q)
  | (kind, (_, d)) :: ds' =>
      let '(es, q1) := drain kind q in
      match es with
      | [] => flushKinds streamingMode ds' idle q1
      | _ =>
          match buildMessages d es with
          | Throw e => (Throw e, q1)
          | Ok ms =>
              if streamingMode
              then flushKinds streamingMode ds' idle
                     (with_output q1 (streamed q1 ++ ms) (idleBatches q1) (dropped q1))
              else flushKinds streamingMode ds' (idle ++ ms) q1
          end
      end
  end.

Definition flushEntries (streamingMode : bool) (q : YieldQueue) : result string unit * YieldQueue :=
  match flushKinds streamingMode (dispatchers q) [] q with
  | (Throw e, q1) => (Throw e, q1)
  | (Ok idle, q1) =>
      match streamingMode, idle with
      | false, _ :: _ =>
          (Ok tt, with_output q1 (streamed q1) (idleBatches q1 ++ [idle]) (dropped q1))
      | _, _ => (Ok tt, q1)
      end
  end.

Definition clear (q : YieldQueue) : YieldQueue :=
  with_pending (with_entries q []) false None (symbols q) (scheduled q).

(** [clear] with an [onDrop] that records. *)
Definition clearDropping (q : YieldQueue) : YieldQueue :=
  clear (with_output q (streamed q) (idleBatches q) (dropped q ++ entries q)).

Definition clearKind (kind : string) (q : YieldQueue) : YieldQueue :=
  with_entries q (m_delete kind (entries q)).

(** [flush("streaming")]: a throw rejects the promise. *)
Definition flushStreaming (q : YieldQueue) : result string unit * YieldQueue := flushEntries true q.

(** [flush("idle")]: every throw is caught. *)
Definition flushIdle (a : Admission) (q : YieldQueue) : YieldQueue :=
  let q1 := with_pending q false None (symbols q) (scheduled q) in
  match a with
  | admitted => (flushEntries false q1).2
  | refusedTerminal => clearDropping q1
  | refusedForNow => q1
  end.

Definition rearmIdle (streaming scheduleThrows : bool) (q : YieldQueue) : YieldQueue :=
  if streaming then q
  else if has None q then scheduleIdleFlush scheduleThrows q else q.

(** The environment runs the idle flush scheduled for [owner]. *)
Definition runScheduled (owner : nat) (streaming : bool) (a : Admission) (q : YieldQueue) : YieldQueue :=
  let q1 := releaseOwner owner
    (with_pending q (idleFlushPending q) (idleFlushPendingOwner q) (symbols q)
       (filter (fun o => o <> owner) (scheduled q))) in
  if streaming then q1 else flushIdle a q1.

(** The environment skips it. *)
Definition skipScheduled (owner : nat) (q : YieldQueue) : YieldQueue :=
  releaseOwner owner
    (with_pending q (idleFlushPending q) (idleFlushPendingOwner q) (symbols q)
       (filter (fun o => o <> owner) (scheduled q))).

(** ** Runs of one origin *)

(** The origin of an entry, for dispatchers whose [groupKey] does not throw. *)
Definition keyIs (d : YieldDispatcher) (k : string) (e : Entry) : Prop :=
  match groupKey d with Some f => f e | None => Ok "default"%string end = Ok k.

(** [groups] cuts a list into runs: each is not empty and of one origin, and neighbours differ. *)
Inductive runs (d : YieldDispatcher) : list (list Entry) -> Prop :=
| runs_nil : runs d []
| runs_one g k : g <> [] -> Forall (keyIs d k) g -> runs d [g]
| runs_cons g k g' k' gs :
    g <> [] -> Forall (keyIs d k) g -> Forall (keyIs d k') g' -> k <> k' ->
    runs d (g' :: gs) -> runs d (g :: g' :: gs).

Lemma runs_inv d h gs :
  runs d (h :: gs) -> h <> [] /\ exists k, Forall (keyIs d k) h /\
    (gs = [] \/ exists g' gs' k', gs = g' :: gs' /\ Forall (keyIs d k') g' /\ k <> k' /\ runs d gs).
Proof. inversion 1; subst; (split; [done|]); eexists; split; eauto 8. Qed.

Lemma push_last_snoc {A} (gs : list (list A)) g e : push_last (gs ++ [g]) e = gs ++ [g ++ [e]].
Proof.
  induction gs as [|h gs IH]; simpl; [done|]. rewrite IH. by destruct gs.
Qed.

Lemma runs_snoc_extend d gs g k e :
  runs d (gs ++ [g]) -> Forall (keyIs d k) g -> g <> [] -> keyIs d k e -> runs d (gs ++ [g ++ [e]]).
Proof.
  intros Hr Hg Hne He. assert (Forall (keyIs d k) (g ++ [e])) as Hge.
  { apply Forall_app. split; [done|]. by apply Forall_singleton. }
  assert (forall k', Forall (keyIs d k') g -> k' = k) as Huniq.
  { intros k' Hk'. destruct g as [|x g]; [done|]. apply Forall_cons in Hg as [H1 _].
    apply Forall_cons in Hk' as [H2 _]. unfold keyIs in *. congruence. }
  induction gs as [|h gs IH]; simpl in *.
  - econstructor; [by destruct g|exact Hge].
  - apply runs_inv in Hr as (Hh & kh & Hfh & [E|(g' & gs' & k' & E & Hfg & Hneq & Hr')]);
      [by destruct gs|].
    destruct gs as [|h' gs]; simpl in *; injection E as <- <-.
    + apply Huniq in Hfg as ->.
      eapply runs_cons; [done|exact Hfh|exact Hge|done|]. econstructor; [by destruct g|exact Hge].
    + eapply runs_cons; [done|exact Hfh|exact Hfg|done|]. by apply IH.
Qed.

Lemma runs_snoc_new d gs g k e k' :
  runs d (gs ++ [g]) -> Forall (keyIs d k) g -> g <> [] -> keyIs d k' e -> k <> k' ->
  runs d ((gs ++ [g]) ++ [[e]]).
Proof.
  intros Hr Hg Hne He Hk. assert (runs d [[e]]) as H1.
  { econstructor; [done|]. by apply Forall_singleton. }
  induction gs as [|h gs IH]; simpl in *.
  - eapply runs_cons; [done|exact Hg| |exact Hk|done]. by apply Forall_singleton.
  - apply runs_inv in Hr as (Hh & kh & Hfh & [E|(g' & gs' & kk & E & Hfg & Hneq & Hr')]);
      [by destruct gs|].
    destruct gs as [|h' gs]; simpl in *; injection E as <- <-;
      (eapply runs_cons; [done|exact Hfh|exact Hfg|done|]); by apply IH.
Qed.

(** The state of the grouping loop. *)
Definition group_inv (d : YieldDispatcher) (done_ : list Entry)
    (acc : list (list Entry) * option string) : Prop :=
  runs d acc.1 /\ mjoin acc.1 = done_ /\
  (acc.1 = [] \/ exists gs g k, acc.1 = gs ++ [g] /\ g <> [] /\ acc.2 = Some k /\ Forall (keyIs d k) g).

Lemma mjoin_snoc {A} (gs : list (list A)) g : mjoin (gs ++ [g]) = mjoin gs ++ g.
Proof. rewrite join_app. simpl. by rewrite app_nil_r. Qed.

Lemma groupStep_inv d done_ acc e k :
  group_inv d done_ acc -> keyIs d k e ->
  exists acc', groupStep d acc e = Ok acc' /\ group_inv d (done_ ++ [e]) acc'.
Proof.
  intros (Hr & Hj & Hl) Hk. destruct acc as [groups current]. unfold groupStep. simpl in *.
  assert (match groupKey d with Some f => f e | None => Ok "default"%string end = Ok k) as -> by done.
  simpl. destruct Hl as [->|(gs & g & k0 & -> & Hg & -> & Hf)].
  - simpl. eexists. split; [done|]. simpl in *. subst done_. split_and!; [|done|].
    + econstructor; [done|]. by apply Forall_singleton.
    + right. exists [], [e], k. split_and!; try done. by apply Forall_singleton.
  - rewrite bool_decide_eq_true_2 by by destruct gs. simpl.
    destruct (decide (k0 = k)) as [->|Hne].
    + rewrite bool_decide_eq_true_2 by done. eexists. split; [done|]. rewrite push_last_snoc.
      split_and!; [by eapply runs_snoc_extend| |].
      * simpl. rewrite mjoin_snoc, app_assoc. rewrite mjoin_snoc in Hj. by rewrite Hj.
      * right. exists gs, (g ++ [e]), k. split_and!; try done; [by destruct g|].
        apply Forall_app. split; [done|]. by apply Forall_singleton.
    + rewrite bool_decide_eq_false_2 by congruence. eexists. split; [done|]. simpl.
      split_and!; [by eapply runs_snoc_new|by simpl; rewrite mjoin_snoc, Hj|].
      right. exists (gs ++ [g]), [e], k. split_and!; try done. by apply Forall_singleton.
Qed.

Lemma groupRuns_spec d es :
  (forall e, exists k, keyIs d k e) ->
  exists groups, groupRuns d es = Ok groups /\ runs d groups /\ mjoin groups = es.
Proof.
  intros Hk. unfold groupRuns.
  assert (forall rest done_ acc, group_inv d done_ acc ->
    exists acc', foldM (groupStep d) acc rest = Ok acc' /\ group_inv d (done_ ++ rest) acc') as Hloop.
  { induction rest as [|e rest IH]; intros done_ acc Hinv; simpl.
    - exists acc. by rewrite app_nil_r.
    - destruct (Hk e) as [k Hke]. destruct (groupStep_inv d _ _ _ _ Hinv Hke) as (acc1 & -> & Hinv1).
      simpl. destruct (IH _ _ Hinv1) as (acc2 & -> & Hinv2). exists acc2. split; [done|].
      by rewrite <- app_assoc in Hinv2. }
  destruct (Hloop es [] ([], None)) as (acc' & -> & Hr & Hj & _).
  { split_and!; [constructor|done|by left]. }
  exists acc'.1. done.
Qed.

(** ** Flushing *)

(** The messages a dispatcher makes of the waiting entries of its kind: those that are not stale,
    cut into runs of one origin, each built. *)
Definition delivers (d : YieldDispatcher) (es : list Entry) (ms : list Message) : Prop :=
  exists groups, runs d groups /\ mjoin groups = survivorsOf d es /\ ms = buildGroups d groups.

Definition total_keys (ds : jsmap string (nat * YieldDispatcher)) : Prop :=
  Forall (fun x => forall e, exists k, keyIs x.2.2 k e) ds.

Definition waiting (q : YieldQueue) (kind : string) : list Entry := default [] (m_get kind (entries q)).

Lemma buildMessages_spec d es :
  (forall e, exists k, keyIs d k e) -> exists ms, buildMessages d es = Ok ms /\ delivers d es ms.
Proof.
  intros Hk. unfold buildMessages. destruct (groupRuns_spec d (survivorsOf d es) Hk) as (gs & E & Hr & Hj).
  destruct (survivorsOf d es) as [|e l] eqn:Es.
  - exists []. split; [done|]. exists []. rewrite Es. split_and!; [constructor|done..].
  - rewrite E. simpl. eexists. split; [done|]. exists gs. by rewrite Es.
Qed.

Lemma delivers_nil d : delivers d [] [].
Proof. exists []. split_and!; [constructor|done..]. Qed.

(** What flushing leaves alone. *)
Definition same_state (q q' : YieldQueue) : Prop :=
  dispatchers q' = dispatchers q /\ idleFlushPending q' = idleFlushPending q /\
  idleFlushPendingOwner q' = idleFlushPendingOwner q /\ symbols q' = symbols q /\
  scheduled q' = scheduled q /\ registrations q' = registrations q.

Lemma drain_spec kind q :
  let '(es, q1) := drain kind q in
  es = waiting q kind /\ same_state q q1 /\
  waiting q1 kind = [] /\ (forall k, k <> kind -> m_get k (entries q1) = m_get k (entries q)) /\
  streamed q1 = streamed q /\ idleBatches q1 = idleBatches q /\ dropped q1 = dropped q.
Proof.
  unfold drain, waiting. destruct (m_get kind (entries q)) as [[|e es]|] eqn:E; simpl;
    rewrite ?E, ?m_get_delete_eq; split_and!; try done.
  intros k Hk. by apply m_get_delete_ne.
Qed.

(** The effect of the flush loop over [ds]: the batches of messages, one per dispatcher in order,
    are streamed or added to the idle messages, and the entries of those kinds are gone. *)
Record flushed (mode : bool) (ds : jsmap string (nat * YieldDispatcher)) (idle : list Message)
    (q : YieldQueue) (batches : list (list Message)) (idle' : list Message) (q' : YieldQueue)
    : Prop := {
  fl_all : Forall2 (fun x ms => delivers x.2.2 (waiting q x.1) ms) ds batches;
  fl_idle : idle' = if mode then idle else idle ++ mjoin batches;
  fl_streamed : streamed q' = if mode then streamed q ++ mjoin batches else streamed q;
  fl_state : same_state q q';
  fl_batches : idleBatches q' = idleBatches q;
  fl_dropped : dropped q' = dropped q;
  fl_waiting : forall k, waiting q' k = if decide (k ∈ ds.*1) then [] else waiting q k
}.

Lemma flushed_nil mode idle q : flushed mode [] idle q [] idle q.
Proof.
  constructor; try done; simpl; rewrite ?app_nil_r; by destruct mode.
Qed.

(** One dispatcher, then the rest, from a queue [q2] in which its kind is drained. *)
Lemma flushed_cons (mode : bool) (kind : string) n d (ds : jsmap string (nat * YieldDispatcher)) idle q q2
    ms batches idle' q' :
  (kind ∉ ds.*1) -> delivers d (waiting q kind) ms ->
  (forall k, waiting q2 k = if decide (k = kind) then [] else waiting q k) -> same_state q q2 ->
  idleBatches q2 = idleBatches q -> dropped q2 = dropped q ->
  streamed q2 = (if mode then streamed q ++ ms else streamed q) ->
  flushed mode ds (if mode then idle else idle ++ ms) q2 batches idle' q' ->
  flushed mode ((kind, (n, d)) :: ds) idle q (ms :: batches) idle' q'.
Proof.
  intros Hkind Hms Hw2 Hst2 Hb2 Hd2 Hs2 [Hall Hidle Hstr Hst Hb Hd Hw].
  constructor; simpl.
  - constructor; [done|]. apply Forall2_same_length_lookup_2; [by eapply Forall2_length|].
    intros i x y Hx Hy. assert (x.1 <> kind) as Hne.
    { intros E. apply Hkind, list_elem_of_fmap. exists x. split; [done|].
      by eapply list_elem_of_lookup_2. }
    rewrite <- (decide_False (P := x.1 = kind) [] (waiting q x.1) Hne), <- Hw2.
    by eapply (Forall2_lookup_lr _ _ _ _ _ _ Hall).
  - rewrite Hidle. destruct mode; by rewrite ?app_assoc.
  - rewrite Hstr, Hs2. destruct mode; by rewrite ?app_assoc.
  - destruct Hst2 as (?&?&?&?&?&?), Hst as (?&?&?&?&?&?). unfold same_state. split_and!; congruence.
  - congruence.
  - congruence.
  - intros k. rewrite Hw, Hw2. destruct (decide (k = kind)) as [->|Hk].
    + rewrite (decide_True (P := kind ∈ kind :: _)) by left. by case_decide.
    + destruct (decide (k ∈ ds.*1)); [by rewrite decide_True by by right|].
      rewrite decide_False; [done|]. by intros [?|?]%elem_of_cons.
Qed.

Lemma flushKinds_spec mode ds idle q :
  NoDup ds.*1 -> total_keys ds ->
  exists batches idle' q',
    flushKinds mode ds idle q = (Ok idle', q') /\ flushed mode ds idle q batches idle' q'.
Proof.
  revert idle q. induction ds as [|[kind [n d]] ds IH]; intros idle q Hnd Htot.
  { exists [], idle, q. split; [done|]. apply flushed_nil. }
  apply NoDup_cons in Hnd as [Hkind Hnd]. apply Forall_cons in Htot as [Hd Htot].
  pose proof (drain_spec kind q) as Hdr. simpl. destruct (drain kind q) as [es q1].
  destruct Hdr as (Hes & Hst & Hw & Hoth & Hstr & Hidl & Hdrop).
  assert (forall k, waiting q1 k = if decide (k = kind) then [] else waiting q k) as Hw1.
  { intros k. case_decide as E; [by subst|]. unfold waiting. by rewrite Hoth. }
  destruct es as [|e es].
  - destruct (IH idle q1 Hnd Htot) as (batches & idle' & q' & Hf & Hfl).
    exists ([] :: batches), idle', q'. split; [done|].
    apply (flushed_cons _ _ _ _ _ _ _ q1); try done; rewrite ?app_nil_r; try by destruct mode.
    rewrite <- Hes. apply delivers_nil.
  - destruct (buildMessages_spec d (e :: es) Hd) as (ms & -> & Hms). rewrite Hes in Hms.
    destruct mode.
    + set (q2 := with_output q1 _ _ _).
      destruct (IH idle q2 Hnd Htot) as (batches & idle' & q' & Hf & Hfl).
      exists (ms :: batches), idle', q'. split; [done|].
      apply (flushed_cons _ _ _ _ _ _ _ q2); try done. simpl. by rewrite Hstr.
    + destruct (IH (idle ++ ms) q1 Hnd Htot) as (batches & idle' & q' & Hf & Hfl).
      exists (ms :: batches), idle', q'. split; [done|]. by apply (flushed_cons _ _ _ _ _ _ _ q1).
Qed.

(** ** The queue invariant *)

Record queue_ok (q : YieldQueue) : Prop := {
  qo_dispatchers : NoDup (dispatchers q).*1;
  qo_registered : forall k, k ∈ (entries q).*1 -> k ∈ (dispatchers q).*1;
  qo_nonempty : Forall (fun e => e.2 <> []) (entries q);
  qo_pending : idleFlushPending q = bool_decide (is_Some (idleFlushPendingOwner q));
  qo_owner : forall o, idleFlushPendingOwner q = Some o -> o ∈ scheduled q;
  qo_symbols : Forall (fun o => o < symbols q) (scheduled q)
}.

Inductive op : Type :=
| OpRegister (kind : string) (d : YieldDispatcher)
| OpUnregister (kind : string) (stored : nat)
| OpEnqueue (kind : string) (e : Entry) (streaming throws : bool)
| OpFlushStreaming
| OpFlushIdle (a : Admission)
| OpClear
| OpClearKind (kind : string)
| OpRearm (streaming throws : bool)
| OpRun (owner : nat) (streaming : bool) (a : Admission)
| OpSkip (owner : nat).

Definition exec_op (o : op) (q : YieldQueue) : YieldQueue :=
  match o with
  | OpRegister kind d => (register kind d q).2
  | OpUnregister kind stored => unregister kind stored q
  | OpEnqueue kind e s t => enqueue kind e s t q
  | OpFlushStreaming => (flushStreaming q).2
  | OpFlushIdle a => flushIdle a q
  | OpClear => clear q
  | OpClearKind kind => clearKind kind q
  | OpRearm s t => rearmIdle s t q
  | OpRun owner s a => runScheduled owner s a q
  | OpSkip owner => skipScheduled owner q
  end.

Lemma m_delete_Forall {V} (P : string * V -> Prop) k (m : jsmap string V) :
  Forall P m -> Forall P (m_delete k m).
Proof.
  intros H. unfold m_delete. apply Forall_forall. intros x [_ Hx]%list_elem_of_filter.
  rewrite Forall_forall in H. by apply H.
Qed.

(** Dropping kinds from the waiting entries. *)
Lemma delete_entries_ok kind q : queue_ok q -> queue_ok (with_entries q (m_delete kind (entries q))).
Proof.
  intros []. constructor; simpl; try done; [|by apply m_delete_Forall].
  intros k [_ ?]%m_delete_keys. auto.
Qed.

Lemma no_entries_ok q : queue_ok q -> queue_ok (with_entries q []).
Proof. intros []. constructor; simpl; try done. by intros k ?%elem_of_nil. Qed.

Lemma with_output_ok q s i d : queue_ok q -> queue_ok (with_output q s i d).
Proof. by intros []. Qed.

(** Clearing the pending flag. *)
Lemma not_pending_ok q : queue_ok q -> queue_ok (with_pending q false None (symbols q) (scheduled q)).
Proof. by intros []. Qed.

Lemma drain_ok kind q : queue_ok q -> queue_ok (drain kind q).2.
Proof. intros Hok. unfold drain. repeat case_match; try done. by apply delete_entries_ok. Qed.

Lemma flushKinds_ok mode ds idle q : queue_ok q -> queue_ok (flushKinds mode ds idle q).2.
Proof.
  revert idle q. induction ds as [|[kind [n d]] ds IH]; intros idle q Hok; simpl; [done|].
  pose proof (drain_ok kind q Hok) as Hok1. destruct (drain kind q) as [[|e es] q1]; simpl in Hok1; [by apply IH|].
  destruct (buildMessages d (e :: es)); [|done]. destruct mode; [|by apply IH].
  by apply IH, with_output_ok.
Qed.

Lemma flushEntries_ok mode q : queue_ok q -> queue_ok (flushEntries mode q).2.
Proof.
  intros Hok. unfold flushEntries. pose proof (flushKinds_ok mode (dispatchers q) [] q Hok) as H.
  destruct (flushKinds mode (dispatchers q) [] q) as [[idle|e] q1]; simpl in H; [|done].
  destruct mode, idle; try done. by apply with_output_ok.
Qed.

Lemma flushIdle_ok a q : queue_ok q -> queue_ok (flushIdle a q).
Proof.
  intros Hok%not_pending_ok. destruct a; simpl; [by apply flushEntries_ok| |done].
  exact (not_pending_ok _ (no_entries_ok _ (with_output_ok _ _ _ _ Hok))).
Qed.

Lemma schedule_ok throws q : queue_ok q -> queue_ok (scheduleIdleFlush throws q).
Proof.
  intros Hok. unfold scheduleIdleFlush. destruct (idleFlushPending q) eqn:Hp; [done|].
  destruct Hok as [H1 H2 H3 H4 H5 H6].
  assert (Forall (fun o => o < S (symbols q)) (scheduled q)) as Hlt.
  { eapply Forall_impl; [exact H6|]. simpl. lia. }
  destruct throws; simpl.
  - unfold releaseOwner. simpl. rewrite decide_True by done. constructor; simpl; done.
  - constructor; simpl; try done.
    + intros o [= <-]. apply elem_of_app. right. by apply list_elem_of_singleton.
    + apply Forall_app. split; [done|]. apply Forall_singleton. lia.
Qed.

(** A scheduled flush leaves the list and gives up the flag it holds. *)
Lemma release_ok owner q : queue_ok q -> queue_ok (skipScheduled owner q).
Proof.
  intros [H1 H2 H3 H4 H5 H6]. unfold skipScheduled, releaseOwner. simpl.
  assert (Forall (fun o => o < symbols q) (filter (fun o => o <> owner) (scheduled q))) as Hf.
  { apply Forall_forall. intros o [_ Ho]%list_elem_of_filter. rewrite Forall_forall in H6. auto. }
  case_decide as E; constructor; simpl; try done.
  intros o Ho. apply list_elem_of_filter. split; [congruence|auto].
Qed.

Lemma yq_exec_op_ok o q : queue_ok q -> queue_ok (exec_op o q).
Proof.
  intros Hok. destruct o; simpl.
  - destruct Hok as [H1 H2 H3 H4 H5 H6]. constructor; simpl; try done; [by apply m_set_NoDup|].
    intros k Hk. apply m_set_keys. auto.
  - unfold unregister. destruct (m_get kind (dispatchers q)) as [[s d]|]; [|done].
    case_decide; [|done]. destruct Hok as [H1 H2 H3 H4 H5 H6].
    constructor; simpl; try done; [by apply m_delete_NoDup| |by apply m_delete_Forall].
    intros k [? Hk]%m_delete_keys. apply m_delete_keys. auto.
  - unfold enqueue. destruct (m_has kind (dispatchers q)) eqn:Hh; [|done]. simpl.
    apply m_has_spec in Hh.
    set (q1 := with_entries q _). assert (queue_ok q1) as Hok1.
    { destruct Hok as [H1 H2 H3 H4 H5 H6]. constructor; simpl; try done.
      - intros k [->|?]%m_set_keys; auto.
      - apply m_set_Forall; [done|]. simpl. by destruct (default [] _). }
    destruct streaming; simpl; [done|]. by apply schedule_ok.
  - by apply flushEntries_ok.
  - by apply flushIdle_ok.
  - by apply (not_pending_ok (with_entries q [])), no_entries_ok.
  - by apply delete_entries_ok.
  - unfold rearmIdle. destruct streaming; [done|]. case_match; [by apply schedule_ok|done].
  - unfold runScheduled. pose proof (release_ok owner q Hok) as H. unfold skipScheduled in H.
    destruct streaming; [done|]. by apply flushIdle_ok.
  - by apply release_ok.
Qed.

Definition run (ops : list op) : YieldQueue := foldl (fun q o => exec_op o q) newQueue ops.

Lemma yq_run_ok ops : queue_ok (run ops).
Proof.
  assert (queue_ok newQueue) as H by (constructor; simpl; try done; constructor).
  unfold run. revert H. generalize newQueue as q.
  induction ops as [|o ops IH]; intros q Hok; simpl; [done|]. by apply IH, yq_exec_op_ok.
Qed.

(** Functional. A flush delivers everything that waits: whatever led to the queue, as long as
    no origin key throws, flushing streams, for each registered kind in order, one message per
    contiguous run of entries of the same origin, made of exactly the entries that are not stale
    in the order they were queued; afterwards nothing waits and nothing else was changed. *)
Theorem flush_delivers_everything ops :
  let q := run ops in
  total_keys (dispatchers q) ->
  exists batches q',
    flushStreaming q = (Ok tt, q') /\
    Forall2 (fun x ms => delivers x.2.2 (waiting q x.1) ms) (dispatchers q) batches /\
    streamed q' = streamed q ++ mjoin batches /\
    has None q' = false /\ same_state q q'.
Proof.
  intros q Htot. pose proof (yq_run_ok ops : queue_ok q) as Hok.
  destruct (flushKinds_spec true (dispatchers q) [] q (qo_dispatchers _ Hok) Htot)
    as (batches & idle' & q' & Hf & [Hall Hidle Hstr Hst Hb Hd Hw]).
  exists batches, q'. unfold flushStreaming, flushEntries. rewrite Hf. simpl.
  split_and!; try done. pose proof (flushKinds_ok true (dispatchers q) [] q Hok) as Hok'.
  rewrite Hf in Hok'. simpl in Hok'. unfold has.
  destruct (entries q') as [|[k es] rest] eqn:E; [done|]. exfalso.
  specialize (Hw k). rewrite decide_True in Hw.
  - unfold waiting in Hw. rewrite E in Hw. simpl in Hw. rewrite decide_True in Hw by done.
    simpl in Hw. pose proof (qo_nonempty _ Hok') as Hne. rewrite E in Hne.
    apply Forall_cons in Hne as [Hne _]. by simpl in Hne.
  - destruct Hst as (<- & _). apply (qo_registered _ Hok'). rewrite E. simpl. left.
Qed.

(** Liveness. An entry queued while the session is idle is never stranded: whatever led to
    the queue, after a successful enqueue of a registered kind the entry waits, an idle flush is
    pending, and the flush that owns the pending flag is one the environment still has to run. *)
Theorem idle_enqueue_is_scheduled ops kind e :
  let q := enqueue kind e false false (run ops) in
  kind ∈ (dispatchers (run ops)).*1 ->
  last (waiting q kind) = Some e /\ idleFlushPending q = true /\
  exists owner, idleFlushPendingOwner q = Some owner /\ owner ∈ scheduled q.
Proof.
  intros q Hk. assert (queue_ok q) as Hok by apply (yq_exec_op_ok (OpEnqueue kind e false false)), yq_run_ok.
  pose proof (yq_run_ok ops) as Hok0.
  assert (waiting q kind = waiting (run ops) kind ++ [e] /\ idleFlushPending q = true) as [Hw Hp].
  { subst q. unfold enqueue. apply m_has_spec in Hk as ->. simpl. unfold scheduleIdleFlush. simpl.
    destruct (idleFlushPending (run ops)) eqn:E; unfold waiting; simpl; by rewrite m_get_set_eq. }
  split_and!; [by rewrite Hw, last_snoc|done|].
  pose proof (qo_pending _ Hok) as Ho. rewrite Hp in Ho. symmetry in Ho.
  apply bool_decide_eq_true in Ho as [o Ho]. exists o. split; [done|]. by apply (qo_owner _ Hok).
Qed.

End YieldQueue.

(** ** A concrete queue *)

(** Entries are (origin, text); a message is the concatenation of a run's texts. *)
Definition demoDispatcher : @YieldDispatcher (string * string) string :=
  {| isStale := Some (fun e => if decide (e.2 = "stale"%string) then Ok true else Ok false);
     groupKey := Some (fun e => Ok e.1);
     build := fun g => Ok (Some (String.concat "," g.*2)) |}.

Definition demoYieldOps : list (@op (string * string) string) :=
  [OpRegister "async" demoDispatcher; OpEnqueue "async" ("A", "a1") true false;
   OpEnqueue "async" ("B", "b1") true false; OpEnqueue "async" ("A", "stale") true false;
   OpEnqueue "async" ("B", "b2") true false; OpEnqueue "async" ("A", "a2") true false]%string.

Lemma flush_delivers_everything_witness :
  exists q', flushStreaming (run demoYieldOps) = (Ok tt, q') /\ has None q' = false /\
    streamed q' = ["a1"; "b1,b2"; "a2"]%string.
Proof.
  destruct (flush_delivers_everything demoYieldOps) as (batches & q' & H1 & _ & _ & H2 & _).
  { constructor; [|constructor]. intros e. exists e.1. reflexivity. }
  exists q'. split; [exact H1|]. split; [exact H2|]. injection H1 as <-. vm_compute. reflexivity.
Defined.

Lemma idle_enqueue_is_scheduled_witness :
  idleFlushPending (enqueue "async" ("A", "a3")%string false false (run demoYieldOps)) = true.
Proof.
  apply (idle_enqueue_is_scheduled demoYieldOps "async" ("A", "a3")%string).
  vm_compute. left.
Defined.

(** An origin key that throws loses what an idle flush has drained: the entries of the kinds
    flushed before are neither delivered nor kept. *)
Definition throwingDispatcher : @YieldDispatcher (string * string) string :=
  {| isStale := None; groupKey := Some (fun _ => Throw "boom"%string);
     build := fun g => Ok (Some ""%string) |}.

Lemma throwing_key_loses_other_kinds :
  let q := run [OpRegister "async" demoDispatcher; OpRegister "bad" throwingDispatcher;
                OpEnqueue "async" ("A", "a1") true false; OpEnqueue "bad" ("A", "x") true false]%string in
  let q' := flushIdle admitted q in
  has (Some "async"%string) q = true /\ has None q' = false /\ streamed q' = [] /\ idleBatches q' = []
  /\ dropped q' = [].
Proof. vm_compute. done. Qed.
