(* ===== verification/EventStream.v ===== *)
(** * Session event replay (sdk/host/events.ts)

    The bounded ring of numbered events a session keeps for clients that reconnect. The redaction
    bits of all sessions live in one map shared by every stream of the process, so the operations
    take and return that map too. Of a frame the fields the stream reads are modelled; the rest is
    its opaque body. A supplied revision that is not a safe natural number is carried unchanged by
    the object spread, as in the source. *)
From S2P Require Import Prelude JsNumber.
Open Scope Z_scope.

Definition MAX_SAFE_INTEGER : Z := 2 ^ 53 - 1.

Definition isSafeZ (z : Z) : bool := (Z.abs z <=? MAX_SAFE_INTEGER).

(** [Number.isSafeInteger(x)] *)
Definition isSafeInteger (x : number) : bool :=
  match x with Fin q => Q_is_integer q && isSafeZ (Qfloor q) | _ => false end.

(** Kinds hidden from replays once redaction is on. *)
Definition REDACTED_REPLAY_KINDS : list string :=
  ["turn_stream"; "context_update"; "image_attachment"; "file_attachment"; "reasoning_summary";
   "tool_activity"]%string.

Section EventStream.
Context {Body : Type}.

(** The object payload fields the stream looks at, each present only at the right type. *)
Record Payload : Type := { payload_sessionId : option string; redact : option bool }.

Record SdkFrame : Type := {
  kind : string;
  frame_sessionId : option string;
  payload : option Payload;
  revision : option number;
  body : Body
}.

Record EventFrame : Type := { frame : SdkFrame; event_revision : option number; generation_ : Z; seq_ : Z }.

Inductive EventReplayGap : Type :=
| generation_reset (fromGeneration toGeneration : Z) (resyncQueries : list string)
| sequence_gap (fromSeq toSeq : Z) (resyncQueries : list string).

Record EventReplay : Type := { events : list EventFrame; gap : option EventReplayGap }.

Record Stream : Type := {
  generation : Z;
  sequence : Z;
  frames : list EventFrame;
  outboundRedact : bool;
  sessionId : option string;
  ringSize : Z;
  resyncQueries : list string
}.

(** The redaction bits of all sessions. *)
Abbreviation RedactMap := (gmap string bool).

Definition newStream (gen : option Z) (ring : option Z) (queries : option (list string)) : Stream :=
  {| generation := default 0 gen; sequence := 0; frames := []; outboundRedact := false;
     sessionId := None; ringSize := default 256 ring;
     resyncQueries := default ["Q01"; "Q02"; "Q03"]%string queries |}.

Definition setSessionOutboundRedact (sid : string) (enabled : bool) (w : RedactMap) : RedactMap :=
  <[sid := enabled]> w.

Definition frameSessionId (f : SdkFrame) : option string :=
  match frame_sessionId f with
  | Some s => Some s
  | None => p ← payload f; payload_sessionId p
  end.

Definition with_redact (st : Stream) (b : bool) : Stream :=
  {| generation := generation st; sequence := sequence st; frames := frames st;
     outboundRedact := b; sessionId := sessionId st; ringSize := ringSize st;
     resyncQueries := resyncQueries st |}.

Definition with_session (st : Stream) (s : option string) : Stream :=
  {| generation := generation st; sequence := sequence st; frames := frames st;
     outboundRedact := outboundRedact st; sessionId := s; ringSize := ringSize st;
     resyncQueries := resyncQueries st |}.

Definition with_frames (st : Stream) (g s : Z) (fs : list EventFrame) : Stream :=
  {| generation := g; sequence := s; frames := fs;
     outboundRedact := outboundRedact st; sessionId := sessionId st; ringSize := ringSize st;
     resyncQueries := resyncQueries st |}.

Definition setOutboundRedact (enabled : bool) (w : RedactMap) (st : Stream) : RedactMap * Stream :=
  (match sessionId st with Some s => <[s := enabled]> w | None => w end, with_redact st enabled).

Definition restart (floor : number) (st : Stream) : result string Z * Stream :=
  match floor with
  | Fin q =>
      if negb (isSafeInteger (Fin q))
      then (Throw "SDK event generation floor must be a safe integer."%string, st)
      else
        let next := Z.max (generation st + 1) (Qfloor q) in
        if negb (isSafeZ next) then (Throw "SDK event generation is exhausted."%string, st)
        else (Ok next, with_frames st next 0 [])
  | _ => (Throw "SDK event generation floor must be a safe integer."%string, st)
  end.

Definition noteSession (f : SdkFrame) (st : Stream) : Stream :=
  match sessionId st with Some _ => st | None => with_session st (frameSessionId f) end.

Definition noteConfigRedact (f : SdkFrame) (w : RedactMap) (st : Stream) : RedactMap * Stream :=
  if decide (kind f = "config_update"%string) then
    match payload f ≫= redact with
    | Some b => setOutboundRedact b w st
    | None => (w, st)
    end
  else (w, st).

Definition usableRevision (r : option number) : option number :=
  match r with
  | Some (Fin q) => if isSafeInteger (Fin q) && (0 <=? Qfloor q) then r else None
  | _ => None
  end.

(** [revisionProvider] gives what the provider returned for this call, if there is one. *)
Definition emit (f : SdkFrame) (providedRevision : option number) (w : RedactMap) (st : Stream)
    : EventFrame * RedactMap * Stream :=
  let st1 := noteSession f st in
  let '(w2, st2) := noteConfigRedact f w st1 in
  let rev := match usableRevision (revision f) with
             | Some r => Some r
             | None => match usableRevision providedRevision with
                       | Some r => Some r
                       | None => revision f
                       end
             end in
  let seq := sequence st2 + 1 in
  let event := {| frame := f; event_revision := rev; generation_ := generation st2; seq_ := seq |} in
  let fs := frames st2 ++ [event] in
  let fs' := if ringSize st2 <? zlength fs then drop 1 fs else fs in
  (event, w2, with_frames st2 (generation st2) seq fs').

Definition replayRedact (w : RedactMap) (st : Stream) : bool :=
  match sessionId st with
  | Some s => match w !! s with Some b => b | None => outboundRedact st end
  | None => outboundRedact st
  end.

Definition visible (w : RedactMap) (st : Stream) (fs : list EventFrame) : list EventFrame :=
  if replayRedact w st
  then filter (fun e => kind (frame e) ∉ REDACTED_REPLAY_KINDS) fs else fs.

Definition replay (lastSeq gen : Z) (w : RedactMap) (st : Stream) : EventReplay :=
  if negb (gen =? generation st) then
    {| events := visible w st (frames st);
       gap := Some (generation_reset gen (generation st) (resyncQueries st)) |}
  else
    let oldest := match head (frames st) with Some e => seq_ e | None => sequence st + 1 end in
    let replayFrom := lastSeq + 1 in
    if replayFrom <? oldest then
      {| events := visible w st (filter (fun e => oldest <= seq_ e) (frames st));
         gap := Some (sequence_gap replayFrom (oldest - 1) (resyncQueries st)) |}
    else
      {| events := visible w st (filter (fun e => lastSeq < seq_ e) (frames st)); gap := None |}.

(** ** The history behind the ring *)

Inductive op : Type :=
| OpEmit (f : SdkFrame) (provided : option number)
| OpRestart (floor : number)
| OpRedact (b : bool)
| OpSessionRedact (sid : string) (b : bool).

(** The process state, and the events emitted since the generation was opened. *)
Record World : Type := { redacts : RedactMap; stream : Stream; history : list EventFrame }.

Definition exec_op (o : op) (x : World) : World :=
  match o with
  | OpEmit f pr =>
      let '(e, w, st) := emit f pr (redacts x) (stream x) in
      {| redacts := w; stream := st; history := history x ++ [e] |}
  | OpRestart floor =>
      match restart floor (stream x) with
      | (Ok _, st) => {| redacts := redacts x; stream := st; history := [] |}
      | (Throw _, st) => {| redacts := redacts x; stream := st; history := history x |}
      end
  | OpRedact b =>
      let '(w, st) := setOutboundRedact b (redacts x) (stream x) in
      {| redacts := w; stream := st; history := history x |}
  | OpSessionRedact sid b =>
      {| redacts := setSessionOutboundRedact sid b (redacts x); stream := stream x;
         history := history x |}
  end.

Definition lastn {A} (n : nat) (l : list A) : list A := drop (length l - n) l.

(** [l] carries the numbers [m + 1], [m + 2], ... *)
Definition numbered (m : Z) (l : list EventFrame) : Prop :=
  forall i e, l !! i = Some e -> seq_ e = m + 1 + Z.of_nat i.

Record stream_inv (x : World) : Prop := {
  si_frames : frames (stream x) = lastn (Z.to_nat (ringSize (stream x))) (history x);
  si_seq : sequence (stream x) = zlength (history x);
  si_numbered : numbered 0 (history x)
}.

Lemma lastn_snoc {A} n (l : list A) e :
  lastn n (l ++ [e]) =
    if decide (n < S (length (lastn n l)))%nat then drop 1 (lastn n l ++ [e]) else lastn n l ++ [e].
Proof.
  unfold lastn. rewrite length_app, length_drop. simpl length. case_decide as H.
  - replace (length l + 1 - n)%nat with ((length l - n) + 1)%nat by lia.
    rewrite <- drop_drop, drop_app_le by lia. done.
  - replace (length l - n)%nat with 0%nat by lia. by replace (length l + 1 - n)%nat with 0%nat by lia.
Qed.

Lemma note_frames f w st :
  let '(w', st') := noteConfigRedact f w (noteSession f st) in
  frames st' = frames st /\ sequence st' = sequence st /\ ringSize st' = ringSize st /\
  generation st' = generation st.
Proof.
  unfold noteConfigRedact, noteSession, setOutboundRedact. repeat case_match; by simplify_eq/=.
Qed.

Lemma emit_spec f pr w st :
  let '(e, w', st') := emit f pr w st in
  seq_ e = sequence st + 1 /\ sequence st' = sequence st + 1 /\ ringSize st' = ringSize st /\
  frames st' = if ringSize st <? zlength (frames st) + 1 then drop 1 (frames st ++ [e])
               else frames st ++ [e].
Proof.
  unfold emit. pose proof (note_frames f w st) as H.
  destruct (noteConfigRedact f w (noteSession f st)) as [w2 st2].
  destruct H as (Hf & Hs & Hr & Hg). simpl. rewrite Hf, Hs, Hr, zlength_app. done.
Qed.

Lemma exec_op_inv o x : stream_inv x -> stream_inv (exec_op o x).
Proof.
  intros [Hf Hs Hn]. destruct o as [f pr|floor|b|sid b]; simpl.
  - pose proof (emit_spec f pr (redacts x) (stream x)) as H.
    destruct (emit f pr (redacts x) (stream x)) as [[e w'] st'].
    destruct H as (He & Hs' & Hr' & Hf'). constructor; simpl.
    + rewrite Hf', Hr', lastn_snoc, <- Hf. unfold zlength. rewrite Hf.
      set (l := lastn _ _). destruct (Z.ltb_spec (ringSize (stream x)) (Z.of_nat (length l) + 1));
        case_decide; try done; exfalso; try lia.
    + rewrite Hs', Hs, zlength_app. done.
    + intros i y Hy. apply lookup_app_Some in Hy as [Hy|[Hi Hy]]; [by apply Hn|].
      apply list_lookup_singleton_Some in Hy as [Hi' <-]. unfold zlength in Hs. lia.
  - unfold restart. repeat case_match; simplify_eq/=; constructor; simpl; try done;
      by intros ? ? ?%lookup_nil_Some || by rewrite lookup_nil.
  - by constructor.
  - by constructor.
Qed.

Definition run (ops : list op) (x : World) : World := foldl (fun x o => exec_op o x) x ops.

Definition initial (gen ring : option Z) (queries : option (list string)) (w : RedactMap) : World :=
  {| redacts := w; stream := newStream gen ring queries; history := [] |}.

Lemma run_inv ops gen ring queries w : stream_inv (run ops (initial gen ring queries w)).
Proof.
  assert (stream_inv (initial gen ring queries w)) as H0.
  { constructor; simpl; try done. }
  revert H0. generalize (initial gen ring queries w) as x. unfold run.
  induction ops as [|o ops IH]; intros x H; simpl; [done|]. by apply IH, exec_op_inv.
Qed.

(** ** Replay *)

Lemma numbered_cons m e l : numbered m (e :: l) -> seq_ e = m + 1 /\ numbered (m + 1) l.
Proof.
  intros H. split; [rewrite (H 0%nat e eq_refl); lia|].
  intros i y Hy. rewrite (H (S i) y Hy). lia.
Qed.

Lemma numbered_drop m k l : numbered m l -> numbered (m + Z.of_nat k) (drop k l).
Proof. intros H i e He. rewrite lookup_drop in He. rewrite (H _ _ He). lia. Qed.

Lemma filter_after k m l :
  numbered m l -> filter (fun e => k < seq_ e) l = drop (Z.to_nat (k - m)) l.
Proof.
  revert m. induction l as [|e l IH]; intros m Hn; [by rewrite drop_nil|].
  apply numbered_cons in Hn as [He Hn]. rewrite filter_cons. case_decide as Hk.
  - replace (Z.to_nat (k - m)) with 0%nat by lia. rewrite (IH (m + 1)) by done.
    by replace (Z.to_nat (k - (m + 1))) with 0%nat by lia.
  - rewrite (IH (m + 1)) by done.
    by replace (Z.to_nat (k - m)) with (S (Z.to_nat (k - (m + 1)))) by lia.
Qed.

(** Functional. A client that reconnects in the current generation, having seen the events up
    to [lastSeq], misses nothing silently: either the replay has no gap and consists of exactly
    the events emitted after [lastSeq], or it reports exactly the range of lost sequence numbers
    and consists of every event after them, the ones hidden by redaction apart. *)
Theorem replay_is_complete ops gen ring queries w lastSeq :
  let x := run ops (initial gen ring queries w) in
  let r := replay lastSeq (generation (stream x)) (redacts x) (stream x) in
  0 <= lastSeq ->
  exists upto,
    events r = visible (redacts x) (stream x) (drop (Z.to_nat upto) (history x)) /\
    (gap r = None /\ upto = lastSeq \/
     gap r = Some (sequence_gap (lastSeq + 1) upto (resyncQueries (stream x))) /\
       lastSeq < upto <= zlength (history x)).
Proof.
  intros x r Hlast. pose proof (run_inv ops gen ring queries w : stream_inv x) as [Hf Hs Hn].
  subst r. unfold replay. rewrite Z.eqb_refl. simpl.
  set (m := (length (history x) - Z.to_nat (ringSize (stream x)))%nat).
  assert (numbered (Z.of_nat m) (frames (stream x))) as Hnf.
  { rewrite Hf. apply (numbered_drop 0 m _ Hn). }
  assert (match head (frames (stream x)) with Some e => seq_ e | None => sequence (stream x) + 1 end
    = Z.of_nat m + 1) as ->.
  { destruct (frames (stream x)) as [|e l] eqn:E; simpl; [|by apply numbered_cons in Hnf as [? _]].
    rewrite Hs. unfold zlength. unfold lastn in Hf. fold m in Hf.
    assert (length (drop m (history x)) = 0)%nat as Hl by by rewrite <- Hf.
    rewrite length_drop in Hl. subst m. lia. }
  destruct (Z.ltb_spec (lastSeq + 1) (Z.of_nat m + 1)); simpl.
  - exists (Z.of_nat m). split.
    + f_equal. rewrite (list_filter_iff _ (fun e => Z.of_nat m < seq_ e)) by (intros; lia).
      rewrite (filter_after _ _ _ Hnf), Z.sub_diag. simpl. rewrite Hf, Nat2Z.id. done.
    + right. rewrite Z.add_simpl_r. split; [done|]. unfold zlength. subst m. lia.
  - exists lastSeq. split; [|by left]. f_equal. rewrite (filter_after _ _ _ Hnf), Hf.
    unfold lastn. fold m. rewrite drop_drop. f_equal. lia.
Qed.

(** While redaction is on for the session, no replay, gap or generation reset
    included, shows an event of a kind whose live emission is suppressed. *)
Theorem replay_hides_redacted_kinds lastSeq gen w st e :
  replayRedact w st = true -> e ∈ events (replay lastSeq gen w st) ->
  kind (frame e) ∉ REDACTED_REPLAY_KINDS.
Proof.
  intros Hr. unfold replay, visible. rewrite Hr.
  repeat case_match; simpl; by intros [? _]%list_elem_of_filter.
Qed.

End EventStream.

Definition demoFrame (k : string) : @SdkFrame unit :=
  {| kind := k; frame_sessionId := Some "s"%string; payload := None; revision := None; body := tt |}.

Definition demoWorldOps : list (@op unit) :=
  [OpEmit (demoFrame "a") None; OpEmit (demoFrame "turn_stream") None; OpEmit (demoFrame "b") None;
   OpRedact true].

Lemma replay_is_complete_witness :
  let x := run demoWorldOps (initial None (Some 2) None ∅) in
  exists upto, events (replay 0 (generation (stream x)) (redacts x) (stream x)) =
    visible (redacts x) (stream x) (drop (Z.to_nat upto) (history x)).
Proof.
  destruct (replay_is_complete demoWorldOps None (Some 2) None ∅ 0) as (upto & H & _); [lia|].
  exists upto. exact H.
Defined.

Lemma replay_hides_witness :
  let x := run demoWorldOps (initial None (Some 2) None ∅) in
  exists e, e ∈ events (replay 0 0 (redacts x) (stream x)) /\
    kind (frame e) ∉ REDACTED_REPLAY_KINDS.
Proof.
  intros x. exists {| frame := demoFrame "b"; event_revision := None; generation_ := 0; seq_ := 3 |}.
  assert (events (replay 0 0 (redacts x) (stream x)) =
    [{| frame := demoFrame "b"; event_revision := None; generation_ := 0; seq_ := 3 |}]) as E
    by (vm_compute; reflexivity).
  split; [rewrite E; left|].
  apply (replay_hides_redacted_kinds 0 0 (redacts x) (stream x)); [vm_compute; reflexivity|].
  rewrite E. left.
Defined.
