(* ===== verification/RateLimitPool.v ===== *)
(** * The shared rate-limit pool (sdk/bus/rate-limit-pool.ts)

    One token bucket shared by all sessions of a host, four priority lanes, round-robin over the
    sessions of a lane, coalescing of live edits. Times are integer milliseconds, token counts are
    rationals. The promise of an item is represented by membership of its id in [settlements];
    resolving it is an entry of [settledLog]. A method that throws half-way leaves the state it
    reached, so [drainWithExpired] returns both an outcome and a state. *)
From S2P Require Import Prelude JsNumber.
From stdpp Require Import pretty.
Open Scope Z_scope.

Inductive RateLimitLane : Type := ask | finalized | live | idle.

#[global] Instance RateLimitLane_eq_dec : EqDecision RateLimitLane.
Proof. solve_decision. Defined.

Definition LANE_PRIORITY : list RateLimitLane := [ask; finalized; live; idle].

Inductive Disposition : Type := accepted | rejected | ambiguous | removed | expired.

Definition generatedId (n : nat) : string := "rate-limit:" +:+ pretty n.

Section Pool.
Context {T : Type}.

Record RateLimitItem : Type := {
  sessionId : string;
  lane : RateLimitLane;
  coalesceKey : option string;
  itemId : option string;
  deadlineAt : option Z;
  payload : T
}.

Record QueuedItem : Type := { item : RateLimitItem; seq_ : nat }.

Record RateLimitDrainResult : Type := {
  granted : list RateLimitItem;
  expired_items : list RateLimitItem
}.

Record Pool : Type := {
  capacity : Q;
  refillPerSec : Q;
  lanes : RateLimitLane -> list QueuedItem;
  laneCursor : RateLimitLane -> nat;
  tokens : Q;
  lastRefill : Z;
  settlements : gset string;
  settledLog : list (string * Disposition);
  seqCounter : nat
}.

Definition newPool (cap rate : option Q) (now : Z) : Pool :=
  let c := Qmax 1 (default 20%Q cap) in
  {| capacity := c; refillPerSec := Qmax 0 (default 1%Q rate); lanes := fun _ => [];
     laneCursor := fun _ => 0%nat; tokens := c; lastRefill := now; settlements := ∅;
     settledLog := []; seqCounter := 0 |}.

Definition with_lanes (p : Pool) (l : RateLimitLane -> list QueuedItem) : Pool :=
  {| capacity := capacity p; refillPerSec := refillPerSec p; lanes := l;
     laneCursor := laneCursor p; tokens := tokens p; lastRefill := lastRefill p;
     settlements := settlements p; settledLog := settledLog p; seqCounter := seqCounter p |}.

Definition with_cursor (p : Pool) (c : RateLimitLane -> nat) : Pool :=
  {| capacity := capacity p; refillPerSec := refillPerSec p; lanes := lanes p; laneCursor := c;
     tokens := tokens p; lastRefill := lastRefill p; settlements := settlements p;
     settledLog := settledLog p; seqCounter := seqCounter p |}.

Definition with_tokens (p : Pool) (t : Q) (last : Z) : Pool :=
  {| capacity := capacity p; refillPerSec := refillPerSec p; lanes := lanes p;
     laneCursor := laneCursor p; tokens := t; lastRefill := last;
     settlements := settlements p; settledLog := settledLog p; seqCounter := seqCounter p |}.

Definition with_settlements (p : Pool) (s : gset string) (log : list (string * Disposition)) : Pool :=
  {| capacity := capacity p; refillPerSec := refillPerSec p; lanes := lanes p;
     laneCursor := laneCursor p; tokens := tokens p; lastRefill := lastRefill p; settlements := s;
     settledLog := log; seqCounter := seqCounter p |}.

Definition with_seq (p : Pool) (n : nat) : Pool :=
  {| capacity := capacity p; refillPerSec := refillPerSec p; lanes := lanes p;
     laneCursor := laneCursor p; tokens := tokens p; lastRefill := lastRefill p;
     settlements := settlements p; settledLog := settledLog p; seqCounter := n |}.

Definition upd {A} (f : RateLimitLane -> A) (l : RateLimitLane) (a : A) : RateLimitLane -> A :=
  fun l' => if decide (l = l') then a else f l'.

(** Everything queued, in lane order. *)
Definition allQueued (p : Pool) : list QueuedItem :=
  flat_map (fun l => lanes p l) LANE_PRIORITY.

Definition pending (p : Pool) : nat := length (allQueued p).

Definition someQueued (predicate : RateLimitItem -> bool) (p : Pool) : bool :=
  existsb (fun l => existsb (fun q => predicate (item q)) (lanes p l)) LANE_PRIORITY.

Definition refill (nowMs : Z) (p : Pool) : Pool :=
  if nowMs <=? lastRefill p then p
  else
    let elapsedSec := (inject_Z (nowMs - lastRefill p) / 1000)%Q in
    with_tokens p (Qmin (capacity p) (tokens p + elapsedSec * refillPerSec p)) nowMs.

Definition availableTokens (nowMs : Z) (p : Pool) : Q * Pool :=
  let p' := refill nowMs p in (tokens p', p').

Definition settle (id : string) (d : Disposition) (p : Pool) : Pool :=
  if decide (id ∈ settlements p)
  then with_settlements p (settlements p ∖ {[id]}) (settledLog p ++ [(id, d)])
  else p.

(** The promise of an id, made when it is missing. *)
Definition handle (id : string) (p : Pool) : Pool :=
  with_settlements p ({[id]} ∪ settlements p) (settledLog p).

Definition with_id (i : RateLimitItem) (id : string) : RateLimitItem :=
  {| sessionId := sessionId i; lane := lane i; coalesceKey := coalesceKey i; itemId := Some id;
     deadlineAt := deadlineAt i; payload := payload i |}.

(** [item.itemId!] *)
Definition idOf (i : RateLimitItem) : string := default ""%string (itemId i).

Definition submit (i : RateLimitItem) (p : Pool) : string * Pool :=
  let '(id, p1) := match itemId i with
                   | Some id => (id, p)
                   | None => (generatedId (seqCounter p), with_seq p (S (seqCounter p)))
                   end in
  let identified := with_id i id in
  let queue := lanes p1 (lane i) in
  let existing := match itemId i, coalesceKey i with
                  | None, Some k => list_find (fun q => sessionId (item q) = sessionId i /\
                                                        coalesceKey (item q) = Some k) queue
                  | _, _ => None
                  end in
  match existing with
  | Some (n, q) =>
      let p2 := settle (idOf (item q)) removed p1 in
      let p3 := with_lanes p2 (upd (lanes p2) (lane i)
                  (<[n := {| item := identified; seq_ := seq_ q |}]> queue)) in
      (id, handle id p3)
  | None =>
      let '(sq, p2) := match itemId i with
                       | None => (seqCounter p1 - 1, p1)%nat
                       | Some _ => (seqCounter p1, with_seq p1 (S (seqCounter p1)))
                       end in
      let p3 := with_lanes p2 (upd (lanes p2) (lane i)
                  (queue ++ [{| item := identified; seq_ := sq |}])) in
      (id, handle id p3)
  end.

Definition markSending (id : string) (p : Pool) : result string unit :=
  if decide (id ∈ settlements p) then Ok tt
  else Throw ("unknown rate-limit item: " +:+ id).

(** Settling a list of removed items, in order. *)
Definition settleAll (items : list RateLimitItem) (d : Disposition) (p : Pool) : Pool :=
  foldl (fun p i => settle (idOf i) d p) p items.

(** One lane of [removeWhere]: the in-place compaction keeps the survivors in order. *)
Definition removeLane (predicate : RateLimitItem -> bool) (d : Disposition)
    (acc : list RateLimitItem * Pool) (l : RateLimitLane) : list RateLimitItem * Pool :=
  let '(rem, p) := acc in
  let gone := item <$> filter (fun q => predicate (item q) = true) (lanes p l) in
  let kept := filter (fun q => predicate (item q) = false) (lanes p l) in
  (rem ++ gone, with_lanes (settleAll gone d p) (upd (lanes p) l kept)).

Definition removeWhere (predicate : RateLimitItem -> bool) (d : Disposition) (p : Pool)
    : list RateLimitItem * Pool :=
  foldl (removeLane predicate d) ([], p) LANE_PRIORITY.

Fixpoint removeByIdIn (ls : list RateLimitLane) (id : string) (p : Pool)
    : option RateLimitItem * Pool :=
  match ls with
  | [] => (None, p)
  | l :: ls' =>
      match list_find (fun q => itemId (item q) = Some id) (lanes p l) with
      | Some (n, q) =>
          (Some (item q),
           settle (idOf (item q)) removed (with_lanes p (upd (lanes p) l (delete n (lanes p l)))))
      | None => removeByIdIn ls' id p
      end
  end.

Definition removeById (id : string) (p : Pool) : option RateLimitItem * Pool :=
  removeByIdIn LANE_PRIORITY id p.

(** The distinct sessions of a lane, in order of their first queued item. *)
Definition sessionsOf (queue : list QueuedItem) : list string :=
  foldl (fun acc q => if decide (sessionId (item q) ∈ acc) then acc
                      else acc ++ [sessionId (item q)]) [] queue.

(** The loop over [offset]. *)
Fixpoint pickFrom (sessions : list string) (queue : list QueuedItem) (cursor : nat)
    (offsets : list nat) : nat * option nat :=
  match offsets with
  | [] => (0%nat, None)
  | offset :: rest =>
      match sessions !! ((cursor + offset) mod length sessions)%nat with
      | None => (0%nat, None)
      | Some candidate =>
          match list_find (fun q => sessionId (item q) = candidate) queue with
          | Some (idx, _) => (idx, Some ((cursor + offset + 1) mod length sessions)%nat)
          | None => pickFrom sessions queue cursor rest
          end
      end
  end.

(** The index to serve and the new cursor, if it moves. *)
Definition pickFairIndex (cursor : nat) (queue : list QueuedItem) : nat * option nat :=
  let sessions := sessionsOf queue in
  if (length sessions <=? 1)%nat then (0%nat, None)
  else pickFrom sessions queue cursor (seq 0 (length sessions)).

(** Serving one lane that is not empty. *)
Definition takeLane (l : RateLimitLane) (p : Pool)
    : option (result string RateLimitItem) * Pool :=
  let queue := lanes p l in
  let '(picked, cursor) := pickFairIndex (laneCursor p l) queue in
  let p1 := match cursor with
            | Some c => with_cursor p (upd (laneCursor p) l c)
            | None => p
            end in
  let p2 := with_lanes p1 (upd (lanes p1) l (delete picked queue)) in
  match queue !! picked with
  | Some q => (Some (_ ← markSending (idOf (item q)) p2; Ok (item q)), p2)
  | None => (None, p2)
  end.

Fixpoint takeNextIn (ls : list RateLimitLane) (p : Pool)
    : option (result string RateLimitItem) * Pool :=
  match ls with
  | [] => (None, p)
  | l :: ls' =>
      match lanes p l with
      | [] => takeNextIn ls' p
      | _ => takeLane l p
      end
  end.

Definition takeNext (p : Pool) : option (result string RateLimitItem) * Pool :=
  takeNextIn LANE_PRIORITY p.

(** [while (this.tokens >= 1)]; every round removes a queued item, so [pending p] rounds are
    enough. *)
Fixpoint grantLoop (fuel : nat) (acc : list RateLimitItem) (p : Pool)
    : result string (list RateLimitItem) * Pool :=
  match fuel with
  | O => (Ok acc, p)
  | S fuel =>
      if Qltb (tokens p) 1 then (Ok acc, p)
      else match takeNext p with
           | (None, p1) => (Ok acc, p1)
           | (Some (Throw e), p1) => (Throw e, p1)
           | (Some (Ok i), p1) =>
               grantLoop fuel (acc ++ [i]) (with_tokens p1 (tokens p1 - 1)%Q (lastRefill p1))
           end
  end.

Definition isExpired (nowMs : Z) (i : RateLimitItem) : bool :=
  match deadlineAt i with Some d => d <=? nowMs | None => false end.

Definition drainWithExpired (nowMs : Z) (p : Pool) : result string RateLimitDrainResult * Pool :=
  let p1 := refill nowMs p in
  let '(exp, p2) := removeWhere (isExpired nowMs) expired p1 in
  let '(r, p3) := grantLoop (pending p2) [] p2 in
  (g ← r; Ok {| granted := g; expired_items := exp |}, p3).

Definition drain (nowMs : Z) (p : Pool) : result string (list RateLimitItem) * Pool :=
  let '(r, p') := drainWithExpired nowMs p in (d ← r; Ok (granted d), p').

(** ** Picking an item *)

Lemma sessionsOf_acc queue acc :
  NoDup acc ->
  let r := foldl (fun acc q => if decide (sessionId (item q) ∈ acc) then acc
                               else acc ++ [sessionId (item q)]) acc queue in
  NoDup r /\ acc `prefix_of` r /\
  (forall s, s ∈ r <-> s ∈ acc \/ s ∈ (sessionId ∘ item) <$> queue).
Proof.
  revert acc. induction queue as [|q queue IH]; intros acc Hnd; simpl.
  - split_and!; [done..|]. intros s. rewrite elem_of_nil. tauto.
  - case_decide as Hin.
    + destruct (IH acc Hnd) as (H1 & H2 & H3). split_and!; [done..|].
      intros s. rewrite H3, elem_of_cons. simpl. split; [tauto|]. intros [?|[->|?]]; auto.
    + destruct (IH (acc ++ [sessionId (item q)])) as (H1 & H2 & H3).
      { apply NoDup_app. split_and!; [done|set_solver|apply NoDup_singleton]. }
      split_and!; [done|by eapply prefix_app_l|]. intros s. rewrite H3, elem_of_app, list_elem_of_singleton.
      rewrite elem_of_cons. simpl. tauto.
Qed.

Lemma sessionsOf_NoDup queue : NoDup (sessionsOf queue).
Proof. apply (sessionsOf_acc queue []). constructor. Qed.

Lemma elem_of_sessionsOf queue s : s ∈ sessionsOf queue <-> s ∈ (sessionId ∘ item) <$> queue.
Proof.
  destruct (sessionsOf_acc queue []) as (_ & _ & H); [constructor|]. unfold sessionsOf.
  rewrite H, elem_of_nil. tauto.
Qed.

(** The session of the oldest item comes first. *)
Lemma sessionsOf_head q queue : head (sessionsOf (q :: queue)) = Some (sessionId (item q)).
Proof.
  unfold sessionsOf. simpl.
  destruct (sessionsOf_acc queue [sessionId (item q)]) as (_ & [k ->] & _);
    [apply NoDup_singleton|done].
Qed.

Lemma sessionsOf_nonempty queue : queue <> [] -> (1 <= length (sessionsOf queue))%nat.
Proof.
  destruct queue as [|q queue]; [done|]. pose proof (sessionsOf_head q queue).
  destruct (sessionsOf _); [done|simpl; lia].
Qed.

(** With two sessions or more: the first item of the session under the cursor, which moves on. *)
Lemma pickFairIndex_spec cursor queue :
  let n := length (sessionsOf queue) in
  (2 <= n)%nat ->
  exists candidate idx q,
    sessionsOf queue !! (cursor mod n)%nat = Some candidate /\
    list_find (fun q => sessionId (item q) = candidate) queue = Some (idx, q) /\
    pickFairIndex cursor queue = (idx, Some ((cursor + 1) mod n)%nat).
Proof.
  intros n Hn. unfold pickFairIndex. fold n.
  destruct (Nat.leb_spec n 1); [lia|].
  destruct (lookup_lt_is_Some_2 (sessionsOf queue) (cursor mod n)) as [candidate Hc].
  { apply Nat.mod_upper_bound. lia. }
  assert (candidate ∈ sessionsOf queue) as Hin by by eapply list_elem_of_lookup_2.
  apply elem_of_sessionsOf, list_elem_of_fmap in Hin as (q0 & Hq0 & Hin).
  destruct (list_find_elem_of (fun q => sessionId (item q) = candidate) queue q0) as [[idx q] Hf];
    [done|by simpl in Hq0|].
  exists candidate, idx, q. split_and!; [done..|].
  assert (seq 0 n = 0 :: seq 1 (n - 1))%nat as ->.
  { clearbody n. destruct n; [lia|]. simpl. by rewrite Nat.sub_0_r. }
  simpl. rewrite Nat.add_0_r. fold n. by rewrite Hc, Hf.
Qed.

Lemma pickFairIndex_valid cursor queue :
  queue <> [] -> is_Some (queue !! (pickFairIndex cursor queue).1).
Proof.
  intros Hne. destruct (decide (2 <= length (sessionsOf queue))%nat) as [Hn|Hn].
  - destruct (pickFairIndex_spec cursor queue Hn) as (c & idx & q & _ & Hf & ->). simpl.
    apply list_find_Some in Hf as [? _]. by eexists.
  - unfold pickFairIndex. destruct (Nat.leb_spec (length (sessionsOf queue)) 1); [|lia].
    by destruct queue; [|eexists].
Qed.

(** ** Lanes *)

Lemma lane_split l :
  exists pre post, LANE_PRIORITY = pre ++ l :: post /\ (l ∉ pre) /\ (l ∉ post).
Proof.
  destruct l; [exists [], [finalized; live; idle]|exists [ask], [live; idle]
    |exists [ask; finalized], [idle]|exists [ask; finalized; live], []];
    split_and!; try done; set_solver.
Qed.

Lemma flat_map_upd {A} (f : RateLimitLane -> list A) l k ls :
  l ∉ ls -> flat_map (upd f l k) ls = flat_map f ls.
Proof.
  induction ls as [|x ls IH]; intros Hl; simpl; [done|].
  apply not_elem_of_cons in Hl as [Hx Hl]. rewrite IH by done. unfold upd.
  by rewrite decide_False.
Qed.

(** Replacing one lane by a part of it moves the rest out of the pool. *)
Lemma flat_map_lane {A} (f : RateLimitLane -> list A) l k x :
  f l ≡ₚ x ++ k -> flat_map f LANE_PRIORITY ≡ₚ x ++ flat_map (upd f l k) LANE_PRIORITY.
Proof.
  intros Hp. destruct (lane_split l) as (pre & post & -> & H1 & H2).
  rewrite !flat_map_app. simpl. rewrite !flat_map_upd by done.
  unfold upd at 1. rewrite decide_True by done. rewrite Hp.
  rewrite <- app_assoc. apply Permutation_app_swap_app.
Qed.

Lemma allQueued_with_lanes p f : allQueued (with_lanes p f) = flat_map f LANE_PRIORITY.
Proof. done. Qed.

Lemma elem_of_allQueued p q : q ∈ allQueued p <-> exists l, q ∈ lanes p l.
Proof.
  unfold allQueued. rewrite list_elem_of_In, in_flat_map. split.
  - intros (l & _ & H). exists l. by apply list_elem_of_In.
  - intros (l & H). exists l. split; [destruct l; simpl; tauto|]. by apply list_elem_of_In.
Qed.

(** Settling touches neither the lanes nor the bucket. *)
Definition same_queues (p p' : Pool) : Prop :=
  lanes p' = lanes p /\ laneCursor p' = laneCursor p /\ tokens p' = tokens p /\
  lastRefill p' = lastRefill p /\ capacity p' = capacity p /\ refillPerSec p' = refillPerSec p.

Lemma settle_same id d p : same_queues p (settle id d p).
Proof. unfold settle. by case_decide. Qed.

Lemma settleAll_same items d p : same_queues p (settleAll items d p).
Proof.
  unfold settleAll. revert p. induction items as [|i items IH]; intros p; simpl; [done|].
  destruct (IH (settle (idOf i) d p)) as (?&?&?&?&?&?).
  destruct (settle_same (idOf i) d p) as (?&?&?&?&?&?). unfold same_queues.
  split_and!; congruence.
Qed.

(** ** Granting *)

Definition prio (l : RateLimitLane) : nat :=
  match l with ask => 0 | finalized => 1 | live => 2 | idle => 3 end.

Definition queuedIds (p : Pool) : list string := idOf <$> (item <$> allQueued p).

(** Every queued item sits in its own lane, its promise is still open, and no two have the same
    id. *)
Record pool_ok (p : Pool) : Prop := {
  po_lane : forall l q, q ∈ lanes p l -> lane (item q) = l;
  po_open : forall q, q ∈ allQueued p -> idOf (item q) ∈ settlements p;
  po_nodup : NoDup (queuedIds p)
}.

(** [p'] is [p] without the item [q] of lane [l]; only the cursors may differ otherwise. *)
Definition taken (p : Pool) (l : RateLimitLane) (q : QueuedItem) (p' : Pool) : Prop :=
  exists n, lanes p l !! n = Some q /\ lanes p' = upd (lanes p) l (delete n (lanes p l)) /\
  settlements p' = settlements p /\ tokens p' = tokens p /\ lastRefill p' = lastRefill p /\
  capacity p' = capacity p /\ refillPerSec p' = refillPerSec p.

Lemma takeLane_spec l p :
  lanes p l <> [] ->
  exists q p', takeLane l p = (Some (_ ← markSending (idOf (item q)) p'; Ok (item q)), p') /\
    taken p l q p'.
Proof.
  intros Hne. unfold takeLane. pose proof (pickFairIndex_valid (laneCursor p l) _ Hne) as [q Hq].
  destruct (pickFairIndex (laneCursor p l) (lanes p l)) as [n c]. simpl in Hq. rewrite Hq.
  eexists q, _. split; [done|]. exists n. by destruct c.
Qed.

Lemma takeNextIn_spec ls p :
  (flat_map (lanes p) ls = [] /\ takeNextIn ls p = (None, p)) \/
  exists pre l post, ls = pre ++ l :: post /\ flat_map (lanes p) pre = [] /\ lanes p l <> [] /\
    takeNextIn ls p = takeLane l p.
Proof.
  induction ls as [|l ls IH]; simpl; [by left|].
  destruct (lanes p l) as [|q k] eqn:E.
  - destruct IH as [?|(pre & l' & post & -> & Hpre & Hne & ->)]; [by left|].
    right. exists (l :: pre), l', post. simpl. by rewrite E.
  - right. exists [], l, ls. split_and!; try done. by rewrite E.
Qed.

Lemma takeNext_spec p :
  pool_ok p ->
  (allQueued p = [] /\ takeNext p = (None, p)) \/
  exists l q p', takeNext p = (Some (Ok (item q)), p') /\ taken p l q p' /\
    forall q', q' ∈ allQueued p -> (prio l <= prio (lane (item q')))%nat.
Proof.
  intros Hok. destruct (takeNextIn_spec LANE_PRIORITY p) as [?|(pre & l & post & Hls & Hpre & Hne & H)];
    [by left|right].
  destruct (takeLane_spec l p Hne) as (q & p' & Ht & Htk). pose proof Htk as (n & Hn & _ & Hset & _).
  exists l, q, p'. unfold takeNext. rewrite H, Ht. split_and!; [|done|].
  - unfold markSending. rewrite Hset, decide_True; [done|]. apply (po_open _ Hok).
    apply elem_of_allQueued. exists l. by eapply list_elem_of_lookup_2.
  - intros q' Hq'. apply elem_of_allQueued in Hq' as (l' & Hq').
    rewrite (po_lane _ Hok _ _ Hq').
    assert (l' ∉ pre) as Hl'.
    { intros Hin. assert (q' ∈ flat_map (lanes p) pre) as Hx; [|by rewrite Hpre in Hx; set_solver].
      apply list_elem_of_In, in_flat_map. exists l'. split; by apply list_elem_of_In. }
    clear -Hls Hl'. unfold LANE_PRIORITY in Hls.
    destruct pre as [|x1 pre]; [injection Hls as <- _; simpl; lia|]. injection Hls as <- Hls.
    destruct pre as [|x2 pre]; [injection Hls as <- _; destruct l'; simpl; set_solver by lia|].
    injection Hls as <- Hls.
    destruct pre as [|x3 pre]; [injection Hls as <- _; destruct l'; simpl; set_solver by lia|].
    injection Hls as <- Hls.
    destruct pre as [|x4 pre]; [injection Hls as <- _; destruct l'; simpl; set_solver by lia|].
    injection Hls as <- Hls. by destruct pre.
Qed.

Lemma taken_perm p l q p' : taken p l q p' -> allQueued p ≡ₚ q :: allQueued p'.
Proof.
  intros (n & Hn & Hl & _). unfold allQueued. rewrite Hl.
  apply (flat_map_lane _ _ _ [q]). by apply delete_Permutation.
Qed.

Lemma taken_ok p l q p' : pool_ok p -> taken p l q p' -> pool_ok p'.
Proof.
  intros [Hlane Hopen Hnd] Htk. pose proof (taken_perm _ _ _ _ Htk) as Hp.
  destruct Htk as (n & Hn & Hl & Hs & _). split.
  - intros l' q'. rewrite Hl. unfold upd. case_decide as E; [|apply Hlane]. subst l'.
    intros Hin. apply Hlane. rewrite (delete_Permutation _ _ _ Hn). by right.
  - intros q' Hq'. rewrite Hs. apply Hopen. rewrite Hp. by right.
  - unfold queuedIds in *. rewrite Hp in Hnd. simpl in Hnd. by apply NoDup_cons in Hnd as [_ ?].
Qed.

Definition byPriority (a b : RateLimitItem) : Prop := (prio (lane a) <= prio (lane b))%nat.

(** What granting does to a pool: [g] leaves it in priority order, one token each, until the
    tokens or the items run out. *)
Record grants (p : Pool) (g : list RateLimitItem) (p' : Pool) : Prop := {
  gr_ok : pool_ok p';
  gr_perm : item <$> allQueued p ≡ₚ g ++ (item <$> allQueued p');
  gr_done : allQueued p' = [] \/ (tokens p' < 1)%Q;
  gr_tokens : (tokens p' == tokens p - inject_Z (zlength g))%Q;
  gr_nonneg : (0 <= tokens p -> 0 <= tokens p')%Q;
  gr_sorted : StronglySorted byPriority g;
  gr_first : forall i j, i ∈ g -> j ∈ item <$> allQueued p' -> byPriority i j;
  gr_clock : lastRefill p' = lastRefill p /\ capacity p' = capacity p /\
             refillPerSec p' = refillPerSec p
}.

Lemma grants_none p :
  pool_ok p -> allQueued p = [] \/ (tokens p < 1)%Q -> grants p [] p.
Proof.
  intros Hok Hd. constructor; try done; [|constructor|by intros ?? ?%elem_of_nil].
  change (inject_Z (zlength (@nil RateLimitItem))) with 0%Q. lra.
Qed.

Lemma grants_cons p l q p1 g p' :
  pool_ok p -> taken p l q p1 -> (1 <= tokens p)%Q ->
  (forall q', q' ∈ allQueued p -> (prio l <= prio (lane (item q')))%nat) ->
  grants (with_tokens p1 (tokens p1 - 1) (lastRefill p1)) g p' -> grants p (item q :: g) p'.
Proof.
  intros Hok Htk Htok Hmin [Hok' Hperm Hdone Htokens Hnn Hsort Hfirst Hclock].
  pose proof (taken_perm _ _ _ _ Htk) as Hq.
  assert (lane (item q) = l) as Hl.
  { destruct Htk as (n & Hn & _). apply (po_lane _ Hok). by eapply list_elem_of_lookup_2. }
  assert (forall i, i ∈ g ++ (item <$> allQueued p') -> byPriority (item q) i) as Hle.
  { intros i Hi. rewrite <- Hperm in Hi. apply list_elem_of_fmap in Hi as (q' & -> & Hq').
    unfold byPriority. rewrite Hl. apply Hmin. rewrite Hq. by right. }
  destruct Htk as (n & Hn & _ & _ & Ht1 & Hr1 & Hc1 & Hp1). simpl in *.
  constructor; try done.
  - rewrite Hq. simpl. by rewrite <- Hperm.
  - rewrite Htokens, Ht1. unfold zlength. simpl length.
    replace (Z.of_nat (S (length g))) with (Z.of_nat (length g) + 1) by lia.
    rewrite inject_Z_plus. change (inject_Z 1) with 1%Q. lra.
  - intros _. apply Hnn. rewrite Ht1. lra.
  - constructor; [done|]. apply Forall_forall. intros i Hi. apply Hle, elem_of_app. by left.
  - intros i j [->|Hi]%elem_of_cons Hj; [apply Hle, elem_of_app; by right|by apply Hfirst].
  - destruct Hclock as (? & ? & ?). split_and!; congruence.
Qed.

Lemma grantLoop_spec fuel acc p :
  pool_ok p -> (pending p <= fuel)%nat ->
  exists g p', grantLoop fuel acc p = (Ok (acc ++ g), p') /\ grants p g p'.
Proof.
  revert acc p. induction fuel as [|fuel IH]; intros acc p Hok Hf.
  - exists [], p. simpl. rewrite app_nil_r. split; [done|]. apply grants_none; [done|left].
    unfold pending in Hf. destruct (allQueued p); [done|simpl in Hf; lia].
  - simpl. destruct (Qltb (tokens p) 1) eqn:Ht.
    { exists [], p. rewrite app_nil_r. split; [done|]. apply grants_none; [done|right].
      by apply Qltb_lt. }
    apply Qltb_ge in Ht.
    destruct (takeNext_spec p Hok) as [[He ->]|(l & q & p1 & -> & Htk & Hmin)].
    { exists [], p. rewrite app_nil_r. split; [done|]. by apply grants_none; [|left]. }
    set (p2 := with_tokens p1 (tokens p1 - 1) (lastRefill p1)).
    assert (pool_ok p2) as Hok2 by (destruct (taken_ok _ _ _ _ Hok Htk); by split).
    assert (pending p2 <= fuel)%nat as Hf2.
    { pose proof (taken_perm _ _ _ _ Htk) as Hq%Permutation_length. simpl in Hq.
      unfold pending in *. change (allQueued p2) with (allQueued p1). lia. }
    destruct (IH (acc ++ [item q]) p2 Hok2 Hf2) as (g & p' & -> & Hg).
    exists (item q :: g), p'. rewrite <- app_assoc. split; [done|].
    by eapply grants_cons.
Qed.

(** ** Removing *)

Lemma filter_split {A} (P : A -> bool) (l : list A) :
  l ≡ₚ filter (fun x => P x = true) l ++ filter (fun x => P x = false) l.
Proof.
  induction l as [|x l IH]; [done|]. rewrite !filter_cons.
  destruct (P x) eqn:E; repeat (case_decide; try done); simpl.
  - by rewrite <- IH.
  - rewrite <- Permutation_middle. by rewrite <- IH.
Qed.

Lemma settleAll_lanes items d p f : lanes (with_lanes (settleAll items d p) f) = f.
Proof. done. Qed.

(** Removing from some lanes. *)
Record removes (P : RateLimitItem -> bool) (d : Disposition) (ls : list RateLimitLane) (p : Pool)
    (rem : list RateLimitItem) (p' : Pool) : Prop := {
  rm_perm : item <$> allQueued p ≡ₚ rem ++ (item <$> allQueued p');
  rm_rem : Forall (fun i => P i = true) rem;
  rm_kept : forall l q, l ∈ ls -> q ∈ lanes p' l -> P (item q) = false;
  rm_sub : forall l, lanes p' l = lanes p l \/
                     lanes p' l = filter (fun q => P (item q) = false) (lanes p l);
  rm_bucket : tokens p' = tokens p /\ lastRefill p' = lastRefill p /\ capacity p' = capacity p /\
              refillPerSec p' = refillPerSec p;
  rm_settled : settlements p' = settlements p ∖ list_to_set (idOf <$> rem)
}.

Lemma settle_settlements id d p : settlements (settle id d p) = settlements p ∖ {[id]}.
Proof. unfold settle. case_decide; simpl; set_solver. Qed.

Lemma settleAll_settlements items d p :
  settlements (settleAll items d p) = settlements p ∖ list_to_set (idOf <$> items).
Proof.
  unfold settleAll. revert p. induction items as [|i items IH]; intros p; simpl; [set_solver|].
  rewrite IH, settle_settlements. set_solver.
Qed.

Lemma removeLanes_spec P d ls rem0 p :
  exists rem p', foldl (removeLane P d) (rem0, p) ls = (rem0 ++ rem, p') /\
    removes P d ls p rem p'.
Proof.
  revert rem0 p. induction ls as [|l ls IH]; intros rem0 p; simpl.
  - exists [], p. rewrite app_nil_r. split; [done|]. constructor; try done.
    + by intros ?? ?%elem_of_nil.
    + auto.
    + simpl. set_solver.
  - set (gone := item <$> filter (fun q => P (item q) = true) (lanes p l)).
    set (kept := filter (fun q => P (item q) = false) (lanes p l)).
    set (p1 := with_lanes (settleAll gone d p) (upd (lanes p) l kept)).
    destruct (settleAll_same gone d p) as (_ & _ & Ht & Hr & Hc & Hrate).
    destruct (IH (rem0 ++ gone) p1) as (rem & p' & -> & [Hperm Hrem Hkept Hsub Hb Hset]).
    exists (gone ++ rem), p'. rewrite <- app_assoc. split; [done|].
    assert (item <$> allQueued p ≡ₚ gone ++ (item <$> allQueued p1)) as H1.
    { unfold gone. rewrite <- fmap_app. apply fmap_Permutation.
      apply flat_map_lane, filter_split. }
    constructor.
    + rewrite H1, Hperm. by rewrite <- app_assoc.
    + apply Forall_app. split; [|done]. apply Forall_forall.
      by intros i (q & -> & [? _]%list_elem_of_filter)%list_elem_of_fmap.
    + intros l' q Hl' Hq. apply elem_of_cons in Hl' as [->|Hl']; [|by eapply Hkept].
      destruct (Hsub l) as [E|E]; rewrite E in Hq; [|by apply list_elem_of_filter in Hq as [? _]].
      simpl in Hq. unfold upd in Hq. rewrite decide_True in Hq by done.
      by apply list_elem_of_filter in Hq as [? _].
    + intros l'. destruct (Hsub l') as [E|E]; rewrite E; simpl; unfold upd;
        (case_decide; [subst l'|by auto]); right; [done|].
      unfold kept. rewrite list_filter_filter. apply list_filter_iff. naive_solver.
    + destruct Hb as (?&?&?&?). simpl in *. split_and!; congruence.
    + rewrite Hset. simpl. rewrite settleAll_settlements, fmap_app, list_to_set_app_L. set_solver.
Qed.

Lemma removes_ok P d ls p rem p' : pool_ok p -> removes P d ls p rem p' -> pool_ok p'.
Proof.
  intros [Hlane Hopen Hnd] [Hperm _ _ Hsub _ Hset]. unfold queuedIds in *.
  rewrite Hperm, fmap_app in Hnd. apply NoDup_app in Hnd as (_ & Hdisj & Hnd').
  assert (forall l q, q ∈ lanes p' l -> q ∈ lanes p l) as Hin.
  { intros l q. destruct (Hsub l) as [->| ->]; [done|]. by intros [_ ?]%list_elem_of_filter. }
  constructor; [naive_solver| |done].
  intros q Hq. rewrite Hset. apply elem_of_difference. split.
  - apply Hopen. apply elem_of_allQueued in Hq as (l & Hq). apply elem_of_allQueued. eauto.
  - intros Hx%elem_of_list_to_set. apply (Hdisj _ Hx). by do 2 apply list_elem_of_fmap_2.
Qed.

Lemma refill_ok now p : pool_ok p -> pool_ok (refill now p).
Proof. intros [? ? ?]. unfold refill. case_match; by constructor. Qed.

Lemma refill_lanes now p : lanes (refill now p) = lanes p.
Proof. unfold refill. by case_match. Qed.

(** Draining, as one relation. *)
Lemma drainWithExpired_spec now p :
  pool_ok p ->
  exists e g p2 p',
    drainWithExpired now p = (Ok {| granted := g; expired_items := e |}, p') /\
    removes (isExpired now) expired LANE_PRIORITY (refill now p) e p2 /\ grants p2 g p'.
Proof.
  intros Hok. unfold drainWithExpired, removeWhere.
  destruct (removeLanes_spec (isExpired now) expired LANE_PRIORITY [] (refill now p))
    as (e & p2 & -> & Hrm). simpl.
  assert (pool_ok p2) as Hok2 by (eapply removes_ok; [by apply refill_ok|done]).
  destruct (grantLoop_spec (pending p2) [] p2 Hok2) as (g & p' & -> & Hg); [done|].
  by exists e, g, p2, p'.
Qed.

(** Functional. Draining a pool whose promises are open never throws; it loses and invents
    nothing (what was queued is granted, expired or still queued), expires exactly the items whose
    deadline has passed and grants none of them, grants until tokens or items run out, and hands
    the granted items out in lane priority, none of them less urgent than an item left waiting. *)
Theorem drain_is_exact now p :
  pool_ok p ->
  exists e g p',
    drainWithExpired now p = (Ok {| granted := g; expired_items := e |}, p') /\
    item <$> allQueued p ≡ₚ e ++ g ++ (item <$> allQueued p') /\
    Forall (fun i => isExpired now i = true) e /\
    Forall (fun i => isExpired now i = false) (g ++ (item <$> allQueued p')) /\
    (allQueued p' = [] \/ (tokens p' < 1)%Q) /\
    StronglySorted byPriority g /\
    (forall i j, i ∈ g -> j ∈ item <$> allQueued p' -> byPriority i j) /\
    pool_ok p'.
Proof.
  intros Hok. destruct (drainWithExpired_spec now p Hok) as (e & g & p2 & p' & Hd & Hrm & Hg).
  exists e, g, p'. destruct Hrm as [Hperm He Hkept _ _ _]. destruct Hg as [? Hperm' ? _ _ ? ? _].
  split_and!; try done.
  - replace (allQueued p) with (allQueued (refill now p)).
    + by rewrite Hperm, Hperm'.
    + unfold allQueued. by rewrite refill_lanes.
  - apply Forall_forall. intros i. rewrite <- Hperm'. intros (q & -> & Hq)%list_elem_of_fmap.
    apply elem_of_allQueued in Hq as (l & Hq). eapply Hkept; [|done]. destruct l; set_solver.
Qed.

(** ** Submitting *)

Lemma pool_ok_ext p p' :
  (forall l, lanes p' l = lanes p l) -> settlements p ⊆ settlements p' -> pool_ok p -> pool_ok p'.
Proof.
  intros Hl Hs [H1 H2 H3]. assert (allQueued p' = allQueued p) as E.
  { unfold allQueued. by apply flat_map_ext. }
  constructor.
  - intros l q. rewrite Hl. apply H1.
  - intros q. rewrite E. intros Hq%H2. set_solver.
  - unfold queuedIds. by rewrite E.
Qed.

Lemma add_ok p l x k :
  pool_ok p -> lane (item x) = l -> idOf (item x) ∉ queuedIds p -> k ≡ₚ x :: lanes p l ->
  pool_ok (handle (idOf (item x)) (with_lanes p (upd (lanes p) l k))).
Proof.
  intros [H1 H2 H3] Hl Hid Hk.
  assert (flat_map (upd (lanes p) l k) LANE_PRIORITY ≡ₚ x :: allQueued p) as Hq.
  { destruct (lane_split l) as (pre & post & E & Hpre & Hpost). unfold allQueued. rewrite E.
    rewrite !flat_map_app. simpl. rewrite !flat_map_upd by done.
    unfold upd at 1. rewrite decide_True by done. rewrite Hk. simpl.
    by rewrite <- Permutation_middle. }
  constructor; simpl.
  - intros l' q. unfold upd. case_decide as E; [subst l'|apply H1].
    rewrite Hk, elem_of_cons. intros [->|?]; [done|by apply H1].
  - intros q. unfold allQueued. simpl. rewrite Hq, elem_of_cons. intros [->|?%H2]; set_solver.
  - unfold queuedIds, allQueued. simpl. rewrite Hq. simpl. by constructor.
Qed.

Lemma settle_ok id d p : pool_ok p -> id ∉ queuedIds p -> pool_ok (settle id d p).
Proof.
  intros Hok Hid. destruct (settle_same id d p) as (Hl & _). destruct Hok as [H1 H2 H3].
  constructor; unfold queuedIds, allQueued in *; rewrite Hl; try done.
  intros q Hq. rewrite settle_settlements. apply elem_of_difference. split; [by apply H2|].
  intros Heq%elem_of_singleton. apply Hid. rewrite <- Heq. by do 2 apply list_elem_of_fmap_2.
Qed.

(** Taking an item out and settling it, as [removeById] and coalescing do. *)
Lemma drop_ok p l n q d :
  pool_ok p -> lanes p l !! n = Some q ->
  let p' := settle (idOf (item q)) d (with_lanes p (upd (lanes p) l (delete n (lanes p l)))) in
  pool_ok p' /\ queuedIds p ≡ₚ idOf (item q) :: queuedIds p'.
Proof.
  intros Hok Hn p'. set (p1 := with_lanes p (upd (lanes p) l (delete n (lanes p l)))).
  assert (taken p l q p1) as Htk by by exists n.
  pose proof (taken_perm _ _ _ _ Htk) as Hp. pose proof (taken_ok _ _ _ _ Hok Htk) as Hok1.
  assert (queuedIds p ≡ₚ idOf (item q) :: queuedIds p1) as Hids.
  { unfold queuedIds. by rewrite Hp. }
  destruct (settle_same (idOf (item q)) d p1) as (Hl & _).
  assert (queuedIds p' = queuedIds p1) as E.
  { subst p'. fold p1. unfold queuedIds, allQueued. by rewrite Hl. }
  rewrite E. split; [|done]. apply settle_ok; [done|].
  destruct Hok as [_ _ Hnd]. rewrite Hids in Hnd. by apply NoDup_cons in Hnd as [? _].
Qed.

Lemma delete_insert_list {A} (l : list A) n x : delete n (<[n := x]> l) = delete n l.
Proof. revert n. induction l as [|y l IH]; intros [|n]; simpl; try done. by f_equal. Qed.

(** Submitting an item under an id that is not in use. *)
Lemma submit_ok i p :
  pool_ok p -> (submit i p).1 ∉ queuedIds p -> pool_ok (submit i p).2.
Proof.
  intros Hok. unfold submit.
  set (idp := match itemId i with Some _ => _ | None => _ end).
  assert (lanes idp.2 = lanes p /\ settlements idp.2 = settlements p) as [El Es].
  { subst idp. by destruct (itemId i). }
  destruct idp as [id p1]. simpl in El, Es.
  assert (pool_ok p1) as Hok1 by (eapply pool_ok_ext; [by rewrite El|by rewrite Es|done]).
  assert (queuedIds p1 = queuedIds p) as Eids by (unfold queuedIds, allQueued; by rewrite El).
  destruct (match itemId i with Some _ => None | None => _ end) as [[n q]|] eqn:Efind; simpl.
  - assert (lanes p1 (lane i) !! n = Some q) as Hn.
    { destruct (itemId i), (coalesceKey i); try done. by apply list_find_Some in Efind as [? _]. }
    intros Hid. destruct (drop_ok p1 (lane i) n q removed Hok1 Hn) as [Hok2 Hperm].
    set (p2 := settle (idOf (item q)) removed (with_lanes p1 (upd (lanes p1) (lane i) (delete n (lanes p1 (lane i)))))) in *.
    set (x := {| item := with_id i id; seq_ := seq_ q |}).
    destruct (settle_same (idOf (item q)) removed
      (with_lanes p1 (upd (lanes p1) (lane i) (delete n (lanes p1 (lane i)))))) as (Hl2 & _).
    destruct (settle_same (idOf (item q)) removed p1) as (Hl3 & _).
    eapply pool_ok_ext; [| |apply (add_ok p2 (lane i) x (<[n := x]> (lanes p1 (lane i))))].
    + intros l. simpl. unfold p2. rewrite Hl2, Hl3. simpl. unfold upd. by case_decide.
    + simpl. unfold p2. rewrite !settle_settlements. done.
    + done.
    + done.
    + intros Hin. apply Hid. rewrite <- Eids, Hperm. by right.
    + unfold p2. rewrite Hl2. simpl. unfold upd. rewrite decide_True by done.
      rewrite <- (delete_insert_list _ n x). apply delete_Permutation.
      apply list_lookup_insert_eq. by eapply lookup_lt_Some.
  - set (sp := match itemId i with Some _ => _ | None => _ end).
    assert (lanes sp.2 = lanes p1 /\ settlements sp.2 = settlements p1) as [El2 Es2].
    { subst sp. by destruct (itemId i). }
    destruct sp as [sq p2]. simpl in *. intros Hid.
    eapply pool_ok_ext; [| |apply (add_ok p1 (lane i) {| item := with_id i id; seq_ := sq |}
      (lanes p1 (lane i) ++ [{| item := with_id i id; seq_ := sq |}]))]; simpl; try done.
    + intros l. by rewrite El2.
    + by rewrite Es2.
    + by rewrite Eids.
    + by rewrite <- Permutation_cons_append.
Qed.

(** ** Runs *)

Inductive op : Type :=
| OpSubmit (i : RateLimitItem)
| OpSettle (id : string) (d : Disposition)
| OpDrain (nowMs : Z)
| OpRemoveWhere (predicate : RateLimitItem -> bool) (d : Disposition)
| OpRemoveById (id : string)
| OpTokens (nowMs : Z).

(** One operation: the items it hands out for sending, and the pool. *)
Definition exec_op (o : op) (p : Pool) : list RateLimitItem * Pool :=
  match o with
  | OpSubmit i => ([], (submit i p).2)
  | OpSettle id d => ([], settle id d p)
  | OpDrain now => let '(r, p') := drain now p in
                   (match r with Ok g => g | Throw _ => [] end, p')
  | OpRemoveWhere P d => ([], (removeWhere P d p).2)
  | OpRemoveById id => ([], (removeById id p).2)
  | OpTokens now => ([], (availableTokens now p).2)
  end.

Definition run (ops : list op) (p : Pool) : list RateLimitItem * Pool :=
  foldl (fun acc o => let '(g, p') := exec_op o acc.2 in (acc.1 ++ g, p')) ([], p) ops.

(** The clock values of a run. *)
Definition op_time (o : op) : option Z :=
  match o with OpDrain t | OpTokens t => Some t | _ => None end.

(** The bucket invariant: what was handed out, plus what is left, was in the bucket at the start
    or flowed in since. *)
Definition bucket_ok (p0 : Pool) (n : Z) (p : Pool) : Prop :=
  (0 <= tokens p)%Q /\ capacity p = capacity p0 /\ refillPerSec p = refillPerSec p0 /\
  lastRefill p0 <= lastRefill p /\
  (inject_Z n + tokens p <=
     capacity p0 + inject_Z (lastRefill p - lastRefill p0) / 1000 * refillPerSec p0)%Q.

(** Operations that leave the bucket alone. *)
Definition same_bucket (p p' : Pool) : Prop :=
  tokens p' = tokens p /\ lastRefill p' = lastRefill p /\ capacity p' = capacity p /\
  refillPerSec p' = refillPerSec p.

Lemma bucket_same p0 n p p' : same_bucket p p' -> bucket_ok p0 n p -> bucket_ok p0 n p'.
Proof. intros (H1 & H2 & H3 & H4) H. unfold bucket_ok. by rewrite H1, H2, H3, H4. Qed.

Lemma same_queues_bucket p p' : same_queues p p' -> same_bucket p p'.
Proof. by intros (_ & _ & ? & ? & ? & ?). Qed.

Lemma submit_bucket i p : same_bucket p (submit i p).2.
Proof.
  unfold submit. destruct (itemId i), (coalesceKey i); simpl; try done.
  destruct (list_find _ _) as [[n q]|]; simpl; [|done].
  exact (same_queues_bucket (with_seq p (S (seqCounter p))) _ (settle_same _ _ _)).
Qed.

Lemma removeByIdIn_bucket ls id p : same_bucket p (removeByIdIn ls id p).2.
Proof.
  induction ls as [|l ls IH]; simpl; [done|]. destruct (list_find _ _) as [[n q]|]; simpl; [|done].
  exact (same_queues_bucket (with_lanes p _) _ (settle_same _ _ _)).
Qed.

Lemma refill_bucket p0 n now p :
  (0 <= refillPerSec p0)%Q -> (0 <= capacity p0)%Q ->
  bucket_ok p0 n p -> bucket_ok p0 n (refill now p).
Proof.
  intros Hr Hc (H1 & H2 & H3 & H4 & H5). unfold refill.
  destruct (Z.leb_spec now (lastRefill p)); [done|].
  unfold bucket_ok. simpl. rewrite H2, H3.
  set (dt := (inject_Z (now - lastRefill p) / 1000)%Q).
  assert (0 <= dt)%Q as Hdt.
  { subst dt. apply Qle_shift_div_l; [lra|]. rewrite Qmult_0_l.
    change 0%Q with (inject_Z 0). rewrite <- Zle_Qle. lia. }
  assert (inject_Z (now - lastRefill p0) / 1000 ==
    inject_Z (lastRefill p - lastRefill p0) / 1000 + dt)%Q as E.
  { subst dt. replace (now - lastRefill p0) with ((lastRefill p - lastRefill p0) + (now - lastRefill p))
      by lia. rewrite inject_Z_plus. field. }
  assert (0 <= dt * refillPerSec p0)%Q as Hin by by apply Qmult_le_0_compat.
  split_and!; [|done|done|lia|].
  - apply Q.min_glb; [done|lra].
  - pose proof (Q.le_min_r (capacity p0) (tokens p + dt * refillPerSec p0)) as Hmin.
    rewrite E, Qmult_plus_distr_l. lra.
Qed.

(** A queue that lost an item in [takeNext]; the loop pays one token for each item it hands out,
    also when a later round throws. *)
Lemma takeNext_bucket p : same_bucket p (takeNext p).2.
Proof.
  unfold takeNext. destruct (takeNextIn_spec LANE_PRIORITY p) as [[_ ->]|(pre & l & post & _ & _ & Hne & ->)];
    [done|]. destruct (takeLane_spec l p Hne) as (q & p' & -> & n & _ & _ & _ & ? & ? & ? & ?). done.
Qed.

Lemma grantLoop_clock fuel acc p : lastRefill (grantLoop fuel acc p).2 = lastRefill p.
Proof.
  revert acc p. induction fuel as [|fuel IH]; intros acc p; simpl; [done|].
  case_match; [done|]. pose proof (takeNext_bucket p) as (_ & Hs & _).
  destruct (takeNext p) as [[[i|e]|] p1]; simpl in *; [by rewrite IH|done|done].
Qed.

Lemma grantLoop_bucket p0 n fuel acc p :
  bucket_ok p0 n p ->
  let '(r, p') := grantLoop fuel acc p in
  bucket_ok p0 (n + match r with Ok g => zlength g - zlength acc | Throw _ => 0 end) p'.
Proof.
  revert n acc p. induction fuel as [|fuel IH]; intros n acc p Hb; simpl.
  { by rewrite Z.sub_diag, Z.add_0_r. }
  destruct (Qltb (tokens p) 1) eqn:Ht; [by rewrite Z.sub_diag, Z.add_0_r|]. apply Qltb_ge in Ht.
  pose proof (takeNext_bucket p) as Hs. destruct (takeNext p) as [[[i|e]|] p1]; simpl in Hs.
  - set (p2 := with_tokens p1 (tokens p1 - 1) (lastRefill p1)).
    assert (bucket_ok p0 (n + 1) p2) as Hb2.
    { destruct Hs as (E1 & E2 & E3 & E4). destruct Hb as (H1 & H2 & H3 & H4 & H5).
      unfold bucket_ok. simpl. rewrite E1, E2, E3, E4. split_and!; [lra|done|done|done|].
      rewrite inject_Z_plus. change (inject_Z 1) with 1%Q. lra. }
    specialize (IH (n + 1) (acc ++ [i]) p2 Hb2).
    destruct (grantLoop fuel (acc ++ [i]) p2) as [[g|e] p']; rewrite ?zlength_app in IH.
    + change (zlength [i]) with 1 in IH. by replace (n + (zlength g - zlength acc)) with
        (n + 1 + (zlength g - (zlength acc + 1))) by lia.
    + destruct IH as (? & ? & ? & ? & H5). split_and!; try done. rewrite Z.add_0_r in *.
      rewrite inject_Z_plus in H5. change (inject_Z 1) with 1%Q in H5. lra.
  - rewrite Z.add_0_r. by eapply bucket_same.
  - rewrite Z.sub_diag, Z.add_0_r. by eapply bucket_same.
Qed.

Lemma removeWhere_bucket P d p : same_bucket p (removeWhere P d p).2.
Proof.
  unfold removeWhere. destruct (removeLanes_spec P d LANE_PRIORITY [] p) as (rem & p' & -> & [? ? ? ? Hb ?]).
  done.
Qed.

Lemma exec_op_bucket p0 n o p :
  (0 <= refillPerSec p0)%Q -> (0 <= capacity p0)%Q -> bucket_ok p0 n p ->
  let '(g, p') := exec_op o p in bucket_ok p0 (n + zlength g) p'.
Proof.
  intros Hr Hc Hb. destruct o; simpl; try change (zlength []) with 0; rewrite ?Z.add_0_r.
  - eapply bucket_same; [apply submit_bucket|done].
  - eapply bucket_same; [apply same_queues_bucket, settle_same|done].
  - unfold drain, drainWithExpired.
    pose proof (removeWhere_bucket (isExpired nowMs) expired (refill nowMs p)) as Hs.
    destruct (removeWhere (isExpired nowMs) expired (refill nowMs p)) as [e p2]. simpl in Hs.
    pose proof (grantLoop_bucket p0 n (pending p2) [] p2) as Hl.
    destruct (grantLoop (pending p2) [] p2) as [[g|x] p3]; simpl.
    + replace (zlength g) with (zlength g - zlength (@nil RateLimitItem)) by (change (zlength []) with 0; lia).
      apply Hl. eapply bucket_same; [done|]. by apply refill_bucket.
    + apply Hl. eapply bucket_same; [done|]. by apply refill_bucket.
  - eapply bucket_same; [apply removeWhere_bucket|done].
  - eapply bucket_same; [apply removeByIdIn_bucket|done].
  - by apply refill_bucket.
Qed.

Lemma run_bucket p0 ops :
  (0 <= refillPerSec p0)%Q -> (0 <= capacity p0)%Q -> bucket_ok p0 0 p0 ->
  bucket_ok p0 (zlength (run ops p0).1) (run ops p0).2.
Proof.
  intros Hr Hc H0. unfold run.
  set (f := fun acc o => let '(g, p') := exec_op o acc.2 in (acc.1 ++ g, p')).
  cut (forall acc p, bucket_ok p0 (zlength acc) p ->
    bucket_ok p0 (zlength (foldl f (acc, p) ops).1) (foldl f (acc, p) ops).2); [intros H; by apply H|].
  induction ops as [|o ops IH]; intros acc p Hb; simpl; [done|]. unfold f at 2 4. simpl.
  pose proof (exec_op_bucket p0 _ o p Hr Hc Hb) as H. destruct (exec_op o p) as [g p'].
  apply IH. by rewrite zlength_app.
Qed.

(** Refilling never moves the clock past the times it was given. *)
Lemma run_clock ops p0 t :
  lastRefill p0 <= t -> Forall (fun o => forall t', op_time o = Some t' -> t' <= t) ops ->
  lastRefill (run ops p0).2 <= t.
Proof.
  intros H0 Ht. unfold run. generalize (@nil RateLimitItem) as acc. revert p0 H0.
  induction Ht as [|o ops Ho _ IH]; intros p Hp acc; simpl; [done|].
  assert (forall now, now <= t -> lastRefill (refill now p) <= t) as Hrf.
  { intros now Hn. unfold refill. by case_match. }
  destruct (exec_op o p) as [g p'] eqn:E. apply IH.
  change p' with (g, p').2. rewrite <- E. destruct o; cbn [exec_op snd].
  - destruct (submit_bucket i p) as (_ & -> & _). done.
  - by destruct (same_queues_bucket _ _ (settle_same id d p)) as (_ & -> & _).
  - unfold drain, drainWithExpired. specialize (Hrf nowMs (Ho _ eq_refl)).
    pose proof (removeWhere_bucket (isExpired nowMs) expired (refill nowMs p)) as (_ & Hs & _).
    destruct (removeWhere (isExpired nowMs) expired (refill nowMs p)) as [e p2]. simpl in Hs.
    pose proof (grantLoop_clock (pending p2) [] p2) as Hl.
    destruct (grantLoop (pending p2) [] p2) as [r p3]. simpl in *. congruence.
  - by destruct (removeWhere_bucket predicate d p) as (_ & -> & _).
  - unfold removeById. by destruct (removeByIdIn_bucket LANE_PRIORITY id p) as (_ & -> & _).
  - by apply Hrf, Ho.
Qed.

(** C19: bounds. Over any run of a pool, whatever the order of its operations and of the clock
    values, the number of items handed out for sending is at most the burst capacity plus the
    steady rate times the time since the pool was made: the shared limit of the chat holds. *)
Theorem grants_respect_the_bucket cap rate t0 ops t :
  t0 <= t -> Forall (fun o => forall t', op_time o = Some t' -> t' <= t) ops ->
  let p0 := newPool cap rate t0 in
  (inject_Z (zlength (run ops p0).1) <=
     capacity p0 + inject_Z (t - t0) / 1000 * refillPerSec p0)%Q.
Proof.
  intros Ht0 Hops p0.
  assert (0 <= refillPerSec p0)%Q as Hr by apply Q.le_max_l.
  assert (1 <= capacity p0)%Q as Hc by apply Q.le_max_l.
  assert (bucket_ok p0 0 p0) as H0.
  { unfold bucket_ok. rewrite Z.sub_diag. split_and!; [simpl in *; lra|done|done|lia|].
    simpl tokens. change (inject_Z 0) with 0%Q. change (Qmax 1 (default 20%Q cap)) with (capacity p0).
    unfold Qdiv. lra. }
  destruct (run_bucket p0 ops Hr) as (Htok & _ & _ & _ & Hb); [lra|done|].
  pose proof (run_clock ops p0 t Ht0 Hops) as Hcl.
  assert (inject_Z (lastRefill (run ops p0).2 - lastRefill p0) / 1000 * refillPerSec p0 <=
    inject_Z (t - t0) / 1000 * refillPerSec p0)%Q as Hmono.
  { apply Qmult_le_compat_r; [|done]. apply Qmult_le_compat_r; [|easy].
    rewrite <- Zle_Qle. simpl lastRefill. lia. }
  lra.
Qed.

(** ** Fairness inside a lane *)

(** [k] grants in a row from one lane. *)
Fixpoint takeMany (k : nat) (l : RateLimitLane) (p : Pool) : list RateLimitItem :=
  match k with
  | O => []
  | S k => match takeLane l p with
           | (Some (Ok i), p') => i :: takeMany k l p'
           | _ => []
           end
  end.

(** How many grants until the cursor points at the first session. *)
Definition wait (cursor n : nat) : nat :=
  (if cursor mod n =? 0 then 0 else n - cursor mod n)%nat.

Lemma wait_lt cursor n : (1 <= n)%nat -> (wait cursor n < n)%nat.
Proof. intros Hn. unfold wait. destruct (Nat.eqb_spec (cursor mod n) 0); lia. Qed.

Lemma wait_step cursor n n' :
  (2 <= n)%nat -> (n' = n \/ n' + 1 = n)%nat -> (cursor mod n <> 0)%nat ->
  (wait ((cursor + 1) mod n) n' < wait cursor n)%nat.
Proof.
  intros Hn Hn' Hc. unfold wait. apply Nat.eqb_neq in Hc as Hc'. rewrite Hc'.
  pose proof (Nat.mod_upper_bound cursor n). pose proof (Nat.mod_upper_bound cursor n).
  assert ((cursor + 1) mod n = if (cursor mod n + 1 =? n)%nat then 0%nat else cursor mod n + 1)%nat
    as ->.
  { rewrite Nat.Div0.add_mod, (Nat.mod_small 1) by lia.
    destruct (Nat.eqb_spec (cursor mod n + 1) n) as [->|]; [by rewrite Nat.Div0.mod_same|].
    apply Nat.mod_small. lia. }
  destruct (Nat.eqb_spec (cursor mod n + 1) n); [rewrite Nat.Div0.mod_0_l; simpl; lia|].
  destruct Hn' as [->|Hn'].
  - rewrite (Nat.mod_small (cursor mod n + 1)) by lia. case_match; lia.
  - destruct (decide (cursor mod n + 1 = n')%nat) as [->|].
    + rewrite Nat.Div0.mod_same. simpl. lia.
    + rewrite (Nat.mod_small (cursor mod n + 1)) by lia. case_match; lia.
Qed.

(** Taking one item away loses at most its session. *)
Lemma sessionsOf_delete queue idx q :
  queue !! idx = Some q ->
  let n := length (sessionsOf queue) in
  let n' := length (sessionsOf (delete idx queue)) in
  n' = n \/ (n' + 1 = n)%nat.
Proof.
  intros Hq n n'. pose proof (delete_Permutation _ _ _ Hq) as Hp. subst n n'.
  generalize dependent (delete idx queue). intros k Hp.
  assert (length (sessionsOf k) <= length (sessionsOf queue))%nat.
  { apply submseteq_length, NoDup_submseteq; [apply sessionsOf_NoDup|].
    intros s. rewrite !elem_of_sessionsOf, Hp. simpl. by right. }
  assert (length (sessionsOf queue) <= S (length (sessionsOf k)))%nat; [|lia].
  apply (submseteq_length _ (sessionId (item q) :: sessionsOf k)),
    NoDup_submseteq; [apply sessionsOf_NoDup|].
  intros s. rewrite elem_of_cons, !elem_of_sessionsOf, Hp. simpl. by rewrite elem_of_cons.
Qed.

(** Serving a lane whose promises are open. *)
Lemma takeLane_pick l p :
  pool_ok p -> lanes p l <> [] ->
  let '(idx, c) := pickFairIndex (laneCursor p l) (lanes p l) in
  exists q p', lanes p l !! idx = Some q /\ takeLane l p = (Some (Ok (item q)), p') /\
    pool_ok p' /\ lanes p' l = delete idx (lanes p l) /\
    laneCursor p' l = default (laneCursor p l) c.
Proof.
  intros Hok Hne. pose proof (pickFairIndex_valid (laneCursor p l) _ Hne) as [q Hq].
  unfold takeLane. destruct (pickFairIndex (laneCursor p l) (lanes p l)) as [idx c] eqn:E.
  simpl in Hq. rewrite Hq. eexists q, _. split; [done|].
  set (p' := with_lanes _ _). assert (taken p l q p') as Htk by (exists idx; by destruct c).
  assert (idOf (item q) ∈ settlements p') as Hopen.
  { destruct Htk as (_ & _ & _ & -> & _). apply (po_open _ Hok), elem_of_allQueued.
    exists l. by eapply list_elem_of_lookup_2. }
  split_and!.
  - unfold markSending. by rewrite decide_True.
  - by eapply taken_ok.
  - simpl. unfold upd. by rewrite decide_True by done.
  - destruct c; simpl; [|done]. unfold upd. by rewrite decide_True by done.
Qed.

Lemma takeMany_head k l p q queue :
  pool_ok p -> lanes p l = q :: queue ->
  (wait (laneCursor p l) (length (sessionsOf (q :: queue))) < k)%nat -> item q ∈ takeMany k l p.
Proof.
  revert p queue. induction k as [|k IH]; intros p queue Hok Hl Hw; [lia|]. simpl.
  pose proof (takeLane_pick l p Hok) as Hp. rewrite Hl in Hp.
  set (n := length (sessionsOf (q :: queue))) in *.
  destruct (decide (2 <= n)%nat) as [Hn|Hn].
  - destruct (pickFairIndex_spec (laneCursor p l) (q :: queue) Hn) as (cand & idx & q0 & Hc & Hf & E).
    rewrite E in Hp. destruct Hp as (q' & p' & Hq' & -> & Hok' & Hl' & Hcur); [done|].
    destruct idx as [|idx]; [injection Hq' as ->; by left|]. right. simpl in Hl'.
    eapply IH; [done..|]. rewrite Hcur. simpl. fold n.
    eapply Nat.lt_le_trans; [apply wait_step|]; [done|apply (sessionsOf_delete (q :: queue) (S idx) q' Hq')| |lia].
    intros H0. fold n in Hc. rewrite H0 in Hc. apply list_find_Some in Hf as (_ & _ & Hfirst).
    specialize (Hfirst 0%nat q eq_refl ltac:(lia)). apply Hfirst.
    pose proof (sessionsOf_head q queue) as Hh. rewrite head_lookup in Hh. congruence.
  - unfold pickFairIndex in Hp. fold n in Hp. destruct (Nat.leb_spec n 1); [|lia].
    destruct Hp as (q' & p' & [= ->] & -> & _); [done|]. by left.
Qed.

(** Liveness. The item that has waited longest in a lane is granted after at most as many
    grants from that lane as the lane has sessions, whatever the round-robin cursor: no session's
    stream starves another's. *)
Theorem lane_head_is_served l p q queue :
  pool_ok p -> lanes p l = q :: queue ->
  item q ∈ takeMany (length (sessionsOf (lanes p l))) l p.
Proof.
  intros Hok Hl. rewrite Hl. eapply takeMany_head; [done..|]. apply wait_lt.
  by apply sessionsOf_nonempty.
Qed.

(** ** The pool invariant along a run *)

(** The ids in use are not reused and a queued item is not settled from outside. *)
Definition op_fresh (o : op) (p : Pool) : Prop :=
  match o with
  | OpSubmit i => (submit i p).1 ∉ queuedIds p
  | OpSettle id _ => id ∉ queuedIds p
  | _ => True
  end.

Lemma removeByIdIn_ok ls id p : pool_ok p -> pool_ok (removeByIdIn ls id p).2.
Proof.
  intros Hok. induction ls as [|l ls IH]; simpl; [done|].
  destruct (list_find _ _) as [[n q]|] eqn:E; [|done].
  apply list_find_Some in E as [Hn _]. simpl. by apply drop_ok.
Qed.

Lemma pool_exec_op_ok o p : op_fresh o p -> pool_ok p -> pool_ok (exec_op o p).2.
Proof.
  intros Hf Hok. destruct o; cbn [exec_op snd op_fresh] in *.
  - by apply submit_ok.
  - by apply settle_ok.
  - destruct (drainWithExpired_spec nowMs p Hok) as (e & g & p2 & p' & Hd & _ & Hg).
    unfold drain. rewrite Hd. simpl. by destruct Hg.
  - unfold removeWhere. destruct (removeLanes_spec predicate d LANE_PRIORITY [] p) as (r & p' & -> & Hr).
    by eapply removes_ok.
  - by apply removeByIdIn_ok.
  - by apply refill_ok.
Qed.

Lemma newPool_ok cap rate t0 : pool_ok (newPool cap rate t0).
Proof. constructor; simpl; try by intros ?? ?%elem_of_nil. by intros ? ?%elem_of_nil. constructor. Qed.

End Pool.

(** ** Concrete runs *)

Definition demoItem (session : string) (l : RateLimitLane) (key id : option string) (n : nat)
    : @RateLimitItem nat :=
  {| sessionId := session; lane := l; coalesceKey := key; itemId := id; deadlineAt := None;
     payload := n |}.

(** Two sessions with two live items each, queued alternately, and one urgent question. *)
Definition demoPool : @Pool nat :=
  foldr (fun i p => (submit i p).2) (newPool (Some 3%Q) None 0)
    [demoItem "B" ask None None 5; demoItem "B" live None None 4; demoItem "A" live None None 3;
     demoItem "B" live None None 2; demoItem "A" live None None 1].

Lemma demoPool_ok : pool_ok demoPool.
Proof.
  unfold demoPool. cbn [foldr].
  do 5 (apply submit_ok; [|intros H%(bool_decide_eq_true_2 (_ ∈ _)); vm_compute in H; done]).
  apply newPool_ok.
Qed.

Lemma drain_is_exact_witness :
  exists e g p', drainWithExpired 1000 demoPool = (Ok {| granted := g; expired_items := e |}, p') /\
    StronglySorted byPriority g.
Proof.
  destruct (drain_is_exact 1000 demoPool demoPool_ok) as (e & g & p' & H1 & _ & _ & _ & _ & H2 & _).
  exists e, g, p'. exact (conj H1 H2).
Defined.

Lemma grants_respect_the_bucket_witness :
  (inject_Z (zlength (run [OpSubmit (demoItem "A" live None None 1); OpDrain 10; OpDrain 5]
     (newPool (Some 3%Q) None 0)).1) <= 4)%Q.
Proof.
  eapply Qle_trans; [apply (grants_respect_the_bucket (Some 3%Q) None 0
    [OpSubmit (demoItem "A" live None None 1); OpDrain 10; OpDrain 5] 1000)|].
  - lia.
  - repeat constructor; intros t' H; simpl in H; try discriminate H; injection H as <-; lia.
  - vm_compute. discriminate.
Defined.

Lemma lane_head_is_served_witness :
  demoItem "A" live None (Some "rate-limit:0") 1 ∈ takeMany 2 live demoPool.
Proof.
  refine (lane_head_is_served live demoPool
    {| item := demoItem "A" live None (Some "rate-limit:0") 1; seq_ := 0 |} _ demoPool_ok _).
  vm_compute. reflexivity.
Defined.

(** The rotation is over positions of a list that is rebuilt for every grant: session A is served
    twice in a row while B, queued before A's second item, waits. *)
Lemma round_robin_serves_a_session_twice :
  sessionId <$> takeMany 3 live demoPool = ["A"; "A"; "B"]%string.
Proof. vm_compute. reflexivity. Qed.

(** An unidentified item displaces a queued item that carries an id of its own. *)
Lemma identified_item_is_coalesced :
  let p0 := (submit (demoItem "A" live (Some "k") (Some "mine") 1) (newPool None None 0)).2 in
  let p1 := (submit (demoItem "A" live (Some "k") None 2) p0).2 in
  "mine" ∈ queuedIds p0 /\ queuedIds p1 = ["rate-limit:1"] /\ settledLog p1 = [("mine", removed)].
Proof.
  split_and!; [|vm_compute; reflexivity..].
  apply (bool_decide_eq_true_1 _). vm_compute. reflexivity.
Qed.
