(* ===== verification/Harness.v ===== *)
(** * Harness control plane: lifecycle, recovery classifier, owner reconciliation

    harness-control-plane/types.ts (the data), state-machine.ts (the transition table, the
    [nextAllowedActions] contract), classifier.ts (the recovery decision) and
    lifecycle-reconciliation.ts (what an observation does to the persisted session record).
    String unions are inductive types; free-form strings stay strings. *)
From S2P Require Import Prelude.
Open Scope string_scope.

(** ** types.ts *)

Inductive HarnessName : Type := gajae_code | codex | omx.

Inductive SessionMode : Type := implement | review.

Inductive HarnessLifecycle : Type :=
| new | started | submitted | observing | recovering | validating | finalizing | completed
| blocked | retired.

Inductive Severity : Type := info | warn | critical.

Inductive GitDelta : Type := clean | dirty | zero_delta | unknown.

Inductive RiskKind : Type := normal | prompt_not_accepted | deleted_worktree | vanished_dirty.

Inductive RecoveryClassification : Type :=
| continue | send_enter | reinject_prompt | restart_clean | restart_preserve_delta
| fallback_codex_exec | human_check.

Inductive ReceiptFamily : Type :=
| vanish | prompt_acceptance | validation | completion | review_verdict | review_failure
| phase_rollup.

Inductive HarnessVerb : Type :=
| v_start | v_submit | v_observe | v_classify | v_recover | v_validate | v_finalize | v_retire
| v_events | v_monitor | v_operate.

#[global] Instance HarnessLifecycle_eq_dec : EqDecision HarnessLifecycle.
Proof. solve_decision. Defined.
#[global] Instance GitDelta_eq_dec : EqDecision GitDelta.
Proof. solve_decision. Defined.
#[global] Instance RiskKind_eq_dec : EqDecision RiskKind.
Proof. solve_decision. Defined.
#[global] Instance RecoveryClassification_eq_dec : EqDecision RecoveryClassification.
Proof. solve_decision. Defined.
#[global] Instance HarnessVerb_eq_dec : EqDecision HarnessVerb.
Proof. solve_decision. Defined.

(** The names the source prints. *)
Definition lifecycle_str (l : HarnessLifecycle) : string :=
  match l with
  | new => "new" | started => "started" | submitted => "submitted" | observing => "observing"
  | recovering => "recovering" | validating => "validating" | finalizing => "finalizing"
  | completed => "completed" | blocked => "blocked" | retired => "retired"
  end.

Definition gitDelta_str (d : GitDelta) : string :=
  match d with clean => "clean" | dirty => "dirty" | zero_delta => "zero-delta" | unknown => "unknown" end.

(** [available]; the reason of an unavailable verb. *)
Record NextAllowedAction : Type := {
  verb : HarnessVerb;
  available : bool;
  action_reason : option string
}.

Record SessionStateView : Type := {
  view_sessionId : string;
  view_lifecycle : HarnessLifecycle;
  view_harness : HarnessName;
  view_ownerLive : bool;
  view_blockers : list string
}.

Record PrimitiveResponse (E : Type) : Type := {
  ok : bool;
  resp_state : SessionStateView;
  evidence : E;
  resp_nextAllowedActions : list NextAllowedAction
}.
Arguments Build_PrimitiveResponse {E}.
Arguments ok {E}.
Arguments resp_state {E}.
Arguments evidence {E}.
Arguments resp_nextAllowedActions {E}.

Record SessionHandle : Type := {
  handle_sessionId : string;
  handle_harness : HarnessName;
  mode : option SessionMode;
  repo : option string;
  workspace : string;
  branch : option string;
  base : option string;
  issueOrPr : option string;
  processHandle_ownerId : option string;
  processHandle_pid : option Z;
  sdkHandle_sessionId : string;
  ownerHandle_leasePath : string;
  ownerHandle_endpoint : option string;
  ownerHandle_heartbeatAt : option string;
  routerHandle_policy : string;
  routerHandle_eventsPath : string;
  viewportHandle_tmuxSessionName : option string;
  startedAt : string;
  handle_updatedAt : string
}.

Record SessionState : Type := {
  schemaVersion : Z;
  sessionId : string;
  lifecycle : HarnessLifecycle;
  harness : HarnessName;
  handle : SessionHandle;
  retries : gmap string Z;
  blockers : list string;
  createdAt : string;
  updatedAt : string
}.

Definition OBSERVED_SIGNALS : list string :=
  ["SessionStart"; "prompt-accepted"; "tool-call"; "test-running"; "commit-created";
   "completed"; "error"; "streaming"; "idle"].

Record Observation : Type := {
  obs_lifecycle : HarnessLifecycle;
  ownerLive : bool;
  cwd : string;
  obs_branch : option string;
  gitDelta : GitDelta;
  lastActivityAt : option string;
  observedSignals : list string;
  risk : RiskKind;
  rpcLive : option bool;
  rpcLastFrameAt : option string;
  readyForSubmit : option bool;
  obs_submitUnavailableReason : option string
}.

Record RetryBudget : Type := {
  reinjectPrompt : Z;
  zeroDeltaVanish : Z;
  dirtyVanishPreserve : Z;
  validationRepair : Z
}.

Record ClassifyInput : Type := {
  observation : Observation;
  retryBudget : RetryBudget;
  acceptedPromptActive : option bool
}.

Record RecoveryDecision : Type := {
  classification : RecoveryClassification;
  reason : string;
  severity : Severity;
  ownerRequired : bool;
  requiredReceiptFamily : option ReceiptFamily
}.

Definition DEFAULT_RETRY_BUDGET : RetryBudget :=
  {| reinjectPrompt := 2; zeroDeltaVanish := 1; dirtyVanishPreserve := 1; validationRepair := 2 |}.

(** ** state-machine.ts *)

Definition TERMINAL_LIFECYCLES : list HarnessLifecycle := [completed; retired].
Definition SUBMIT_READY_LIFECYCLES : list HarnessLifecycle := [started; observing].

Definition TRANSITIONS (l : HarnessLifecycle) : list HarnessLifecycle :=
  match l with
  | new => [started; blocked; retired]
  | started => [submitted; observing; recovering; blocked; retired]
  | submitted => [observing; recovering; validating; blocked; retired]
  | observing => [submitted; recovering; validating; finalizing; blocked; retired]
  | recovering => [started; submitted; observing; blocked; retired]
  | validating => [finalizing; observing; blocked; retired]
  | finalizing => [completed; blocked; retired]
  | completed => [retired]
  | blocked => [started; submitted; observing; recovering; validating; retired]
  | retired => []
  end.

Definition isTerminal (l : HarnessLifecycle) : bool := bool_decide (l ∈ TERMINAL_LIFECYCLES).

Definition canTransition (from to : HarnessLifecycle) : bool := bool_decide (to ∈ TRANSITIONS from).

Definition assertTransition (from to : HarnessLifecycle) : result string unit :=
  if decide (from = to) then Ok tt
  else if canTransition from to then Ok tt
  else Throw ("invalid_transition:" +:+ lifecycle_str from +:+ "->" +:+ lifecycle_str to).

Definition submitUnavailableReason (l : HarnessLifecycle) (live : bool) (gateReason : option string)
    : option string :=
  if isTerminal l then Some ("lifecycle-terminal:" +:+ lifecycle_str l)
  else if decide (l = blocked) then Some "lifecycle-blocked"
  else if negb (bool_decide (l ∈ SUBMIT_READY_LIFECYCLES))
  then Some ("lifecycle-not-idle:" +:+ lifecycle_str l)
  else if negb live then Some "owner-not-live"
  else gateReason.

(** [add(verb, available, reason)] *)
Definition add (v : HarnessVerb) (av : bool) (r : option string) : NextAllowedAction :=
  if av then {| verb := v; available := av; action_reason := None |}
  else {| verb := v; available := av; action_reason := Some (default "unavailable" r) |}.

Definition nextAllowedActions (l : HarnessLifecycle) (live : bool) (gateReason : option string)
    : list NextAllowedAction :=
  let terminal := isTerminal l in
  let terminalReason :=
    if terminal then Some ("lifecycle-terminal:" +:+ lifecycle_str l) else None in
  let submitReason := submitUnavailableReason l live gateReason in
  [ add v_observe true None; add v_classify true None; add v_events true None;
    add v_monitor true None;
    add v_start false (Some "session-already-exists");
    add v_submit (bool_decide (submitReason = None)) submitReason;
    add v_recover (negb terminal) terminalReason;
    add v_validate (negb terminal) terminalReason;
    add v_finalize (negb terminal) terminalReason;
    add v_retire (negb (bool_decide (l = retired)))
      (if decide (l = retired) then Some "already-retired" else None) ].

Definition buildStateView (s : SessionState) (live : bool) : SessionStateView :=
  {| view_sessionId := sessionId s; view_lifecycle := lifecycle s; view_harness := harness s;
     view_ownerLive := live; view_blockers := blockers s |}.

Definition buildResponse {E} (s : SessionState) (live : bool) (ev : E) (okv : bool)
    : PrimitiveResponse E :=
  {| ok := okv; resp_state := buildStateView s live; evidence := ev;
     resp_nextAllowedActions := nextAllowedActions (lifecycle s) live None |}.

(** ** classifier.ts *)

Definition decision (c : RecoveryClassification) (why : string) (sev : Severity) (owner : bool)
    (family : option ReceiptFamily) : RecoveryDecision :=
  {| classification := c; reason := why; severity := sev; ownerRequired := owner;
     requiredReceiptFamily := family |}.

Definition classifyRecovery (input : ClassifyInput) : RecoveryDecision :=
  let o := observation input in
  let budget := retryBudget input in
  if decide (risk o = deleted_worktree) then
    decision human_check "deleted-worktree-or-path-mismatch" critical false (Some vanish)
  else if ownerLive o then
    if decide (risk o = prompt_not_accepted) then
      if (0 <? reinjectPrompt budget)%Z then
        decision reinject_prompt "prompt-ack-without-agent-start" warn true (Some prompt_acceptance)
      else decision human_check "prompt-not-accepted-budget-exhausted" critical false None
    else if bool_decide ("validation-failed" ∈ observedSignals o) then
      if (0 <? validationRepair budget)%Z then
        decision continue "validation-failed-repair-budget-remains" warn true (Some validation)
      else decision human_check "validation-failed-budget-exhausted" critical false (Some validation)
    else decision continue "owner-live-active" info true None
  else match gitDelta o with
  | dirty =>
      if (0 <? dirtyVanishPreserve budget)%Z then
        decision restart_preserve_delta "owner-vanished-dirty-delta" critical true (Some vanish)
      else decision fallback_codex_exec "dirty-vanish-preserve-budget-exhausted" critical true
             (Some vanish)
  | zero_delta =>
      if (0 <? zeroDeltaVanish budget)%Z then
        decision restart_clean "owner-vanished-zero-delta" warn true (Some vanish)
      else decision fallback_codex_exec "zero-delta-vanish-budget-exhausted" critical true
             (Some vanish)
  | clean => decision restart_clean "owner-vanished-clean" warn true (Some vanish)
  | unknown => decision human_check "owner-vanished-unknown-delta" critical false (Some vanish)
  end.

(** receipts.ts: classifications that need a valid vanish receipt first. *)
Definition requiresVanishBeforeAction (c : RecoveryClassification) : bool :=
  bool_decide (c = restart_clean) || bool_decide (c = restart_preserve_delta)
  || bool_decide (c = fallback_codex_exec).

(** ** lifecycle-reconciliation.ts *)

Definition OWNER_STARTUP_BLOCKER : string := "owner-died-before-first-prompt".

Record CompletedTerminalEvent : Type := {
  cursor : Z;
  cte_createdAt : string;
  kind : string
}.

Definition isOwnerLivenessBlocker (b : string) : bool :=
  bool_decide (b = "detached-owner-not-live") || String.prefix "owner-vanished:" b.

Definition needsVanishedOwnerBlock (s : SessionState) (o : Observation)
    (completedTerminal : option CompletedTerminalEvent) : bool :=
  if ownerLive o || negb (bool_decide (lifecycle s = observing)) then false
  else if bool_decide (is_Some completedTerminal) || bool_decide ("completed" ∈ observedSignals o)
  then false
  else existsb (fun sig => bool_decide (sig = "prompt-accepted") || bool_decide (sig = "tool-call")
                           || bool_decide (sig = "streaming")) (observedSignals o).

Definition with_lifecycle (s : SessionState) (l : HarnessLifecycle) (bs : list string) (now : string)
    : SessionState :=
  {| schemaVersion := schemaVersion s; sessionId := sessionId s; lifecycle := l;
     harness := harness s; handle := handle s; retries := retries s; blockers := bs;
     createdAt := createdAt s; updatedAt := now |}.

Definition addBlocker (bs : list string) (b : string) : list string :=
  if bool_decide (b ∈ bs) then bs else (bs ++ [b])%list.

(** The three steps of [reconcileOwnerLifecycle], each of which may write and persist the record
    once. [nowIso] gives the time of each step; the result carries the states persisted so far. *)
Definition reconcileCompleted (o : Observation) (ct : option CompletedTerminalEvent) (now : string)
    (sp : SessionState * list SessionState) : SessionState * list SessionState :=
  let '(s, persisted) := sp in
  if bool_decide (is_Some ct) && negb (ownerLive o) && bool_decide (gitDelta o = clean)
     && negb (bool_decide (lifecycle s = completed)) && negb (bool_decide (lifecycle s = retired))
  then let s' := with_lifecycle s completed
                   (filter (fun b => isOwnerLivenessBlocker b = false) (blockers s)) now in
       (s', (persisted ++ [s'])%list)
  else (s, persisted).

Definition reconcileVanished (o : Observation) (ct : option CompletedTerminalEvent) (now : string)
    (sp : SessionState * list SessionState) : SessionState * list SessionState :=
  let '(s, persisted) := sp in
  if needsVanishedOwnerBlock s o ct
  then let s' := with_lifecycle s blocked
                   (addBlocker (blockers s) ("owner-vanished:" +:+ gitDelta_str (gitDelta o))) now in
       (s', (persisted ++ [s'])%list)
  else (s, persisted).

Definition reconcileStartup (startupBlocked : bool) (now : string)
    (sp : SessionState * list SessionState) : SessionState * list SessionState :=
  let '(s, persisted) := sp in
  if startupBlocked && negb (bool_decide (lifecycle s = completed))
     && negb (bool_decide (lifecycle s = retired))
  then let s' := with_lifecycle s blocked (addBlocker (blockers s) OWNER_STARTUP_BLOCKER) now in
       (s', (persisted ++ [s'])%list)
  else (s, persisted).

(** Returns the record and the values handed to [persist], in order. *)
Definition reconcileOwnerLifecycle (s : SessionState) (o : Observation)
    (ct : option CompletedTerminalEvent) (startupBlocked : bool) (nowIso : nat -> string)
    : SessionState * list SessionState :=
  reconcileStartup startupBlocked (nowIso 2)
    (reconcileVanished o ct (nowIso 1) (reconcileCompleted o ct (nowIso 0) (s, []))).

(** ** Paths of the transition table *)

Definition lstep (l l' : HarnessLifecycle) : Prop := canTransition l l' = true.

Lemma rtc_retired l : rtc lstep retired l -> l = retired.
Proof. intros H. inversion H as [|? y ? Hs _]; subst; [done|]. by destruct y. Qed.

Lemma rtc_completed l : rtc lstep completed l -> l = completed \/ l = retired.
Proof.
  intros H. inversion H as [|? y ? Hs Hr]; subst; [by left|].
  destruct y; try done. right. by apply rtc_retired.
Qed.

(** ** Reconciliation, step by step *)

(** What one step may do: nothing, or write one new record and persist exactly that. *)
Definition write_once (sp sp' : SessionState * list SessionState) : Prop :=
  sp' = sp \/ exists l bs now, sp'.1 = with_lifecycle sp.1 l bs now /\ sp'.2 = (sp.2 ++ [sp'.1])%list
    /\ isTerminal (lifecycle sp.1) = false.

Lemma isTerminal_false l : isTerminal l = false <-> l <> completed /\ l <> retired.
Proof. destruct l; by split; [|intros []]. Qed.

Lemma reconcileCompleted_write o ct now sp : write_once sp (reconcileCompleted o ct now sp).
Proof.
  destruct sp as [s p]. unfold reconcileCompleted. case_match; [|by left].
  zify_bool. right. simpl. do 3 eexists. split_and!; [done..|]. by apply isTerminal_false.
Qed.

Lemma needsVanished_observing s o ct :
  needsVanishedOwnerBlock s o ct = true -> lifecycle s = observing /\ ct = None.
Proof.
  unfold needsVanishedOwnerBlock. intros H. repeat case_match; try done.
  zify_bool. split; [done|]. destruct ct; [|done]. exfalso. eauto.
Qed.

Lemma reconcileVanished_write o ct now sp : write_once sp (reconcileVanished o ct now sp).
Proof.
  destruct sp as [s p]. unfold reconcileVanished. destruct needsVanishedOwnerBlock eqn:E; [|by left].
  apply needsVanished_observing in E as [E _].
  right. simpl. do 3 eexists. split_and!; [done..|]. by rewrite E.
Qed.

Lemma reconcileStartup_write b now sp : write_once sp (reconcileStartup b now sp).
Proof.
  destruct sp as [s p]. unfold reconcileStartup. case_match; [|by left].
  zify_bool. right. simpl. do 3 eexists. split_and!; [done..|]. by apply isTerminal_false.
Qed.

Lemma write_once_terminal sp sp' :
  write_once sp sp' -> isTerminal (lifecycle sp.1) = true -> sp' = sp.
Proof. intros [->|(l & bs & now & _ & _ & H)] H'; congruence. Qed.

(** The last persisted record, or the one the run started from. *)
Definition on_disk (s0 : SessionState) (persisted : list SessionState) : SessionState :=
  default s0 (last persisted).

Lemma write_once_on_disk s0 sp sp' :
  write_once sp sp' -> on_disk s0 sp.2 = sp.1 -> on_disk s0 sp'.2 = sp'.1.
Proof.
  intros [->|(l & bs & now & _ & H & _)] E; [done|].
  unfold on_disk. by rewrite H, last_snoc.
Qed.

Lemma addBlocker_in bs b : b ∈ addBlocker bs b.
Proof. unfold addBlocker. case_bool_decide; [done|]. set_solver. Qed.

Lemma addBlocker_idem bs b : addBlocker (addBlocker bs b) b = addBlocker bs b.
Proof.
  unfold addBlocker at 1. rewrite bool_decide_eq_true_2; [done|]. apply addBlocker_in.
Qed.

Lemma addBlocker_mem bs b : b ∈ bs -> addBlocker bs b = bs.
Proof. intros. unfold addBlocker. by rewrite bool_decide_eq_true_2. Qed.

(** The part of the record that reconciliation decides. *)
Definition verdict (s : SessionState) : HarnessLifecycle * list string := (lifecycle s, blockers s).

(** Where the run ends, as one decision on the record it started from. *)
Definition reconciled (s : SessionState) (o : Observation) (ct : option CompletedTerminalEvent)
    (startupBlocked : bool) : HarnessLifecycle * list string :=
  if isTerminal (lifecycle s) then verdict s
  else if bool_decide (is_Some ct) && negb (ownerLive o) && bool_decide (gitDelta o = clean)
  then (completed, filter (fun b => isOwnerLivenessBlocker b = false) (blockers s))
  else
    let v := if needsVanishedOwnerBlock s o ct
             then (blocked, addBlocker (blockers s) ("owner-vanished:" +:+ gitDelta_str (gitDelta o)))
             else verdict s in
    if startupBlocked then (blocked, addBlocker v.2 OWNER_STARTUP_BLOCKER) else v.

Lemma reconcile_verdict s o ct sb now :
  verdict (reconcileOwnerLifecycle s o ct sb now).1 = reconciled s o ct sb.
Proof.
  unfold reconcileOwnerLifecycle, reconciled.
  destruct (isTerminal (lifecycle s)) eqn:Ht.
  - rewrite (write_once_terminal (s, []) _ (reconcileCompleted_write _ _ _ _)) by done.
    rewrite (write_once_terminal (s, []) _ (reconcileVanished_write _ _ _ _)) by done.
    by rewrite (write_once_terminal (s, []) _ (reconcileStartup_write _ _ _)) by done.
  - apply isTerminal_false in Ht as [H1 H2].
    unfold reconcileCompleted. rewrite (bool_decide_eq_false_2 _ H1), (bool_decide_eq_false_2 _ H2).
    rewrite !andb_true_r. destruct (_ && _ && _) eqn:Ec.
    + unfold reconcileVanished, needsVanishedOwnerBlock. simpl. rewrite orb_true_r.
      unfold reconcileStartup. simpl. by rewrite andb_false_r.
    + unfold reconcileVanished, reconcileStartup. destruct needsVanishedOwnerBlock eqn:Ev; simpl.
      * rewrite !andb_true_r. by destruct sb.
      * rewrite (bool_decide_eq_false_2 _ H1), (bool_decide_eq_false_2 _ H2), !andb_true_r.
        by destruct sb.
Qed.

Lemma verdict_inj s l bs : verdict s = (l, bs) -> lifecycle s = l /\ blockers s = bs.
Proof. by intros [= -> ->]. Qed.

Lemma needsVanished_lifecycle s s' o ct :
  lifecycle s = lifecycle s' -> needsVanishedOwnerBlock s o ct = needsVanishedOwnerBlock s' o ct.
Proof. intros E. unfold needsVanishedOwnerBlock. by rewrite E. Qed.

Lemma reconciled_stable s s' o ct sb :
  verdict s' = reconciled s o ct sb -> reconciled s' o ct sb = reconciled s o ct sb.
Proof.
  intros Hv. rewrite <- Hv. revert Hv. unfold reconciled.
  destruct (isTerminal (lifecycle s)) eqn:Ht.
  { intros [-> _]%verdict_inj. by rewrite Ht. }
  destruct (_ && _ && _); [by intros [-> _]%verdict_inj|].
  assert (forall bs, verdict s' = (blocked, bs) ->
    isTerminal (lifecycle s') = false /\ needsVanishedOwnerBlock s' o ct = false) as Hb.
  { intros bs [Hl _]%verdict_inj. unfold needsVanishedOwnerBlock. rewrite Hl. simpl.
    by rewrite orb_true_r. }
  destruct (needsVanishedOwnerBlock s o ct) eqn:Ev; destruct sb; simpl; intros Hv.
  - destruct (Hb _ Hv) as [-> ->]. apply verdict_inj in Hv as [Hl Hbs]. unfold verdict. simpl.
    by rewrite Hl, Hbs, addBlocker_idem.
  - by destruct (Hb _ Hv) as [-> ->].
  - destruct (Hb _ Hv) as [-> ->]. apply verdict_inj in Hv as [Hl Hbs]. unfold verdict. simpl.
    by rewrite Hl, Hbs, addBlocker_idem.
  - apply verdict_inj in Hv as [Hl Hbs].
    by rewrite Hl, Ht, (needsVanished_lifecycle s' s), Ev by done.
Qed.

(** ** Theorems *)

(** C20: safety. The recovery decision never endangers work in the tree: a dirty delta is never
    restarted clean, a vanished owner over an unknown delta and a deleted worktree always go to a
    human, every restart or fallback asks for a vanish receipt first, a clean restart needs a
    vanished owner and a clean or zero delta, and blind key injection is never chosen. *)
Theorem classifier_protects_deltas input :
  let d := classifyRecovery input in
  let o := observation input in
  (gitDelta o = dirty -> classification d <> restart_clean) /\
  (gitDelta o = unknown -> ownerLive o = false -> classification d = human_check) /\
  (risk o = deleted_worktree -> classification d = human_check) /\
  (requiresVanishBeforeAction (classification d) = true ->
     requiredReceiptFamily d = Some vanish /\ ownerLive o = false) /\
  (classification d = restart_clean -> gitDelta o = clean \/
     (gitDelta o = zero_delta /\ (0 < zeroDeltaVanish (retryBudget input))%Z)) /\
  classification d <> send_enter.
Proof.
  intros d o. subst d o. unfold classifyRecovery.
  destruct input as [[l live c b g la sg r rl rf rs sr] [rp zd dv vr] ap]. simpl.
  destruct r, live, g; simpl; repeat case_match; simpl; naive_solver (zify_bool; done).
Qed.

Definition offered (v : HarnessVerb) (actions : list NextAllowedAction) : Prop :=
  exists a, a ∈ actions /\ verb a = v /\ available a = true.

(** The entry of a verb in the list. *)
Lemma offered_add v av r pre post :
  Forall (fun a => verb a <> v) (pre ++ post)%list ->
  offered v (pre ++ add v av r :: post)%list <-> av = true.
Proof.
  intros Hf. split.
  - intros (a & Ha & Hv & Hav). rewrite elem_of_app, elem_of_cons in Ha.
    rewrite Forall_forall in Hf. destruct Ha as [Ha|[->|Ha]].
    + destruct (Hf a); set_solver.
    + unfold add in Hav. by destruct av.
    + destruct (Hf a); set_solver.
  - intros ->. exists (add v true r). split; [set_solver|done].
Qed.

(** functional. [nextAllowedActions] offers [submit] exactly when the lifecycle is started or
    observing, a live owner holds the lease and the caller's gate gave no reason; it offers
    [recover] exactly when the lifecycle is not terminal; and every listed verb either is offered
    or carries a reason. *)
Theorem next_allowed_actions_contract l live gate :
  (offered v_submit (nextAllowedActions l live gate) <->
     (l = started \/ l = observing) /\ live = true /\ gate = None) /\
  (offered v_recover (nextAllowedActions l live gate) <-> isTerminal l = false) /\
  Forall (fun a => available a = true <-> action_reason a = None) (nextAllowedActions l live gate).
Proof.
  unfold nextAllowedActions. split_and!.
  - etransitivity; [apply (offered_add _ _ _ [_; _; _; _; _] [_; _; _; _])|].
    { unfold add. repeat constructor; by repeat case_match. }
    rewrite bool_decide_eq_true. destruct l, live; simpl; naive_solver.
  - etransitivity; [apply (offered_add _ _ _ [_; _; _; _; _; _] [_; _; _])|].
    { unfold add. repeat constructor; by repeat case_match. }
    apply negb_true_iff.
  - unfold add. repeat constructor; by repeat case_match.
Qed.

(** safety. Along the transition table a retired session stays retired, a completed one can
    only retire, every session that is not retired can retire at once, and a session completes
    only through finalization. *)
Theorem lifecycle_paths l l' :
  (rtc lstep retired l -> l = retired) /\
  (rtc lstep completed l -> l = completed \/ l = retired) /\
  (l <> retired -> assertTransition l retired = Ok tt) /\
  (rtc lstep l completed -> l = completed \/ rtc lstep l finalizing) /\
  (assertTransition l l' = Ok tt <-> l = l' \/ canTransition l l' = true).
Proof.
  split_and!.
  - apply rtc_retired.
  - apply rtc_completed.
  - by destruct l.
  - intros [->|(m & Hm & Hs)]%rtc_inv_r; [by left|]. right. by destruct m.
  - unfold assertTransition. repeat case_match; naive_solver.
Qed.

(** invariant. Reconciling the persisted record with an observation leaves a completed or
    retired session alone; what it returns is what the last [persist] wrote; and reconciling again
    with the same observation changes neither the lifecycle nor the blockers. *)
Theorem reconcile_contract s o ct sb now :
  let r := reconcileOwnerLifecycle s o ct sb now in
  (isTerminal (lifecycle s) = true -> r = (s, [])) /\
  on_disk s r.2 = r.1 /\
  forall now', verdict (reconcileOwnerLifecycle r.1 o ct sb now').1 = verdict r.1.
Proof.
  intros r. subst r. split_and!.
  - intros Ht. unfold reconcileOwnerLifecycle.
    rewrite (write_once_terminal (s, []) _ (reconcileCompleted_write _ _ _ _)) by done.
    rewrite (write_once_terminal (s, []) _ (reconcileVanished_write _ _ _ _)) by done.
    by rewrite (write_once_terminal (s, []) _ (reconcileStartup_write _ _ _)) by done.
  - unfold reconcileOwnerLifecycle.
    eapply write_once_on_disk; [apply reconcileStartup_write|].
    eapply write_once_on_disk; [apply reconcileVanished_write|].
    by eapply write_once_on_disk; [apply reconcileCompleted_write|].
  - intros now'. rewrite !reconcile_verdict. apply reconciled_stable, reconcile_verdict.
Qed.

(** An observation made of the bounded signal vocabulary never reaches the validation-repair
    branches of the classifier. *)
Lemma validation_repair_unreachable input :
  Forall (fun sig => sig ∈ OBSERVED_SIGNALS) (observedSignals (observation input)) ->
  requiredReceiptFamily (classifyRecovery input) <> Some validation.
Proof.
  intros Hs. unfold classifyRecovery. rewrite Forall_forall in Hs.
  assert ("validation-failed" ∉ observedSignals (observation input)) as Hn.
  { intros Hin%Hs%(bool_decide_eq_true_2 (_ ∈ _)). by vm_compute in Hin. }
  rewrite (bool_decide_eq_false_2 _ Hn). by repeat case_match.
Qed.

(** Reconciliation completes an observing session whose owner left a clean tree, a move the
    transition table does not have. *)
Lemma reconcile_outside_table :
  exists s o ct now,
    let s' := (reconcileOwnerLifecycle s o ct false now).1 in
    canTransition (lifecycle s) (lifecycle s') = false /\ lifecycle s <> lifecycle s'.
Proof.
  set (h := Build_SessionHandle "s" gajae_code None None "w" None None None None None "s" "l" None
    None "p" "e" None "t" "t").
  exists (Build_SessionState 1 "s" observing gajae_code h ∅ [] "t" "t").
  exists (Build_Observation observing false "w" None clean None ["completed"] normal None None None
    None).
  exists (Some (Build_CompletedTerminalEvent 3 "t" "completed")), (fun _ => "now").
  by split.
Qed.
