(* ===== verification/Goals.v ===== *)
(** * Goals: what a session works for, and what it costs (goals/state.ts, goals/runtime.ts, goals/continuation-timeout-guard.ts)

    The goal of a session, its reading from stored values, the runtime that changes its status and books tokens and
    seconds on it, the element its objective is shown in (escaped as in PromptFraming) and the guard that stops a loop of equal timeouts.

    Token counts, times and ids are what the host reports: [now], [currentUsage] and [snowflake] give the value of each
    successive reading, so two readings within one operation may differ.  Numbers are integers.  A handler runs from its
    lock to its end in one piece: listeners of the host's events run after it. *)
From S2P Require Import Prelude JsString JsRegex JsMap JsValue PromptFraming.
From Stdlib Require Import ZifyBool.
Open Scope Z_scope.

(** ** Goals *)

Inductive GoalStatus : Type := g_active | g_paused | g_complete | g_dropped.
#[global] Instance GoalStatus_eq_dec : EqDecision GoalStatus.
Proof. solve_decision. Defined.

Inductive GoalProvenance : Type := fromUltragoal (runId goalId : jstring) | fromUser.

Record Goal : Type := mkGoal {
  id : jstring; objective : jstring; status : GoalStatus; tokensUsed : Z; timeUsedSeconds : Z; createdAt : Z; updatedAt : Z;
  provenance : option GoalProvenance }.

Inductive GoalMode : Type := m_active | m_exiting.

(** A mode state with its goal as a value ([GoalModeState value]) or read ([GoalModeState Goal]). *)
Record GoalModeState (G : Type) : Type := mkModeState { enabled : bool; mode : GoalMode; reason : bool; goal : G }.
Arguments mkModeState {G}. Arguments enabled {G}. Arguments mode {G}. Arguments reason {G}. Arguments goal {G}.

Definition statusName (s : GoalStatus) : jstring :=
  match s with g_active => js "active" | g_paused => js "paused" | g_complete => js "complete" | g_dropped => js "dropped" end.

(** The status of a stored goal; an old status counts as active. *)
Definition readStatus (s : jstring) : option GoalStatus :=
  let s := if bool_decide (s = js "budget-limited") then js "active" else s in
  find (fun st => bool_decide (s = statusName st)) [g_active; g_paused; g_complete; g_dropped].

(** [provenance]: absent, or of one of the two kinds. *)
Definition readProvenance (v : value) : option (option GoalProvenance) :=
  match v with
  | v_undefined => Some None
  | _ =>
      if negb (isObject v) then None
      else match prop (js "source") v with
           | v_string s =>
               if bool_decide (s = js "ultragoal") then
                 match prop (js "runId") v, prop (js "goalId") v with
                 | v_string r, v_string g => Some (Some (fromUltragoal r g))
                 | _, _ => None
                 end
               else if bool_decide (s = js "user") then Some (Some fromUser)
               else None
           | _ => None
           end
  end.

Definition normalizeGoal (candidate : value) : option Goal :=
  if negb (isObject candidate) then None
  else match prop (js "id") candidate, prop (js "objective") candidate, prop (js "status") candidate,
             prop (js "tokensUsed") candidate, prop (js "timeUsedSeconds") candidate,
             prop (js "createdAt") candidate, prop (js "updatedAt") candidate with
       | v_string i, v_string o, v_string st, v_number t, v_number w, v_number c, v_number u =>
           st ← readStatus st;
           p ← readProvenance (prop (js "provenance") candidate);
           Some (mkGoal i o st t w c u p)
       | _, _, _, _, _, _, _ => None
       end.

Definition normalizeGoalModeState (candidate : option (GoalModeState value)) : option (GoalModeState Goal) :=
  c ← candidate; g ← normalizeGoal (goal c); Some (mkModeState (enabled c) (mode c) (reason c) g).

(** The object of a goal. *)
Definition provenanceValue (p : GoalProvenance) : value :=
  match p with
  | fromUltragoal r g => v_object [(js "source", v_string (js "ultragoal")); (js "runId", v_string r); (js "goalId", v_string g)]
  | fromUser => v_object [(js "source", v_string (js "user"))]
  end.

Definition goalValue (g : Goal) : value :=
  v_object ([(js "id", v_string (id g)); (js "objective", v_string (objective g)); (js "status", v_string (statusName (status g)));
    (js "tokensUsed", v_number (tokensUsed g)); (js "timeUsedSeconds", v_number (timeUsedSeconds g));
    (js "createdAt", v_number (createdAt g)); (js "updatedAt", v_number (updatedAt g))] ++
    match provenance g with Some p => [(js "provenance", provenanceValue p)] | None => [] end).

Definition modeStateValue (s : GoalModeState Goal) : GoalModeState value :=
  mkModeState (enabled s) (mode s) (reason s) (goalValue (goal s)).

(** ** Typing: the interfaces of goals/state.ts as a judgement on values *)

Inductive provenance_type : value -> Prop :=
| pt_ultragoal fs r g :
    m_get (js "source") fs = Some (v_string (js "ultragoal")) -> m_get (js "runId") fs = Some (v_string r) ->
    m_get (js "goalId") fs = Some (v_string g) -> provenance_type (v_object fs)
| pt_user fs : m_get (js "source") fs = Some (v_string (js "user")) -> provenance_type (v_object fs).

Inductive goal_type : value -> Prop :=
| gt_intro fs i o st t w c u :
    m_get (js "id") fs = Some (v_string i) -> m_get (js "objective") fs = Some (v_string o) ->
    m_get (js "status") fs = Some (v_string (statusName st)) -> m_get (js "tokensUsed") fs = Some (v_number t) ->
    m_get (js "timeUsedSeconds") fs = Some (v_number w) -> m_get (js "createdAt") fs = Some (v_number c) ->
    m_get (js "updatedAt") fs = Some (v_number u) ->
    (forall p, m_get (js "provenance") fs = Some p -> p = v_undefined \/ provenance_type p) -> goal_type (v_object fs).

Lemma readStatus_name st : readStatus (statusName st) = Some st.
Proof. by destruct st. Qed.

Lemma readStatus_Some s st : readStatus s = Some st -> s = statusName st \/ (s = js "budget-limited" /\ st = g_active).
Proof.
  unfold readStatus. case_bool_decide as E; [intros F; vm_compute in F; injection F as <-; by right|].
  intros F. apply find_some in F as [_ F]. case_bool_decide; [by left|done].
Qed.

Lemma readProvenance_value p : readProvenance (provenanceValue p) = Some (Some p).
Proof. by destruct p. Qed.

Lemma readProvenance_typed v :
  is_Some (readProvenance v) <-> v = v_undefined \/ provenance_type v.
Proof.
  split.
  - intros [p E]. destruct v as [| |b|z|s|l|fs]; try done; [by left|]. right. cbn [readProvenance isObject negb] in E.
    destruct (prop (js "source") (v_object fs)) as [| | | |s| |] eqn:Es; try done. case_bool_decide as E1.
    + destruct (prop (js "runId") (v_object fs)) as [| | | |r| |] eqn:Er; try done.
      destruct (prop (js "goalId") (v_object fs)) as [| | | |g| |] eqn:Eg; try done.
      subst s. eapply pt_ultragoal; by apply prop_object.
    + case_bool_decide as E2; [|done]. subst s. apply pt_user. by apply prop_object.
  - intros [->|H]; [done|]. unfold readProvenance.
    destruct H as [fs r g E1 E2 E3|fs E1]; cbn [isObject negb]; unfold prop; rewrite E1; [|change (default v_undefined (Some (v_string (js "user")))) with (v_string (js "user")); vm_compute; by eexists].
    change (default v_undefined (Some (v_string (js "ultragoal")))) with (v_string (js "ultragoal")). cbn iota.
    rewrite bool_decide_true by done. rewrite E2, E3. done.
Qed.

Lemma goalValue_typed g : goal_type (goalValue g).
Proof.
  destruct g as [i o st t w c u p]. eapply (gt_intro _ i o st t w c u); try reflexivity. intros v. destruct p as [[r g|]|].
  - intros [= <-]. right. by eapply pt_ultragoal.
  - intros [= <-]. right. by apply pt_user.
  - done.
Qed.

Lemma normalize_goalValue g : normalizeGoal (goalValue g) = Some g.
Proof. destruct g as [i o st t w c u p]. destruct st, p as [[r g|]|]; vm_compute; reflexivity. Qed.

Lemma normalize_modeStateValue s : normalizeGoalModeState (Some (modeStateValue s)) = Some s.
Proof. destruct s as [e m r g]. unfold normalizeGoalModeState, modeStateValue. simpl. by rewrite normalize_goalValue. Qed.


(** ** The objective in a prompt *)

Definition renderTrustedObjective (o : jstring) : jstring :=
  js "<objective>" ++ [c_lf] ++ goalEscapeXmlText o ++ [c_lf] ++ js "</objective>".

(** ** The host and the runtime *)

(** [input], [output], [cacheRead] and [cacheWrite] of the session so far. *)
Record GoalTokenUsage : Type := mkUsage { input : Z; output : Z; cacheRead : Z; cacheWrite : Z }.

Record GoalTurnSnapshot : Type := mkTurn { turnId : jstring; baselineUsage : GoalTokenUsage; turnGoalId : option jstring }.
Record GoalWallClockSnapshot : Type := mkWall { lastAccountedAt : Z; wallGoalId : option jstring }.

Inductive PersistMode : Type := p_goal | p_goal_paused | p_none.
#[global] Instance PersistMode_eq_dec : EqDecision PersistMode.
Proof. solve_decision. Defined.

(** [goal_updated] events. *)
Record GoalRuntimeEvent : Type := mkEvent { eventGoal : option Goal; eventState : option (GoalModeState Goal) }.

Class GoalHost : Type := {
  now : nat -> Z;                      (** the clock at its n-th reading, in milliseconds *)
  currentUsage : nat -> GoalTokenUsage;(** [getCurrentUsage] at its n-th reading *)
  snowflake : nat -> jstring;          (** the n-th fresh id *)
}.

(** The runtime, the goal state its host keeps for it, and what the host was told so far. *)
Record GoalRuntime : Type := mkRuntime {
  hostState : option (GoalModeState value);
  turnSnapshot : option GoalTurnSnapshot;
  wallClock : GoalWallClockSnapshot;
  usagePendingPersist : bool;
  persisted : list (PersistMode * option (GoalModeState Goal));
  emitted : list GoalRuntimeEvent;
  clockReads : nat; usageReads : nat; idReads : nat }.

Definition set_hostState s rt := mkRuntime s (turnSnapshot rt) (wallClock rt) (usagePendingPersist rt) (persisted rt) (emitted rt) (clockReads rt) (usageReads rt) (idReads rt).
Definition set_turnSnapshot t rt := mkRuntime (hostState rt) t (wallClock rt) (usagePendingPersist rt) (persisted rt) (emitted rt) (clockReads rt) (usageReads rt) (idReads rt).
Definition set_wallClock w rt := mkRuntime (hostState rt) (turnSnapshot rt) w (usagePendingPersist rt) (persisted rt) (emitted rt) (clockReads rt) (usageReads rt) (idReads rt).
Definition set_pending b rt := mkRuntime (hostState rt) (turnSnapshot rt) (wallClock rt) b (persisted rt) (emitted rt) (clockReads rt) (usageReads rt) (idReads rt).
Definition add_persisted m s rt := mkRuntime (hostState rt) (turnSnapshot rt) (wallClock rt) (usagePendingPersist rt) (persisted rt ++ [(m, s)]) (emitted rt) (clockReads rt) (usageReads rt) (idReads rt).
Definition add_emitted e rt := mkRuntime (hostState rt) (turnSnapshot rt) (wallClock rt) (usagePendingPersist rt) (persisted rt) (emitted rt ++ [e]) (clockReads rt) (usageReads rt) (idReads rt).
Definition tick_clock rt := mkRuntime (hostState rt) (turnSnapshot rt) (wallClock rt) (usagePendingPersist rt) (persisted rt) (emitted rt) (S (clockReads rt)) (usageReads rt) (idReads rt).
Definition tick_usage rt := mkRuntime (hostState rt) (turnSnapshot rt) (wallClock rt) (usagePendingPersist rt) (persisted rt) (emitted rt) (clockReads rt) (S (usageReads rt)) (idReads rt).
Definition tick_id rt := mkRuntime (hostState rt) (turnSnapshot rt) (wallClock rt) (usagePendingPersist rt) (persisted rt) (emitted rt) (clockReads rt) (usageReads rt) (S (idReads rt)).

Inductive GoalError : Type :=
| ObjectiveRequired | ObjectiveIsCommand | AlreadyHasGoal | NoActiveGoalToReplace | NoPausedGoal | AlreadyComplete
| CannotPause (s : GoalStatus) | NoActiveGoalToComplete | CannotCompleteDropped.

(** State and errors: the runtime keeps what was done before a throw. *)
Definition M (A : Type) : Type := GoalRuntime -> GoalRuntime * result GoalError A.
#[global] Instance M_ret : MRet M := fun A a rt => (rt, Ok a).
#[global] Instance M_bind : MBind M := fun A B f m rt =>
  match m rt with (rt', Ok a) => f a rt' | (rt', Throw x) => (rt', Throw x) end.
Definition getR {A} (f : GoalRuntime -> A) : M A := fun rt => (rt, Ok (f rt)).
Definition modifyR (f : GoalRuntime -> GoalRuntime) : M unit := fun rt => (f rt, Ok tt).
Definition actR {A} (f : GoalRuntime -> GoalRuntime * A) : M A := fun rt => let '(rt', a) := f rt in (rt', Ok a).
Definition liftR {A} (r : result GoalError A) : M A := fun rt => (rt, r).
Definition throwR {A} (x : GoalError) : M A := fun rt => (rt, Throw x).

(** ** Operations *)

Definition validateGoalObjective (o : jstring) : result GoalError jstring :=
  let trimmed := trim o in
  if bool_decide (trimmed = []) then Throw ObjectiveRequired
  else if bool_decide (trimmed = js "/goal") then Throw ObjectiveIsCommand
  else Ok trimmed.

Definition goalTokenDelta (current baseline : GoalTokenUsage) : Z :=
  Z.max 0 (input current - input baseline) + Z.max 0 (cacheWrite current - cacheWrite baseline) +
  Z.max 0 (output current - output baseline).

Definition isAccountingStatus (g : Goal) : bool := bool_decide (status g = g_active).

(** [state?.enabled && isAccountingStatus(state.goal)] *)
Definition accounting (s : option (GoalModeState Goal)) : option (GoalModeState Goal) :=
  match s with Some s => if enabled s && isAccountingStatus (goal s) then Some s else None | None => None end.

Definition with_usage (g : Goal) (t w u : Z) : Goal :=
  mkGoal (id g) (objective g) (status g) t w (createdAt g) u (provenance g).
Definition with_status (g : Goal) (st : GoalStatus) (u : Z) : Goal :=
  mkGoal (id g) (objective g) st (tokensUsed g) (timeUsedSeconds g) (createdAt g) u (provenance g).

Definition getStateClone (rt : GoalRuntime) : option (GoalModeState Goal) := normalizeGoalModeState (hostState rt).

Definition hasAccountingState (rt : GoalRuntime) : bool := bool_decide (is_Some (accounting (getStateClone rt))).

(** [#commitState], with the [persist] and [emit] options. *)
Definition commitState (s : option (GoalModeState Goal)) (persist : option PersistMode) (emit : bool) (rt : GoalRuntime) : GoalRuntime :=
  let rt := set_hostState (modeStateValue <$> s) rt in
  let rt := match persist with Some m => add_persisted m s (set_pending false rt) | None => rt end in
  if emit then add_emitted (mkEvent (goal <$> s) s) rt else rt.

Section Runtime.
Context `{GoalHost}.

Definition markActiveAccounting (g : Goal) (rt : GoalRuntime) : GoalRuntime :=
  let rt := if bool_decide (wallGoalId (wallClock rt) = Some (id g)) then rt
            else set_wallClock (mkWall (now (clockReads rt)) (Some (id g))) (tick_clock rt) in
  let u := currentUsage (usageReads rt) in
  let t := match turnSnapshot rt with
           | Some t => mkTurn (turnId t) u (Some (id g))
           | None => mkTurn (js "activation-" ++ id g) u (Some (id g))
           end in
  set_turnSnapshot (Some t) (tick_usage rt).

Definition clearActiveAccounting (rt : GoalRuntime) : GoalRuntime :=
  let rt := set_wallClock (mkWall (now (clockReads rt)) None) (tick_clock rt) in
  match turnSnapshot rt with
  | Some t => set_turnSnapshot (Some (mkTurn (turnId t) (baselineUsage t) None)) rt
  | None => rt
  end.

Definition onTurnStart (tid : jstring) (baseline : GoalTokenUsage) (rt : GoalRuntime) : GoalRuntime :=
  match accounting (getStateClone rt) with
  | Some s =>
      let rt := set_turnSnapshot (Some (mkTurn tid baseline (Some (id (goal s))))) rt in
      if bool_decide (wallGoalId (wallClock rt) = Some (id (goal s))) then rt
      else set_wallClock (mkWall (now (clockReads rt)) (Some (id (goal s)))) (tick_clock rt)
  | None => set_turnSnapshot (Some (mkTurn tid baseline None)) rt
  end.

(** Is the goal the one of the turn, or of the wall clock? *)
Definition turnTracks (rt : GoalRuntime) (i : jstring) : option GoalTurnSnapshot :=
  match turnSnapshot rt with Some t => if bool_decide (turnGoalId t = Some i) then Some t else None | None => None end.
Definition wallTracks (rt : GoalRuntime) (i : jstring) : bool := bool_decide (wallGoalId (wallClock rt) = Some i).

(** The booked usage becomes the turn's new baseline, and the booked seconds move the clock's mark. *)
Definition moveMarks (i : jstring) (current : GoalTokenUsage) (wallSeconds : Z) (rt : GoalRuntime) : GoalRuntime :=
  let rt := match turnTracks rt i with
            | Some t => set_turnSnapshot (Some (mkTurn (turnId t) current (turnGoalId t))) rt
            | None => rt
            end in
  if wallTracks rt i && (0 <? wallSeconds)
  then set_wallClock (mkWall (lastAccountedAt (wallClock rt) + wallSeconds * 1000) (wallGoalId (wallClock rt))) rt
  else rt.

(** [#flushUsageLocked] *)
Definition flushUsageLocked (current : GoalTokenUsage) (persist : bool) (rt : GoalRuntime) : GoalRuntime :=
  match accounting (getStateClone rt) with
  | None => rt
  | Some s =>
      let g := goal s in
      if negb (bool_decide (is_Some (turnTracks rt (id g)))) && negb (wallTracks rt (id g)) then rt
      else
        let tokenDelta := match turnTracks rt (id g) with Some t => goalTokenDelta current (baselineUsage t) | None => 0 end in
        let '(wallSeconds, rt) :=
          if wallTracks rt (id g)
          then (Z.max 0 ((now (clockReads rt) - lastAccountedAt (wallClock rt)) / 1000), tick_clock rt) else (0, rt) in
        if (tokenDelta <=? 0) && (wallSeconds <=? 0) then
          if persist && usagePendingPersist rt then add_persisted p_goal (Some s) (set_pending false rt) else rt
        else
          let g' := with_usage g (tokensUsed g + tokenDelta) (timeUsedSeconds g + wallSeconds) (now (clockReads rt)) in
          let rt := tick_clock rt in
          let rt := moveMarks (id g) current wallSeconds rt in
          let rt := set_pending (negb persist) rt in
          commitState (Some (mkModeState (enabled s) (mode s) (reason s) g')) (if persist then Some p_goal else None) true rt
  end.

(** ... at the host's current usage. *)
Definition flushCurrent (persist : bool) (rt : GoalRuntime) : GoalRuntime :=
  flushUsageLocked (currentUsage (usageReads rt)) persist (tick_usage rt).

Definition flushUsage (current : option GoalTokenUsage) (rt : GoalRuntime) : GoalRuntime :=
  match current with Some u => flushUsageLocked u true rt | None => flushCurrent true rt end.

Definition onToolCompleted (toolName : jstring) (rt : GoalRuntime) : GoalRuntime :=
  if bool_decide (toolName = js "goal") then rt
  else if hasAccountingState rt then flushCurrent false rt else rt.

Definition onGoalToolCompleted (rt : GoalRuntime) : GoalRuntime :=
  if hasAccountingState rt then flushCurrent false rt else rt.

Definition onAgentEnd (current : option GoalTokenUsage) (rt : GoalRuntime) : GoalRuntime :=
  if hasAccountingState rt then set_turnSnapshot None (flushUsage current rt) else set_turnSnapshot None rt.

Definition onTaskAborted (rt : GoalRuntime) : GoalRuntime :=
  match accounting (getStateClone rt) with
  | None => set_turnSnapshot None rt
  | Some _ =>
      let rt := set_turnSnapshot None (flushCurrent false rt) in
      match accounting (getStateClone rt) with
      | None => rt
      | Some s =>
          let g := with_status (goal s) (status (goal s)) (now (clockReads rt)) in
          let rt := markActiveAccounting g (tick_clock rt) in
          commitState (Some (mkModeState (enabled s) (mode s) (reason s) g)) (Some p_goal) true rt
      end
  end.

Definition onThreadResumed (rt : GoalRuntime) : GoalRuntime * option (GoalModeState Goal) :=
  match getStateClone rt with
  | None => (rt, None)
  | Some s =>
      let s := mkModeState (if isAccountingStatus (goal s) then true else enabled s) (mode s) (reason s) (goal s) in
      let rt := match accounting (Some s) with Some s => markActiveAccounting (goal s) rt | None => clearActiveAccounting rt end in
      (commitState (Some s) None true rt, Some s)
  end.

(** [#createGoalState]: the clock is read first, then the id. *)
Definition createGoalState (o : jstring) (p : option GoalProvenance) (rt : GoalRuntime) : GoalRuntime * GoalModeState Goal :=
  let t := now (clockReads rt) in
  (tick_id (tick_clock rt), mkModeState true m_active false (mkGoal (snowflake (idReads rt)) o g_active 0 0 t t p)).

(** The shared end of [createGoal] and [replaceGoal]. *)
Definition installGoal (o : jstring) (p : GoalProvenance) : M (GoalModeState Goal) := actR (fun rt =>
  let '(rt, s) := createGoalState o (Some p) rt in
  (commitState (Some s) (Some p_goal) true (markActiveAccounting (goal s) rt), s)).

Definition createGoal (o : jstring) (p : option GoalProvenance) : M (GoalModeState Goal) :=
  o ← liftR (validateGoalObjective o);
  existing ← getR getStateClone;
  match existing with
  | Some s => if bool_decide (status (goal s) ≠ g_dropped) && bool_decide (status (goal s) ≠ g_complete)
              then throwR AlreadyHasGoal else installGoal o (default fromUser p)
  | None => installGoal o (default fromUser p)
  end.

Definition replaceGoal (o : jstring) : M (GoalModeState Goal) :=
  o ← liftR (validateGoalObjective o);
  existing ← getR getStateClone;
  match accounting existing with
  | None => throwR NoActiveGoalToReplace
  | Some _ => modifyR (flushCurrent true);; installGoal o fromUser
  end.

Definition resumeGoal : M (GoalModeState Goal) :=
  st ← getR getStateClone;
  match st with
  | None => throwR NoPausedGoal
  | Some s =>
      if bool_decide (status (goal s) = g_complete) then throwR AlreadyComplete
      else actR (fun rt =>
        let s := mkModeState true m_active false (with_status (goal s) g_active (now (clockReads rt))) in
        (commitState (Some s) (Some p_goal) true (markActiveAccounting (goal s) (tick_clock rt)), s))
  end.

Definition pauseGoal : M (option (GoalModeState Goal)) :=
  modifyR (flushCurrent false);;
  st ← getR getStateClone;
  match st with
  | None => mret None
  | Some s =>
      if bool_decide (status (goal s) ≠ g_active) then throwR (CannotPause (status (goal s)))
      else actR (fun rt =>
        let s := mkModeState false m_active false (with_status (goal s) g_paused (now (clockReads rt))) in
        (commitState (Some s) (Some p_goal_paused) true (clearActiveAccounting (tick_clock rt)), Some s))
  end.

Definition dropGoal : M (option Goal) :=
  modifyR (flushCurrent true);;
  st ← getR getStateClone;
  match st with
  | None => mret None
  | Some s => actR (fun rt =>
      let dropped := with_status (goal s) g_dropped (now (clockReads rt)) in
      let rt := clearActiveAccounting (tick_clock rt) in
      let rt := add_emitted (mkEvent (Some dropped) (Some (mkModeState false (mode s) (reason s) dropped))) rt in
      (commitState None (Some p_none) false rt, Some dropped))
  end.

Definition completeGoalFromTool : M Goal :=
  modifyR (flushCurrent false);;
  st ← getR getStateClone;
  match st with
  | None => throwR NoActiveGoalToComplete
  | Some s =>
      match status (goal s) with
      | g_complete => throwR AlreadyComplete
      | g_dropped => throwR CannotCompleteDropped
      | _ => actR (fun rt =>
          let g := with_status (goal s) g_complete (now (clockReads rt)) in
          let rt := clearActiveAccounting (tick_clock rt) in
          (commitState (Some (mkModeState false m_exiting true g)) (Some p_goal) true rt, g))
      end
  end.

(** The constructor. *)
Definition newRuntime (s : option (GoalModeState value)) : GoalRuntime :=
  mkRuntime s None (mkWall (now 0) None) false [] [] 1 0 0.

(** ** What a flush does *)

Lemma getStateClone_commit s m e rt : getStateClone (commitState (Some s) m e rt) = Some s.
Proof.
  transitivity (normalizeGoalModeState (Some (modeStateValue s))); [|apply normalize_modeStateValue].
  unfold getStateClone, commitState. by destruct e, m.
Qed.

Lemma accounting_Some o s : accounting o = Some s <-> o = Some s /\ enabled s = true /\ status (goal s) = g_active.
Proof.
  unfold accounting, isAccountingStatus. destruct o as [s'|]; [|by split; [|intros [? _]]].
  destruct (enabled s') eqn:E; cbn [andb]; [case_bool_decide|]; split; try done; try (by intros [= <-]); intros ([= <-] & ? & ?); congruence.
Qed.

Definition booked (s : GoalModeState Goal) (tokens seconds time : Z) : GoalModeState Goal :=
  mkModeState (enabled s) (mode s) (reason s)
    (with_usage (goal s) (tokensUsed (goal s) + tokens) (timeUsedSeconds (goal s) + seconds) time).

(** What a flush would book. *)
Definition tokensDue (u : GoalTokenUsage) (rt : GoalRuntime) (i : jstring) : Z :=
  match turnTracks rt i with Some t => goalTokenDelta u (baselineUsage t) | None => 0 end.
Definition secondsDue (rt : GoalRuntime) (i : jstring) : Z :=
  if wallTracks rt i then Z.max 0 ((now (clockReads rt) - lastAccountedAt (wallClock rt)) / 1000) else 0.

Lemma moveMarks_spec i u w rt :
  let rt' := moveMarks i u w rt in
  turnSnapshot rt' = match turnTracks rt i with Some t => Some (mkTurn (turnId t) u (turnGoalId t)) | None => turnSnapshot rt end /\
  wallClock rt' = (if wallTracks rt i && (0 <? w)
                   then mkWall (lastAccountedAt (wallClock rt) + w * 1000) (wallGoalId (wallClock rt)) else wallClock rt) /\
  persisted rt' = persisted rt /\ clockReads rt' = clockReads rt.
Proof.
  unfold moveMarks. destruct (turnTracks rt i) as [t|] eqn:E; cbn zeta.
  - change (wallTracks (set_turnSnapshot _ rt) i) with (wallTracks rt i). by destruct (wallTracks rt i && (0 <? w)).
  - by destruct (wallTracks rt i && (0 <? w)).
Qed.

(** A flush with a goal to account for, as one equation: the clock is read once or twice. *)
Lemma flush_eq u p rt s :
  accounting (getStateClone rt) = Some s ->
  let i := id (goal s) in let dt := tokensDue u rt i in let dw := secondsDue rt i in
  let rt1 := if wallTracks rt i then tick_clock rt else rt in
  flushUsageLocked u p rt =
    if negb (bool_decide (is_Some (turnTracks rt i))) && negb (wallTracks rt i) then rt
    else if (dt <=? 0) && (dw <=? 0) then
      if p && usagePendingPersist rt then add_persisted p_goal (Some s) (set_pending false rt1) else rt1
    else commitState (Some (booked s dt dw (now (clockReads rt1)))) (if p then Some p_goal else None) true
           (set_pending (negb p) (moveMarks i u dw (tick_clock rt1))).
Proof.
  intros Ea. cbn zeta. unfold flushUsageLocked. rewrite Ea. unfold tokensDue, secondsDue.
  destruct (wallTracks rt (id (goal s))) eqn:Ew; [|reflexivity]. reflexivity.
Qed.

(** ** The durable copy *)

Definition counters (g : Goal) : jstring * Z * Z := (id g, tokensUsed g, timeUsedSeconds g).

(** The last entry written has the counters of the goal in memory. *)
Definition is_durable (rt : GoalRuntime) : Prop :=
  forall s, getStateClone rt = Some s -> exists m s', last (persisted rt) = Some (m, Some s') /\ counters (goal s') = counters (goal s).

(** The flag tells when it does not; then the clock runs for the goal. *)
Record runtime_ok (rt : GoalRuntime) : Prop := {
  ok_durable : usagePendingPersist rt = false -> is_durable rt;
  ok_pending : usagePendingPersist rt = true ->
    exists s, accounting (getStateClone rt) = Some s /\ wallGoalId (wallClock rt) = Some (id (goal s));
  ok_marks : forall t i, turnSnapshot rt = Some t -> turnGoalId t = Some i -> wallGoalId (wallClock rt) = Some i }.

Lemma is_durable_persist rt m s : getStateClone rt = Some s -> forall h, persisted rt = h ++ [(m, Some s)] -> is_durable rt.
Proof. intros E h Ep s' E'. exists m, s. rewrite Ep, last_snoc. split; [done|]. congruence. Qed.

Lemma turnTracks_Some rt i t : turnTracks rt i = Some t <-> turnSnapshot rt = Some t /\ turnGoalId t = Some i.
Proof.
  unfold turnTracks. destruct (turnSnapshot rt) as [t'|]; [|by split; [|intros [? _]]].
  case_bool_decide as Et; split; [by intros [= <-]|by intros [[= <-] _]|done|by intros [[= <-] ?]].
Qed.

Lemma flushLocked_ok u p rt :
  runtime_ok rt -> runtime_ok (flushUsageLocked u p rt) /\ (p = true -> usagePendingPersist (flushUsageLocked u p rt) = false).
Proof.
  intros Hok. destruct (accounting (getStateClone rt)) as [s|] eqn:Ea.
  2: { unfold flushUsageLocked. rewrite Ea. split; [exact Hok|]. intros _. apply not_true_is_false. intros F.
       destruct (ok_pending _ Hok F) as (? & ? & _). congruence. }
  pose proof Hok as [Hd Hp Hm].
  rewrite (flush_eq _ _ _ s Ea). pose proof Ea as (Es & _ & _)%accounting_Some. set (i := id (goal s)) in *.
  set (rt1 := if wallTracks rt i then tick_clock rt else rt).
  assert (hostState rt1 = hostState rt /\ turnSnapshot rt1 = turnSnapshot rt /\ wallClock rt1 = wallClock rt /\
    persisted rt1 = persisted rt /\ usagePendingPersist rt1 = usagePendingPersist rt) as (R1 & R2 & R3 & R4 & R5)
    by (subst rt1; by destruct (wallTracks rt i)).
  assert (forall j, turnTracks (tick_clock rt1) j = turnTracks rt j) as R6 by (intros j; unfold turnTracks; cbn; by rewrite R2).
  destruct (negb (bool_decide (is_Some (turnTracks rt i))) && negb (wallTracks rt i)) eqn:En.
  { split; [by split|]. intros _. apply not_true_is_false. intros F. destruct (Hp F) as (s' & Ea' & Ew).
    assert (s' = s) as -> by congruence. apply andb_true_iff in En as [_ En]. unfold wallTracks in En. by rewrite bool_decide_true in En. }
  destruct ((tokensDue u rt i <=? 0) && (secondsDue rt i <=? 0)).
  - destruct (p && usagePendingPersist rt) eqn:Epp.
    + split; [|done]. split; [|done|cbn; by rewrite R2, R3]. intros _.
      eapply (is_durable_persist _ p_goal s _ (persisted rt1)). done.
      Unshelve. unfold getStateClone in *. cbn. by rewrite R1.
    + assert (getStateClone rt1 = getStateClone rt) as Eg by (unfold getStateClone; by rewrite R1). split.
      * split; [intros F s' E'; rewrite R4; apply Hd; congruence|rewrite R5, Eg, R3; done|rewrite R2, R3; done].
      * rewrite R5. intros ->. done.
  - set (s' := booked s _ _ _). destruct (moveMarks_spec i u (secondsDue rt i) (tick_clock rt1)) as (M1 & M2 & M3 & _).
    set (rt2 := moveMarks i u (secondsDue rt i) (tick_clock rt1)) in *.
    assert (wallGoalId (wallClock rt2) = wallGoalId (wallClock rt)) as Ew.
    { rewrite M2. cbn [wallClock tick_clock]. rewrite R3. by destruct (wallTracks (tick_clock rt1) i && (0 <? secondsDue rt i)). }
    assert (forall t j, turnSnapshot rt2 = Some t -> turnGoalId t = Some j -> wallGoalId (wallClock rt2) = Some j) as Hm2.
    { intros t j. rewrite M1, Ew, R6. destruct (turnTracks rt i) as [t0|] eqn:Et; [|cbn; rewrite R2; apply Hm].
      apply turnTracks_Some in Et as [E1 _]. intros [= <-]. cbn. by apply Hm. }
    assert (wallGoalId (wallClock rt) = Some i) as Hi.
    { destruct (turnTracks rt i) as [t|] eqn:Et; [apply turnTracks_Some in Et as [? ?]; by eapply Hm|].
      cbn in En. apply negb_false_iff in En. unfold wallTracks in En. by apply bool_decide_eq_true in En. }
    assert (accounting (getStateClone (commitState (Some s') (if p then Some p_goal else None) true (set_pending (negb p) rt2))) = Some s') as Ea'.
    { rewrite getStateClone_commit. apply accounting_Some in Ea as (_ & E1 & E2). apply accounting_Some. split; [done|]. split; [exact E1|exact E2]. }
    split; [split|].
    + destruct p; [|done]. intros _. eapply (is_durable_persist _ p_goal s'); [apply getStateClone_commit|reflexivity].
    + intros _. exists s'. split; [done|]. destruct p; cbn; by rewrite Ew.
    + destruct p; exact Hm2.
    + by intros ->.
Qed.

(** The turn's goal is the clock's. *)
Definition marks_ok (rt : GoalRuntime) : Prop :=
  forall t i, turnSnapshot rt = Some t -> turnGoalId t = Some i -> wallGoalId (wallClock rt) = Some i.

Lemma markActive_spec g rt :
  let rt' := markActiveAccounting g rt in
  marks_ok rt' /\ wallGoalId (wallClock rt') = Some (id g) /\ hostState rt' = hostState rt /\ persisted rt' = persisted rt /\
  usagePendingPersist rt' = usagePendingPersist rt /\
  exists t, turnSnapshot rt' = Some t /\ turnGoalId t = Some (id g) /\ baselineUsage t = currentUsage (usageReads rt).
Proof.
  cbn zeta. unfold markActiveAccounting, marks_ok. case_bool_decide as E; cbn; destruct (turnSnapshot rt) as [t|]; cbn.
  all: split; [by intros t' i [= <-] [= <-]|]; split; [done|]; repeat (split; [done|]); eexists; split; [done|done].
Qed.

Lemma clearActive_spec rt :
  let rt' := clearActiveAccounting rt in
  marks_ok rt' /\ hostState rt' = hostState rt /\ persisted rt' = persisted rt /\ usagePendingPersist rt' = usagePendingPersist rt.
Proof.
  cbn zeta. unfold clearActiveAccounting, marks_ok. cbn. destruct (turnSnapshot rt) as [t|] eqn:E; cbn; [|rewrite E; done].
  by split; [intros t' i [= <-] F|].
Qed.

Lemma commitState_ok s m e rt : marks_ok rt -> runtime_ok (commitState (Some s) (Some m) e rt).
Proof.
  intros Hm. split.
  - intros _. eapply (is_durable_persist _ m s); [apply getStateClone_commit|]. by destruct e.
  - by destruct e.
  - destruct e; exact Hm.
Qed.

Lemma commit_none_ok rt : marks_ok rt -> runtime_ok (commitState None (Some p_none) false rt).
Proof. intros Hm. split; [by intros _ s E|done|exact Hm]. Qed.

Lemma runtime_ok_same rt rt' :
  runtime_ok rt -> hostState rt' = hostState rt -> persisted rt' = persisted rt -> usagePendingPersist rt' = usagePendingPersist rt ->
  wallGoalId (wallClock rt') = wallGoalId (wallClock rt) -> marks_ok rt' -> runtime_ok rt'.
Proof.
  intros [Hd Hp Hm] E1 E2 E3 E4 Hm'. assert (getStateClone rt' = getStateClone rt) as Eg by (unfold getStateClone; by rewrite E1).
  split; [intros F s Es; rewrite E2; apply Hd; congruence|rewrite E3, Eg, E4; exact Hp|exact Hm'].
Qed.

Lemma no_turn_ok rt : runtime_ok rt -> runtime_ok (set_turnSnapshot None rt).
Proof. intros Hok. by eapply runtime_ok_same. Qed.

Lemma tick_usage_ok rt : runtime_ok rt -> runtime_ok (tick_usage rt).
Proof. intros Hok. eapply runtime_ok_same; [exact Hok|done..|exact (ok_marks _ Hok)]. Qed.

Lemma flushCurrent_ok p rt : runtime_ok rt -> runtime_ok (flushCurrent p rt).
Proof. intros Hok. apply flushLocked_ok, tick_usage_ok, Hok. Qed.

Lemma onTurnStart_ok tid u rt : runtime_ok rt -> runtime_ok (onTurnStart tid u rt).
Proof.
  intros Hok. unfold onTurnStart. destruct (accounting (getStateClone rt)) as [s|] eqn:Ea; cbn zeta.
  2: { eapply runtime_ok_same; [exact Hok|done..|]. by intros t i [= <-]. }
  case_bool_decide as Ew; cbn in Ew.
  - eapply runtime_ok_same; [exact Hok|done..|]. by intros t i [= <-] [= <-].
  - pose proof Hok as [Hd Hp Hm]. split; cbn.
    + exact Hd.
    + intros F. destruct (Hp F) as (s' & Ea' & Ew'). exfalso. apply Ew. congruence.
    + by intros t i [= <-] [= <-].
Qed.

Lemma onThreadResumed_ok rt : runtime_ok rt -> runtime_ok (onThreadResumed rt).1.
Proof.
  intros Hok. unfold onThreadResumed. destruct (getStateClone rt) as [s|] eqn:Es; [|exact Hok]. cbn zeta.
  set (s' := mkModeState _ _ _ (goal s)).
  assert (forall rt1, hostState rt1 = hostState rt -> persisted rt1 = persisted rt -> usagePendingPersist rt1 = usagePendingPersist rt -> marks_ok rt1 ->
    (accounting (Some s') = Some s' -> wallGoalId (wallClock rt1) = Some (id (goal s'))) ->
    runtime_ok (commitState (Some s') None true rt1)) as Hc.
  { intros rt1 E1 E2 E3 Hm1 Hw. pose proof Hok as [Hd Hp _]. split.
    - intros F x. rewrite getStateClone_commit. intros [= <-]. cbn in F |- *. rewrite E3 in F. rewrite E2. by apply Hd.
    - intros F. cbn in F. rewrite E3 in F. destruct (Hp F) as (x & (Ex & X1 & X2)%accounting_Some & _). assert (x = s) as -> by congruence.
      exists s'. rewrite getStateClone_commit. assert (accounting (Some s') = Some s') as Ha.
      { apply accounting_Some. split; [done|]. split; [|exact X2]. cbn. unfold isAccountingStatus. by rewrite X2. }
      split; [done|]. by apply Hw.
    - exact Hm1. }
  destruct (accounting (Some s')) as [x|] eqn:Ex; cbn [fst].
  - assert (x = s') as -> by (apply accounting_Some in Ex as ([= ->] & _); done).
    destruct (markActive_spec (goal s') rt) as (A1 & A2 & A3 & A4 & A5 & _). by apply Hc.
  - destruct (clearActive_spec rt) as (A1 & A3 & A4 & A5). by apply Hc.
Qed.

Lemma onTaskAborted_ok rt : runtime_ok rt -> runtime_ok (onTaskAborted rt).
Proof.
  intros Hok. unfold onTaskAborted. destruct (accounting (getStateClone rt)); [|by apply no_turn_ok]. cbn zeta.
  destruct (accounting _) as [s|]; [apply commitState_ok, markActive_spec|]. apply no_turn_ok, flushCurrent_ok, Hok.
Qed.

Lemma installGoal_ok o p rt : runtime_ok (installGoal o p rt).1.
Proof. unfold installGoal, actR, createGoalState. apply commitState_ok, markActive_spec. Qed.

Lemma resumeGoal_ok rt : runtime_ok rt -> runtime_ok (resumeGoal rt).1.
Proof.
  intros Hok. unfold resumeGoal, mbind, M_bind, getR. destruct (getStateClone rt) as [s|]; [|exact Hok].
  case_bool_decide; [exact Hok|]. apply commitState_ok, markActive_spec.
Qed.

Lemma pauseGoal_ok rt : runtime_ok rt -> runtime_ok (pauseGoal rt).1.
Proof.
  intros Hok%(flushCurrent_ok false). unfold pauseGoal, mbind, M_bind, getR, modifyR.
  destruct (getStateClone (flushCurrent false rt)) as [s|]; [|exact Hok].
  case_bool_decide; [exact Hok|]. apply commitState_ok, clearActive_spec.
Qed.

Lemma dropGoal_ok rt : runtime_ok rt -> runtime_ok (dropGoal rt).1.
Proof.
  intros Hok%(flushCurrent_ok true). unfold dropGoal, mbind, M_bind, getR, modifyR.
  destruct (getStateClone (flushCurrent true rt)) as [s|]; [|exact Hok].
  apply commit_none_ok. exact (proj1 (clearActive_spec (tick_clock (flushCurrent true rt)))).
Qed.

Lemma completeGoal_ok rt : runtime_ok rt -> runtime_ok (completeGoalFromTool rt).1.
Proof.
  intros Hok%(flushCurrent_ok false). unfold completeGoalFromTool, mbind, M_bind, getR, modifyR.
  destruct (getStateClone (flushCurrent false rt)) as [s|]; [|exact Hok].
  destruct (status (goal s)); try exact Hok; apply commitState_ok, clearActive_spec.
Qed.

Lemma createGoal_ok o p rt : runtime_ok rt -> runtime_ok (createGoal o p rt).1.
Proof.
  intros Hok. unfold createGoal, mbind, M_bind, getR, liftR. destruct (validateGoalObjective o); [|exact Hok].
  destruct (getStateClone rt) as [s|]; [|apply installGoal_ok]. destruct (_ && _); [exact Hok|apply installGoal_ok].
Qed.

Lemma replaceGoal_ok o rt : runtime_ok rt -> runtime_ok (replaceGoal o rt).1.
Proof.
  intros Hok. unfold replaceGoal, mbind, M_bind, getR, liftR, modifyR. destruct (validateGoalObjective o); [|exact Hok].
  destruct (accounting (getStateClone rt)); [apply installGoal_ok|exact Hok].
Qed.

Lemma flushUsage_ok u rt :
  runtime_ok rt -> runtime_ok (flushUsage u rt) /\ usagePendingPersist (flushUsage u rt) = false.
Proof.
  intros Hok. destruct u as [u|]; unfold flushUsage, flushCurrent.
  - destruct (flushLocked_ok u true rt Hok) as [? Hp]. auto.
  - destruct (flushLocked_ok (currentUsage (usageReads rt)) true _ (tick_usage_ok _ Hok)) as [? Hp]. auto.
Qed.

Lemma onAgentEnd_ok u rt : runtime_ok rt -> runtime_ok (onAgentEnd u rt) /\ usagePendingPersist (onAgentEnd u rt) = false.
Proof.
  intros Hok. unfold onAgentEnd, hasAccountingState. case_bool_decide as Ha.
  - destruct (flushUsage_ok u rt Hok) as [H1 H2]. split; [by apply no_turn_ok|done].
  - split; [by apply no_turn_ok|]. cbn. apply not_true_is_false. intros F. apply Ha. destruct (ok_pending _ Hok F) as (s & E & _). by exists s.
Qed.

(** ** Histories *)

Inductive op : Type :=
| TurnStart (tid : jstring) (u : GoalTokenUsage) | ToolCompleted (name : jstring) | GoalToolCompleted
| AgentEnd (u : option GoalTokenUsage) | TaskAborted | ThreadResumed | FlushUsage (u : option GoalTokenUsage)
| CreateGoal (o : jstring) (p : option GoalProvenance) | ReplaceGoal (o : jstring) | ResumeGoal | PauseGoal | DropGoal | CompleteGoal.

Definition run (o : op) (rt : GoalRuntime) : GoalRuntime :=
  match o with
  | TurnStart tid u => onTurnStart tid u rt
  | ToolCompleted name => onToolCompleted name rt
  | GoalToolCompleted => onGoalToolCompleted rt
  | AgentEnd u => onAgentEnd u rt
  | TaskAborted => onTaskAborted rt
  | ThreadResumed => (onThreadResumed rt).1
  | FlushUsage u => flushUsage u rt
  | CreateGoal o p => (createGoal o p rt).1
  | ReplaceGoal o => (replaceGoal o rt).1
  | ResumeGoal => (resumeGoal rt).1
  | PauseGoal => (pauseGoal rt).1
  | DropGoal => (dropGoal rt).1
  | CompleteGoal => (completeGoalFromTool rt).1
  end.

Lemma run_ok o rt : runtime_ok rt -> runtime_ok (run o rt).
Proof.
  intros Hok. destruct o; cbn [run].
  - by apply onTurnStart_ok.
  - unfold onToolCompleted. destruct (bool_decide _); [exact Hok|]. destruct (hasAccountingState rt); [by apply flushCurrent_ok|exact Hok].
  - unfold onGoalToolCompleted. destruct (hasAccountingState rt); [by apply flushCurrent_ok|exact Hok].
  - by apply onAgentEnd_ok.
  - by apply onTaskAborted_ok.
  - by apply onThreadResumed_ok.
  - by apply flushUsage_ok.
  - by apply createGoal_ok.
  - by apply replaceGoal_ok.
  - by apply resumeGoal_ok.
  - by apply pauseGoal_ok.
  - by apply dropGoal_ok.
  - by apply completeGoal_ok.
Qed.

(** A session that starts with its goal on disk (or none) has, after any history and the end of an agent run, the
    counters of the goal on disk again; in between, the flag tells when it has not. *)
Theorem agent_end_leaves_counters_on_disk rt0 ops u :
  is_durable rt0 -> usagePendingPersist rt0 = false -> turnSnapshot rt0 = None ->
  let rt := foldl (fun rt o => run o rt) rt0 ops in
  (usagePendingPersist rt = false -> is_durable rt) /\ is_durable (onAgentEnd u rt).
Proof.
  intros Hd Hp Ht. assert (runtime_ok rt0) as H0 by (split; [done|congruence|intros t i E; congruence]).
  cbn zeta. assert (runtime_ok (foldl (fun rt o => run o rt) rt0 ops)) as Hok.
  { clear Hd Hp Ht. revert rt0 H0. induction ops as [|o ops IH]; intros rt0 H0; [done|]. apply IH. by apply run_ok. }
  split; [apply Hok|]. destruct (onAgentEnd_ok u _ Hok) as [Hok' Hf]. by apply Hok'.
Qed.

(** ** Accounting *)

Definition billable (u : GoalTokenUsage) : Z := input u + cacheWrite u + output u.
Definition usage_le (u v : GoalTokenUsage) : Prop := input u <= input v /\ cacheWrite u <= cacheWrite v /\ output u <= output v.

Lemma tokenDelta_billable u v : usage_le u v -> goalTokenDelta v u = billable v - billable u.
Proof. unfold usage_le, goalTokenDelta, billable. lia. Qed.

(** While the goal [i] is tracked, tokens minus baseline and mark minus seconds do not change: [K] and [L]. *)
Inductive tracked (i : jstring) (K L : Z) (rt : GoalRuntime) : Prop :=
| tracked_intro (s : GoalModeState Goal) (t : GoalTurnSnapshot)
    (tr_acc : accounting (getStateClone rt) = Some s) (tr_id : id (goal s) = i)
    (tr_tracks : turnTracks rt i = Some t) (tr_wall : wallGoalId (wallClock rt) = Some i)
    (tr_K : tokensUsed (goal s) - billable (baselineUsage t) = K)
    (tr_L : lastAccountedAt (wallClock rt) - 1000 * timeUsedSeconds (goal s) = L)
    (tr_base : usage_le (baselineUsage t) (currentUsage (usageReads rt)))
    (tr_clock : lastAccountedAt (wallClock rt) <= now (clockReads rt)).

Context (clock_forward : forall i j, (i <= j)%nat -> now i <= now j)
        (usage_grows : forall i j, (i <= j)%nat -> usage_le (currentUsage i) (currentUsage j)).

(** Two cases of the equation above when turn and clock track the goal. *)
Lemma flush_tracked i K L p rt :
  tracked i K L rt ->
  let rt' := flushCurrent p rt in
  tracked i K L rt' /\ (usageReads rt' = S (usageReads rt))%nat /\
  forall s, accounting (getStateClone rt') = Some s ->
    tokensUsed (goal s) = K + billable (currentUsage (usageReads rt)) /\
    L + 1000 * timeUsedSeconds (goal s) <= now (clockReads rt) < L + 1000 * timeUsedSeconds (goal s) + 1000.
Proof.
  intros [s t Ha Hi Ht Hw HK HL Hb Hc]. cbn zeta. unfold flushCurrent. set (u := currentUsage (usageReads rt)) in *.
  change (accounting (getStateClone (tick_usage rt)) = Some s) in Ha. rewrite (flush_eq _ _ _ s Ha), Hi.
  change (turnTracks (tick_usage rt) i) with (turnTracks rt i). change (wallTracks (tick_usage rt) i) with (wallTracks rt i).
  assert (wallTracks rt i = true) as Ew by (unfold wallTracks; by rewrite bool_decide_true). rewrite Ew, Ht. cbn [negb andb bool_decide].
  rewrite bool_decide_true by done. cbn [negb andb].
  assert (tokensDue u (tick_usage rt) i = billable u - billable (baselineUsage t)) as Ed.
  { unfold tokensDue. change (turnTracks (tick_usage rt) i) with (turnTracks rt i). by rewrite Ht, tokenDelta_billable. }
  set (m := lastAccountedAt (wallClock rt)) in *. set (c := now (clockReads rt)) in *.
  assert (secondsDue (tick_usage rt) i = (c - m) / 1000) as Es.
  { unfold secondsDue. change (wallTracks (tick_usage rt) i) with (wallTracks rt i). rewrite Ew. cbn.
    apply Z.max_r. apply Z.div_pos; [fold m c|]; lia. }
  rewrite Ed, Es. pose proof (Z.div_mod (c - m) 1000 ltac:(lia)) as Hdiv. pose proof (Z.mod_pos_bound (c - m) 1000 ltac:(lia)) as Hmod.
  assert (0 <= (c - m) / 1000) as Hdw by (apply Z.div_pos; lia). set (dw := (c - m) / 1000) in *.
  assert (0 <= billable u - billable (baselineUsage t)) as Hdt by (unfold usage_le, billable in *; lia).
  pose proof (usage_grows (usageReads rt) (S (usageReads rt)) ltac:(lia)) as Hg. fold u in Hg.
  destruct ((billable u - billable (baselineUsage t) <=? 0) && (dw <=? 0)) eqn:Ez.
  - assert (forall rt', hostState rt' = hostState rt -> turnSnapshot rt' = turnSnapshot rt -> wallClock rt' = wallClock rt ->
      usageReads rt' = S (usageReads rt) -> clockReads rt' = S (clockReads rt) ->
      tracked i K L rt' /\ (usageReads rt' = S (usageReads rt))%nat /\
      forall s, accounting (getStateClone rt') = Some s -> tokensUsed (goal s) = K + billable u /\
      L + 1000 * timeUsedSeconds (goal s) <= c < L + 1000 * timeUsedSeconds (goal s) + 1000) as Hsame.
    { intros rt' R1 R2 R3 R4 R5. assert (getStateClone rt' = getStateClone rt) as Eg by (unfold getStateClone; by rewrite R1).
      split; [|split; [done|]].
      - exists s t; rewrite ?Eg, ?R3; try done; [unfold turnTracks; by rewrite R2| |].
        + rewrite R4. unfold usage_le in *. lia.
        + rewrite R5. pose proof (clock_forward (clockReads rt) (S (clockReads rt)) ltac:(lia)). fold m. subst c. lia.
      - intros s' E'. rewrite Eg in E'. change (accounting (getStateClone rt) = Some s) in Ha. assert (s' = s) as -> by congruence. lia. }
    destruct (p && usagePendingPersist (tick_usage rt)); by apply Hsame.
  - set (s' := booked s _ dw _). destruct (moveMarks_spec i u dw (tick_clock (tick_clock (tick_usage rt)))) as (M1 & M2 & M3 & M4).
    assert (usageReads (moveMarks i u dw (tick_clock (tick_clock (tick_usage rt)))) = S (usageReads rt)) as M5
      by (unfold moveMarks; by destruct (turnTracks _ _), (wallTracks _ _ && _)).
    set (rt2 := moveMarks i u dw (tick_clock (tick_clock (tick_usage rt)))) in *. change (turnTracks (tick_clock _) i) with (turnTracks rt i) in M1.
    rewrite Ht in M1. change (wallTracks (tick_clock _) i) with (wallTracks rt i) in M2. rewrite Ew in M2. cbn [andb] in M2.
    change (wallClock (tick_clock _)) with (wallClock rt) in M2. fold m in M2.
    apply turnTracks_Some in Ht as [_ Hti].
    assert (lastAccountedAt (wallClock rt2) = m + dw * 1000 /\ wallGoalId (wallClock rt2) = Some i) as [W1 W2].
    { rewrite M2. destruct (Z.ltb_spec 0 dw); cbn; [done|]. split; [fold m; lia|done]. }
    apply accounting_Some in Ha as (_ & A1 & A2).
    assert (accounting (Some s') = Some s') as Ha' by (apply accounting_Some; split; [done|]; split; [exact A1|exact A2]).
    split; [|split].
    + exists s' (mkTurn (turnId t) u (turnGoalId t)); rewrite ?getStateClone_commit; try done.
      * apply turnTracks_Some. split; [destruct p; exact M1|exact Hti].
      * destruct p; exact W2.
      * cbn [booked with_usage goal tokensUsed s' baselineUsage]. lia.
      * transitivity (lastAccountedAt (wallClock rt2) - 1000 * timeUsedSeconds (goal s')); [by destruct p|].
        rewrite W1. cbn [booked with_usage goal timeUsedSeconds s']. lia.
      * cbn [baselineUsage]. assert (usageReads (commitState (Some s') (if p then Some p_goal else None) true (set_pending (negb p) rt2)) = S (usageReads rt)) as ->
          by (destruct p; exact M5). exact Hg.
      * transitivity (lastAccountedAt (wallClock rt2)); [by destruct p|].
        transitivity (now (S (S (clockReads rt)))); [|destruct p; cbn; by rewrite M4].
        rewrite W1. pose proof (clock_forward (clockReads rt) (S (S (clockReads rt))) ltac:(lia)). subst c. lia.
    + destruct p; exact M5.
    + intros x. rewrite getStateClone_commit, Ha'. intros [= <-]. cbn [booked with_usage goal tokensUsed timeUsedSeconds s']. lia.
Qed.

(** The boundaries inside a turn. *)
Definition is_boundary (o : op) : bool :=
  match o with ToolCompleted _ | GoalToolCompleted | FlushUsage None => true | _ => false end.

Lemma tracked_accounting i K L rt : tracked i K L rt -> hasAccountingState rt = true.
Proof. intros [s t Ha _ _ _ _ _ _ _]. unfold hasAccountingState. by rewrite Ha. Qed.

Lemma boundary_tracked i K L o rt : is_boundary o = true -> tracked i K L rt -> tracked i K L (run o rt).
Proof.
  intros Ho Ht. pose proof (tracked_accounting _ _ _ _ Ht) as Ha.
  destruct o as [| name | | | | |[u|]| | | | | |]; try done; cbn [run].
  - unfold onToolCompleted. destruct (bool_decide _); [done|]. rewrite Ha. by apply flush_tracked.
  - unfold onGoalToolCompleted. rewrite Ha. by apply flush_tracked.
  - by apply flush_tracked.
Qed.


End Runtime.

(** ** The life of a goal *)

Inductive status_step : GoalStatus -> GoalStatus -> Prop :=
| st_stay s : status_step s s
| st_pause : status_step g_active g_paused
| st_resume : status_step g_paused g_active
| st_revive : status_step g_dropped g_active
| st_complete s : s = g_active \/ s = g_paused -> status_step s g_complete.

(** The same goal later. *)
Definition later (g g' : Goal) : Prop :=
  id g' = id g /\ objective g' = objective g /\ createdAt g' = createdAt g /\ provenance g' = provenance g /\
  tokensUsed g <= tokensUsed g' /\ timeUsedSeconds g <= timeUsedSeconds g' /\
  status_step (status g) (status g') /\ (status g = g_complete -> g' = g).

Lemma later_refl g : later g g.
Proof. unfold later. repeat (split; [done || lia|]). split; [constructor|done]. Qed.
#[local] Hint Resolve later_refl : core.

Lemma later_status g st n : status_step (status g) st -> status g ≠ g_complete -> later g (with_status g st n).
Proof. intros Hs Hc. unfold later, with_status. cbn. repeat (split; [done || lia|]). done. Qed.

(** A flush does not change the status, so a step after it counts from before it. *)
Lemma later_booked s dt dw n st m :
  0 <= dt -> 0 <= dw -> status (goal s) = g_active -> status_step g_active st ->
  later (goal s) (with_status (goal (booked s dt dw n)) st m).
Proof.
  intros H1 H2 Ha Hs. unfold later, booked, with_usage, with_status. cbn. rewrite Ha. repeat (split; [done || lia|]). done.
Qed.

Section History.
Context `{GoalHost}.

Lemma tokensDue_nonneg u rt i : 0 <= tokensDue u rt i.
Proof. unfold tokensDue. destruct (turnTracks rt i); [unfold goalTokenDelta|]; lia. Qed.

Lemma secondsDue_nonneg rt i : 0 <= secondsDue rt i.
Proof. unfold secondsDue. destruct (wallTracks rt i); lia. Qed.

Lemma flush_later u p rt :
  getStateClone (flushUsageLocked u p rt) = getStateClone rt \/
  exists s dt dw n, getStateClone rt = Some s /\ status (goal s) = g_active /\ 0 <= dt /\ 0 <= dw /\
    getStateClone (flushUsageLocked u p rt) = Some (booked s dt dw n).
Proof.
  destruct (accounting (getStateClone rt)) as [s|] eqn:Ea; [|left; unfold flushUsageLocked; by rewrite Ea].
  rewrite (flush_eq _ _ _ s Ea). apply accounting_Some in Ea as (Es & _ & E2).
  destruct (negb _ && negb _); [by left|]. destruct (_ && _).
  { left. by destruct (p && usagePendingPersist rt), (wallTracks rt (id (goal s))). }
  right. eexists s, _, _, _. split; [done|]. split; [done|]. split; [apply tokensDue_nonneg|]. split; [apply secondsDue_nonneg|].
  apply getStateClone_commit.
Qed.

Lemma flushCurrent_later p rt :
  getStateClone (flushCurrent p rt) = getStateClone rt \/
  exists s dt dw n, getStateClone rt = Some s /\ status (goal s) = g_active /\ 0 <= dt /\ 0 <= dw /\
    getStateClone (flushCurrent p rt) = Some (booked s dt dw n).
Proof. exact (flush_later (currentUsage (usageReads rt)) p (tick_usage rt)). Qed.

(** After a flush the goal is the one before it, at the same status. *)
Lemma flushed_state rt rt' s :
  (getStateClone rt' = getStateClone rt \/
   exists s dt dw n, getStateClone rt = Some s /\ status (goal s) = g_active /\ 0 <= dt /\ 0 <= dw /\ getStateClone rt' = Some (booked s dt dw n)) ->
  getStateClone rt = Some s ->
  exists s', getStateClone rt' = Some s' /\ status (goal s') = status (goal s) /\ enabled s' = enabled s /\ later (goal s) (goal s') /\
    forall st n, status_step (status (goal s)) st -> status (goal s) ≠ g_complete -> later (goal s) (with_status (goal s') st n).
Proof.
  intros [E|(s0 & dt & dw & n & E0 & Ea & H1 & H2 & E)] Es.
  - exists s. split; [congruence|]. do 3 (split; [done|]). intros st n Hs Hc. by apply later_status.
  - assert (s0 = s) as -> by congruence. exists (booked s dt dw n). split; [done|]. do 2 (split; [done|]).
    assert (forall st m, status_step g_active st -> later (goal s) (with_status (goal (booked s dt dw n)) st m)) as Hl
      by (intros st m Hs; by apply later_booked).
    split; [|intros st m; rewrite Ea; intros; by apply Hl].
    assert (later (goal s) (with_status (goal (booked s dt dw n)) (status (goal s)) n)) as Hst by (rewrite Ea; apply Hl; constructor). exact Hst.
Qed.

Lemma flush_idReads u p rt : idReads (flushUsageLocked u p rt) = idReads rt.
Proof.
  destruct (accounting (getStateClone rt)) as [s|] eqn:Ea; [|unfold flushUsageLocked; by rewrite Ea].
  rewrite (flush_eq _ _ _ s Ea). destruct (negb _ && negb _); [done|]. destruct (_ && _).
  { by destruct (p && usagePendingPersist rt), (wallTracks rt (id (goal s))). }
  transitivity (idReads (moveMarks (id (goal s)) u (secondsDue rt (id (goal s))) (tick_clock (if wallTracks rt (id (goal s)) then tick_clock rt else rt)))); [by destruct p|].
  unfold moveMarks. by destruct (turnTracks _ _), (wallTracks _ _ && _), (wallTracks rt (id (goal s))).
Qed.

(** A boundary leaves the goal as a flush does. *)
Lemma boundary_later rt s s' :
  getStateClone rt = Some s -> forall b, getStateClone (if b : bool then flushCurrent false rt else rt) = Some s' -> later (goal s) (goal s').
Proof.
  intros Es b E. destruct b; [|assert (s' = s) as -> by congruence; done].
  destruct (flushed_state rt _ s (flushCurrent_later false rt) Es) as (x & Ex & _ & _ & Hl & _). by assert (x = s') as -> by congruence.
Qed.

Lemma flushUsage_later u rt s s' : getStateClone rt = Some s -> getStateClone (flushUsage u rt) = Some s' -> later (goal s) (goal s').
Proof.
  intros Es E. unfold flushUsage in E. destruct u as [u|].
  - destruct (flushed_state rt _ s (flush_later u true rt) Es) as (x & Ex & _ & _ & Hl & _). by assert (x = s') as -> by congruence.
  - destruct (flushed_state rt _ s (flushCurrent_later true rt) Es) as (x & Ex & _ & _ & Hl & _). by assert (x = s') as -> by congruence.
Qed.

Lemma installed_goal o p rt s' :
  getStateClone (installGoal o p rt).1 = Some s' ->
  id (goal s') = snowflake (idReads rt) /\ tokensUsed (goal s') = 0 /\ timeUsedSeconds (goal s') = 0 /\ status (goal s') = g_active.
Proof. unfold installGoal, actR, createGoalState. cbn [fst]. rewrite getStateClone_commit. by intros [= <-]. Qed.

Lemma onTurnStart_state tid u rt : getStateClone (onTurnStart tid u rt) = getStateClone rt.
Proof. unfold onTurnStart. destruct (accounting _); [|done]. cbn zeta. by destruct (bool_decide _). Qed.

Lemma onTaskAborted_later rt s s' : getStateClone rt = Some s -> getStateClone (onTaskAborted rt) = Some s' -> later (goal s) (goal s').
Proof.
  intros Es. unfold onTaskAborted. destruct (accounting (getStateClone rt)) as [x|] eqn:Ea; [|intros E].
  2: { change (getStateClone rt = Some s') in E. by assert (s' = s) as -> by congruence. }
  apply accounting_Some in Ea as (Ex & _ & Ec). assert (x = s) as -> by congruence.
  destruct (flushed_state rt _ s (flushCurrent_later false rt) Es) as (y & Ey & Y1 & Y2 & Hl & Hst). cbn zeta.
  change (getStateClone (set_turnSnapshot None (flushCurrent false rt))) with (getStateClone (flushCurrent false rt)). rewrite Ey.
  destruct (accounting (Some y)) as [z|] eqn:Ez.
  - apply accounting_Some in Ez as ([= <-] & _ & Ez). rewrite getStateClone_commit. intros [= <-]. apply Hst; [|congruence]. rewrite Y1. constructor.
  - intros E. change (getStateClone (flushCurrent false rt) = Some s') in E. by assert (s' = y) as -> by congruence.
Qed.

(** The operations that flush first and then change the status. *)
Lemma pause_later rt s s' : getStateClone rt = Some s -> getStateClone (pauseGoal rt).1 = Some s' -> later (goal s) (goal s').
Proof.
  intros Es. destruct (flushed_state rt _ s (flushCurrent_later false rt) Es) as (y & Ey & Y1 & _ & Hl & Hst).
  unfold pauseGoal, mbind, M_bind, getR, modifyR. rewrite Ey. case_bool_decide as Ec.
  - intros E. cbn [fst throwR] in E. by assert (s' = y) as -> by congruence.
  - assert (status (goal s) = g_active) as Ea by (destruct (decide (status (goal y) = g_active)); [congruence|by destruct Ec]).
    unfold actR. cbn [fst]. rewrite getStateClone_commit. intros [= <-]. apply Hst; rewrite Ea; [constructor|done].
Qed.

Lemma complete_later rt s s' : getStateClone rt = Some s -> getStateClone (completeGoalFromTool rt).1 = Some s' -> later (goal s) (goal s').
Proof.
  intros Es. destruct (flushed_state rt _ s (flushCurrent_later false rt) Es) as (y & Ey & Y1 & _ & Hl & Hst).
  unfold completeGoalFromTool, mbind, M_bind, getR, modifyR. rewrite Ey, Y1. destruct (status (goal s)) eqn:Ec; unfold actR; cbn [fst throwR].
  3,4: intros E; by assert (s' = y) as -> by congruence.
  all: rewrite getStateClone_commit; intros [= <-]; apply Hst; [constructor; auto|done].
Qed.

Lemma resume_later rt s s' : getStateClone rt = Some s -> getStateClone (resumeGoal rt).1 = Some s' -> later (goal s) (goal s').
Proof.
  intros Es. unfold resumeGoal, mbind, M_bind, getR. rewrite Es. case_bool_decide as Ec; [cbn [fst throwR]; intros E; by assert (s' = s) as -> by congruence|].
  unfold actR. cbn [fst]. rewrite getStateClone_commit. intros [= <-]. apply later_status; [|done]. destruct (status (goal s)); [..|]; done || constructor.
Qed.

Lemma thread_later rt s s' : getStateClone rt = Some s -> getStateClone (onThreadResumed rt).1 = Some s' -> later (goal s) (goal s').
Proof. intros Es. unfold onThreadResumed. rewrite Es. cbn [fst]. rewrite getStateClone_commit. by intros [= <-]. Qed.

(** C35: Whatever happens in a session, its goal keeps its identity and text, its counters never go down, its status moves
    along the edges above and a completed goal is never touched; only [createGoal] and [replaceGoal] put a new goal,
    with counters at zero, in its place. *)
Theorem goals_only_move_forward o rt s s' :
  getStateClone rt = Some s -> getStateClone (run o rt) = Some s' ->
  later (goal s) (goal s') \/
  (match o with CreateGoal _ _ => status (goal s) = g_complete \/ status (goal s) = g_dropped | ReplaceGoal _ => status (goal s) = g_active | _ => False end /\
   id (goal s') = snowflake (idReads rt) /\ tokensUsed (goal s') = 0 /\ timeUsedSeconds (goal s') = 0 /\ status (goal s') = g_active).
Proof.
  intros Es E. destruct o as [tid u|name| |u| | |u|o p|o| | | |]; cbn [run] in E.
  - left. rewrite onTurnStart_state in E. by assert (s' = s) as -> by congruence.
  - left. unfold onToolCompleted in E. destruct (bool_decide _); [by assert (s' = s) as -> by congruence|exact (boundary_later rt s s' Es _ E)].
  - left. exact (boundary_later rt s s' Es _ E).
  - left. unfold onAgentEnd in E. destruct (hasAccountingState rt); [exact (flushUsage_later u rt s s' Es E)|].
    change (getStateClone rt = Some s') in E. by assert (s' = s) as -> by congruence.
  - left. by eapply onTaskAborted_later.
  - left. by eapply thread_later.
  - left. by eapply flushUsage_later.
  - unfold createGoal, mbind, M_bind, getR, liftR in E. destruct (validateGoalObjective o); [|left; cbn in E; by assert (s' = s) as -> by congruence].
    rewrite Es in E. destruct (_ && _) eqn:Ec; [left; cbn in E; by assert (s' = s) as -> by congruence|].
    right. split; [|by eapply installed_goal]. destruct (status (goal s)); cbn in Ec; auto; discriminate.
  - unfold replaceGoal, mbind, M_bind, getR, liftR, modifyR in E. destruct (validateGoalObjective o); [|left; cbn in E; by assert (s' = s) as -> by congruence].
    destruct (accounting (getStateClone rt)) as [x|] eqn:Ea; [|left; cbn in E; by assert (s' = s) as -> by congruence].
    right. apply accounting_Some in Ea as (Ex & _ & Ea). assert (x = s) as -> by congruence. split; [done|].
    apply installed_goal in E. unfold flushCurrent in E. by rewrite flush_idReads in E.
  - left. by eapply resume_later.
  - left. by eapply pause_later.
  - left. unfold dropGoal, mbind, M_bind, getR, modifyR in E.
    destruct (flushed_state rt _ s (flushCurrent_later true rt) Es) as (y & Ey & _). rewrite Ey in E. done.
  - left. by eapply complete_later.
Qed.

End History.

(** ** Repeated timeouts *)

Inductive ToolOutcomeKind : Type := o_timeout | o_success | o_other_error.
#[global] Instance ToolOutcomeKind_eq_dec : EqDecision ToolOutcomeKind.
Proof. solve_decision. Defined.

Record TimeoutToolOutcome : Type := mkOutcome { toolName : jstring; argsKey : jstring; kind : ToolOutcomeKind }.
Record TimeoutHoldState : Type := mkHold { heldSnapshotKey : option jstring; fingerprint : option jstring; streak : Z }.

(** The text of a tool result. *)
Definition toResultText (result : value) : jstring :=
  match result with
  | v_string s => s
  | v_object _ =>
      match prop (js "content") result with
      | v_array l =>
          join [c_lf] (omap (fun content =>
            match content with
            | v_object _ =>
                match prop (js "type") content, prop (js "text") content with
                | v_string t, v_string s => if bool_decide (t = js "text") then Some s else None
                | _, _ => None
                end
            | _ => None
            end) l)
      | _ => []
      end
  | _ => []
  end.

(** A letter in either case. *)
Definition rx_nocase (c : N) : regex := rx_class (fun d => (d =? c)%N || (is_lower c && (d =? c - 32)%N)).
Definition rx_word_nocase (s : jstring) : regex := rx_seqs ([rx_wordb] ++ (rx_nocase <$> s) ++ [rx_wordb]).
(** [\btimed out\b|\btimeout\b], ignoring case *)
Definition timeoutRe : regex := rx_alt (rx_word_nocase (js "timed out")) (rx_word_nocase (js "timeout")).

Definition classifyToolOutcome (isError : value) (text : jstring) : ToolOutcomeKind :=
  match isError with v_bool true => if test timeoutRe text then o_timeout else o_other_error | _ => o_success end.

Definition turnTimeoutFingerprint (outcomes : list TimeoutToolOutcome) : option jstring :=
  match outcomes with
  | [] => None
  | first :: _ =>
      if existsb (fun o => bool_decide (kind o ≠ o_timeout)) outcomes then None
      else if existsb (fun o => bool_decide (toolName o ≠ toolName first) || bool_decide (argsKey o ≠ argsKey first)) outcomes then None
      else Some (toolName first ++ [0%N] ++ argsKey first)
  end.

Definition decideTimeoutHold (prev : TimeoutHoldState) (snapshotKey : jstring) (fp : option jstring) : bool * TimeoutHoldState :=
  match fp with
  | None => (false, mkHold None None 0)
  | Some f =>
      let continues := (1 <=? streak prev) && bool_decide (fingerprint prev = Some f) && bool_decide (heldSnapshotKey prev = Some snapshotKey) in
      let streak := if continues then streak prev + 1 else 1 in
      (2 <=? streak, mkHold (Some snapshotKey) (Some f) streak)
  end.

(** A history of turns: the goal's key and the outcomes of the turn's tools. *)
Definition holdAfter (turns : list (jstring * list TimeoutToolOutcome)) : bool * TimeoutHoldState :=
  foldl (fun st turn => decideTimeoutHold st.2 turn.1 (turnTimeoutFingerprint turn.2)) (false, mkHold None None 0) turns.

Lemma holdAfter_state turns :
  match last turns with
  | Some (k, os) =>
      match turnTimeoutFingerprint os with
      | Some f => 1 <= streak (holdAfter turns).2 /\ fingerprint (holdAfter turns).2 = Some f /\ heldSnapshotKey (holdAfter turns).2 = Some k
      | None => streak (holdAfter turns).2 = 0 /\ (holdAfter turns).1 = false
      end
  | None => streak (holdAfter turns).2 = 0 /\ (holdAfter turns).1 = false
  end.
Proof.
  induction turns as [|[k os] turns IH] using rev_ind; [done|]. rewrite last_snoc. unfold holdAfter in *. rewrite foldl_app. cbn [foldl fst snd].
  destruct (turnTimeoutFingerprint os) as [f|]; cbn; [|done]. split; [|done].
  destruct (1 <=? _) eqn:E; cbn [andb]; [|lia]. destruct (bool_decide _ && bool_decide _); lia.
Qed.

Lemma fingerprint_Some os f :
  turnTimeoutFingerprint os = Some f <->
  exists tool args, f = tool ++ [0%N] ++ args /\ os ≠ [] /\ Forall (fun o => o = mkOutcome tool args o_timeout) os.
Proof.
  unfold turnTimeoutFingerprint. destruct os as [|first os']; [split; [done|by intros (? & ? & _ & ? & _)]|].
  set (os := first :: os'). destruct (existsb (fun o => bool_decide (kind o ≠ o_timeout)) os) eqn:E1.
  { split; [done|]. intros (tool & args & _ & _ & Hall). apply existsb_exists in E1 as (o & Ho%list_elem_of_In & E1).
    apply bool_decide_eq_true in E1. rewrite Forall_forall in Hall. by rewrite (Hall o Ho) in E1. }
  destruct (existsb (fun o => bool_decide (toolName o ≠ toolName first) || bool_decide (argsKey o ≠ argsKey first)) os) eqn:E2.
  { split; [done|]. intros (tool & args & _ & _ & Hall). apply existsb_exists in E2 as (o & Ho%list_elem_of_In & E2).
    rewrite Forall_forall in Hall. rewrite (Hall o Ho), (Hall first ltac:(subst os; set_solver)) in E2. cbn in E2.
    rewrite !bool_decide_false in E2 by (intros F; by destruct F). done. }
  split.
  - intros [= <-]. exists (toolName first), (argsKey first). split; [done|]. split; [done|]. apply Forall_forall. intros o Ho.
    rewrite <- not_true_iff_false, existsb_exists in E1, E2. destruct o as [t a k]. f_equal.
    + apply dec_stable. intros F. apply E2. exists (mkOutcome t a k). split; [by apply list_elem_of_In|]. cbn. by rewrite bool_decide_true.
    + apply dec_stable. intros F. apply E2. exists (mkOutcome t a k). split; [by apply list_elem_of_In|]. cbn. rewrite (bool_decide_true (a ≠ _)) by done. apply orb_true_r.
    + apply dec_stable. intros F. apply E1. exists (mkOutcome t a k). split; [by apply list_elem_of_In|]. cbn. by rewrite bool_decide_true.
  - intros (tool & args & -> & _ & Hall). rewrite Forall_forall in Hall. rewrite (Hall first ltac:(subst os; set_solver)). done.
Qed.

(** The loop is held exactly when the last two turns, of the same goal, did nothing but time out in the same call. *)
Theorem hold_means_the_same_timeout_twice turns :
  (holdAfter turns).1 = true <->
  exists pre key os os' f, turns = pre ++ [(key, os); (key, os')] /\
    turnTimeoutFingerprint os = Some f /\ turnTimeoutFingerprint os' = Some f /\
    exists tool args, f = tool ++ [0%N] ++ args /\ Forall (fun o => o = mkOutcome tool args o_timeout) os'.
Proof.
  destruct turns as [|[k os'] turns _] using rev_ind; [split; [done|intros (pre & ? & ? & ? & ? & E & _); by destruct pre]|].
  pose proof (holdAfter_state turns) as Hst. unfold holdAfter in *. rewrite foldl_app. cbn [foldl fst snd].
  set (st := (foldl _ _ turns).2) in *. unfold decideTimeoutHold. destruct (turnTimeoutFingerprint os') as [f|] eqn:Ef; cbn [fst].
  2: { split; [done|]. intros (pre & key & os & os2 & f & E & _ & F & _).
       change (pre ++ [(key, os); (key, os2)]) with (pre ++ ([(key, os)] ++ [(key, os2)])) in E. rewrite app_assoc in E. apply app_inj_tail in E as [_ [= <- <-]]. congruence. }
  split.
  - intros Hh. destruct (last turns) as [[k0 os]|] eqn:El.
    2: { destruct Hst as [Hst _]. rewrite Hst in Hh. by cbn in Hh. }
    destruct (turnTimeoutFingerprint os) as [f0|] eqn:Ef0; [|destruct Hst as [Hst _]; rewrite Hst in Hh; by cbn in Hh].
    destruct Hst as (H1 & H2 & H3). rewrite H2, H3 in Hh.
    destruct (bool_decide (Some f0 = Some f)) eqn:E1; [|rewrite andb_false_r in Hh; by cbn in Hh].
    destruct (bool_decide (Some k0 = Some k)) eqn:E2; [|rewrite andb_false_r in Hh; by cbn in Hh].
    apply bool_decide_eq_true in E1, E2. simplify_eq. apply last_Some in El as [pre ->].
    exists pre, k, os, os', f. split; [by rewrite <- app_assoc|]. split; [done|]. split; [done|].
    apply fingerprint_Some in Ef as (tool & args & -> & _ & Hall). by exists tool, args.
  - intros (pre & key & os & os2 & f0 & E & F1 & F2 & _). change (pre ++ [(key, os); (key, os2)]) with (pre ++ ([(key, os)] ++ [(key, os2)])) in E. rewrite app_assoc in E.
    apply app_inj_tail in E as [-> [= <- <-]]. rewrite last_snoc, F1 in Hst. destruct Hst as (H1 & H2 & H3).
    assert (f0 = f) as -> by congruence. rewrite H2, H3, !bool_decide_true by done.
    destruct (Z.leb_spec 1 (streak st)); [|lia]. cbn [andb]. lia.
Qed.

(** ** A host *)

(** A clock that gains 700 ms and a session that bills 100 + 7 tokens between readings. *)
#[local] Instance demoHost : GoalHost := {|
  now := fun n => 700 * Z.of_nat n;
  currentUsage := fun n => mkUsage (100 * Z.of_nat n) (7 * Z.of_nat n) (50 * Z.of_nat n) 0;
  snowflake := fun n => js "goal-" ++ z_str (Z.of_nat n) |}.

Definition demoGoal : GoalRuntime := (createGoal (js " ship it ") None (newRuntime None)).1.

Example demo_created :
  exists s, getStateClone demoGoal = Some s /\ objective (goal s) = js "ship it" /\ id (goal s) = js "goal-0" /\
  (createGoal (js "more") None demoGoal).2 = Throw AlreadyHasGoal /\ (createGoal (js "/goal") None demoGoal).2 = Throw ObjectiveIsCommand.
Proof. eexists. split; [vm_compute; reflexivity|]. vm_compute. repeat split. Qed.

Lemma agent_end_leaves_counters_on_disk_witness :
  let ops := [CreateGoal (js "ship it") None; TurnStart (js "t1") (mkUsage 0 0 0 0); ToolCompleted (js "bash"); ToolCompleted (js "read")] in
  let rt := foldl (fun rt o => run o rt) (newRuntime None) ops in
  usagePendingPersist rt = true /\ is_durable (onAgentEnd None rt).
Proof.
  split; [vm_compute; reflexivity|].
  apply (agent_end_leaves_counters_on_disk (newRuntime None) _ None); [|reflexivity|reflexivity].
  intros s E. discriminate E.
Defined.


Lemma goals_only_move_forward_witness :
  exists s s', getStateClone demoGoal = Some s /\ getStateClone (run CompleteGoal demoGoal) = Some s' /\ status (goal s') = g_complete /\
  later (goal s) (goal s').
Proof.
  destruct (getStateClone demoGoal) as [s|] eqn:E; [|vm_compute in E; discriminate E].
  destruct (getStateClone (run CompleteGoal demoGoal)) as [s'|] eqn:E'; [|vm_compute in E'; discriminate E'].
  exists s, s'. split; [reflexivity|]. split; [reflexivity|]. split.
  - assert (status <$> (goal <$> getStateClone (run CompleteGoal demoGoal)) = Some g_complete) as Hs by (vm_compute; reflexivity).
    rewrite E' in Hs. cbn in Hs. congruence.
  - destruct (goals_only_move_forward CompleteGoal demoGoal s s' E E') as [L|[[] _]]. exact L.
Defined.

(** [resume] on a goal that is already active starts its accounting anew without booking what was used: tokens of the
    turn are never counted. *)
Example resume_of_active_goal_loses_tokens :
  let rt := foldl (fun rt o => run o rt) demoGoal [TurnStart (js "t1") (mkUsage 0 0 0 0); ResumeGoal; AgentEnd None] in
  let rt' := foldl (fun rt o => run o rt) demoGoal [TurnStart (js "t1") (mkUsage 0 0 0 0); FlushUsage None; AgentEnd None] in
  usageReads rt = usageReads rt' /\
  tokensUsed <$> (goal <$> getStateClone rt) = Some 107 /\ tokensUsed <$> (goal <$> getStateClone rt') = Some 214.
Proof. vm_compute. repeat split. Qed.

Example timeout_texts :
  classifyToolOutcome (v_bool true) (js "Command TIMED OUT after 30s") = o_timeout /\
  classifyToolOutcome (v_bool true) (js "timeouts are bad") = o_other_error /\ classifyToolOutcome v_undefined (js "timeout") = o_success.
Proof. vm_compute. repeat split. Qed.
