(* ===== verification/Compaction.v ===== *)
(** * Compaction: when to compact and where to cut (packages/agent/src/compaction: compaction.ts, adaptive.ts, utils.ts)

    The thresholds, the adaptive tracker, the emergency limits, the search for a cut point and the preparation of a
    compaction.  Token estimates of messages are a parameter (they come from a tokenizer), as are the contents of
    messages; percentages are exact rationals.  Summaries are written by a model and are not modelled. *)
From S2P Require Import Prelude JsString JsNumber JsMap JsValue.
From Stdlib Require Import ZifyBool.
Open Scope Z_scope.

(** ** Settings *)

Record AdaptiveCompactionOptions : Type := mkAdaptive {
  a_enabled : bool; turnWindow : number; baseThresholdPercent : number; aggression : number; minThresholdPercent : option number }.

Record AdaptiveCompactionDecisionState : Type := mkDecision {
  d_turnsSinceCompact : number; d_callsInWindow : number; d_lastContextTokens : option number }.

Inductive CompactionStrategy : Type := context_full | handoff | off.
#[global] Instance CompactionStrategy_eq_dec : EqDecision CompactionStrategy.
Proof. solve_decision. Defined.

Record CompactionSettings : Type := mkSettings {
  enabled : bool; strategy : option CompactionStrategy; thresholdPercent : option number; thresholdTokens : option number;
  adaptive : option AdaptiveCompactionOptions; adaptiveState : option AdaptiveCompactionDecisionState;
  reserveTokens : Z; keepRecentTokens : Z }.

Definition DEFAULT_AUTO_THRESHOLD_CEILING_TOKENS : Z := 300000.

Definition DEFAULT_COMPACTION_SETTINGS : CompactionSettings :=
  mkSettings true (Some context_full) (Some (Fin (-1))) (Some (Fin (-1))) None None 16384 20000.

(** ** Thresholds *)

(** [Math.round] *)
Definition Qround (q : Q) : Z := Qfloor (q + (1 # 2)).

(** A finite, positive setting. *)
Definition positiveSetting (o : option number) : option Q :=
  match o with Some (Fin q) => if Qltb 0 q then Some q else None | _ => None end.

(** [Number.isFinite(x) ? Math.max(0, x) : 0] *)
Definition finiteOr0 (x : number) : Q := match x with Fin q => Qmax 0 q | _ => 0%Q end.

Definition adaptiveEnabled (s : CompactionSettings) : bool := match adaptive s with Some a => a_enabled a | None => false end.

(** Into [1, 99], or 85 when not finite. *)
Definition clampPercent (x : number) : Q := match x with Fin q => Qmin 99 (Qmax 1 q) | _ => 85%Q end.

(** [computeAdaptiveThresholdPercent] when [options.enabled]. *)
Definition adaptivePercent (base : Q) (contextTokens : number) (contextWindow : Z) (state : option AdaptiveCompactionDecisionState)
    (o : AdaptiveCompactionOptions) : Q :=
  match state, turnWindow o with
  | Some st, Fin tw =>
      if (contextWindow <=? 0) || Qle_bool tw 0 then base
      else
        let fillRatio := (finiteOr0 contextTokens / inject_Z contextWindow)%Q in
        if Qltb fillRatio (base / 100 * (7 # 10))%Q then base
        else if Qle_bool (finiteOr0 (d_turnsSinceCompact st)) 3 then base
        else
          let windowTurns := Qmax 1 (tw * 4) in
          let intensity := Qmin 1 (finiteOr0 (d_callsInWindow st) / windowTurns) in
          let agg := match aggression o with Fin q => Qmin 1 (Qmax 0 q) | _ => 0%Q end in
          let minPercent := Qmin base (match minThresholdPercent o with Some (Fin q) => Qmax 1 q | _ => (base * (1 # 2))%Q end) in
          let lowered := (base - (base - minPercent) * agg * intensity)%Q in
          inject_Z (Z.max 1 (Z.min 99 (Qround lowered)))
  | _, _ => base
  end.

Definition computeAdaptiveThresholdPercent (basePercent : number) (contextTokens : number) (contextWindow : Z)
    (state : option AdaptiveCompactionDecisionState) (options : option AdaptiveCompactionOptions) : number :=
  match options with
  | Some o => if a_enabled o then Fin (adaptivePercent (clampPercent basePercent) contextTokens contextWindow state o) else basePercent
  | None => basePercent
  end.

Definition adaptiveContextTokens (contextTokens lastContextTokens : option number) : number :=
  match contextTokens, lastContextTokens with
  | Some (Fin q), _ => Fin (Qmax 0 q)
  | _, Some (Fin q) => Fin (Qmax 0 q)
  | _, _ => Fin 0
  end.

Definition effectiveReserveTokens (contextWindow : Z) (s : CompactionSettings) (maxOutputTokens : Z) : Z :=
  Z.max (contextWindow * 15 / 100) (Z.max (reserveTokens s) (Z.max 0 maxOutputTokens)).

(** [Math.floor(contextWindow * (percent / 100))]; a percentage that is not finite compares like no threshold at all,
    and does not arise. *)
Definition percentOf (contextWindow : Z) (percent : number) : Q :=
  match percent with Fin p => inject_Z (Qfloor (inject_Z contextWindow * (p / 100))) | _ => 0%Q end.

Definition resolveThresholdTokens (contextWindow : Z) (s : CompactionSettings) (maxOutputTokens : Z) (contextTokens : option number) : Q :=
  match positiveSetting (thresholdTokens s) with
  | Some t => Qmin (inject_Z (contextWindow - 1)) (Qmax 1 t)
  | None =>
      let ctx := adaptiveContextTokens contextTokens (adaptiveState s ≫= d_lastContextTokens) in
      match positiveSetting (thresholdPercent s) with
      | None =>
          match adaptive s with
          | Some a =>
              if a_enabled a
              then percentOf contextWindow
                     (computeAdaptiveThresholdPercent (Fin (clampPercent (baseThresholdPercent a))) ctx contextWindow (adaptiveState s) (adaptive s))
              else inject_Z (Z.min (contextWindow - effectiveReserveTokens contextWindow s maxOutputTokens) DEFAULT_AUTO_THRESHOLD_CEILING_TOKENS)
          | None => inject_Z (Z.min (contextWindow - effectiveReserveTokens contextWindow s maxOutputTokens) DEFAULT_AUTO_THRESHOLD_CEILING_TOKENS)
          end
      | Some p =>
          let clamped := Fin (Qmin 99 (Qmax 1 p)) in
          let base := match adaptive s with Some a => baseThresholdPercent a | None => clamped end in
          let ap := computeAdaptiveThresholdPercent base ctx contextWindow (adaptiveState s) (adaptive s) in
          percentOf contextWindow (if adaptiveEnabled s then ap else clamped)
      end
  end.

Definition isDefaultAutoThresholdCeilingApplied (contextWindow : Z) (s : CompactionSettings) : bool :=
  match positiveSetting (thresholdTokens s), positiveSetting (thresholdPercent s) with
  | None, None =>
      if adaptiveEnabled s then false
      else DEFAULT_AUTO_THRESHOLD_CEILING_TOKENS <? contextWindow - effectiveReserveTokens contextWindow s 0
  | _, _ => false
  end.

Definition shouldCompact (contextTokens : Q) (contextWindow : Z) (s : CompactionSettings) (maxOutputTokens : Z) : bool :=
  if negb (enabled s) || bool_decide (strategy s = Some off) || (contextWindow <=? 0) then false
  else Qltb (resolveThresholdTokens contextWindow s maxOutputTokens (Some (Fin contextTokens))) contextTokens.

(** *** The threshold is below the window *)

Lemma clampPercent_bounds x : (1 <= clampPercent x <= 99)%Q.
Proof.
  unfold clampPercent. destruct x; [|lra..]. split; [|apply Q.le_min_l]. apply Q.min_glb; [lra|]. apply Q.le_max_l.
Qed.

Lemma adaptivePercent_bounds base ctx cw st o : (1 <= base <= 99)%Q -> (1 <= adaptivePercent base ctx cw st o <= 99)%Q.
Proof.
  intros Hb. unfold adaptivePercent. destruct st as [st|]; [|done]. destruct (turnWindow o) as [tw| | |]; try done.
  destruct (_ || _); [done|]. cbv zeta. destruct (Qltb _ _); [done|]. destruct (Qle_bool _ 3); [done|].
  change 1%Q with (inject_Z 1) at 1. change 99%Q with (inject_Z 99). rewrite <- !Zle_Qle. lia.
Qed.

Lemma percentOf_bounds cw p : 0 < cw -> (1 <= p <= 99)%Q -> (0 <= percentOf cw (Fin p) /\ percentOf cw (Fin p) <= inject_Z (cw - 1))%Q.
Proof.
  intros Hc [H1 H2]. unfold percentOf. change 0%Q with (inject_Z 0). rewrite <- !Zle_Qle.
  assert (0 < inject_Z cw)%Q as Hq by (change 0%Q with (inject_Z 0); rewrite <- Zlt_Qlt; lia).
  set (x := (inject_Z cw * (p / 100))%Q). assert (0 <= x < inject_Z cw)%Q as [Hx1 Hx2].
  { assert (x == inject_Z cw * p * (1 # 100))%Q as E by (subst x; field). rewrite E. split; [|nra]. nra. }
  split.
  - change 0 with (Qfloor 0). by apply Qfloor_resp_le.
  - pose proof (Qfloor_le x) as Hf. assert (inject_Z (Qfloor x) < inject_Z cw)%Q as Hlt by lra. rewrite <- Zlt_Qlt in Hlt. lia.
Qed.

Lemma threshold_below_window cw s maxOut ctx :
  0 < cw -> 1 <= reserveTokens s -> (resolveThresholdTokens cw s maxOut ctx <= inject_Z (cw - 1))%Q.
Proof.
  intros Hc Hr. unfold resolveThresholdTokens. destruct (positiveSetting (thresholdTokens s)) as [t|]; [apply Q.le_min_l|].
  assert (inject_Z (Z.min (cw - effectiveReserveTokens cw s maxOut) DEFAULT_AUTO_THRESHOLD_CEILING_TOKENS) <= inject_Z (cw - 1))%Q as Hd
    by (rewrite <- Zle_Qle; unfold effectiveReserveTokens; lia).
  cbv zeta. destruct (positiveSetting (thresholdPercent s)) as [p|].
  - unfold adaptiveEnabled, computeAdaptiveThresholdPercent. destruct (adaptive s) as [a|]; [destruct (a_enabled a)|].
    + by apply percentOf_bounds, adaptivePercent_bounds, clampPercent_bounds.
    + by apply percentOf_bounds, (clampPercent_bounds (Fin p)).
    + by apply percentOf_bounds, (clampPercent_bounds (Fin p)).
  - unfold computeAdaptiveThresholdPercent. destruct (adaptive s) as [a|]; [|exact Hd]. destruct (a_enabled a); [|exact Hd].
    by apply percentOf_bounds, adaptivePercent_bounds, clampPercent_bounds.
Qed.

(** However it is configured, compaction triggers before the context outgrows the window: a prompt as large as the window
    is always over the threshold.  Switched off, it never triggers. *)
Theorem full_context_is_compacted contextTokens cw s maxOut :
  0 < cw -> 1 <= reserveTokens s -> (inject_Z cw <= contextTokens)%Q ->
  shouldCompact contextTokens cw s maxOut = enabled s && negb (bool_decide (strategy s = Some off)).
Proof.
  intros Hc Hr Hx. unfold shouldCompact. destruct (Z.leb_spec cw 0); [lia|]. rewrite orb_false_r.
  destruct (enabled s); cbn [negb andb orb]; [|done]. destruct (bool_decide _); cbn [negb]; [done|].
  apply Qltb_lt. pose proof (threshold_below_window cw s maxOut (Some (Fin contextTokens)) Hc Hr) as Ht.
  assert (inject_Z (cw - 1) < inject_Z cw)%Q by (rewrite <- Zlt_Qlt; lia). lra.
Qed.

Lemma full_context_is_compacted_witness : shouldCompact 200000 200000 DEFAULT_COMPACTION_SETTINGS 64000 = true.
Proof. rewrite full_context_is_compacted; [reflexivity|reflexivity|vm_compute; discriminate|vm_compute; discriminate]. Defined.

(** The automatic threshold is not clamped from below: with a window no larger than the reserve it is not positive, and
    an empty context compacts. *)
Example small_window_always_compacts :
  shouldCompact 0 8192 DEFAULT_COMPACTION_SETTINGS 0 = true /\ shouldCompact 1 131072 DEFAULT_COMPACTION_SETTINGS 131072 = true /\
  shouldCompact 0 8192 (mkSettings true None (Some (Fin 1)) None None None 16384 20000) 0 = false.
Proof. vm_compute. repeat split. Qed.

(** ** The adaptive tracker *)

Record AdaptiveCompactionTracker : Type := mkTracker {
  turnsSinceCompact : Z; callsInWindow : Z; windowStart : Z; lastContextTokens : Z; lastCompactContextTokens : option Z;
  lastCompactTs : option Z; windowMs : Z }.

(** The constructor; [windowMs] falls back to a minute. *)
Definition newTracker (ms now : Z) : AdaptiveCompactionTracker :=
  mkTracker 0 0 now 0 None None (if 0 <? ms then ms else 60000).

Definition setWindowMs (ms now : Z) (t : AdaptiveCompactionTracker) : AdaptiveCompactionTracker :=
  let next := Z.max 1 ms in
  if next =? windowMs t then t
  else mkTracker (turnsSinceCompact t) 0 now (lastContextTokens t) (lastCompactContextTokens t) (lastCompactTs t) next.

Definition resetTracker (now : Z) (t : AdaptiveCompactionTracker) : AdaptiveCompactionTracker := mkTracker 0 0 now 0 None None (windowMs t).

Definition recordCall (contextTokens now : Z) (t : AdaptiveCompactionTracker) : AdaptiveCompactionTracker :=
  let '(start, calls) := if windowMs t <=? now - windowStart t then (now, 0) else (windowStart t, callsInWindow t) in
  mkTracker (turnsSinceCompact t + 1) (calls + 1) start contextTokens (lastCompactContextTokens t) (lastCompactTs t) (windowMs t).

Definition recordCompact (contextTokens now : Z) (t : AdaptiveCompactionTracker) : AdaptiveCompactionTracker :=
  mkTracker 0 0 now contextTokens (Some contextTokens) (Some now) (windowMs t).

Definition decisionState (t : AdaptiveCompactionTracker) : AdaptiveCompactionDecisionState :=
  mkDecision (Fin (inject_Z (turnsSinceCompact t))) (Fin (inject_Z (callsInWindow t))) (Some (Fin (inject_Z (lastContextTokens t)))).

Inductive tracker_op : Type := t_window (ms now : Z) | t_reset (now : Z) | t_call (tokens now : Z) | t_compact (tokens now : Z).
Definition track (t : AdaptiveCompactionTracker) (o : tracker_op) : AdaptiveCompactionTracker :=
  match o with
  | t_window ms now => setWindowMs ms now t
  | t_reset now => resetTracker now t
  | t_call c now => recordCall c now t
  | t_compact c now => recordCompact c now t
  end.

(** The calls of the window are calls since the last compaction, and the window is never empty. *)
Lemma tracker_counts ms now ops :
  let t := foldl track (newTracker ms now) ops in 0 <= callsInWindow t <= turnsSinceCompact t /\ 1 <= windowMs t.
Proof.
  cbn zeta. assert (0 <= callsInWindow (newTracker ms now) <= turnsSinceCompact (newTracker ms now) /\ 1 <= windowMs (newTracker ms now)) as H0
    by (unfold newTracker; destruct (Z.ltb_spec 0 ms); cbn; lia).
  revert H0. generalize (newTracker ms now). induction ops as [|o ops IH]; intros t Ht; [done|]. cbn [foldl]. apply IH.
  destruct o as [m n|n|c n|c n]; cbn [track].
  - unfold setWindowMs. destruct (_ =? _); [done|]. cbn. lia.
  - cbn. lia.
  - unfold recordCall. destruct (windowMs t <=? n - windowStart t); cbn; lia.
  - cbn. lia.
Qed.

(** ** Emergency limits *)

Inductive CompactionTriggerReason : Type := r_heap | r_retainedMemory | r_transcriptFile | r_providerBytes | r_messageCount | r_imageBytes.

Record EmergencyCompactionSample : Type := mkSample {
  heapUsedBytes : Z; providerBytes : Z; messageCount : Z; imageBytes : Z; materializedResidentBytes : option Z;
  tuiChatChildren : option Z; tuiCachedRenderBytes : option Z; transcriptFileBytes : option Z }.

Record EmergencyCompactionLimits : Type := mkLimits {
  l_heapUsedBytes : Z; l_providerBytes : Z; l_messageCount : Z; l_imageBytes : Z; l_retainedMemoryBytes : Z;
  l_retainedMemoryDiagnosticBytes : Z; l_tuiChatChildren : Z; l_tuiChatChildrenDiagnostic : Z; l_transcriptFileBytes : Z }.

Definition MAX_EMERGENCY_HEAP_FLOOR_BYTES : Z := 1536 * 1024 * 1024.
Definition EMERGENCY_RETAINED_MEMORY_BYTES : Z := 128 * 1024 * 1024.
Definition DIAGNOSTIC_RETAINED_MEMORY_BYTES : Z := 64 * 1024 * 1024.
Definition EMERGENCY_TUI_CHAT_CHILDREN : Z := 1000.
Definition DIAGNOSTIC_TUI_CHAT_CHILDREN : Z := 700.
Definition EMERGENCY_TRANSCRIPT_FILE_BYTES : Z := 48 * 1024 * 1024.

(** The limits of a machine; a size that makes no sense does not lower the floor. *)
Definition resolveEmergencyCompactionLimits (totalMemoryBytes : number) : EmergencyCompactionLimits :=
  let heap := match totalMemoryBytes with
              | Fin q => if Qltb 0 q then Z.min MAX_EMERGENCY_HEAP_FLOOR_BYTES (Qfloor ((1 # 2) * q)) else MAX_EMERGENCY_HEAP_FLOOR_BYTES
              | _ => MAX_EMERGENCY_HEAP_FLOOR_BYTES
              end in
  mkLimits heap (24 * 1024 * 1024) 4000 (64 * 1024 * 1024) EMERGENCY_RETAINED_MEMORY_BYTES DIAGNOSTIC_RETAINED_MEMORY_BYTES
    EMERGENCY_TUI_CHAT_CHILDREN DIAGNOSTIC_TUI_CHAT_CHILDREN EMERGENCY_TRANSCRIPT_FILE_BYTES.

(** [emergencyCompactionReason], with the two module flags it writes and the warnings it logs (memory, children). *)
Definition emergencyCompactionReason (flags : bool * bool) (sample : EmergencyCompactionSample) (limits : EmergencyCompactionLimits)
    : (bool * bool) * (bool * bool) * option CompactionTriggerReason :=
  let retained := default 0 (materializedResidentBytes sample) + default 0 (tuiCachedRenderBytes sample) in
  let children := default 0 (tuiChatChildren sample) in
  let retainedDiagnostic := l_retainedMemoryDiagnosticBytes limits <=? retained in
  let childDiagnostic := l_tuiChatChildrenDiagnostic limits <=? children in
  let warned := (retainedDiagnostic && negb flags.1, childDiagnostic && negb flags.2) in
  let reason :=
    if l_heapUsedBytes limits <? heapUsedBytes sample then Some r_heap
    else if (l_retainedMemoryBytes limits <=? retained) || (l_tuiChatChildren limits <=? children) then Some r_retainedMemory
    else if match transcriptFileBytes sample with Some b => negb (b =? 0) && (l_transcriptFileBytes limits <? b) | None => false end then Some r_transcriptFile
    else if l_providerBytes limits <? providerBytes sample then Some r_providerBytes
    else if l_imageBytes limits <? imageBytes sample then Some r_imageBytes
    else if l_messageCount limits <? messageCount sample then Some r_messageCount
    else None in
  ((retainedDiagnostic, childDiagnostic), warned, reason).

(** No emergency exactly when every measure is within its limit; a warning is logged once per crossing. *)
Lemma no_emergency_iff flags sample limits :
  let '(flags', warned, reason) := emergencyCompactionReason flags sample limits in
  (reason = None <->
     heapUsedBytes sample <= l_heapUsedBytes limits /\
     default 0 (materializedResidentBytes sample) + default 0 (tuiCachedRenderBytes sample) < l_retainedMemoryBytes limits /\
     default 0 (tuiChatChildren sample) < l_tuiChatChildren limits /\
     (default 0 (transcriptFileBytes sample) <= l_transcriptFileBytes limits \/ default 0 (transcriptFileBytes sample) = 0) /\
     providerBytes sample <= l_providerBytes limits /\ imageBytes sample <= l_imageBytes limits /\ messageCount sample <= l_messageCount limits) /\
  (emergencyCompactionReason flags' sample limits).1.2 = (false, false).
Proof.
  unfold emergencyCompactionReason. cbv zeta iota beta. split.
  - destruct (transcriptFileBytes sample) as [b|]; cbn [default from_option Datatypes.id];
      repeat (match goal with |- context [if ?c then _ else _] => destruct c eqn:? end); split; intros Hr; try discriminate; try reflexivity; exfalso + idtac; lia.
  - cbn [fst snd]. rewrite !andb_negb_r. done.
Qed.

(** ** Entries of a session *)

Inductive Role : Type :=
| user | assistant | toolResult | bashExecution | hookMessage | branchSummaryRole | compactionSummaryRole | otherRole (r : jstring).
#[global] Instance Role_eq_dec : EqDecision Role.
Proof. solve_decision. Defined.

(** [usage] of an assistant message: total, then input, output and cache reads and writes. *)
Record Usage : Type := mkUsage { totalTokens : Z; u_input : Z; u_output : Z; u_cacheRead : Z; u_cacheWrite : Z }.

(** What the code reads of a message. *)
Class Messages (M : Type) : Type := {
  role : M -> Role;
  (** [countCollectedMessageFragments(collectMessageFragments(message))] *)
  messageTokens : M -> Z;
  (** The usage of an assistant message that was neither aborted nor failed. *)
  assistantUsage : M -> option Usage;
  (** Name and path of the tool calls of the message that have a path, in order. *)
  callPaths : M -> list (jstring * jstring) }.

Record CompactionData : Type := mkCompaction {
  summary : jstring; preserveData : option value; fromExtension : bool; details : option (list jstring * list jstring) }.

(** Custom messages and branch summaries hold the message they contribute. *)
Inductive SessionEntry (M : Type) : Type :=
| e_message (eid : jstring) (m : M)
| e_custom_message (eid : jstring) (m : M)
| e_branch_summary (eid : jstring) (m : M)
| e_compaction (eid : jstring) (c : CompactionData)
| e_other (eid : jstring) (type : jstring).
Arguments e_message {M}. Arguments e_custom_message {M}. Arguments e_branch_summary {M}. Arguments e_compaction {M}. Arguments e_other {M}.

Record CutPointResult : Type := mkCut { firstKeptEntryIndex : Z; turnStartIndex : Z; isSplitTurn : bool }.

Section Cut.
Context {M : Type} `{Messages M}.

Definition entryId (e : SessionEntry M) : jstring :=
  match e with e_message i _ | e_custom_message i _ | e_branch_summary i _ | e_compaction i _ | e_other i _ => i end.

Definition getMessageFromEntry (e : SessionEntry M) : option M :=
  match e with e_message _ m | e_custom_message _ m | e_branch_summary _ m => Some m | _ => None end.

Definition estimateEntryTokens (e : SessionEntry M) : Z :=
  match getMessageFromEntry e with Some m => messageTokens m | None => 0 end.

Definition tokensAt (entries : list (SessionEntry M)) (i : Z) : Z := from_option estimateEntryTokens 0 (arr_at entries i).

Definition estimateEntriesTokens (entries : list (SessionEntry M)) (startIndex endIndex : Z) : Z :=
  foldl (fun total i => total + tokensAt entries i) 0 (zrange startIndex (endIndex - 1)).

(** One round of [findValidCutPoints]. *)
Definition isCutPoint (e : SessionEntry M) : bool :=
  match e with
  | e_message _ m =>
      match role m with
      | bashExecution | hookMessage | branchSummaryRole | compactionSummaryRole | user | assistant => true
      | _ => false
      end
  | e_branch_summary _ _ | e_custom_message _ _ => true
  | _ => false
  end.

Definition entryIs (p : SessionEntry M -> bool) (entries : list (SessionEntry M)) (i : Z) : bool := from_option p false (arr_at entries i).

Definition findValidCutPoints (entries : list (SessionEntry M)) (startIndex endIndex : Z) : list Z :=
  filter (fun i => entryIs isCutPoint entries i = true) (zrange startIndex (endIndex - 1)).

Definition startsTurn (e : SessionEntry M) : bool :=
  match e with
  | e_branch_summary _ _ | e_custom_message _ _ => true
  | e_message _ m => match role m with user | bashExecution => true | _ => false end
  | _ => false
  end.

(** [findTurnStartIndex]: down from [entryIndex], [n] entries left. *)
Fixpoint turnStartLoop (entries : list (SessionEntry M)) (n : nat) (i : Z) : Z :=
  match n with
  | O => -1
  | S n' => if entryIs startsTurn entries i then i else turnStartLoop entries n' (i - 1)
  end.
Definition findTurnStartIndex (entries : list (SessionEntry M)) (entryIndex startIndex : Z) : Z :=
  turnStartLoop entries (Z.to_nat (entryIndex - startIndex + 1)) entryIndex.

(** Where the budget is reached, walking down from the newest entry. *)
Fixpoint budgetLoop (entries : list (SessionEntry M)) (keep : Z) (n : nat) (i acc : Z) : option Z :=
  match n with
  | O => None
  | S n' =>
      let acc := acc + tokensAt entries i in
      if keep <=? acc then Some i else budgetLoop entries keep n' (i - 1) acc
  end.

(** The closest cut point at or after an entry, or the last one. *)
Definition closestCut (cutPoints : list Z) (i : Z) : Z :=
  match find (fun c => i <=? c) cutPoints with Some c => c | None => default 0 (last cutPoints) end.

(** Entries that are no messages and lie directly before the cut are kept with it. *)
Definition isPlain (e : SessionEntry M) : bool := match e with e_compaction _ _ | e_message _ _ => false | _ => true end.
Fixpoint scanBack (entries : list (SessionEntry M)) (n : nat) (cut : Z) : Z :=
  match n with
  | O => cut
  | S n' => if entryIs isPlain entries (cut - 1) then scanBack entries n' (cut - 1) else cut
  end.

Definition isUserMessage (e : SessionEntry M) : bool := match e with e_message _ m => bool_decide (role m = user) | _ => false end.

(** The cut before entries without messages are added. *)
Definition cutBefore (entries : list (SessionEntry M)) (cutPoints : list Z) (startIndex endIndex keep : Z) : Z :=
  match budgetLoop entries keep (Z.to_nat (endIndex - startIndex)) (endIndex - 1) 0 with
  | Some i => closestCut cutPoints i
  | None => default 0 (head cutPoints)
  end.

Definition findCutPoint (entries : list (SessionEntry M)) (startIndex endIndex keep : Z) : CutPointResult :=
  let cutPoints := findValidCutPoints entries startIndex endIndex in
  match cutPoints with
  | [] => mkCut startIndex (-1) false
  | _ =>
      let cut := cutBefore entries cutPoints startIndex endIndex keep in
      let cut := scanBack entries (Z.to_nat (cut - startIndex)) cut in
      let isUser := entryIs isUserMessage entries cut in
      let start := if isUser then -1 else findTurnStartIndex entries cut startIndex in
      mkCut cut start (negb isUser && negb (start =? -1))
  end.

(** ** The cut point *)

Lemma entryIs_Some p entries i : entryIs p entries i = true <-> exists e, arr_at entries i = Some e /\ p e = true.
Proof. unfold entryIs. destruct (arr_at entries i) as [e|]; cbn; split; [by exists e|by intros (? & [= <-] & ?)|done|by intros (? & ? & _)]. Qed.

Lemma elem_cutPoints entries s e i :
  i ∈ findValidCutPoints entries s e <-> s <= i < e /\ entryIs isCutPoint entries i = true.
Proof. unfold findValidCutPoints. rewrite list_elem_of_filter, elem_of_zrange. intuition lia. Qed.

(** The tokens from an entry to the end. *)
Definition suffixTokens (entries : list (SessionEntry M)) (k endIndex : Z) : Z :=
  foldr (fun i acc => acc + tokensAt entries i) 0 (zrange k (endIndex - 1)).

Lemma suffix_step entries k e : k < e -> suffixTokens entries k e = suffixTokens entries (k + 1) e + tokensAt entries k.
Proof.
  intros Hk. unfold suffixTokens, zrange. replace (Z.to_nat (e - 1 - k + 1)) with (S (Z.to_nat (e - 1 - (k + 1) + 1))) by lia.
  by rewrite zseq_S.
Qed.

Lemma suffix_end entries k e : e <= k -> suffixTokens entries k e = 0.
Proof. intros Hk. unfold suffixTokens, zrange. by replace (Z.to_nat (e - 1 - k + 1)) with 0%nat by lia. Qed.

Lemma budgetLoop_spec entries keep s e n i :
  s <= e -> i + 1 <= e -> Z.of_nat n = i + 1 - s ->
  match budgetLoop entries keep n i (suffixTokens entries (i + 1) e) with
  | Some b => s <= b <= i /\ keep <= suffixTokens entries b e /\ forall k, b < k <= i -> suffixTokens entries k e < keep
  | None => forall k, s <= k <= i -> suffixTokens entries k e < keep
  end.
Proof.
  intros Hs. revert i. induction n as [|n IH]; intros i Hi Hn; cbn [budgetLoop]; [intros k Hk; lia|]. cbn zeta.
  rewrite <- suffix_step by lia. destruct (Z.leb_spec keep (suffixTokens entries i e)) as [Hk|Hk]; [split; [lia|]; split; [done|intros k Hk'; lia]|].
  specialize (IH (i - 1) ltac:(lia) ltac:(lia)). replace (i - 1 + 1) with i in IH by lia.
  destruct (budgetLoop entries keep n (i - 1) (suffixTokens entries i e)) as [b|].
  - destruct IH as (I1 & I2 & I3). split; [lia|]. split; [done|]. intros k Hk'. destruct (decide (k = i)) as [->|]; [done|]. apply I3. lia.
  - intros k Hk'. destruct (decide (k = i)) as [->|]; [done|]. apply IH. lia.
Qed.

Lemma cutPoints_sorted entries s e : StronglySorted Z.lt (findValidCutPoints entries s e).
Proof. apply StronglySorted_filter, zrange_sorted. Qed.

Lemma sorted_split (l1 l2 : list Z) c x : StronglySorted Z.lt (l1 ++ c :: l2) -> x ∈ l1 ++ c :: l2 -> (x < c <-> x ∈ l1).
Proof.
  intros Hs Hx. apply StronglySorted_app in Hs as (H1 & H2 & H3). apply StronglySorted_cons in H3 as [H3 _]. rewrite Forall_forall in H3.
  split; [|intros Hl; apply H1; [done|set_solver]]. intros Hlt. apply elem_of_app in Hx as [?|Hx]; [done|]. apply elem_of_cons in Hx as [->|Hx]; [lia|]. specialize (H3 _ Hx). lia.
Qed.

Lemma closestCut_spec l i :
  l ≠ [] -> StronglySorted Z.lt l ->
  closestCut l i ∈ l /\ (forall c, c ∈ l -> c < closestCut l i -> c < i) /\ (closestCut l i < i -> forall c, c ∈ l -> c <= closestCut l i).
Proof.
  intros Hne Hs. unfold closestCut. destruct (find (fun c => i <=? c) l) as [c|] eqn:Ef.
  - apply find_some in Ef as Ef'. destruct Ef' as [Hin%list_elem_of_In Hle].
    split; [done|]. split; [|lia]. intros x Hx Hlt. destruct (Z.ltb_spec x i) as [|Hge]; [done|]. exfalso.
    clear Hne Hin Hle. revert Ef Hs Hx. induction l as [|y l IH]; intros Ef Hs Hx; [done|]. cbn in Ef.
    apply StronglySorted_cons in Hs as [Hf Hs]. rewrite Forall_forall in Hf. destruct (Z.leb_spec i y).
    + injection Ef as ->. apply elem_of_cons in Hx as [->|Hx]; [lia|]. specialize (Hf _ Hx). lia.
    + apply elem_of_cons in Hx as [->|Hx]; [lia|]. by apply IH.
  - destruct (last l) as [c|] eqn:El; [|by apply last_None in El]. cbn. apply last_Some in El as [l' ->].
    assert (forall x, x ∈ l' ++ [c] -> x < i) as Hall.
    { intros x Hx. apply find_none with (x := x) in Ef; [lia|by apply list_elem_of_In]. }
    split; [set_solver|]. split; [intros x Hx _; by apply Hall|]. intros _ x Hx. apply elem_of_app in Hx as [Hx|Hx]; [|apply list_elem_of_singleton in Hx as ->; lia].
    apply StronglySorted_app in Hs as (H1 & _ & _). specialize (H1 x c Hx ltac:(set_solver)). lia.
Qed.

Context (tokens_nonneg : forall m, 0 <= messageTokens m).

Lemma tokensAt_nonneg entries i : 0 <= tokensAt entries i.
Proof.
  unfold tokensAt. destruct (arr_at entries i) as [e|]; cbn; [|lia]. unfold estimateEntryTokens. destruct (getMessageFromEntry e); [apply tokens_nonneg|lia].
Qed.

Lemma suffix_mono entries j k e : j <= k -> suffixTokens entries k e <= suffixTokens entries j e.
Proof.
  intros Hjk. remember (Z.to_nat (k - j)) as n eqn:En. revert j Hjk En. induction n as [|n IH]; intros j Hjk En; [by replace j with k by lia|].
  destruct (Z.lt_ge_cases j e) as [Hl|Hg].
  - rewrite (suffix_step entries j) by done. specialize (IH (j + 1) ltac:(lia) ltac:(lia)). pose proof (tokensAt_nonneg entries j). lia.
  - by rewrite !suffix_end by lia.
Qed.

Lemma cutBefore_spec entries s e keep :
  let l := findValidCutPoints entries s e in let c := cutBefore entries l s e keep in
  l ≠ [] -> s <= e ->
  c ∈ l /\ (forall c', c' ∈ l -> c < c' -> suffixTokens entries c' e < keep) /\ (forall c', c' ∈ l -> c' < c -> keep <= suffixTokens entries c' e).
Proof.
  cbn zeta. set (l := findValidCutPoints entries s e). intros Hne Hse.
  assert (forall c, c ∈ l -> s <= c < e) as Hr by (intros c Hc; by apply elem_cutPoints in Hc as [? _]).
  pose proof (cutPoints_sorted entries s e) as Hsort. fold l in Hsort. unfold cutBefore.
  pose proof (budgetLoop_spec entries keep s e (Z.to_nat (e - s)) (e - 1) Hse ltac:(lia) ltac:(lia)) as B.
  rewrite suffix_end in B by lia. destruct (budgetLoop entries keep (Z.to_nat (e - s)) (e - 1) 0) as [b|].
  - destruct B as (B1 & B2 & B3). destruct (closestCut_spec l b Hne Hsort) as (C1 & C2 & C3). split; [done|]. split.
    + intros c' Hc' Hlt. destruct (Z.lt_ge_cases (closestCut l b) b) as [Hb|Hb]; [specialize (C3 Hb c' Hc'); lia|].
      apply B3. specialize (Hr _ Hc'). lia.
    + intros c' Hc' Hlt. specialize (C2 c' Hc' Hlt). pose proof (suffix_mono entries c' b e ltac:(lia)). lia.
  - destruct l as [|c l'] eqn:El; [done|]. cbn [head default from_option Datatypes.id]. split; [set_solver|]. split.
    + intros c' Hc' _. apply B. specialize (Hr _ Hc'). lia.
    + intros c' Hc' Hlt. exfalso. change (c :: l') with ([] ++ c :: l') in *. apply (sorted_split [] l' c c' Hsort Hc') in Hlt. by apply elem_of_nil in Hlt.
Qed.

Lemma scanBack_spec entries s n cut :
  Z.of_nat n = cut - s ->
  let r := scanBack entries n cut in
  s <= r <= cut /\ (forall j, r <= j < cut -> entryIs isPlain entries j = true).
Proof.
  revert cut. induction n as [|n IH]; intros cut Hn; cbn [scanBack]; cbn zeta; [split; [lia|intros j Hj; lia]|].
  destruct (entryIs isPlain entries (cut - 1)) eqn:E; [|split; [lia|intros j Hj; lia]].
  destruct (IH (cut - 1) ltac:(lia)) as [I1 I2]. split; [lia|]. intros j Hj. destruct (decide (j = cut - 1)) as [->|]; [done|]. apply I2. lia.
Qed.

Lemma turnStart_spec entries s n i :
  0 <= s -> Z.of_nat n = i + 1 - s ->
  let r := turnStartLoop entries n i in r = -1 \/ (s <= r <= i /\ entryIs startsTurn entries r = true).
Proof.
  intros Hs. revert i. induction n as [|n IH]; intros i Hn; cbn [turnStartLoop]; cbn zeta; [by left|].
  destruct (entryIs startsTurn entries i) eqn:E; [right; split; [lia|done]|].
  destruct (IH (i - 1) ltac:(lia)) as [?|[? ?]]; [by left|right; split; [lia|done]].
Qed.

(** The shape of a result when there is a cut point. *)
Lemma findCutPoint_shape entries s e keep :
  0 <= s <= e -> findValidCutPoints entries s e ≠ [] ->
  let l := findValidCutPoints entries s e in let r := findCutPoint entries s e keep in let c := cutBefore entries l s e keep in
  s <= firstKeptEntryIndex r <= c /\ c ∈ l /\ (forall j, firstKeptEntryIndex r <= j < c -> entryIs isPlain entries j = true) /\
  (isSplitTurn r = true -> s <= turnStartIndex r <= firstKeptEntryIndex r /\ entryIs startsTurn entries (turnStartIndex r) = true).
Proof.
  intros Hs Hne. cbn zeta. destruct (cutBefore_spec entries s e keep Hne ltac:(lia)) as (C1 & _ & _).
  unfold findCutPoint. destruct (findValidCutPoints entries s e) as [|x l] eqn:El; [done|]. cbv zeta.
  set (c := cutBefore entries (x :: l) s e keep) in *.
  assert (s <= c < e) as Hc by (rewrite <- El in C1; by apply elem_cutPoints in C1 as [? _]).
  destruct (scanBack_spec entries s (Z.to_nat (c - s)) c ltac:(lia)) as [S1 S2]. set (r := scanBack entries (Z.to_nat (c - s)) c) in *.
  cbn [firstKeptEntryIndex turnStartIndex isSplitTurn]. do 3 (split; [done|]). intros Hsp. apply andb_true_iff in Hsp as [Hu Ht].
  destruct (entryIs isUserMessage entries r); [done|]. apply negb_true_iff, Z.eqb_neq in Ht.
  destruct (turnStart_spec entries s (Z.to_nat (r - s + 1)) r ltac:(lia) ltac:(lia)) as [E|E]; [contradiction|exact E].
Qed.

(** The kept suffix starts at the cut point the budget asks for, with the entries without messages before it: keeping from
    any later cut point would keep less than the budget, and from any earlier one at least the budget. *)
Theorem cut_keeps_the_budget entries s e keep :
  0 <= s <= e -> findValidCutPoints entries s e ≠ [] ->
  let r := findCutPoint entries s e keep in
  exists c, c ∈ findValidCutPoints entries s e /\ s <= firstKeptEntryIndex r <= c /\
  (forall j, firstKeptEntryIndex r <= j < c -> entryIs isPlain entries j = true) /\
  (forall c', c' ∈ findValidCutPoints entries s e -> c < c' -> suffixTokens entries c' e < keep) /\
  (forall c', c' ∈ findValidCutPoints entries s e -> c' < c -> keep <= suffixTokens entries c' e).
Proof.
  intros Hs Hne. cbn zeta. destruct (findCutPoint_shape entries s e keep Hs Hne) as (F1 & F2 & F3 & _).
  destruct (cutBefore_spec entries s e keep Hne ltac:(lia)) as (_ & C2 & C3). eexists. split; [exact F2|]. done.
Qed.


(** ** Preparing a compaction *)

Record FileOperations : Type := mkFileOps { f_read : list jstring; f_written : list jstring; f_edited : list jstring }.

Definition extractFileOpsFromMessage (ops : FileOperations) (m : M) : FileOperations :=
  if negb (bool_decide (role m = assistant)) then ops
  else foldl (fun ops '(name, path) =>
    if bool_decide (path = []) then ops
    else if bool_decide (name = js "read") then mkFileOps (s_add (f_read ops) path) (f_written ops) (f_edited ops)
    else if bool_decide (name = js "write") then mkFileOps (f_read ops) (s_add (f_written ops) path) (f_edited ops)
    else if bool_decide (name = js "edit") then mkFileOps (f_read ops) (f_written ops) (s_add (f_edited ops) path)
    else ops) ops (callPaths m).

Definition extractFileOperations (messages : list M) (prev : option CompactionData) : FileOperations :=
  let ops :=
    match prev with
    | Some c =>
        match fromExtension c, details c with
        | false, Some (r, w) => mkFileOps (foldl s_add [] r) [] (foldl s_add [] w)
        | _, _ => mkFileOps [] [] []
        end
    | None => mkFileOps [] [] []
    end in
  foldl extractFileOpsFromMessage ops messages.

(** Files only read, and files written or edited. *)
Definition computeFileLists (ops : FileOperations) : list jstring * list jstring :=
  let modified := foldl s_add [] (f_edited ops ++ f_written ops) in
  (sort_by compareUnits (filter (fun f => f ∉ modified) (f_read ops)), sort_by compareUnits modified).

Definition calculateContextTokens (u : Usage) : Z :=
  if totalTokens u =? 0 then u_input u + u_output u + u_cacheRead u + u_cacheWrite u else totalTokens u.

Definition getLastAssistantUsage (entries : list (SessionEntry M)) : option Usage :=
  foldl (fun found e => match e with e_message _ m => match assistantUsage m with Some u => Some u | None => found end | _ => found end) None entries.

(** The last compaction entry: its index and data. *)
Fixpoint lastCompaction (entries : list (SessionEntry M)) (i : Z) : option (Z * CompactionData) :=
  match entries with
  | [] => None
  | e :: rest =>
      match lastCompaction rest (i + 1) with
      | Some x => Some x
      | None => match e with e_compaction _ c => Some (i, c) | _ => None end
      end
  end.

Definition TOKEN_CORRECTION_MIN_RATIO : Q := 1 # 2.
Definition TOKEN_CORRECTION_MAX_RATIO : Q := 2.

Definition resolveThresholdSafeKeepRecentTokens (contextWindow : Z) (s : CompactionSettings) : Q :=
  let threshold := resolveThresholdTokens contextWindow s 0 None in
  let reserve := inject_Z (effectiveReserveTokens contextWindow s 0) in
  let headroom := if isDefaultAutoThresholdCeilingApplied contextWindow s
                  then Qmin reserve (inject_Z (Qfloor (threshold * (1 # 2)))) else reserve in
  Qmax 1 (threshold - headroom).

(** The budget [findCutPoint] gets, and the ratio that corrects it.  Under the default ceiling the threshold is an integer. *)
Definition keepBudget (s : CompactionSettings) (historyTokens : Z) (contextWindow : option Z) (rawRatio : option number) : Q * Z :=
  let configured := inject_Z (keepRecentTokens s) in
  let ceiling := match contextWindow with Some cw => isDefaultAutoThresholdCeilingApplied cw s | None => false end in
  let safe := match contextWindow with
              | Some cw => if 1 <? cw then resolveThresholdSafeKeepRecentTokens cw s else configured
              | None => configured
              end in
  let keep := Qmin configured safe in
  let scaled := match contextWindow with
                | Some cw => if 66000 <=? cw then Qmin safe (Qmax keep (inject_Z (Qfloor (inject_Z cw * (3 # 10))))) else keep
                | None => keep
                end in
  let ratio := match positiveSetting rawRatio with
               | Some q => Qmin TOKEN_CORRECTION_MAX_RATIO (Qmax TOKEN_CORRECTION_MIN_RATIO q)
               | None => 1%Q
               end in
  let floor := if ceiling then keep else configured in
  let history := inject_Z historyTokens in
  let effective := if Qltb history floor then floor
                   else if Qltb keep scaled && Qltb history scaled then keep else scaled in
  let corrected := Z.max 1 (Qround (effective / ratio)) in
  (ratio, match contextWindow with
          | Some cw => if ceiling then Z.min corrected (Qfloor (resolveThresholdTokens cw s 0 None) - 1) else corrected
          | None => corrected
          end).

Record CompactionPreparation : Type := mkPreparation {
  firstKeptEntryId : jstring; messagesToSummarize : list M; turnPrefixMessages : list M; recentMessages : list M;
  p_isSplitTurn : bool; tokensBefore : Z; previousSummary : option jstring; previousPreserveData : option value;
  fileOps : FileOperations; tokenCorrection : Q * Z }.

Definition messagesIn (entries : list (SessionEntry M)) (a b : Z) : list M :=
  omap (fun i => arr_at entries i ≫= getMessageFromEntry) (zrange a (b - 1)).

Definition isCompaction (e : SessionEntry M) : bool := match e with e_compaction _ _ => true | _ => false end.

Definition prepareCompaction (entries : list (SessionEntry M)) (s : CompactionSettings) (ratio : option number) (contextWindow : option Z)
    : option CompactionPreparation :=
  if from_option isCompaction false (last entries) then None
  else
    let prev := lastCompaction entries 0 in
    let boundaryStart := from_option (fun p => fst p + 1) 0 prev in
    let boundaryEnd := zlength entries in
    let before := from_option calculateContextTokens 0 (getLastAssistantUsage entries) in
    let history := estimateEntriesTokens entries boundaryStart boundaryEnd in
    let correction := keepBudget s history contextWindow ratio in
    let cut := findCutPoint entries boundaryStart boundaryEnd correction.2 in
    first ← arr_at entries (firstKeptEntryIndex cut);
    if bool_decide (entryId first = []) then None
    else
      let historyEnd := if isSplitTurn cut then turnStartIndex cut else firstKeptEntryIndex cut in
      let toSummarize := messagesIn entries boundaryStart historyEnd in
      let prefix := if isSplitTurn cut then messagesIn entries (turnStartIndex cut) (firstKeptEntryIndex cut) else [] in
      let recent := messagesIn entries (firstKeptEntryIndex cut) boundaryEnd in
      if (zlength toSummarize =? 0) && (zlength prefix =? 0) then None
      else
        let ops := extractFileOperations toSummarize (snd <$> prev) in
        let ops := if isSplitTurn cut then foldl extractFileOpsFromMessage ops prefix else ops in
        Some (mkPreparation (entryId first) toSummarize prefix recent (isSplitTurn cut) before
                (summary <$> (snd <$> prev)) ((snd <$> prev) ≫= preserveData) ops correction).

Lemma zrange_app a b c : a <= b <= c -> zrange a (b - 1) ++ zrange b (c - 1) = zrange a (c - 1).
Proof.
  intros Hab. unfold zrange. replace (Z.to_nat (c - 1 - a + 1)) with (Z.to_nat (b - 1 - a + 1) + Z.to_nat (c - 1 - b + 1))%nat by lia.
  rewrite zseq_app. do 2 f_equal. lia.
Qed.

Lemma messagesIn_app entries a b c : a <= b <= c -> messagesIn entries a b ++ messagesIn entries b c = messagesIn entries a c.
Proof. intros Hab. unfold messagesIn. by rewrite <- omap_app, zrange_app. Qed.

Lemma messagesIn_suffix pre post :
  messagesIn (pre ++ post) (zlength pre) (zlength (pre ++ post)) = omap getMessageFromEntry post.
Proof.
  revert pre. induction post as [|e post IH]; intros pre; unfold messagesIn, zrange.
  - rewrite app_nil_r. by replace (Z.to_nat (zlength pre - 1 - zlength pre + 1)) with 0%nat by lia.
  - rewrite zlength_app. replace (Z.to_nat (zlength pre + zlength (e :: post) - 1 - zlength pre + 1)) with (S (length post)) by (unfold zlength; cbn; lia).
    rewrite zseq_S. specialize (IH (pre ++ [e])). rewrite <- app_assoc in IH. cbn [app] in IH. unfold messagesIn, zrange in IH.
    rewrite !zlength_app in IH. replace (Z.to_nat (zlength pre + zlength (e :: post) - 1 - (zlength pre + zlength [e]) + 1)) with (length post) in IH by (unfold zlength; cbn; lia).
    change (zlength [e]) with 1 in IH. unfold omap at 1. cbn [list_omap]. fold (@omap list _ Z M).
    assert (arr_at (pre ++ e :: post) (zlength pre) = Some e) as ->.
    { unfold arr_at, zlength. destruct (Z.ltb_spec (Z.of_nat (length pre)) 0); [lia|]. rewrite Nat2Z.id. apply list_lookup_middle. done. }
    cbn [mbind option_bind]. destruct (getMessageFromEntry e) as [m|] eqn:Em.
    + transitivity (m :: omap (fun i => arr_at (pre ++ e :: post) i ≫= getMessageFromEntry) (zseq (zlength pre + 1) (length post))); [done|].
      rewrite IH. unfold omap at 2. cbn [list_omap]. by rewrite Em.
    + transitivity (omap (fun i => arr_at (pre ++ e :: post) i ≫= getMessageFromEntry) (zseq (zlength pre + 1) (length post))); [done|].
      rewrite IH. unfold omap at 2. cbn [list_omap]. by rewrite Em.
Qed.

Lemma lastCompaction_app pre post i :
  Forall (fun e => isCompaction e = false) post -> lastCompaction (pre ++ post) i = lastCompaction pre i.
Proof.
  intros Hp. revert i. induction pre as [|e pre IH]; intros i; cbn [app lastCompaction]; [|by rewrite IH].
  revert i. induction Hp as [|e post He _ IH]; intros i; cbn [lastCompaction]; [done|]. rewrite IH. by destruct e.
Qed.

Lemma lastCompaction_snoc pre c i : isCompaction c = true -> exists d, lastCompaction (pre ++ [c]) i = Some (i + zlength pre, d).
Proof.
  intros Hc. revert i. induction pre as [|e pre IH]; intros i; cbn [app lastCompaction].
  - destruct c; try done. eexists. do 2 f_equal. unfold zlength. cbn. lia.
  - destruct (IH (i + 1)) as [d ->]. exists d. do 2 f_equal. unfold zlength. cbn. lia.
Qed.

(** Where a session stands: everything up to its last compaction, and what came after. *)
Definition since_compaction (entries pre post : list (SessionEntry M)) : Prop :=
  entries = pre ++ post /\ Forall (fun e => isCompaction e = false) post /\ (pre = [] \/ exists c, last pre = Some c /\ isCompaction c = true).

Lemma boundaryStart_spec entries pre post :
  since_compaction entries pre post -> from_option (fun p => fst p + 1) 0 (lastCompaction entries 0) = zlength pre.
Proof.
  intros (-> & Hp & Hpre). rewrite lastCompaction_app by done. destruct Hpre as [->|(c & Hl & Hc)]; [done|].
  apply last_Some in Hl as [pre' ->]. destruct (lastCompaction_snoc pre' c 0 Hc) as [d ->]. cbn. rewrite zlength_app. change (zlength [c]) with 1. lia.
Qed.

Lemma findCutPoint_ordered entries s e keep :
  0 <= s <= e ->
  let r := findCutPoint entries s e keep in
  s <= firstKeptEntryIndex r <= e /\ (isSplitTurn r = true -> s <= turnStartIndex r <= firstKeptEntryIndex r).
Proof.
  intros Hs. cbn zeta. destruct (decide (findValidCutPoints entries s e = [])) as [E|Hne].
  - unfold findCutPoint. rewrite E. cbn. lia.
  - destruct (findCutPoint_shape entries s e keep Hs Hne) as (F1 & F2 & _ & F4). apply elem_cutPoints in F2 as [F2 _].
    split; [lia|]. intros Hsp. by apply F4.
Qed.

(** C27: A preparation splits the messages since the last compaction into those to summarise, the start of a split turn and those
    to keep, in order and without losing or repeating any; something is summarised. *)
Theorem preparation_loses_no_message entries pre post s ratio cw p :
  since_compaction entries pre post -> prepareCompaction entries s ratio cw = Some p ->
  messagesToSummarize p ++ turnPrefixMessages p ++ recentMessages p = omap getMessageFromEntry post /\
  messagesToSummarize p ++ turnPrefixMessages p ≠ [] /\ firstKeptEntryId p ≠ [] /\
  (p_isSplitTurn p = false -> turnPrefixMessages p = []).
Proof.
  intros Hsince Hp. unfold prepareCompaction in Hp. destruct (from_option isCompaction false (last entries)); [done|].
  rewrite (boundaryStart_spec _ _ _ Hsince) in Hp. destruct Hsince as (-> & _). cbv zeta in Hp.
  set (k := snd (keepBudget _ _ _ _)) in Hp.
  pose proof (findCutPoint_ordered (pre ++ post) (zlength pre) (zlength (pre ++ post)) k) as Hord.
  rewrite zlength_app in Hord at 1. specialize (Hord ltac:(pose proof (zlength_nonneg pre); pose proof (zlength_nonneg post); lia)). cbv zeta in Hord.
  set (cut := findCutPoint _ _ _ k) in Hp, Hord. destruct Hord as [O1 O2].
  apply bind_Some in Hp as (first & _ & Hp). case_bool_decide as Hid; [done|].
  destruct (_ && _) eqn:Hz in Hp; [done|]. injection Hp as <-. cbn [messagesToSummarize turnPrefixMessages recentMessages firstKeptEntryId p_isSplitTurn].
  rewrite <- (messagesIn_suffix pre post). destruct (isSplitTurn cut).
  - specialize (O2 eq_refl). split; [by rewrite app_assoc, messagesIn_app, messagesIn_app by lia|]. split; [|done].
    intros E. apply app_eq_nil in E as [E1 E2]. rewrite E1, E2 in Hz. done.
  - split; [cbn [app]; by rewrite messagesIn_app by lia|]. rewrite app_nil_r. split; [|done]. intros E. rewrite E in Hz. done.
Qed.

(** The messages that are kept are those of the entries from the first kept one on. *)
Lemma preparation_keeps_a_suffix entries s ratio cw p :
  prepareCompaction entries s ratio cw = Some p ->
  exists pre x post, entries = pre ++ x :: post /\ firstKeptEntryId p = entryId x /\ recentMessages p = omap getMessageFromEntry (x :: post).
Proof.
  intros Hp. unfold prepareCompaction in Hp. destruct (from_option isCompaction false (last entries)); [done|]. cbv zeta in Hp.
  set (cut := findCutPoint _ _ _ _) in Hp. apply bind_Some in Hp as (x & Hx & Hp). case_bool_decide as Hid; [done|].
  destruct (_ && _) in Hp; [done|]. injection Hp as <-. cbn [firstKeptEntryId recentMessages].
  unfold arr_at in Hx. destruct (Z.ltb_spec (firstKeptEntryIndex cut) 0) as [|Hpos]; [done|].
  exists (take (Z.to_nat (firstKeptEntryIndex cut)) entries), x, (drop (S (Z.to_nat (firstKeptEntryIndex cut))) entries).
  rewrite take_drop_middle by done. split; [done|]. split; [done|]. rewrite <- (messagesIn_suffix (take (Z.to_nat (firstKeptEntryIndex cut)) entries)), take_drop_middle by done. f_equal.
  unfold zlength. rewrite length_take_le; [lia|]. apply lookup_lt_Some in Hx. lia.
Qed.

End Cut.

(** The corrected budget keeps at least one token, trusts the correction by at most a factor of two, and stays below the
    default ceiling that triggers the next compaction. *)
Theorem keep_budget_bounds s history cw ratio :
  let '(r, k) := keepBudget s history cw ratio in
  (1 # 2 <= r <= 2)%Q /\ 1 <= k /\
  match cw with Some w => isDefaultAutoThresholdCeilingApplied w s = true -> (inject_Z k < resolveThresholdTokens w s 0 None)%Q | None => True end.
Proof.
  unfold keepBudget. set (ef := if Qltb _ _ then _ else _). set (r := match positiveSetting ratio with Some _ => _ | None => _ end).
  assert (1 # 2 <= r <= 2)%Q as Hr.
  { subst r. destruct (positiveSetting ratio) as [q|]; [|split; lra]. unfold TOKEN_CORRECTION_MAX_RATIO, TOKEN_CORRECTION_MIN_RATIO.
    split; [|apply Q.le_min_l]. apply Q.min_glb; [lra|apply Q.le_max_l]. }
  split; [done|]. destruct cw as [w|]; [|split; [lia|done]].
  destruct (isDefaultAutoThresholdCeilingApplied w s) eqn:Ec; [|split; [lia|done]].
  assert (resolveThresholdTokens w s 0 None = inject_Z 300000) as ->.
  { unfold isDefaultAutoThresholdCeilingApplied in Ec. unfold resolveThresholdTokens.
    destruct (positiveSetting (thresholdTokens s)); [done|]. destruct (positiveSetting (thresholdPercent s)); [done|].
    unfold adaptiveEnabled in Ec. destruct (adaptive s) as [a|]; [destruct (a_enabled a); [done|]|].
    all: unfold DEFAULT_AUTO_THRESHOLD_CEILING_TOKENS in *; f_equal; lia. }
  rewrite Qfloor_Z. split; [lia|]. intros _. rewrite <- Zlt_Qlt. lia.
Qed.

(** ** Sessions *)

(** Messages that are a role and a size. *)
#[local] Instance demoMessages : Messages (Role * Z) := {|
  role := fst; messageTokens := fun m => Z.max 0 m.2; assistantUsage := fun _ => None; callPaths := fun _ => [] |}.

Definition msg (r : Role) (n : Z) : SessionEntry (Role * Z) := e_message (js "id") (r, n).

Definition demoSession : list (SessionEntry (Role * Z)) :=
  [msg user 10; msg assistant 10; msg toolResult 40; msg assistant 10; msg user 10; msg assistant 10].

Lemma demo_nonneg (m : Role * Z) : 0 <= messageTokens m.
Proof. cbn. lia. Qed.

Lemma cut_keeps_the_budget_witness :
  firstKeptEntryIndex (findCutPoint demoSession 0 6 25) = 3 /\
  exists c, c ∈ findValidCutPoints demoSession 0 6 /\ 0 <= 3 <= c /\ forall c', c' ∈ findValidCutPoints demoSession 0 6 -> c < c' -> suffixTokens demoSession c' 6 < 25.
Proof.
  split; [vm_compute; reflexivity|].
  destruct (cut_keeps_the_budget demo_nonneg demoSession 0 6 25) as (c & C1 & C2 & _ & C3 & _); [lia|vm_compute; discriminate|].
  exists c. split; [exact C1|]. split; [exact C2|exact C3].
Defined.


Lemma preparation_loses_no_message_witness :
  exists p, prepareCompaction demoSession (mkSettings true None None None None None 0 25) None None = Some p /\
  messagesToSummarize p ++ turnPrefixMessages p ++ recentMessages p = omap getMessageFromEntry demoSession.
Proof.
  destruct (prepareCompaction demoSession (mkSettings true None None None None None 0 25) None None) as [p|] eqn:E; [|vm_compute in E; discriminate E].
  exists p. split; [reflexivity|].
  apply (preparation_loses_no_message demo_nonneg demoSession [] demoSession (mkSettings true None None None None None 0 25) None None p); [|exact E].
  split; [reflexivity|]. split; [repeat constructor|]. left. reflexivity.
Defined.

(** A settings entry before the user message of the cut makes the cut look like a split of the turn before it, which is
    complete: its messages become the prefix of a turn they do not belong to. *)
Example settings_entry_fakes_a_split :
  let turn1 := [msg user 10; msg assistant 10] in let turn2 := [msg user 10; msg assistant 10] in
  findCutPoint (turn1 ++ turn2) 0 4 20 = mkCut 2 (-1) false /\
  findCutPoint (turn1 ++ [e_other (js "id") (js "model_change")] ++ turn2) 0 5 20 = mkCut 2 0 true.
Proof. vm_compute. repeat split. Qed.

(** Custom messages before the cut count as entries without messages: they are kept whatever their size. *)
Example custom_messages_break_the_budget :
  let entries := [msg user 10; msg assistant 10; e_custom_message (js "id") (user, 5000); msg user 10; msg assistant 10] in
  let cut := firstKeptEntryIndex (findCutPoint entries 0 5 20) in
  cut = 2 /\ suffixTokens entries cut 5 = 5020 /\ suffixTokens entries 3 5 = 20.
Proof. vm_compute. repeat split. Qed.
