(* ===== verification/SessionTree.v ===== *)
(** * The session tree (packages/coding-agent/src/session/session-manager.ts)

    A session is an append-only list of entries that form a tree by [parentId]; the manager keeps an index of them, the
    labels and the leaf, the entry that the next one becomes a child of.  Modelled for a session whose entries are all
    resident: [#resolveEntry] reads the index.  Timestamps are instants, the messages of the conversation are a
    parameter, and the outcome of writing an entry to the session file is an argument. *)
From S2P Require Import Prelude JsString JsNumber JsMap JsValue Compaction.
From Stdlib Require Import ZifyBool.
Open Scope Z_scope.

(** ** Entries *)

(** [AgentMessage]: what a provider or a user said, or a message the session made. *)
Inductive AgentMessage (R : Type) : Type :=
| am_raw (r : R)
| am_custom (customType : jstring) (content : value) (display : bool) (details : value) (attribution : option jstring) (timestamp : Z)
| am_branchSummary (summary fromId : jstring) (timestamp : Z)
| am_compactionSummary (summary : jstring) (shortSummary : option jstring) (tokensBefore : Z)
    (providerPayload : option (jstring * list value)) (timestamp : Z).
Arguments am_raw {R}. Arguments am_custom {R}. Arguments am_branchSummary {R}. Arguments am_compactionSummary {R}.

Record CompactionEntry : Type := mkCompactionEntry {
  c_summary : jstring; c_shortSummary : option jstring; c_firstKeptEntryId : jstring; c_tokensBefore : Z;
  c_details : option (list jstring * list jstring); c_fromExtension : bool; c_preserveData : option value }.

Record TtsrInjectionRecord : Type := mkTtsr { ttsr_name : jstring; lastInjectedAt : Z }.

Inductive Payload (R : Type) : Type :=
| p_message (m : AgentMessage R)
| p_custom_message (customType : jstring) (content : value) (display : bool) (details : value) (attribution : option jstring)
| p_branch_summary (fromId summary : jstring)
| p_compaction (c : CompactionEntry)
| p_thinking_level_change (thinkingLevel : option jstring) (operatorIntent : bool)
| p_model_change (model : jstring) (role : option jstring) (cleared : bool)
| p_configured_model_chain (chain : value)
| p_custom (customType : jstring) (data : value)
| p_service_tier_change (serviceTier : option jstring)
| p_ttsr_injection (injectedRules : list jstring) (injectedRuleRecords : option (list TtsrInjectionRecord)) (ttsrMessageCount : option number)
| p_mcp_tool_selection (selectedToolNames : list jstring) (selectedDiscoveredBuiltinToolNames : option (list jstring))
| p_discovered_builtin_tool_selection (selectedToolNames : list jstring)
| p_mode_change (mode : jstring) (data : value)
| p_label (targetId : jstring) (label : option jstring)
| p_session_init (init : value).
Arguments p_message {R}. Arguments p_custom_message {R}. Arguments p_branch_summary {R}. Arguments p_compaction {R}.
Arguments p_thinking_level_change {R}. Arguments p_model_change {R}. Arguments p_configured_model_chain {R}. Arguments p_custom {R}.
Arguments p_service_tier_change {R}. Arguments p_ttsr_injection {R}. Arguments p_mcp_tool_selection {R}.
Arguments p_discovered_builtin_tool_selection {R}. Arguments p_mode_change {R}. Arguments p_label {R}. Arguments p_session_init {R}.

Record Entry (R : Type) : Type := mkEntry { id : jstring; parentId : option jstring; timestamp : Z; payload : Payload R }.
Arguments mkEntry {R}. Arguments id {R}. Arguments parentId {R}. Arguments timestamp {R}. Arguments payload {R}.

Inductive ModelProfileOwnershipMarker : Type := own_inherit | own_cleared | own_profile (profile : jstring).

Definition MODEL_PROFILE_OWNERSHIP_ENTRY : jstring := js "model_profile_ownership".

Definition validateModelProfileOwnershipMarker (v : value) : option ModelProfileOwnershipMarker :=
  match v with
  | v_object fields =>
      match prop (js "kind") v with
      | v_string k =>
          if bool_decide (k = js "inherit") then (if (length fields =? 1)%nat then Some own_inherit else None)
          else if bool_decide (k = js "cleared") then (if (length fields =? 1)%nat then Some own_cleared else None)
          else if bool_decide (k = js "profile") then
            match prop (js "profile") v with
            | v_string p => if negb (bool_decide (trim p = [])) && (length fields =? 2)%nat then Some (own_profile p) else None
            | _ => None
            end
          else None
      | _ => None
      end
  | _ => None
  end.

(** A marker as the value that is stored. *)
Definition markerValue (m : ModelProfileOwnershipMarker) : value :=
  match m with
  | own_inherit => v_object [(js "kind", v_string (js "inherit"))]
  | own_cleared => v_object [(js "kind", v_string (js "cleared"))]
  | own_profile p => v_object [(js "kind", v_string (js "profile")); (js "profile", v_string p)]
  end.

(** ** The manager *)

Inductive SessionError : Type :=
| EntryNotFound (i : jstring)
| NoUniqueId
| InvalidModelProfileOwnership
| SessionAppendPersistence (i : jstring)
| SessionNearLimitAppend (i : jstring)
| ManagedAppendIdentityMismatch
| SessionContextTooLarge (measured budget : Z).

(** How writing an entry to the session file ends: written; committed before failing, or recovered near the size limit
    (the entry stays); refused by the fence, or failed (the entry is taken back). *)
Inductive persistOutcome : Type := persisted | committedMutation | nearLimit | identityMismatch | persistFailed.

(** The random identifiers that [generateId] draws: 100 of each kind. *)
Record IdSource : Type := mkIds { randomUUID : nat -> jstring; snowflake : nat -> jstring }.

Definition candidates (src : IdSource) : list jstring := map (randomUUID src) (seq 0 100) ++ map (snowflake src) (seq 0 100).

Definition generateId (has : jstring -> bool) (src : IdSource) : option jstring := List.find (fun i => negb (has i)) (candidates src).

Section Manager.
Context {R : Type}.

Abbreviation Index := (list (jstring * Entry R)).

(** [fileEntries] without the header. *)
Record Manager : Type := mkManager {
  fileEntries : list (Entry R); byId : Index; labelsById : list (jstring * jstring); leafId : option jstring }.

Definition isLabel (e : Entry R) : bool := match payload e with p_label _ _ => true | _ => false end.

(** [if (label) labels.set(target, label) else labels.delete(target)] *)
Definition setLabel (target : jstring) (label : option jstring) (labels : list (jstring * jstring)) : list (jstring * jstring) :=
  match label with
  | Some (c :: l) => m_set target (c :: l) labels
  | _ => m_delete target labels
  end.

(** [byId.get(key)] for a key that may be null or empty. *)
Definition resolveEntry (ix : Index) (key : option jstring) : option (Entry R) :=
  match key with Some (c :: k) => m_get (c :: k) ix | _ => None end.

(** The loop of [getBranch] and of [buildSessionContext], from the leaf. *)
Fixpoint walk (ix : Index) (fuel : nat) (visited : list jstring) (current : option (Entry R)) : list (Entry R) :=
  match fuel, current with
  | S fuel', Some e =>
      if decide (id e ∈ visited) then [] else e :: walk ix fuel' (id e :: visited) (resolveEntry ix (parentId e))
  | _, _ => []
  end.

Definition pathTo (ix : Index) (e : option (Entry R)) : list (Entry R) := reverse (walk ix (S (length ix)) [] e).

Definition getBranch (m : Manager) (fromId : option jstring) : list (Entry R) :=
  let start := match fromId with Some i => Some i | None => leafId m end in
  pathTo (byId m) (resolveEntry (byId m) start).

(** The part of [#appendEntry] that changes the session. *)
Definition appendEntry (o : persistOutcome) (e : Entry R) (m : Manager) : Manager * result SessionError unit :=
  let m' := mkManager (fileEntries m ++ [e]) (m_set (id e) e (byId m)) (labelsById m) (Some (id e)) in
  let rolledBack := mkManager (removelast (fileEntries m')) (m_delete (id e) (byId m')) (labelsById m) (leafId m) in
  match o with
  | persisted => (m', Ok tt)
  | committedMutation => (m', Throw (SessionAppendPersistence (id e)))
  | nearLimit => (m', Throw (SessionNearLimitAppend (id e)))
  | identityMismatch => (rolledBack, Throw ManagedAppendIdentityMismatch)
  | persistFailed => (rolledBack, Throw (SessionAppendPersistence (id e)))
  end.

(** The randomness, the clock and the disk of one append. *)
Record Env : Type := mkEnv { ids : IdSource; now : Z; disk : persistOutcome }.

Definition appendUnder (parent : option jstring) (env : Env) (p : Payload R) (m : Manager) : Manager * result SessionError jstring :=
  match generateId (fun i => m_has i (byId m)) (ids env) with
  | None => (m, Throw NoUniqueId)
  | Some i => let '(m', r) := appendEntry (disk env) (mkEntry i parent (now env) p) m in (m', (fun _ => i) <$> r)
  end.

(** What every [append...] method does with the entry it builds. *)
Definition append (env : Env) (p : Payload R) (m : Manager) : Manager * result SessionError jstring := appendUnder (leafId m) env p m.

Definition appendMessage (msg : AgentMessage R) : Payload R := p_message msg.
Definition appendThinkingLevelChange (level : option jstring) (operatorIntent : bool) : Payload R := p_thinking_level_change level operatorIntent.
Definition appendServiceTierChange (tier : option jstring) : Payload R := p_service_tier_change tier.
Definition appendModeChange (mode : jstring) (data : value) : Payload R := p_mode_change mode data.
Definition appendModelChange (model : jstring) (role : option jstring) : Payload R := p_model_change model role false.
Definition clearModelRole (role : jstring) : Payload R := p_model_change [] (Some role) true.
Definition appendSessionInit (init : value) : Payload R := p_session_init init.
Definition appendCompaction (summary : jstring) (shortSummary : option jstring) (firstKept : jstring) (before : Z)
    (details : option (list jstring * list jstring)) (fromExt : bool) (preserve : option value) : Payload R :=
  p_compaction (mkCompactionEntry summary shortSummary firstKept before details fromExt preserve).
Definition appendCustomEntry (customType : jstring) (data : value) : Payload R := p_custom customType data.
Definition appendMCPToolSelection (names : list jstring) : Payload R := p_mcp_tool_selection names None.
Definition appendDiscoveredBuiltinToolSelection (names : list jstring) : Payload R := p_discovered_builtin_tool_selection names.
Definition appendTtsrInjection (rules : list jstring) (records : option (list TtsrInjectionRecord)) (count : option number) : Payload R :=
  p_ttsr_injection rules records count.

Definition appendLabelChange (env : Env) (target : jstring) (label : option jstring) (m : Manager) : Manager * result SessionError jstring :=
  match m_get target (byId m) with
  | None => (m, Throw (EntryNotFound target))
  | Some _ =>
      match append env (p_label target label) m with
      | (m', Ok i) => (mkManager (fileEntries m') (byId m') (setLabel target label (labelsById m')) (leafId m'), Ok i)
      | r => r
      end
  end.

Definition branch (from : jstring) (m : Manager) : Manager * result SessionError unit :=
  match m_get from (byId m) with
  | None => (m, Throw (EntryNotFound from))
  | Some _ => (mkManager (fileEntries m) (byId m) (labelsById m) (Some from), Ok tt)
  end.

Definition resetLeaf (m : Manager) : Manager := mkManager (fileEntries m) (byId m) (labelsById m) None.

Definition branchWithSummary (env : Env) (from : option jstring) (summary : jstring) (m : Manager) : Manager * result SessionError jstring :=
  if match from with Some i => m_has i (byId m) | None => true end
  then appendUnder from env (p_branch_summary (default (js "root") from) summary) (mkManager (fileEntries m) (byId m) (labelsById m) from)
  else (m, Throw (EntryNotFound (default [] from))).

(** The last marker of the branch; an invalid one is an error. *)
Definition ownershipStep (marker : option ModelProfileOwnershipMarker) (e : Entry R) : result SessionError (option ModelProfileOwnershipMarker) :=
  match payload e with
  | p_custom t data =>
      if bool_decide (t = MODEL_PROFILE_OWNERSHIP_ENTRY)
      then match validateModelProfileOwnershipMarker data with Some v => Ok (Some v) | None => Throw InvalidModelProfileOwnership end
      else Ok marker
  | _ => Ok marker
  end.
Definition getModelProfileOwnershipMarker (m : Manager) : result SessionError (option ModelProfileOwnershipMarker) :=
  foldM ownershipStep None (getBranch m None).

Definition appendModelProfileOwnershipMarker (env : Env) (marker : value) (m : Manager) : Manager * result SessionError jstring :=
  match validateModelProfileOwnershipMarker marker with
  | None => (m, Throw InvalidModelProfileOwnership)
  | Some v => append env (p_custom MODEL_PROFILE_OWNERSHIP_ENTRY (markerValue v)) m
  end.

Definition appendContextClearEntry (env env' : Env) (data : value) (m : Manager) : Manager * result SessionError jstring :=
  match getModelProfileOwnershipMarker m with
  | Throw e => (m, Throw e)
  | Ok marker =>
      match appendUnder None env (p_custom (js "context_clear") data) m with
      | (m', Ok i) =>
          match marker with
          | Some v => let '(m2, r) := appendModelProfileOwnershipMarker env' (markerValue v) m' in (m2, (fun _ => i) <$> r)
          | None => (m', Ok i)
          end
      | r => r
      end
  end.

(** [#buildIndexForEntries] without the usage statistics: a session read back from its file. *)
Definition indexStep (m : Manager) (e : Entry R) : Manager :=
  let e := match parentId e with
           | Some p => match m_get p (byId m) with Some q => mkEntry (id e) (Some (id q)) (timestamp e) (payload e) | None => e end
           | None => e
           end in
  mkManager (fileEntries m ++ [e]) (m_set (id e) e (byId m))
    (match payload e with p_label t l => setLabel t l (labelsById m) | _ => labelsById m end) (Some (id e)).
Definition emptyManager : Manager := mkManager [] [] [] None.
Definition buildIndexForEntries (entries : list (Entry R)) : Manager := foldl indexStep emptyManager entries.

(** One round of the loop that writes labels: the entries so far, the identifiers in use, the parent and the labels left. *)
Fixpoint labelEntriesFor (draw : nat -> IdSource) (now : Z) (n : nat) (used : list jstring) (parent : option jstring)
    (labels : list (jstring * jstring)) : result SessionError (list (Entry R)) :=
  match labels with
  | [] => Ok []
  | (target, label) :: rest =>
      match generateId (fun i => bool_decide (i ∈ used)) (draw n) with
      | None => Throw NoUniqueId
      | Some i =>
          es ← labelEntriesFor draw now (S n) (used ++ [i]) (Some i) rest;
          Ok (mkEntry i parent now (p_label target (Some label)) :: es)
      end
  end.

(** The entries of [createBranchedSession], installed as a session: the branch of an entry without its labels, then a
    fresh entry for every label of one of them. *)
Definition createBranchedSession (draw : nat -> IdSource) (now : Z) (leaf : jstring) (m : Manager) : result SessionError Manager :=
  match getBranch m (Some leaf) with
  | [] => Throw (EntryNotFound leaf)
  | branchPath =>
      let pathWithoutLabels := filter (fun e => isLabel e = false) branchPath in
      let pathEntryIds := map id pathWithoutLabels in
      let labelsToWrite := filter (fun tl => tl.1 ∈ pathEntryIds) (labelsById m) in
      let lastEntryId := match last pathWithoutLabels with Some e => if decide (id e = []) then None else Some (id e) | None => None end in
      labelEntries ← labelEntriesFor draw now 0 pathEntryIds lastEntryId labelsToWrite;
      Ok (buildIndexForEntries (pathWithoutLabels ++ labelEntries))
  end.

(** ** The tree *)

(** The entries from the root to an entry, by the parents alone. *)
Inductive branch_of (ix : Index) : Entry R -> list (Entry R) -> Prop :=
| branch_root e : resolveEntry ix (parentId e) = None -> branch_of ix e [e]
| branch_child e q b : resolveEntry ix (parentId e) = Some q -> branch_of ix q b -> branch_of ix e (b ++ [e]).

(** A session grows at the end: identifiers are new and not empty, parents are there before their children. *)
Inductive grows : list (Entry R) -> Prop :=
| grows_nil : grows []
| grows_snoc l e : grows l -> id e ∉ map id l -> id e ≠ [] -> (forall q, parentId e = Some q -> q ∈ map id l) -> grows (l ++ [e]).

Definition index (l : list (Entry R)) : Index := map (fun e => (id e, e)) l.

Lemma index_keys l : (index l).*1 = map id l.
Proof. unfold index. induction l as [|e l IH]; [done|]. cbn. by f_equal. Qed.

Lemma index_app l l' : index (l ++ l') = index l ++ index l'.
Proof. apply map_app. Qed.

Lemma index_get l k e : m_get k (index l) = Some e -> id e = k /\ e ∈ l.
Proof. intros H%m_get_elem_1. apply list_elem_of_fmap in H as (x & [= -> ->] & Hx). done. Qed.

Lemma grows_NoDup l : grows l -> NoDup (map id l).
Proof.
  induction 1 as [|l e _ IH He _ _]; [constructor|]. rewrite map_app. apply NoDup_app. split; [done|]. split; [|apply NoDup_singleton].
  intros x Hx ->%list_elem_of_singleton. done.
Qed.

Lemma grows_id l e : grows l -> e ∈ l -> id e ≠ [].
Proof. induction 1 as [|l e' _ IH _ He _]; [by intros ?%elem_of_nil|]. intros [?|E]%elem_of_app; [auto|]. by apply list_elem_of_singleton in E as ->. Qed.

Lemma index_elem l e : grows l -> e ∈ l -> m_get (id e) (index l) = Some e.
Proof.
  intros Hg He. apply m_get_elem; [rewrite index_keys; by apply grows_NoDup|]. apply list_elem_of_fmap. by exists e.
Qed.

Lemma resolve_id l e : grows l -> e ∈ l -> resolveEntry (index l) (Some (id e)) = Some e.
Proof.
  intros Hg He. pose proof (grows_id l e Hg He) as Hn. unfold resolveEntry. destruct (id e) eqn:E; [done|]. rewrite <- E. by apply index_elem.
Qed.

Lemma resolve_elem l q : grows l -> q ∈ map id l -> exists e, resolveEntry (index l) (Some q) = Some e /\ e ∈ l /\ id e = q.
Proof.
  intros Hg Hq. apply list_elem_of_fmap in Hq as (e & -> & He). exists e. split; [by apply resolve_id|done].
Qed.

Lemma resolve_app l l' k e : resolveEntry (index l) k = Some e -> resolveEntry (index (l ++ l')) k = Some e.
Proof. unfold resolveEntry. destruct k as [[|c k]|]; [done| |done]. rewrite index_app, m_get_app. by intros ->. Qed.

(** Every entry of a session has its branch. *)
Lemma grows_branch l e : grows l -> e ∈ l ->
  exists b, branch_of (index l) e b /\ NoDup (map id b) /\ (forall x, x ∈ b -> x ∈ l) /\
            forall l', grows (l ++ l') -> branch_of (index (l ++ l')) e b.
Proof.
  intros Hg. revert e. induction Hg as [|l e Hg IH Hf Hn Hp]; intros x Hx; [by apply elem_of_nil in Hx|].
  assert (grows (l ++ [e])) as Hg' by by constructor. apply elem_of_app in Hx as [Hx|Hx]; [|apply list_elem_of_singleton in Hx as ->].
  - destruct (IH x Hx) as (b & B1 & B2 & B3 & B4). exists b. split; [by apply B4|]. split; [done|]. split.
    + intros y Hy. apply elem_of_app. left. auto.
    + intros l' Hl'. rewrite <- app_assoc in *. by apply B4.
  - destruct (parentId e) as [q|] eqn:Eq.
    + destruct (resolve_elem l q Hg (Hp q eq_refl)) as (y & Y1 & Y2 & _). destruct (IH y Y2) as (b & B1 & B2 & B3 & B4).
      exists (b ++ [e]). assert (forall l', grows ((l ++ [e]) ++ l') -> branch_of (index ((l ++ [e]) ++ l')) e (b ++ [e])) as Hall.
      { intros l' Hl'. rewrite <- app_assoc in *. apply branch_child with y; [rewrite Eq; by apply resolve_app|by apply B4]. }
      split; [specialize (Hall []); rewrite app_nil_r in Hall; by apply Hall|]. split; [|split; [|done]].
      * rewrite map_app. apply NoDup_app. split; [done|]. split; [|apply NoDup_singleton]. intros z Hz ->%list_elem_of_singleton.
        apply Hf. apply list_elem_of_fmap in Hz as (w & -> & Hw). apply list_elem_of_fmap. eauto.
      * intros z [Hz|Hz]%elem_of_app; apply elem_of_app; [left; auto|by right].
    + exists [e]. split; [apply branch_root; by rewrite Eq|]. split; [apply NoDup_singleton|]. split; [|intros l' _; apply branch_root; by rewrite Eq].
      intros z ->%list_elem_of_singleton. apply elem_of_app. right. by apply list_elem_of_singleton.
Qed.

(** The walk follows the parents. *)
Lemma walk_branch ix e b : branch_of ix e b -> forall fuel visited,
  NoDup (map id b) -> (forall x, x ∈ b -> id x ∉ visited) -> (length b <= fuel)%nat -> walk ix fuel visited (Some e) = reverse b.
Proof.
  induction 1 as [e He|e q b Hq Hb IH]; intros fuel visited Hnd Hv Hl.
  - destruct fuel; [cbn in Hl; lia|]. cbn [walk]. rewrite decide_False by (apply Hv, list_elem_of_singleton; done). rewrite He.
    by destruct fuel.
  - rewrite length_app in Hl. cbn in Hl. destruct fuel; [lia|]. cbn [walk]. rewrite decide_False; [|apply Hv, elem_of_app; right; by apply list_elem_of_singleton].
    rewrite map_app in Hnd. apply NoDup_app in Hnd as (N1 & N2 & _). rewrite Hq, reverse_snoc. f_equal. apply IH; [done| |lia].
    intros x Hx. rewrite not_elem_of_cons. split.
    + intros E. apply (N2 (id x)); [apply list_elem_of_fmap; eauto|]. rewrite E. by apply list_elem_of_singleton.
    + apply Hv, elem_of_app. by left.
Qed.

Lemma branch_length l e b : (forall x, x ∈ b -> x ∈ l) -> NoDup (map id b) -> branch_of (index l) e b -> (length b <= length (index l))%nat.
Proof.
  intros Hsub Hnd _. unfold index. rewrite length_map, <- (length_map id b), <- (length_map id l). apply submseteq_length, NoDup_submseteq; [done|].
  intros x Hx. apply list_elem_of_fmap in Hx as (y & -> & Hy). apply list_elem_of_fmap. eauto.
Qed.

Lemma pathTo_branch l e : grows l -> e ∈ l -> branch_of (index l) e (pathTo (index l) (Some e)).
Proof.
  intros Hg He. destruct (grows_branch l e Hg He) as (b & B1 & B2 & B3 & _). unfold pathTo.
  rewrite (walk_branch _ _ _ B1); [by rewrite reverse_involutive|done|by intros ? _ ?%elem_of_nil|].
  pose proof (branch_length l e b B3 B2 B1). lia.
Qed.

Lemma branch_of_functional ix e b b' : branch_of ix e b -> branch_of ix e b' -> b = b'.
Proof.
  intros Hb. revert b'. induction Hb as [e He|e q b Hq _ IH]; intros b' Hb'; inversion Hb' as [? He'|? q' b0 Hq' Hb0]; subst; [done|congruence..|].
  assert (q' = q) as -> by congruence. by rewrite (IH b0).
Qed.

Lemma pathTo_app l l' e : grows (l ++ l') -> grows l -> e ∈ l -> pathTo (index (l ++ l')) (Some e) = pathTo (index l) (Some e).
Proof.
  intros Hg' Hg He. destruct (grows_branch l e Hg He) as (b & B1 & B2 & B3 & B4).
  rewrite (branch_of_functional _ _ _ _ (pathTo_branch l e Hg He) B1). eapply branch_of_functional; [apply pathTo_branch; [done|]|by apply B4].
  apply elem_of_app. by left.
Qed.

(** ** The manager keeps the tree *)

Record wf (m : Manager) : Prop := mkWf {
  wf_grows : grows (fileEntries m);
  wf_index : byId m = index (fileEntries m);
  wf_leaf : forall i, leafId m = Some i -> i ∈ map id (fileEntries m) }.

(** The identifiers drawn are never empty. *)
Definition usable (env : Env) : Prop := Forall (fun i => i ≠ []) (candidates (ids env)).

Definition extend (e : Entry R) (m : Manager) : Manager :=
  mkManager (fileEntries m ++ [e]) (byId m ++ [(id e, e)]) (labelsById m) (Some (id e)).

Lemma generateId_spec has src i : generateId has src = Some i -> has i = false /\ i ∈ candidates src.
Proof. intros [H1 H2]%find_some. split; [by destruct (has i)|by apply list_elem_of_In]. Qed.

Lemma fresh_id m i : wf m -> m_has i (byId m) = false <-> i ∉ map id (fileEntries m).
Proof. intros Hw. rewrite <- index_keys, <- (wf_index m Hw), <- m_has_spec. by destruct (m_has i (byId m)). Qed.

(** An append either leaves the session as it was or adds one new entry at its end and moves the leaf there. *)
Lemma appendUnder_spec parent env p m : wf m -> usable env ->
  let m' := (appendUnder parent env p m).1 in
  m' = m \/ exists i, i ≠ [] /\ i ∉ map id (fileEntries m) /\ m' = extend (mkEntry i parent (now env) p) m.
Proof.
  intros Hw Hu. cbn zeta. unfold appendUnder. destruct (generateId _ _) as [i|] eqn:Eg; [|by left].
  apply generateId_spec in Eg as [Hf Hc]. rewrite fresh_id in Hf by done. unfold usable in Hu. rewrite Forall_forall in Hu. specialize (Hu i Hc).
  assert (i ∉ (byId m).*1) as Hk by by rewrite (wf_index m Hw), index_keys. unfold appendEntry. cbn [id fileEntries byId].
  rewrite m_set_fresh, m_delete_snoc, removelast_last by done. destruct m as [es ix ls lf].
  destruct (disk env); cbn [fst fileEntries byId labelsById leafId]; [right; exists i; done..|left; done|left; done].
Qed.

Lemma extend_wf e m : wf m -> id e ≠ [] -> id e ∉ map id (fileEntries m) ->
  (forall q, parentId e = Some q -> q ∈ map id (fileEntries m)) -> wf (extend e m).
Proof.
  intros [W1 W2 W3] Hn Hf Hp. split; cbn.
  - by constructor.
  - by rewrite index_app, W2.
  - intros i [= <-]. rewrite map_app. apply elem_of_app. right. by apply list_elem_of_singleton.
Qed.

Lemma setLeaf_wf m lf ls : wf m -> (forall i, lf = Some i -> i ∈ map id (fileEntries m)) -> wf (mkManager (fileEntries m) (byId m) ls lf).
Proof. intros [W1 W2 W3] Hl. by split. Qed.

(** What one call of the manager does, with randomness, clock and disk that satisfy [P]. *)
Inductive step (P : Env -> Prop) (m : Manager) : Manager -> Prop :=
| step_append env p : P env -> (forall t l, p ≠ p_label t l) -> step P m (append env p m).1
| step_label env t l : P env -> step P m (appendLabelChange env t l m).1
| step_branch i : step P m (branch i m).1
| step_reset : step P m (resetLeaf m)
| step_branchWithSummary env from summary : P env -> step P m (branchWithSummary env from summary m).1
| step_ownership env v : P env -> step P m (appendModelProfileOwnershipMarker env v m).1
| step_contextClear env env' data : P env -> P env' -> step P m (appendContextClearEntry env env' data m).1.

(** [m'] is a well-formed session that starts with the entries of [m]. *)
Definition grown (m m' : Manager) : Prop := wf m' /\ fileEntries m `prefix_of` fileEntries m'.

Lemma grown_refl m : wf m -> grown m m.
Proof. by split. Qed.
Lemma grown_trans m m1 m2 : grown m m1 -> grown m1 m2 -> grown m m2.
Proof. intros [_ H1] [W H2]. split; [done|by etransitivity]. Qed.

Lemma append_grown parent env p m : wf m -> usable env -> (forall q, parent = Some q -> q ∈ map id (fileEntries m)) ->
  grown m (appendUnder parent env p m).1.
Proof.
  intros Hw Hu Hp. destruct (appendUnder_spec parent env p m Hw Hu) as [->|(i & I1 & I2 & ->)]; [by apply grown_refl|].
  split; [by apply extend_wf|]. by exists [mkEntry i parent (now env) p].
Qed.

Lemma ownership_grown env v m : wf m -> usable env -> grown m (appendModelProfileOwnershipMarker env v m).1.
Proof.
  intros Hw Hu. unfold appendModelProfileOwnershipMarker. destruct (validateModelProfileOwnershipMarker v); [|by apply grown_refl].
  apply append_grown; [done..|apply wf_leaf; done].
Qed.

Lemma grown_leaf m m' ls lf : grown m m' -> (forall i, lf = Some i -> i ∈ map id (fileEntries m')) ->
  grown m (mkManager (fileEntries m') (byId m') ls lf).
Proof. intros [W H] Hl. split; [by apply setLeaf_wf|done]. Qed.

Lemma has_elem m i : wf m -> is_Some (m_get i (byId m)) -> i ∈ map id (fileEntries m).
Proof. intros Hw Hi. by rewrite (wf_index m Hw), m_get_Some_key, index_keys in Hi. Qed.

Lemma branchWithSummary_grown env from summary m : wf m -> usable env -> grown m (branchWithSummary env from summary m).1.
Proof.
  intros Hw Hu. unfold branchWithSummary. destruct (match from with Some i => _ | None => _ end) eqn:Eh; [|by apply grown_refl].
  assert (forall q, from = Some q -> q ∈ map id (fileEntries m)) as Hq.
  { intros q ->. apply has_elem; [done|]. by apply bool_decide_eq_true in Eh. }
  apply (append_grown from env _ (mkManager (fileEntries m) (byId m) (labelsById m) from)); [by apply setLeaf_wf|done..].
Qed.

Lemma contextClear_grown env env' data m : wf m -> usable env -> usable env' -> grown m (appendContextClearEntry env env' data m).1.
Proof.
  intros Hw Hu Hu'. unfold appendContextClearEntry. destruct (getModelProfileOwnershipMarker m) as [marker|]; [|by apply grown_refl].
  pose proof (append_grown None env (p_custom (js "context_clear") data) m Hw Hu ltac:(done)) as G.
  destruct (appendUnder _ _ _ _) as [m' [i|]]; cbn [fst] in G |- *; [|done]. destruct marker as [v|]; [|done].
  pose proof (ownership_grown env' (markerValue v) m' (proj1 G) Hu') as G'.
  destruct (appendModelProfileOwnershipMarker _ _ _) as [m2 r]. by apply grown_trans with m'.
Qed.

Lemma step_grown (P : Env -> Prop) m m' : (forall env, P env -> usable env) -> wf m -> step P m m' -> grown m m'.
Proof.
  intros HP Hw. destruct 1 as [env p HE Hp|env t l HE|i| |env from sm HE|env v HE|env env' data HE HE'].
  - apply append_grown; [done|auto|apply wf_leaf; done].
  - unfold appendLabelChange. destruct (m_get t (byId m)); [|by apply grown_refl].
    pose proof (append_grown (leafId m) env (p_label t l) m Hw (HP _ HE) (wf_leaf m Hw)) as G. unfold append.
    destruct (appendUnder _ _ _ _) as [m1 [j|]]; cbn [fst] in G |- *; [|done]. apply grown_leaf; [done|]. by destruct G as [[] _].
  - unfold branch. destruct (m_get i (byId m)) eqn:E; [|by apply grown_refl]. apply grown_leaf; [by apply grown_refl|].
    intros j [= <-]. apply has_elem; [done|]. by rewrite E.
  - apply grown_leaf; [by apply grown_refl|done].
  - apply branchWithSummary_grown; auto.
  - apply ownership_grown; auto.
  - apply contextClear_grown; auto.
Qed.

Lemma steps_grown m m' : wf m -> rtc (step usable) m m' -> grown m m'.
Proof.
  intros Hw Hs. induction Hs as [m|m m1 m2 H1 _ IH]; [by apply grown_refl|].
  pose proof (step_grown usable m m1 (fun _ H => H) Hw H1) as G. apply grown_trans with m1; [done|]. apply IH, G.
Qed.

Lemma empty_wf : wf emptyManager.
Proof. split; [constructor|done|done]. Qed.

(** ** Branches *)

Lemma getBranch_path m i : wf m -> i ∈ map id (fileEntries m) ->
  exists e, e ∈ fileEntries m /\ id e = i /\ forall m', grown m m' -> getBranch m' (Some i) = pathTo (index (fileEntries m)) (Some e).
Proof.
  intros Hw Hi. destruct (resolve_elem _ i (wf_grows m Hw) Hi) as (e & E1 & E2 & E3). exists e. split; [done|]. split; [done|].
  intros m' [Hw' [l Hl]]. unfold getBranch. rewrite (wf_index m' Hw'), Hl, (resolve_app _ _ _ _ E1).
  apply pathTo_app; [rewrite <- Hl; apply Hw'|apply Hw|done].
Qed.

(** C8: Whatever is appended, labelled, branched, cleared or fails to be written later, the branch of an entry stays the same:
    the chain of its ancestors, from the root. *)
Theorem branches_are_immutable m m' i :
  wf m -> rtc (step usable) m m' -> i ∈ map id (fileEntries m) ->
  getBranch m' (Some i) = getBranch m (Some i) /\
  exists e, id e = i /\ m_get i (byId m') = Some e /\ branch_of (byId m') e (getBranch m' (Some i)).
Proof.
  intros Hw Hs Hi. pose proof (steps_grown m m' Hw Hs) as G. destruct (getBranch_path m i Hw Hi) as (e & E1 & E2 & E3).
  split; [by rewrite !E3 by (done || by apply grown_refl)|]. exists e. split; [done|]. destruct G as [Hw' [l Hl]].
  assert (e ∈ fileEntries m') as He by (rewrite Hl; apply elem_of_app; by left).
  rewrite (wf_index m' Hw'). subst i. split; [apply index_elem; [apply Hw'|done]|]. rewrite E3 by (split; [done|by exists l]).
  rewrite <- (pathTo_app _ l); [rewrite <- Hl; apply pathTo_branch; [apply Hw'|done]|rewrite <- Hl; apply Hw'|apply Hw|done].
Qed.

(** The branch of a session without leaf is empty. *)
Lemma getBranch_none m : leafId m = None -> getBranch m None = [].
Proof. intros E. unfold getBranch. by rewrite E. Qed.

Lemma getBranch_leaf m : getBranch m None = match leafId m with Some i => getBranch m (Some i) | None => [] end.
Proof. unfold getBranch. by destruct (leafId m). Qed.

Lemma extend_branch m e : wf m -> wf (extend e m) -> parentId e = leafId m -> getBranch (extend e m) None = getBranch m None ++ [e].
Proof.
  intros Hw Hw' Hp. assert (e ∈ fileEntries (extend e m)) as He by (cbn; apply elem_of_app; right; by apply list_elem_of_singleton).
  assert (grown m (extend e m)) as G by (split; [done|by exists [e]]).
  assert (getBranch (extend e m) None = pathTo (index (fileEntries (extend e m))) (Some e)) as ->.
  { unfold getBranch. rewrite (wf_index _ Hw'). cbn [leafId extend]. f_equal. apply resolve_id; [apply Hw'|done]. }
  eapply branch_of_functional; [apply pathTo_branch; [apply Hw'|done]|]. rewrite getBranch_leaf. destruct (leafId m) as [q|] eqn:El.
  - destruct (getBranch_path m q Hw (wf_leaf m Hw q El)) as (x & X1 & X2 & X3). rewrite X3 by by apply grown_refl.
    assert (x ∈ fileEntries (extend e m)) as Hx by (cbn; apply elem_of_app; by left).
    apply branch_child with x.
    + rewrite Hp. subst q. apply resolve_id; [apply Hw'|done].
    + rewrite <- (pathTo_app _ [e]); [apply pathTo_branch; [apply Hw'|done]|apply Hw'|apply Hw|done].
  - apply branch_root. by rewrite Hp.
Qed.

Lemma append_Ok env p m m' i : wf m -> usable env -> append env p m = (m', Ok i) ->
  let e := mkEntry i (leafId m) (now env) p in
  i ∉ map id (fileEntries m) /\ m' = extend e m /\ wf m' /\ getBranch m' None = getBranch m None ++ [e].
Proof.
  intros Hw Hu Ha. cbn zeta. unfold append, appendUnder in Ha. destruct (generateId _ _) as [j|] eqn:Eg; [|done].
  apply generateId_spec in Eg as [Hf Hc]. rewrite fresh_id in Hf by done. unfold usable in Hu. rewrite Forall_forall in Hu. specialize (Hu j Hc).
  assert (j ∉ (byId m).*1) as Hk by by rewrite (wf_index m Hw), index_keys. unfold appendEntry in Ha. cbn [id fileEntries byId] in Ha.
  rewrite m_set_fresh in Ha by done. destruct (disk env); cbn [fmap result_fmap] in Ha; try discriminate. injection Ha as <- <-.
  fold (extend (mkEntry j (leafId m) (now env) p) m).
  assert (wf (extend (mkEntry j (leafId m) (now env) p) m)) as Hw' by (apply extend_wf; [done..|apply wf_leaf; done]).
  split; [done|]. split; [done|]. split; [done|]. by apply extend_branch.
Qed.

(** An append that succeeds extends the current branch by one entry with a new identifier and moves the leaf there; one
    that the disk refuses leaves the session exactly as it was. *)
Theorem append_extends_the_branch env p m :
  wf m -> usable env ->
  match append env p m with
  | (m', Ok i) =>
      i ∉ map id (fileEntries m) /\ leafId m' = Some i /\ labelsById m' = labelsById m /\
      getBranch m' None = getBranch m None ++ [mkEntry i (leafId m) (now env) p]
  | (m', Throw e) =>
      (e = ManagedAppendIdentityMismatch \/ e = NoUniqueId \/ disk env = persistFailed -> m' = m)
  end.
Proof.
  intros Hw Hu. destruct (append env p m) as [m' [i|err]] eqn:Ea.
  - destruct (append_Ok _ _ _ _ _ Hw Hu Ea) as (F & -> & _ & B). done.
  - intros Herr. unfold append, appendUnder in Ea. destruct (generateId _ _) as [i|] eqn:Eg; [|by injection Ea].
    apply generateId_spec in Eg as [Hf _]. rewrite fresh_id in Hf by done.
    assert (i ∉ (byId m).*1) as Hk by by rewrite (wf_index m Hw), index_keys. unfold appendEntry in Ea. cbn [id fileEntries byId] in Ea.
    rewrite m_set_fresh, m_delete_snoc, removelast_last in Ea by done.
    destruct (disk env); cbn [fmap result_fmap] in Ea; try discriminate; injection Ea as <- <-; try (by destruct m); by destruct Herr as [?|[?|?]].
Qed.

(** ** Reading a session back *)

Definition labelsOf (l : list (Entry R)) : list (jstring * jstring) :=
  foldl (fun ls e => match payload e with p_label t lb => setLabel t lb ls | _ => ls end) [] l.

Lemma labelsOf_snoc l e : labelsOf (l ++ [e]) = match payload e with p_label t lb => setLabel t lb (labelsOf l) | _ => labelsOf l end.
Proof. unfold labelsOf. by rewrite foldl_app. Qed.

Lemma build_grows l : grows l -> buildIndexForEntries l = mkManager l (index l) (labelsOf l) (id <$> last l).
Proof.
  induction 1 as [|l e Hg IH Hf Hn Hp]; [done|]. unfold buildIndexForEntries in *. rewrite foldl_app, IH. cbn [foldl].
  rewrite index_app, labelsOf_snoc, last_snoc. unfold indexStep. cbn [byId fileEntries labelsById].
  assert (m_set (id e) e (index l) = index l ++ [(id e, e)]) as Hset by (apply m_set_fresh; by rewrite index_keys).
  destruct e as [i pa ts pl]. cbn [parentId id timestamp payload] in *. destruct pa as [q|]; [|cbn [id]; by rewrite Hset].
  destruct (m_get q (index l)) as [x|] eqn:Ex; [|cbn [id]; by rewrite Hset]. apply index_get in Ex as [-> _]. cbn [id]. by rewrite Hset.
Qed.

(** Writes that either happen or are taken back. *)
Definition settled (env : Env) : Prop := usable env /\ disk env ≠ committedMutation /\ disk env ≠ nearLimit.

Lemma settled_usable env : settled env -> usable env.
Proof. by intros []. Qed.

Lemma appendUnder_settled parent env p m : wf m -> settled env ->
  match appendUnder parent env p m with
  | (m', Ok i) => m' = extend (mkEntry i parent (now env) p) m
  | (m', Throw _) => m' = m
  end.
Proof.
  intros Hw (Hu & S1 & S2). unfold appendUnder. destruct (generateId _ _) as [i|] eqn:Eg; [|done].
  apply generateId_spec in Eg as [Hf Hc]. rewrite fresh_id in Hf by done.
  assert (i ∉ (byId m).*1) as Hk by by rewrite (wf_index m Hw), index_keys.
  unfold appendEntry. cbn [id fileEntries byId]. rewrite m_set_fresh, m_delete_snoc, removelast_last by done.
  destruct (disk env); cbn [fmap result_fmap]; [done|done|done|by destruct m..].
Qed.

Definition labelled (m : Manager) : Prop := labelsById m = labelsOf (fileEntries m).

Lemma append_labelled parent env p m : (forall t l, p ≠ p_label t l) -> wf m -> settled env -> labelled m -> labelled (appendUnder parent env p m).1.
Proof.
  intros Hp Hw Hs Hl. pose proof (appendUnder_settled parent env p m Hw Hs) as S.
  destruct (appendUnder parent env p m) as [m' [i|]]; cbn [fst]; subst m'; [|done]. unfold labelled. cbn. rewrite labelsOf_snoc. cbn.
  destruct p; try done. by destruct (Hp targetId label).
Qed.

Lemma ownership_labelled env v m : wf m -> settled env -> labelled m -> labelled (appendModelProfileOwnershipMarker env v m).1.
Proof.
  intros Hw Hs Hl. unfold appendModelProfileOwnershipMarker. destruct (validateModelProfileOwnershipMarker v); [|done]. by apply append_labelled.
Qed.

Lemma step_labelled m m' : wf m -> labelled m -> step settled m m' -> labelled m'.
Proof.
  intros Hw Hl. destruct 1 as [env p HE Hp|env t l HE|i| |env from sm HE|env v HE|env env' data HE HE'].
  - by apply append_labelled.
  - unfold appendLabelChange. destruct (m_get t (byId m)); [|done]. pose proof (appendUnder_settled (leafId m) env (p_label t l) m Hw HE) as S.
    unfold append. destruct (appendUnder _ _ _ _) as [m1 [j|]]; cbn [fst]; subst m1; [|done]. unfold labelled. cbn. rewrite labelsOf_snoc. cbn.
    by rewrite Hl.
  - unfold branch. by destruct (m_get i (byId m)).
  - done.
  - unfold branchWithSummary. destruct (match from with Some i => _ | None => _ end) eqn:Eh; [|done].
    apply append_labelled; [done| |done|done]. apply setLeaf_wf; [done|]. intros q ->. apply has_elem; [done|]. by apply bool_decide_eq_true in Eh.
  - by apply ownership_labelled.
  - unfold appendContextClearEntry. destruct (getModelProfileOwnershipMarker m) as [marker|]; [|done].
    pose proof (append_labelled None env (p_custom (js "context_clear") data) m ltac:(done) Hw HE Hl) as L.
    pose proof (append_grown None env (p_custom (js "context_clear") data) m Hw (settled_usable _ HE) ltac:(done)) as G.
    destruct (appendUnder _ _ _ _) as [m' [i|]]; cbn [fst] in G, L |- *; [|done]. destruct marker as [v|]; [|done].
    pose proof (ownership_labelled env' (markerValue v) m' (proj1 G) HE' L) as L'. by destruct (appendModelProfileOwnershipMarker _ _ _).
Qed.


(** ** A session of one branch *)

Lemma branch_last ix e b : branch_of ix e b -> last b = Some e.
Proof. destruct 1; [done|apply last_snoc]. Qed.

Lemma branch_app l l' e b : grows l -> grows (l ++ l') -> e ∈ l -> branch_of (index l) e b -> branch_of (index (l ++ l')) e b.
Proof.
  intros Hg Hg' He Hb. destruct (grows_branch l e Hg He) as (b' & B1 & _ & _ & B4). rewrite (branch_of_functional _ _ _ _ Hb B1). by apply B4.
Qed.

(** A branch is a session of its own. *)
Lemma branch_grows l e b : grows l -> e ∈ l -> branch_of (index l) e b -> NoDup (map id b) -> grows b /\ branch_of (index b) e b.
Proof.
  intros Hg He Hb Hnd. revert He Hnd. induction Hb as [e Hr|e q b Hq Hb IH]; intros He Hnd.
  - assert (parentId e = None) as Hp.
    { destruct (parentId e) as [q|] eqn:Eq; [|done]. exfalso. clear Hnd. induction Hg as [|l x Hg IH _ _ Hp]; [by apply elem_of_nil in He|].
      assert (grows l) as Hgl by done. apply elem_of_app in He as [He|He].
      - apply IH; [|done]. destruct (resolveEntry (index l) (Some q)) as [y|] eqn:Ey; [|done]. by rewrite (resolve_app l [x] _ y Ey) in Hr.
      - apply list_elem_of_singleton in He as ->. destruct (resolve_elem l q Hgl (Hp q Eq)) as (y & Y1 & _). by rewrite (resolve_app l [x] _ y Y1) in Hr. }
    split; [|apply branch_root; by rewrite Hp]. apply (grows_snoc [] e); [constructor|by intros ?%elem_of_nil|by apply grows_id with l|].
    intros q Eq. congruence.
  - rewrite map_app in Hnd. apply NoDup_app in Hnd as (N1 & N2 & _).
    assert (exists c k, parentId e = Some (c :: k) /\ id q = c :: k /\ q ∈ l) as (c & k & P1 & P2 & P3).
    { unfold resolveEntry in Hq. destruct (parentId e) as [[|c k]|]; try done. apply index_get in Hq as [Q1 Q2]. eauto. }
    destruct (IH P3 N1) as [G B]. assert (q ∈ b) as Hqb by (apply list_elem_of_lookup; exists (pred (length b)); rewrite <- last_lookup; by apply branch_last in Hb).
    assert (grows (b ++ [e])) as G'.
    { constructor; [done| |by apply grows_id with l|].
      - intros Hin. apply (N2 _ Hin). by apply list_elem_of_singleton.
      - intros p' E. rewrite P1 in E. injection E as <-. rewrite <- P2. apply list_elem_of_fmap. eauto. }
    split; [done|]. apply branch_child with q; [|by apply branch_app].
    apply resolve_app. rewrite P1. unfold resolveEntry. rewrite <- P2. by apply index_elem.
Qed.

Lemma labelEntries_spec draw now labels : (forall n, Forall (fun i => i ≠ []) (candidates (draw n))) -> forall n l used parent es,
  grows l -> used = map id l -> (forall q, parent = Some q -> q ∈ map id l) -> labelEntriesFor draw now n used parent labels = Ok es ->
  grows (l ++ es) /\ map payload es = map (fun tl => p_label tl.1 (Some tl.2)) labels.
Proof.
  intros Hdraw. induction labels as [|[t lb] labels IH]; intros n l used parent es Hg -> Hp Hes; cbn [labelEntriesFor] in Hes.
  - injection Hes as <-. by rewrite app_nil_r.
  - destruct (generateId _ _) as [i|] eqn:Eg; [|done]. apply generateId_spec in Eg as [Ef Ec]. apply bool_decide_eq_false in Ef.
    specialize (Hdraw n) as Hn. rewrite Forall_forall in Hn. specialize (Hn i Ec). cbn in Hn.
    destruct (labelEntriesFor draw now (S n) _ _ _) as [es'|] eqn:E; [|done]. injection Hes as <-.
    set (e := mkEntry i parent now (p_label t (Some lb))). assert (grows (l ++ [e])) as Hg' by by constructor.
    destruct (IH (S n) (l ++ [e]) (map id l ++ [i]) (Some i) es') as [I1 I2]; [done|by rewrite map_app| |done|].
    + intros q [= <-]. rewrite map_app. apply elem_of_app. right. by apply list_elem_of_singleton.
    + rewrite <- app_assoc in I1. split; [done|]. cbn [map]. by rewrite I2.
Qed.

(** The labels of a session: one per entry, none of them empty. *)
Definition labels_ok (ls : list (jstring * jstring)) : Prop := NoDup ls.*1 /\ Forall (fun tl => tl.2 ≠ []) ls.

Lemma setLabel_ok t l ls : labels_ok ls -> labels_ok (setLabel t l ls).
Proof.
  intros [H1 H2]. assert (labels_ok (m_delete t ls)) as Hd by (split; [by apply m_delete_NoDup|by apply Forall_filter]).
  destruct l as [[|c l]|]; [done| |done]. split; [by apply m_set_NoDup|by apply m_set_Forall].
Qed.

Lemma labelsOf_ok l : labels_ok (labelsOf l).
Proof.
  induction l as [|e l IH] using rev_ind; [split; constructor|]. rewrite labelsOf_snoc. destruct (payload e); try done. by apply setLabel_ok.
Qed.

Lemma labelsOf_plain l : Forall (fun e => isLabel e = false) l -> labelsOf l = [].
Proof.
  induction l as [|e l IH] using rev_ind; [done|]. rewrite Forall_app, labelsOf_snoc. intros [H1 H2]. rewrite Forall_singleton in H2. rewrite (IH H1).
  unfold isLabel in H2. by destruct (payload e).
Qed.

Lemma labelsOf_entries l es labels : labels_ok labels -> Forall (fun e => isLabel e = false) l ->
  map payload es = map (fun tl => p_label tl.1 (Some tl.2)) labels -> labelsOf (l ++ es) = labels.
Proof.
  intros [H1 H2] Hl. revert es. induction labels as [|[t lb] labels IH] using rev_ind; intros es Hes.
  - destruct es; [|done]. rewrite app_nil_r. by apply labelsOf_plain.
  - rewrite map_app in Hes. cbn [map] in Hes. destruct es as [|e es _] using rev_ind; [by destruct (map _ labels)|].
    rewrite map_app in Hes. apply app_inj_tail in Hes as [E1 E2]. rewrite fmap_app in H1. apply NoDup_app in H1 as (N1 & N2 & _).
    apply Forall_app in H2 as [F1 F2]. rewrite Forall_singleton in F2. rewrite app_assoc, labelsOf_snoc, E2, (IH N1 F1 es E1). cbn in F2 |- *. destruct lb as [|c lb]; [done|].
    apply m_set_fresh. intros Hin. apply (N2 t Hin). apply list_elem_of_singleton. done.
Qed.

(** The branch of an entry of the session, as a session. *)
Lemma getBranch_grows m i : wf m -> getBranch m (Some i) ≠ [] ->
  let b := getBranch m (Some i) in
  exists e, id e = i /\ e ∈ fileEntries m /\ e ∈ b /\ last b = Some e /\ grows b /\ pathTo (index b) (Some e) = b.
Proof.
  intros Hw Hne. cbn zeta. unfold getBranch in *. rewrite (wf_index m Hw) in *.
  destruct (resolveEntry (index (fileEntries m)) (Some i)) as [e|] eqn:Er; [|done]. clear Hne.
  assert (id e = i /\ e ∈ fileEntries m) as [E1 E2] by (unfold resolveEntry in Er; destruct i; [done|]; by apply index_get).
  destruct (grows_branch _ e (wf_grows m Hw) E2) as (b & B1 & B2 & _).
  pose proof (pathTo_branch _ e (wf_grows m Hw) E2) as B3. rewrite (branch_of_functional _ _ _ _ B3 B1). exists e.
  destruct (branch_grows _ e b (wf_grows m Hw) E2 B1 B2) as [Gb Bb].
  assert (e ∈ b) as Heb by (apply list_elem_of_lookup; exists (pred (length b)); rewrite <- last_lookup; by apply branch_last in B1).
  do 3 (split; [done|]). split; [by apply branch_last in B1|]. split; [done|]. eapply branch_of_functional; [by apply pathTo_branch|done].
Qed.

Lemma leaf_branch_grows m : wf m -> grows (getBranch m None).
Proof.
  intros Hw. rewrite getBranch_leaf. destruct (leafId m) as [i|]; [|constructor].
  destruct (getBranch m (Some i)) as [|x b] eqn:E; [constructor|]. rewrite <- E.
  destruct (getBranch_grows m i Hw) as (e & _ & _ & _ & _ & G & _); [by rewrite E|done].
Qed.

(** A new session of a branch without label entries has that branch, and the labels of its entries. *)
Theorem branched_session_keeps_its_branch draw now leaf m m' :
  wf m -> labelled m -> (forall n, Forall (fun i => i ≠ []) (candidates (draw n))) ->
  Forall (fun e => isLabel e = false) (getBranch m (Some leaf)) ->
  createBranchedSession draw now leaf m = Ok m' ->
  wf m' /\ getBranch m' (Some leaf) = getBranch m (Some leaf) /\
  labelsById m' = filter (fun tl => tl.1 ∈ map id (getBranch m (Some leaf))) (labelsById m).
Proof.
  intros Hw Hl Hdraw Hplain Hc. unfold createBranchedSession in Hc. remember (getBranch m (Some leaf)) as b eqn:Eb.
  assert (b ≠ []) as Hne by (intros ->; done).
  replace (match b with [] => _ | _ => _ end) with
    (labelEntries ← labelEntriesFor draw now 0 (map id b) (match last b with Some e => if decide (id e = []) then None else Some (id e) | None => None end)
       (filter (fun tl => tl.1 ∈ map id b) (labelsById m)); Ok (buildIndexForEntries (b ++ labelEntries)) : result SessionError Manager) in Hc.
  2:{ assert (filter (fun e => isLabel e = false) b = b) as Hfil by by apply filter_all.
      destruct b as [|x b]; [done|]. cbv zeta. by rewrite Hfil. }
  pose proof (getBranch_grows m leaf Hw) as Hg. cbn zeta in Hg. rewrite <- Eb in Hg. destruct (Hg Hne) as (e & <- & He & Heb & Hlast & Gb & Bb). clear Hg.
  destruct (labelEntriesFor _ _ _ _ _ _) as [es|] eqn:Ees; [|done]. injection Hc as <-.
  eapply labelEntries_spec in Ees as [G P]; [|done|done|done|].
  2:{ intros q. rewrite Hlast. case_decide; [done|]. intros [= <-]. apply list_elem_of_fmap. eauto. }
  rewrite build_grows by done. split; [|split].
  - split; [done|done|]. cbn. intros i. destruct (last (b ++ es)) as [x|] eqn:Ex; [|done]. intros [= <-]. apply list_elem_of_fmap. exists x. split; [done|].
    rewrite last_lookup in Ex. by apply list_elem_of_lookup_2 in Ex.
  - unfold getBranch. cbn [byId leafId]. rewrite resolve_id by (done || apply elem_of_app; by left). by rewrite pathTo_app.
  - cbn [labelsById]. apply labelsOf_entries; [|done|done]. rewrite Hl. destruct (labelsOf_ok (fileEntries m)) as [L1 L2].
    split; [by apply NoDup_fst_filter|by apply Forall_filter].
Qed.

(** ** Corrupt sessions *)

(** A walk visits no entry twice, and more fuel than there are entries finds nothing more: cycles of parents in a damaged
    file end the walk. *)
Lemma walk_NoDup ix fuel visited e : NoDup (map id (walk ix fuel visited e)) /\ forall x, x ∈ walk ix fuel visited e -> id x ∉ visited.
Proof.
  revert visited e. induction fuel as [|fuel IH]; intros visited e; [split; [constructor|by intros ? ?%elem_of_nil]|].
  destruct e as [e|]; [|split; [constructor|by intros ? ?%elem_of_nil]]. cbn [walk].
  case_decide as Hd; [split; [constructor|by intros ? ?%elem_of_nil]|].
  destruct (IH (id e :: visited) (resolveEntry ix (parentId e))) as [N1 N2]. split.
  - cbn. constructor; [|done]. intros (x & E & Hx)%list_elem_of_fmap. apply (N2 x Hx). rewrite <- E. apply elem_of_cons. by left.
  - intros x [->|Hx]%elem_of_cons; [done|]. intros Hv. apply (N2 x Hx). apply elem_of_cons. by right.
Qed.

Lemma walk_fuel ix n : (forall k e, m_get k ix = Some e -> id e = k) -> forall fuel visited e,
  NoDup visited -> (forall x, x ∈ visited -> x ∈ ix.*1) -> (forall x, e = Some x -> id x ∈ ix.*1) ->
  (length ix < fuel + length visited)%nat -> walk ix (fuel + n) visited e = walk ix fuel visited e.
Proof.
  intros Hix fuel. induction fuel as [|fuel IH]; intros visited e Hnd Hv He Hl.
  - exfalso. assert (length visited <= length ix)%nat; [|lia]. rewrite <- (length_fmap fst ix). apply submseteq_length, NoDup_submseteq; [done|]. auto.
  - destruct e as [e|]; [|done]. cbn [Nat.add walk]. case_decide as Hd; [done|]. f_equal. apply IH.
    + by constructor.
    + intros x [->|Hx]%elem_of_cons; [by apply He|auto].
    + intros x Hx. unfold resolveEntry in Hx. destruct (parentId e) as [[|c k]|]; try done. rewrite (Hix _ _ Hx). apply m_get_Some_key. by rewrite Hx.
    + cbn [length]. lia.
Qed.

End Manager.
Arguments Manager : clear implicits.

(** ** Sessions *)

(** The [n]th source of identifiers draws [e<n>], [e<n+1>], ... *)
Definition demoIds (n : Z) : IdSource := mkIds (fun k => js "e" ++ z_str (n + Z.of_nat k)) (fun k => js "s" ++ z_str (n + Z.of_nat k)).
Definition demoEnv (n : Z) : Env := mkEnv (demoIds n) n persisted.

Lemma demoIds_usable n : Forall (fun i => i ≠ []) (candidates (demoIds n)).
Proof. apply Forall_app. split; apply Forall_map, Forall_true; done. Qed.

Lemma demoEnv_settled n : settled (demoEnv n).
Proof. split; [apply demoIds_usable|done]. Qed.

Definition say (n : Z) (text : string) (m : Manager jstring) : Manager jstring := (append (demoEnv n) (appendMessage (am_raw (js text))) m).1.

(** Two messages, the first one labelled before the second. *)
Definition labelledSession : Manager jstring :=
  say 3 "two" (appendLabelChange (demoEnv 2) (js "e1") (Some (js "start")) (say 1 "one" emptyManager)).1.

Lemma say_step n t m : step settled m (say n t m).
Proof. apply step_append; [apply demoEnv_settled|done]. Qed.

Lemma labelledSession_steps : rtc (step settled) emptyManager labelledSession.
Proof.
  eapply rtc_l; [apply (say_step 1 "one")|]. eapply rtc_l; [apply (step_label settled _ (demoEnv 2) (js "e1") (Some (js "start"))), demoEnv_settled|].
  eapply rtc_l; [apply (say_step 3 "two")|]. apply rtc_refl.
Qed.

Lemma step_weaken {R} (P Q : Env -> Prop) (m m' : Manager R) : (forall e, P e -> Q e) -> step P m m' -> step Q m m'.
Proof. intros HPQ. destruct 1; constructor; auto. Qed.

Lemma labelledSession_wf : wf labelledSession.
Proof.
  eapply steps_grown; [apply empty_wf|]. eapply rtc_subrel; [|apply labelledSession_steps]. intros m m'. apply step_weaken, settled_usable.
Qed.

Lemma branches_are_immutable_witness :
  getBranch (say 4 "three" (resetLeaf labelledSession)) (Some (js "e3")) = getBranch labelledSession (Some (js "e3")) /\
  map id (getBranch labelledSession (Some (js "e3"))) = [js "e1"; js "e2"; js "e3"].
Proof.
  split; [|vm_compute; reflexivity]. apply branches_are_immutable; [exact labelledSession_wf| |].
  - eapply rtc_l; [apply step_reset|]. eapply rtc_l; [|apply rtc_refl]. eapply step_weaken; [|apply say_step]. exact settled_usable.
  - vm_compute. apply elem_of_cons. right. apply elem_of_cons. right. apply elem_of_cons. left. reflexivity.
Defined.

Lemma append_extends_the_branch_witness :
  getBranch (say 4 "three" labelledSession) None = getBranch labelledSession None ++ [mkEntry (js "e4") (Some (js "e3")) 4 (appendMessage (am_raw (js "three")))].
Proof.
  pose proof (append_extends_the_branch (demoEnv 4) (appendMessage (am_raw (js "three"))) labelledSession labelledSession_wf (demoIds_usable 4)) as H.
  unfold say. destruct (append (demoEnv 4) (appendMessage (am_raw (js "three"))) labelledSession) as [m' [i|]] eqn:E; [|vm_compute in E; discriminate E].
  destruct H as (_ & _ & _ & H). cbn [fst]. rewrite H. f_equal. f_equal. vm_compute in E. injection E as _ <-. vm_compute. reflexivity.
Defined.


(** A labelled session whose label comes last. *)
Definition bookmarkedSession : Manager jstring :=
  (appendLabelChange (demoEnv 3) (js "e1") (Some (js "start")) (say 2 "two" (say 1 "one" emptyManager))).1.

Lemma bookmarkedSession_ok : wf bookmarkedSession /\ labelled bookmarkedSession.
Proof.
  assert (wf (say 2 "two" (say 1 "one" emptyManager)) /\ labelled (say 2 "two" (say 1 "one" (@emptyManager jstring)))) as [Hw Hl].
  { split; [|vm_compute; reflexivity]. eapply steps_grown; [apply empty_wf|]. eapply rtc_l; [|eapply rtc_l; [|apply rtc_refl]];
      (eapply step_weaken; [|apply say_step]; exact settled_usable). }
  pose proof (step_label settled (say 2 "two" (say 1 "one" emptyManager)) (demoEnv 3) (js "e1") (Some (js "start")) (demoEnv_settled 3)) as S.
  split; [by apply (step_grown settled _ _ settled_usable Hw S)|by apply (step_labelled _ _ Hw Hl S)].
Qed.

Lemma branched_session_keeps_its_branch_witness :
  exists m', createBranchedSession (fun n => demoIds (10 + Z.of_nat n)) 10 (js "e2") bookmarkedSession = Ok m' /\
  getBranch m' (Some (js "e2")) = getBranch bookmarkedSession (Some (js "e2")) /\ labelsById m' = [(js "e1", js "start")].
Proof.
  destruct (createBranchedSession (fun n => demoIds (10 + Z.of_nat n)) 10 (js "e2") bookmarkedSession) as [m'|] eqn:E; [|vm_compute in E; discriminate E].
  exists m'. split; [reflexivity|].
  destruct (branched_session_keeps_its_branch (fun n => demoIds (10 + Z.of_nat n)) 10 (js "e2") bookmarkedSession m') as (_ & H1 & H2);
    [apply bookmarkedSession_ok|apply bookmarkedSession_ok|intros n; apply demoIds_usable|vm_compute; repeat constructor|exact E|].
  split; [exact H1|]. rewrite H2. vm_compute. reflexivity.
Defined.

(** Where an entry was labelled before the conversation went on, the new session has lost everything before: its messages
    are children of label entries that were left out. *)
Example label_entries_orphan_their_children :
  map id (getBranch labelledSession (Some (js "e3"))) = [js "e1"; js "e2"; js "e3"] /\
  exists m', createBranchedSession (fun n => demoIds (10 + Z.of_nat n)) 10 (js "e3") labelledSession = Ok m' /\
  map id (fileEntries m') = [js "e1"; js "e3"; js "e10"] /\ map id (getBranch m' None) = [js "e3"; js "e10"].
Proof. split; [vm_compute; reflexivity|]. eexists. split; [vm_compute; reflexivity|]. vm_compute. done. Qed.
