(* ===== verification/SessionContext.v ===== *)
(** * The context of a session (packages/coding-agent/src/session/session-manager.ts, packages/agent/src/compaction/messages.ts)

    What of a branch is sent to the model: [buildSessionContext] walks from the leaf to the root, reads the settings off
    the entries and turns the rest into messages, with everything before the last compaction replaced by its summary
    and the messages it kept.  The side tables that tie messages to their entries are not modelled, and the size of a
    context is an argument, since it is measured on the messages, which are a parameter.

    The compaction of a session composes three components: the manager ([SessionTree]) gives the branch, [Compaction]
    prepares the cut, the manager appends the entry, and this file says what the model then sees. *)
From S2P Require Import Prelude JsString JsNumber JsMap JsValue Compaction SessionTree.
From Stdlib Require Import ZifyBool.
Open Scope Z_scope.

(** ** Messages *)

(** What is read of the messages of a conversation. *)
Class RawMessages (R : Type) : Type := {
  rawRole : R -> Role;
  (** [provider] and [model] of an assistant message. *)
  rawProvider : R -> jstring;
  rawModel : R -> jstring;
  rawUsage : R -> option Usage;
  rawCallPaths : R -> list (jstring * jstring);
  agentTokens : AgentMessage R -> Z }.

Section Context.
Context {R : Type} `{RawMessages R}.

#[export] Instance agentMessages : Messages (AgentMessage R) := {|
  role := fun m => match m with
                   | am_raw r => rawRole r
                   | am_custom _ _ _ _ _ _ => otherRole (js "custom")
                   | am_branchSummary _ _ _ => branchSummaryRole
                   | am_compactionSummary _ _ _ _ _ => compactionSummaryRole
                   end;
  messageTokens := agentTokens;
  assistantUsage := fun m => match m with am_raw r => rawUsage r | _ => None end;
  callPaths := fun m => match m with am_raw r => rawCallPaths r | _ => [] end |}.

Definition createCustomMessage (customType : jstring) (content : value) (display : bool) (details : value) (timestamp : Z) (attribution : option jstring)
    : AgentMessage R := am_custom customType content display details attribution timestamp.
Definition createBranchSummaryMessage (summary fromId : jstring) (timestamp : Z) : AgentMessage R := am_branchSummary summary fromId timestamp.
Definition createCompactionSummaryMessage (summary : jstring) (tokensBefore timestamp : Z) (shortSummary : option jstring)
    (providerPayload : option (jstring * list value)) : AgentMessage R := am_compactionSummary summary shortSummary tokensBefore providerPayload timestamp.

(** The inner function [appendMessage] of [buildSessionContext]. *)
Definition contextMessage (e : Entry R) : option (AgentMessage R) :=
  match payload e with
  | p_message m => Some m
  | p_custom_message t c d det attr => Some (createCustomMessage t c d det (timestamp e) attr)
  | p_branch_summary from ((_ :: _) as s) => Some (createBranchSummaryMessage s from (timestamp e))
  | _ => None
  end.

Definition entryType (e : Entry R) : jstring :=
  match payload e with
  | p_message _ => js "message"
  | p_custom_message _ _ _ _ _ => js "custom_message"
  | p_branch_summary _ _ => js "branch_summary"
  | p_compaction _ => js "compaction"
  | p_thinking_level_change _ _ => js "thinking_level_change"
  | p_model_change _ _ _ => js "model_change"
  | p_configured_model_chain _ => js "configured_model_chain"
  | p_custom _ _ => js "custom"
  | p_service_tier_change _ => js "service_tier_change"
  | p_ttsr_injection _ _ _ => js "ttsr_injection"
  | p_mcp_tool_selection _ _ => js "mcp_tool_selection"
  | p_discovered_builtin_tool_selection _ => js "discovered_builtin_tool_selection"
  | p_mode_change _ _ => js "mode_change"
  | p_label _ _ => js "label"
  | p_session_init _ => js "session_init"
  end.

(** The entry as the compaction reads it. *)
Definition toCompaction (e : Entry R) : SessionEntry (AgentMessage R) :=
  match payload e with
  | p_message m => e_message (id e) m
  | p_custom_message t c d det attr => e_custom_message (id e) (createCustomMessage t c d det (timestamp e) attr)
  | p_branch_summary from s => e_branch_summary (id e) (createBranchSummaryMessage s from (timestamp e))
  | p_compaction c => e_compaction (id e) (mkCompaction (c_summary c) (c_preserveData c) (c_fromExtension c) (c_details c))
  | _ => e_other (id e) (entryType e)
  end.

(** ** Configured model chains *)

Record ConfiguredModelChain : Type := mkChain {
  ch_role : jstring; ch_entries : list jstring; ch_origin : jstring; ch_identity : option jstring; ch_explicitHead : bool; ch_cleared : option bool }.

Definition nonEmptyString (v : value) : option jstring := match v with v_string ((_ :: _) as s) => Some s | _ => None end.

Definition isTrue (v : value) : bool := match v with v_bool true => true | _ => false end.

Definition stringOr (v : value) (d : jstring) : jstring := match v with v_string s => s | _ => d end.

Definition normalizeConfiguredModelChainEntry (entry : value) : option ConfiguredModelChain :=
  if isObject entry then
    match nonEmptyString (prop (js "role") entry) with
    | None => None
    | Some r =>
        let origin := stringOr (prop (js "origin") entry) (js "session") in
        let explicit := isTrue (prop (js "explicitHead") entry) in
        if isTrue (prop (js "cleared") entry) then Some (mkChain r [] origin None explicit (Some true))
        else match prop (js "entries") entry with
             | v_array l =>
                 let entries := omap nonEmptyString l in
                 match entries with
                 | [] => None
                 | _ =>
                     let identity := match prop (js "identity") entry with v_string i => Some i | _ => None end in
                     Some (mkChain r entries origin identity explicit None)
                 end
             | _ => None
             end
    end
  else None.

Definition optField (o : option jstring) : value := match o with Some s => v_string s | None => v_undefined end.

Definition appendConfiguredModelChain (c : ConfiguredModelChain) : Payload R :=
  p_configured_model_chain (v_object [
    (js "role", v_string (ch_role c)); (js "entries", v_array (map v_string (ch_entries c))); (js "origin", v_string (ch_origin c));
    (js "identity", optField (ch_identity c)); (js "explicitHead", v_bool (ch_explicitHead c));
    (js "cleared", match ch_cleared c with Some b => v_bool b | None => v_undefined end)]).

(** ** The settings of a branch *)

(** The names every object has. *)
Definition objectPrototypeKeys : list jstring :=
  map js ["constructor"; "__defineGetter__"; "__defineSetter__"; "hasOwnProperty"; "__lookupGetter__"; "__lookupSetter__"; "isPrototypeOf";
          "propertyIsEnumerable"; "toString"; "valueOf"; "__proto__"; "toLocaleString"]%string.

(** [key in object] *)
Definition inObject {V} (k : jstring) (m : list (jstring * V)) : bool := m_has k m || bool_decide (k ∈ objectPrototypeKeys).

Record Models : Type := mkModels {
  models : list (jstring * jstring); configuredModelChains : list (jstring * ConfiguredModelChain); hasExplicitDefaultModel : bool }.

Record Ttsr : Type := mkTtsrState { injectedTtsrRules : list jstring; injectedTtsrRuleRecords : list (jstring * TtsrInjectionRecord); ttsrMessageCount : number }.

Record ToolSelection : Type := mkTools {
  selectedMCPToolNames : list jstring; hasPersistedMCPToolSelection : bool;
  selectedDiscoveredBuiltinToolNames : option (list jstring); hasPersistedDiscoveredBuiltinToolSelection : bool }.

(** The variables of the loop over the path. *)
Record Settings : Type := mkSettingsState {
  thinkingLevel : jstring; serviceTier : option jstring; st_models : Models; modelProfileOwnershipMarker : option ModelProfileOwnershipMarker;
  compaction : option (Entry R * CompactionEntry); ttsr : Ttsr; tools : ToolSelection; mode : jstring * value }.

Definition initialSettings : Settings :=
  mkSettingsState (js "off") None (mkModels [] [] false) None None (mkTtsrState [] [] (Fin 0)) (mkTools [] false None false) (js "none", v_undefined).

Definition changeModel (model : jstring) (r : option jstring) (cleared : bool) (ms : Models) : Models :=
  let r := default (js "default") r in
  let explicit := hasExplicitDefaultModel ms || bool_decide (r = js "default") in
  if cleared then mkModels (m_delete r (models ms)) (configuredModelChains ms) explicit
  else match model with
       | [] => ms
       | _ => mkModels (m_set r model (models ms)) (configuredModelChains ms) explicit
       end.

Definition changeChain (v : value) (ms : Models) : Models :=
  match normalizeConfiguredModelChainEntry v with
  | Some c =>
      match ch_cleared c with
      | Some true => mkModels (models ms) (m_delete (ch_role c) (configuredModelChains ms)) (hasExplicitDefaultModel ms)
      | _ => mkModels (models ms) (m_set (ch_role c) c (configuredModelChains ms)) (hasExplicitDefaultModel ms)
      end
  | None => ms
  end.

(** Legacy sessions: the model of the last assistant message, unless one was chosen. *)
Definition inferModel (m : AgentMessage R) (ms : Models) : Models :=
  match m with
  | am_raw r =>
      if bool_decide (rawRole r = assistant) && negb (hasExplicitDefaultModel ms)
      then mkModels (m_set (js "default") (rawProvider r ++ js "/" ++ rawModel r) (models ms)) (configuredModelChains ms) false
      else ms
  | _ => ms
  end.

Definition injectRules (rules : list jstring) (records : option (list TtsrInjectionRecord)) (count : option number) (t : Ttsr) : Ttsr :=
  let addRule t name :=
    mkTtsrState (s_add (injectedTtsrRules t) name)
      (if m_has name (injectedTtsrRuleRecords t) then injectedTtsrRuleRecords t else m_set name (mkTtsr name 0) (injectedTtsrRuleRecords t)) (ttsrMessageCount t) in
  let addRecord t r := mkTtsrState (s_add (injectedTtsrRules t) (ttsr_name r)) (m_set (ttsr_name r) r (injectedTtsrRuleRecords t)) (ttsrMessageCount t) in
  let t := foldl addRecord (foldl addRule t rules) (default [] records) in
  match count with Some (Fin q) => mkTtsrState (injectedTtsrRules t) (injectedTtsrRuleRecords t) (Fin q) | _ => t end.

Definition withModels (f : Models -> Models) (s : Settings) : Settings :=
  mkSettingsState (thinkingLevel s) (serviceTier s) (f (st_models s)) (modelProfileOwnershipMarker s) (compaction s) (ttsr s) (tools s) (mode s).

Definition withTools (f : ToolSelection -> ToolSelection) (s : Settings) : Settings :=
  mkSettingsState (thinkingLevel s) (serviceTier s) (st_models s) (modelProfileOwnershipMarker s) (compaction s) (ttsr s) (f (tools s)) (mode s).

(** One round of the loop. *)
Definition settingsStep (s : Settings) (e : Entry R) : result SessionError Settings :=
  let '(mkSettingsState th tier ms marker comp rules tl md) := s in
  match payload e with
  | p_thinking_level_change l _ => Ok (mkSettingsState (default (js "off") l) tier ms marker comp rules tl md)
  | p_model_change m r cl => Ok (withModels (changeModel m r cl) s)
  | p_configured_model_chain v => Ok (withModels (changeChain v) s)
  | p_custom t data =>
      if bool_decide (t = MODEL_PROFILE_OWNERSHIP_ENTRY) then
        match validateModelProfileOwnershipMarker data with
        | Some v => Ok (mkSettingsState th tier ms (Some v) comp rules tl md)
        | None => Throw InvalidModelProfileOwnership
        end
      else Ok s
  | p_service_tier_change t => Ok (mkSettingsState th t ms marker comp rules tl md)
  | p_message m => Ok (withModels (inferModel m) s)
  | p_compaction c => Ok (mkSettingsState th tier ms marker (Some (e, c)) rules tl md)
  | p_ttsr_injection rs recs n => Ok (mkSettingsState th tier ms marker comp (injectRules rs recs n rules) tl md)
  | p_mcp_tool_selection names b =>
      Ok (withTools (fun t => match b with
                              | Some l => mkTools names true (Some l) true
                              | None => mkTools names true (selectedDiscoveredBuiltinToolNames t) (hasPersistedDiscoveredBuiltinToolSelection t)
                              end) s)
  | p_discovered_builtin_tool_selection names =>
      Ok (withTools (fun t => mkTools (selectedMCPToolNames t) (hasPersistedMCPToolSelection t) (Some names) true) s)
  | p_mode_change m d => Ok (mkSettingsState th tier ms marker comp rules tl (m, d))
  | p_custom_message _ _ _ _ _ | p_branch_summary _ _ | p_label _ _ | p_session_init _ => Ok s
  end.

(** A chain of one model for every role that has a model and no chain. *)
Definition legacyChains (ms : Models) : list (jstring * ConfiguredModelChain) :=
  foldl (fun chains rm => if inObject rm.1 chains then chains else m_set rm.1 (mkChain rm.1 [rm.2] (js "legacy_session") None true None) chains)
    (configuredModelChains ms) (models ms).

(** The role of the nearest model change, from the leaf. *)
Definition getLastModelChangeRole (m : Manager R) : option jstring :=
  head (omap (fun e => match payload e with p_model_change _ r _ => Some (default (js "default") r) | _ => None end)
          (walk (byId m) (S (length (byId m))) [] (resolveEntry (byId m) (leafId m)))).

Definition getInjectedTtsrRules (m : Manager R) : list jstring :=
  foldl (fun names e => match payload e with p_ttsr_injection rules _ _ => foldl s_add names rules | _ => names end) [] (getBranch m None).

Definition getLatestCompactionEntry (entries : list (Entry R)) : option (Entry R) :=
  List.find (fun e => match payload e with p_compaction _ => true | _ => false end) (reverse entries).

(** ** The messages of a branch *)

(** The provider's own compacted history, when the compaction stored one. *)
Definition remotePayload (c : CompactionEntry) : option (jstring * list value) :=
  let candidate := from_option (prop (js "openaiRemoteCompaction")) v_undefined (c_preserveData c) in
  if isObject candidate then
    match nonEmptyString (prop (js "provider") candidate), prop (js "replacementHistory") candidate with
    | Some p, v_array items => Some (p, items)
    | _, _ => None
    end
  else None.

(** The index of the compaction with the given identifier; the one that is looked up is on the path. *)
Fixpoint compactionIndex (i : jstring) (path : list (Entry R)) : option nat :=
  match path with
  | [] => None
  | e :: path' =>
      if match payload e with p_compaction _ => bool_decide (id e = i) | _ => false end then Some 0%nat else S <$> compactionIndex i path'
  end.

(** [for (...) { if (entry.id === firstKept) found = true; if (found) append }] *)
Fixpoint keptFrom (firstKept : jstring) (found : bool) (entries : list (Entry R)) : list (Entry R) :=
  match entries with
  | [] => []
  | e :: entries' =>
      let found := found || bool_decide (id e = firstKept) in
      if found then e :: keptFrom firstKept found entries' else keptFrom firstKept found entries'
  end.

Definition contextMessages (comp : option (Entry R * CompactionEntry)) (path : list (Entry R)) : list (AgentMessage R) :=
  match comp with
  | None => omap contextMessage path
  | Some (e, c) =>
      let remote := remotePayload c in
      let i := default 0%nat (compactionIndex (id e) path) in
      createCompactionSummaryMessage (c_summary c) (c_tokensBefore c) (timestamp e) (c_shortSummary c) remote
      :: (match remote with Some _ => [] | None => omap contextMessage (keptFrom (c_firstKeptEntryId c) false (take i path)) end)
      ++ omap contextMessage (drop (S i) path)
  end.

Record SessionContext : Type := mkContext {
  messages : list (AgentMessage R); ctx_thinkingLevel : jstring; ctx_serviceTier : option jstring; ctx_models : list (jstring * jstring);
  ctx_configuredModelChains : list (jstring * ConfiguredModelChain); ctx_marker : option ModelProfileOwnershipMarker; ctx_ttsr : Ttsr;
  ctx_tools : ToolSelection; ctx_mode : jstring * value }.

Definition settingsContext (s : Settings) (msgs : list (AgentMessage R)) : SessionContext :=
  mkContext msgs (thinkingLevel s) (serviceTier s) (models (st_models s)) (legacyChains (st_models s)) (modelProfileOwnershipMarker s) (ttsr s) (tools s) (mode s).

Definition emptyContext : SessionContext := settingsContext initialSettings [].

(** The size of a context and the budget it must fit in. *)
Context (measureBytes : SessionContext -> Z) (budgetBytes : Z).

Definition assertSessionContextWithinBudget (c : SessionContext) : result SessionError SessionContext :=
  if budgetBytes <? measureBytes c then Throw (SessionContextTooLarge (measureBytes c) budgetBytes) else Ok c.

Definition pathContext (path : list (Entry R)) : result SessionError SessionContext :=
  s ← foldM settingsStep initialSettings path;
  assertSessionContextWithinBudget (settingsContext s (contextMessages (compaction s) path)).

(** [leafId] may be missing ([None]), null ([Some None]) or an identifier. *)
Definition buildSessionContext (entries : list (Entry R)) (leaf : option (option jstring)) : result SessionError SessionContext :=
  let ix := foldl (fun ix e => m_set (id e) e ix) [] entries in
  match leaf with
  | Some None => Ok emptyContext
  | _ =>
      let found := match leaf with Some l => resolveEntry ix l | None => None end in
      match (match found with Some e => Some e | None => last entries end) with
      | None => Ok emptyContext
      | Some e => pathContext (pathTo ix (Some e))
      end
  end.

(** [#getSessionContextForRead] of a session without a cold part: the branch of the leaf. *)
Definition sessionContext (m : Manager R) : result SessionError SessionContext := buildSessionContext (getBranch m None) (Some (leafId m)).

(** ** The context is that of the branch *)

Lemma index_fold l : grows l -> foldl (fun ix (e : Entry R) => m_set (id e) e ix) [] l = index l.
Proof.
  induction 1 as [|l e Hg IH Hf _ _]; [done|]. rewrite foldl_app, IH, index_app. cbn [foldl]. rewrite m_set_fresh by by rewrite index_keys. done.
Qed.

Lemma sessionContext_path m : wf m -> leafId m ≠ None -> getBranch m None ≠ [] /\ sessionContext m = pathContext (getBranch m None).
Proof.
  intros Hw Hl. rewrite getBranch_leaf. unfold sessionContext. rewrite getBranch_leaf. destruct (leafId m) as [i|] eqn:El; [|done].
  destruct (getBranch_path m i Hw (wf_leaf m Hw i El)) as (x & X1 & X2 & X3). specialize (X3 m (grown_refl m Hw)).
  assert (getBranch m (Some i) ≠ []) as Hne.
  { rewrite X3. pose proof (branch_last _ _ _ (pathTo_branch _ x (wf_grows m Hw) X1)) as Hx. by intros E; rewrite E in Hx. }
  split; [done|]. destruct (getBranch_grows m i Hw Hne) as (e & <- & _ & Heb & _ & Gb & Bb). unfold buildSessionContext.
  rewrite index_fold by done. assert (resolveEntry (index (getBranch m (Some (id e)))) (Some (id e)) = Some e) as -> by by apply resolve_id.
  by rewrite Bb.
Qed.

(** Ownership markers of a branch that can be read. *)
Definition validMarker (e : Entry R) : Prop :=
  match payload e with
  | p_custom t d => t = MODEL_PROFILE_OWNERSHIP_ENTRY -> is_Some (validateModelProfileOwnershipMarker d)
  | _ => True
  end.

Lemma settingsStep_Ok s e : validMarker e ->
  exists s', settingsStep s e = Ok s' /\ compaction s' = match payload e with p_compaction c => Some (e, c) | _ => compaction s end.
Proof.
  unfold validMarker. intros Hv. destruct s as [th tier ms marker comp rules tl md]. unfold settingsStep. destruct (payload e); try (eexists; split; reflexivity).
  case_bool_decide as Ht; [|eexists; split; reflexivity]. destruct (Hv Ht) as [v ->]. eexists; split; reflexivity.
Qed.

Lemma settings_Ok path s : Forall validMarker path -> exists s', foldM settingsStep s path = Ok s'.
Proof.
  intros Hv. revert s. induction Hv as [|e path He _ IH]; intros s; [by eexists|]. destruct (settingsStep_Ok s e He) as (s' & E & _). cbn. rewrite E. apply IH.
Qed.

(** ** Compaction *)

Lemma compactionIndex_snoc path e c : id e ∉ map id path -> payload e = p_compaction c -> compactionIndex (id e) (path ++ [e]) = Some (length path).
Proof.
  intros Hf Hp. induction path as [|x path IH]; cbn [app compactionIndex map] in *; [by rewrite Hp, bool_decide_true|].
  apply not_elem_of_cons in Hf as [H1 H2]. rewrite IH by done.
  destruct (match payload x with p_compaction _ => _ | _ => _ end) eqn:E; [|done]. destruct (payload x); try done. by apply bool_decide_eq_true in E.
Qed.

Lemma keptFrom_true fk l : keptFrom fk true l = l.
Proof. induction l as [|e l IH]; cbn; [done|]. by rewrite IH. Qed.

Lemma keptFrom_split pre x post : id x ∉ map id pre -> keptFrom (id x) false (pre ++ x :: post) = x :: post.
Proof.
  induction pre as [|e pre IH]; intros Hx; cbn [app keptFrom map] in *.
  - rewrite bool_decide_true by done. cbn. by rewrite keptFrom_true.
  - apply not_elem_of_cons in Hx as [H1 H2]. rewrite bool_decide_false by auto. cbn. by apply IH.
Qed.

(** Branch summaries that say something; the others are counted by the compaction and left out of the context. *)
Definition realSummary (e : Entry R) : Prop := match payload e with p_branch_summary _ s => s ≠ [] | _ => True end.

Lemma contextMessage_toCompaction e : realSummary e -> getMessageFromEntry (toCompaction e) = contextMessage e.
Proof. unfold realSummary, toCompaction, contextMessage. destruct (payload e); try done. by match goal with |- ?s ≠ [] -> _ => destruct s end. Qed.

Lemma messages_toCompaction l : Forall realSummary l -> omap getMessageFromEntry (map toCompaction l) = omap contextMessage l.
Proof.
  induction 1 as [|e l He _ IH]; [done|]. cbn [map]. unfold omap. cbn [list_omap]. rewrite (contextMessage_toCompaction e He).
  unfold omap in IH. by rewrite IH.
Qed.

Lemma entryId_toCompaction e : entryId (toCompaction e) = id e.
Proof. unfold toCompaction. by destruct (payload e). Qed.

Lemma contextMessages_compaction path p st ratio cw e c :
  NoDup (map id path) -> id e ∉ map id path -> Forall realSummary path ->
  prepareCompaction (map toCompaction path) st ratio cw = Some p ->
  payload e = p_compaction c -> c_firstKeptEntryId c = firstKeptEntryId p -> remotePayload c = None ->
  contextMessages (Some (e, c)) (path ++ [e]) =
    createCompactionSummaryMessage (c_summary c) (c_tokensBefore c) (timestamp e) (c_shortSummary c) None :: recentMessages p.
Proof.
  intros Hnd Hf Hrs Hp Hpe Hk Hr. unfold contextMessages. rewrite Hr, (compactionIndex_snoc path e c) by done. cbn [default from_option Datatypes.id].
  rewrite take_app_length. rewrite drop_ge by (rewrite length_app; cbn; lia). f_equal. cbn [omap list_omap]. rewrite app_nil_r.
  destruct (preparation_keeps_a_suffix _ _ _ _ _ Hp) as (pre & x & post & E & F1 & F2). rewrite Hk, F1, F2.
  apply map_eq_app in E as (pre' & xpost & -> & <- & E). destruct xpost as [|x' post']; [done|]. cbn [map] in E. injection E as <- <-.
  rewrite entryId_toCompaction, map_app in *. cbn [map] in Hnd. apply NoDup_app in Hnd as (_ & N2 & _).
  rewrite keptFrom_split by (intros Hin; apply (N2 _ Hin), elem_of_cons; by left).
  rewrite <- (messages_toCompaction (x' :: post')); [done|]. by apply Forall_app in Hrs as [_ Hrs].
Qed.

Lemma withinBudget c : (forall ctx, measureBytes ctx <= budgetBytes) -> assertSessionContextWithinBudget c = Ok c.
Proof. intros Hb. unfold assertSessionContextWithinBudget. specialize (Hb c). destruct (Z.ltb_spec budgetBytes (measureBytes c)); [lia|done]. Qed.


(** ** The chosen model *)

(** A change of the default model: a new one, or none. *)
Definition changesDefault (e : Entry R) : bool :=
  match payload e with p_model_change _ r _ => bool_decide (default (js "default") r = js "default") | _ => false end.

Definition chosen (o : option jstring) (ms : Models) : Prop := hasExplicitDefaultModel ms = true /\ m_get (js "default") (models ms) = o.

Lemma changeModel_chosen o model r cl ms : default (js "default") r ≠ js "default" -> chosen o ms -> chosen o (changeModel model r cl ms).
Proof.
  intros Hr [H1 H2]. unfold changeModel. destruct cl.
  - split; cbn; [by rewrite H1|]. by rewrite m_get_delete_ne.
  - destruct model as [|c model]; [done|]. split; cbn [hasExplicitDefaultModel models]; [by rewrite H1|]. by rewrite m_get_set_ne.
Qed.

Lemma settingsStep_chosen o s e s' : changesDefault e = false -> settingsStep s e = Ok s' -> chosen o (st_models s) -> chosen o (st_models s').
Proof.
  destruct s as [th tier ms marker comp rules tl md]. unfold changesDefault, settingsStep. intros He Hs Hc.
  destruct (payload e) as [m| | | | |model r cl|v|t data| | | | | | |]; try (injection Hs as <-; exact Hc).
  - injection Hs as <-. cbn in *. unfold inferModel. destruct Hc as [C1 C2]. destruct m; try done. rewrite C1, andb_false_r. done.
  - injection Hs as <-. apply bool_decide_eq_false in He. by apply changeModel_chosen.
  - injection Hs as <-. cbn in *. unfold changeChain. destruct (normalizeConfiguredModelChainEntry v) as [c|]; [|done]. by destruct (ch_cleared c) as [[]|].
  - destruct (bool_decide _); [|by injection Hs as <-]. destruct (validateModelProfileOwnershipMarker data); [|done]. by injection Hs as <-.
Qed.

Lemma settings_chosen o path s s' : Forall (fun e => changesDefault e = false) path -> foldM settingsStep s path = Ok s' ->
  chosen o (st_models s) -> chosen o (st_models s').
Proof.
  intros Hp. revert s. induction Hp as [|e path He _ IH]; intros s Hs Hc; cbn [foldM] in Hs; [by injection Hs as <-|].
  destruct (settingsStep s e) as [s1|] eqn:E; [|done]. apply (IH s1 Hs). by eapply settingsStep_chosen.
Qed.

(** The default model of a session is the one last chosen for it, whatever models answered afterwards; once cleared it is
    missing until another is chosen. *)
Theorem chosen_default_model_stays pre e post model r cleared ctx :
  payload e = p_model_change model r cleared -> default (js "default") r = js "default" -> cleared = true \/ model ≠ [] ->
  Forall (fun e => changesDefault e = false) post -> pathContext (pre ++ e :: post) = Ok ctx ->
  m_get (js "default") (ctx_models ctx) = if cleared then None else Some model.
Proof.
  intros He Hr Hm Hpost Hctx. unfold pathContext in Hctx. rewrite foldM_app in Hctx. destruct (foldM settingsStep initialSettings pre) as [s|]; [|done].
  cbn [mbind result_bind foldM] in Hctx.
  assert (exists s1, settingsStep s e = Ok s1 /\ chosen (if cleared then None else Some model) (st_models s1)) as (s1 & E1 & C1).
  { destruct s as [th tier ms marker comp rules tl md]. unfold settingsStep. rewrite He. eexists. split; [reflexivity|]. cbn [st_models withModels].
    unfold changeModel. rewrite Hr, bool_decide_true by done. destruct cleared.
    - split; cbn; [apply orb_true_r|apply m_get_delete_eq].
    - destruct model as [|c model]; [by destruct Hm|]. split; cbn; [apply orb_true_r|apply m_get_set_eq]. }
  rewrite E1 in Hctx. cbn [mbind result_bind] in Hctx. destruct (foldM settingsStep s1 post) as [s2|] eqn:E2; [|done].
  pose proof (settings_chosen _ _ _ _ Hpost E2 C1) as [_ C2]. cbn [mbind result_bind] in Hctx.
  unfold assertSessionContextWithinBudget in Hctx. destruct (_ <? _); [done|]. injection Hctx as <-. exact C2.
Qed.

(** A chain of models is read back from the entry it was written to. *)
Lemma chain_survives_its_entry c :
  ch_role c ≠ [] -> ch_entries c ≠ [] -> Forall (fun e => e ≠ []) (ch_entries c) -> ch_cleared c = None ->
  match appendConfiguredModelChain c with p_configured_model_chain v => normalizeConfiguredModelChainEntry v | _ => None end = Some c.
Proof.
  destruct c as [r es o i x cl]. cbn [ch_role ch_entries ch_cleared]. intros Hr Hes Hall ->. destruct r as [|u r]; [done|].
  assert (omap nonEmptyString (map v_string es) = es) as Ho.
  { clear - Hall. induction Hall as [|e es He _ IH]; [done|]. destruct e as [|w e]; [done|]. unfold omap in *. cbn in *. by rewrite IH. }
  unfold appendConfiguredModelChain, normalizeConfiguredModelChainEntry. cbn [isObject ch_role ch_entries ch_origin ch_identity ch_explicitHead ch_cleared].
  set (obj := v_object _). change (prop (js "role") obj) with (v_string (u :: r)). change (prop (js "origin") obj) with (v_string o).
  change (prop (js "explicitHead") obj) with (v_bool x). change (prop (js "cleared") obj) with v_undefined.
  change (prop (js "entries") obj) with (v_array (map v_string es)). change (prop (js "identity") obj) with (optField i).
  cbn [nonEmptyString isTrue stringOr]. rewrite Ho. destruct es; [done|].
  destruct i; destruct x; done.
Qed.

End Context.

(** ** Sessions *)

(** Messages that are a role and a text, of ten tokens each. *)
#[local] Instance demoRaw : RawMessages (Role * jstring) := {|
  rawRole := fst; rawProvider := fun _ => js "p"; rawModel := snd; rawUsage := fun _ => None; rawCallPaths := fun _ => []; agentTokens := fun _ => 10 |}.

Definition turn (n : Z) (r : Role) (text : string) (m : Manager (Role * jstring)) : Manager (Role * jstring) :=
  (append (demoEnv n) (appendMessage (am_raw (r, js text))) m).1.

(** Two turns of a user and an assistant. *)
Definition conversation (n : Z) (a b c d : string) (m : Manager (Role * jstring)) : Manager (Role * jstring) :=
  turn (n + 3) assistant d (turn (n + 2) user c (turn (n + 1) assistant b (turn n user a m))).

(** Keep about fifteen tokens. *)
Definition demoSettings : CompactionSettings := Compaction.mkSettings true None None None None None 0 15.

Definition prepareHere (m : Manager (Role * jstring)) : option (@CompactionPreparation (AgentMessage (Role * jstring))) :=
  prepareCompaction (map toCompaction (getBranch m None)) demoSettings None None.

Definition compactHere (n : Z) (text : string) (m : Manager (Role * jstring)) : Manager (Role * jstring) :=
  match prepareHere m with
  | Some p => (append (demoEnv n) (appendCompaction (js text) None (firstKeptEntryId p) 0 None false None) m).1
  | None => m
  end.

Definition texts (l : list (AgentMessage (Role * jstring))) : list jstring :=
  omap (fun m => match m with am_raw r => Some r.2 | am_compactionSummary s _ _ _ _ => Some s | _ => None end) l.

Definition seen (m : Manager (Role * jstring)) : list jstring :=
  match sessionContext (fun _ => 0) 0 m with Ok c => texts (messages c) | Throw _ => [] end.

Definition twoTurns : Manager (Role * jstring) := conversation 1 "u1" "a1" "u2" "a2" emptyManager.

Lemma turn_step n r t m : step usable m (turn n r t m).
Proof. apply step_append; [apply demoIds_usable|done]. Qed.

Lemma twoTurns_wf : wf twoTurns.
Proof. eapply steps_grown; [apply empty_wf|]. do 4 (eapply rtc_l; [apply turn_step|]). apply rtc_refl. Qed.


Lemma chosen_default_model_stays_witness :
  exists ctx, pathContext (fun _ => 0) 0 (mkEntry (js "a") None 0 (appendModelChange (js "p/mine") None) :: getBranch twoTurns None) = Ok ctx /\
  m_get (js "default") (ctx_models ctx) = Some (js "p/mine").
Proof.
  destruct (pathContext (fun _ => 0) 0 (mkEntry (js "a") None 0 (appendModelChange (js "p/mine") None) :: getBranch twoTurns None)) as [ctx|] eqn:E;
    [|vm_compute in E; discriminate E].
  exists ctx. split; [reflexivity|].
  apply (chosen_default_model_stays (fun _ => 0) 0 [] (mkEntry (js "a") None 0 (appendModelChange (js "p/mine") None)) (getBranch twoTurns None) (js "p/mine") None false ctx);
    [reflexivity|reflexivity|right; discriminate|vm_compute; repeat constructor|exact E].
Defined.

(** The messages that a compaction kept are lost at the next one: it prepares only what came after the first, and its own
    cut lies there too, so they are neither summarised nor kept, although the model saw them until then. *)
Example kept_messages_vanish_at_the_next_compaction :
  let once := conversation 6 "u3" "a3" "u4" "a4" (compactHere 5 "first summary" twoTurns) in
  seen once = map js ["first summary"; "u2"; "a2"; "u3"; "a3"; "u4"; "a4"]%string /\
  (exists p, prepareHere once = Some p /\ previousSummary p = Some (js "first summary") /\
     texts (messagesToSummarize p ++ turnPrefixMessages p ++ recentMessages p) = map js ["u3"; "a3"; "u4"; "a4"]%string) /\
  seen (compactHere 10 "second summary" once) = map js ["second summary"; "u4"; "a4"]%string.
Proof. cbn zeta. split; [vm_compute; reflexivity|]. split; [|vm_compute; reflexivity]. eexists. split; [vm_compute; reflexivity|]. vm_compute. done. Qed.
