(* ===== verification/Recap.v ===== *)
(** * Session recaps (packages/coding-agent/src/session/recap.ts, src/sdk/session-recap.ts)

    A recap is a line of text that a model wrote about the last turn of a branch, stored as a custom entry.  Modelled are
    the strict validation of the stored payload, the decision whether a recap may be appended and the walker that finds
    the recap, if any, that still describes the last turn.  Iterators over the branch, newest entry first, are lists. *)
From S2P Require Import Prelude JsString JsNumber JsMap JsValue Compaction SessionTree SessionContext.
From Stdlib Require Import ZifyBool.
Open Scope Z_scope.

(** ** The payload *)

Definition SESSION_RECAP_SCHEMA_VERSION : Z := 1.
Definition SESSION_RECAP_MAX_CODEPOINTS : Z := 120.
Definition SESSION_RECAP_MAX_BYTES : Z := 720.
Definition SESSION_RECAP_MAX_TOKEN_LENGTH : Z := 200.
Definition SESSION_RECAP_ENTRY : jstring := js "session_recap".
Definition SESSION_RECAP_MAX_CANDIDATES : Z := 256.

Record SessionRecap : Type := mkRecap {
  text : jstring; sourceEntryId : jstring; requestEntryId : jstring; modelProvider : jstring; modelId : jstring; generatedAt : jstring }.

Definition isHigh (c : N) : bool := ((55296 <=? c) && (c <=? 56319))%N.
Definition isLow (c : N) : bool := ((56320 <=? c) && (c <=? 57343))%N.

(** The code points of a string; surrogates without a partner stand for themselves. *)
Fixpoint codePointsOf (s : jstring) : list N :=
  match s with
  | [] => []
  | h :: s' =>
      match s' with
      | l :: s'' => if isHigh h && isLow l then (65536 + (h - 55296) * 1024 + (l - 56320))%N :: codePointsOf s'' else h :: codePointsOf s'
      | [] => [h]
      end
  end.

(** [FORBIDDEN_TEXT]: control characters, lone surrogates, separators of lines and paragraphs, invisible and bidi marks. *)
Definition forbiddenPoint (c : N) : bool :=
  ((c <=? 31) || ((127 <=? c) && (c <=? 159)) || ((55296 <=? c) && (c <=? 57343)) || (c =? 8232) || (c =? 8233) || (c =? 8203) || (c =? 8206) || (c =? 8207)
   || ((8234 <=? c) && (c <=? 8238)) || ((8288 <=? c) && (c <=? 8297)) || (c =? 65279))%N.
Definition FORBIDDEN_TEXT (s : jstring) : bool := existsb forbiddenPoint (codePointsOf s).

(** [Buffer.byteLength(text, "utf8")]; a lone surrogate is written as three bytes. *)
Definition utf8Bytes (c : N) : Z := if (c <? 128)%N then 1 else if (c <? 2048)%N then 2 else if (c <? 65536)%N then 3 else 4.
Definition byteLength (s : jstring) : Z := foldr (fun c n => utf8Bytes c + n) 0 (codePointsOf s).

Definition isPlainRecord (v : value) : bool := match v with v_object _ => true | _ => false end.

Definition hasExactKeys (v : value) (allowed : list jstring) : bool :=
  match v with
  | v_object fields => (length fields =? length allowed)%nat && forallb (fun f => bool_decide (f.1 ∈ allowed)) fields
  | _ => false
  end.

Definition isToken (v : value) : option jstring :=
  match v with
  | v_string s =>
      if (0 <? zlength s) && (zlength s <=? SESSION_RECAP_MAX_TOKEN_LENGTH) && bool_decide (s = trim s) && negb (FORBIDDEN_TEXT s) then Some s else None
  | _ => None
  end.

Definition isValidSessionRecapText (v : value) : option jstring :=
  match v with
  | v_string s =>
      if (zlength s =? 0) || negb (bool_decide (s = trim s)) then None
      else if FORBIDDEN_TEXT s then None
      else if SESSION_RECAP_MAX_BYTES <? zlength s then None
      else if SESSION_RECAP_MAX_CODEPOINTS <? zlength (codePointsOf s) then None
      else if byteLength s <=? SESSION_RECAP_MAX_BYTES then Some s else None
  | _ => None
  end.

(** *** Times as [Date.prototype.toISOString] writes them *)

(** Exactly [n] digits, then the rest. *)
Fixpoint digits (n : nat) (acc : Z) (s : jstring) : option (Z * jstring) :=
  match n with
  | O => Some (acc, s)
  | S n' => match s with c :: s' => if is_digit c then digits n' (10 * acc + Z.of_N c - 48) s' else None | [] => None end
  end.

Definition expect (c : N) (s : jstring) : option jstring := match s with d :: s' => if (d =? c)%N then Some s' else None | [] => None end.

Definition isLeap (y : Z) : bool := (y mod 4 =? 0) && (negb (y mod 100 =? 0) || (y mod 400 =? 0)).
Definition daysIn (y m : Z) : Z :=
  if m =? 2 then (if isLeap y then 29 else 28) else if (m =? 4) || (m =? 6) || (m =? 9) || (m =? 11) then 30 else 31.

(** The year: four digits, or a sign and six for a year that needs them. *)
Definition isoYear (s : jstring) : option (Z * jstring) :=
  match s with
  | 43%N :: s' => y ← digits 6 0 s'; if 9999 <? y.1 then Some y else None
  | 45%N :: s' => y ← digits 6 0 s'; if 0 <? y.1 then Some (- y.1, y.2) else None
  | _ => digits 4 0 s
  end.

(** Month, day, hour, minute, second and milliseconds after the year. *)
Definition isoRest (s : jstring) : option (Z * Z * Z * Z * Z * Z) :=
  s ← expect 45 s; mo ← digits 2 0 s; s ← expect 45 mo.2; d ← digits 2 0 s; s ← expect 84 d.2; h ← digits 2 0 s;
  s ← expect 58 h.2; mi ← digits 2 0 s; s ← expect 58 mi.2; sec ← digits 2 0 s; s ← expect 46 sec.2; ms ← digits 3 0 s;
  s ← expect 90 ms.2; match s with [] => Some (mo.1, d.1, h.1, mi.1, sec.1, ms.1) | _ => None end.

(** Within the range of instants, which ends at midnight of two days. *)
Definition inDateRange (y mo d : Z) (midnight : bool) : bool :=
  let after := (-271821 <? y) || ((y =? -271821) && ((4 <? mo) || ((mo =? 4) && (20 <=? d)))) in
  let before := (y <? 275760) || ((y =? 275760) && ((mo <? 9) || ((mo =? 9) && ((d <? 13) || ((d =? 13) && midnight))))) in
  after && before.

Definition isCanonicalIsoTime (v : value) : option jstring :=
  match v with
  | v_string s =>
      match isoYear s with
      | Some (y, rest) =>
          match isoRest rest with
          | Some (mo, d, h, mi, sec, ms) =>
              if (1 <=? mo) && (mo <=? 12) && (1 <=? d) && (d <=? daysIn y mo) && (h <=? 23) && (mi <=? 59) && (sec <=? 59)
                 && inDateRange y mo d ((h =? 0) && (mi =? 0) && (sec =? 0) && (ms =? 0))
              then Some s else None
          | None => None
          end
      | None => None
      end
  | _ => None
  end.

Definition RECAP_KEYS : list jstring := map js ["schemaVersion"; "text"; "sourceEntryId"; "requestEntryId"; "model"; "generatedAt"]%string.
Definition MODEL_KEYS : list jstring := map js ["provider"; "id"]%string.

Definition validateSessionRecap (v : value) : option SessionRecap :=
  if negb (isPlainRecord v) || negb (hasExactKeys v RECAP_KEYS) then None
  else match prop (js "schemaVersion") v with
  | v_number n =>
      if negb (n =? SESSION_RECAP_SCHEMA_VERSION) then None
      else
        txt ← isValidSessionRecapText (prop (js "text") v);
        source ← isToken (prop (js "sourceEntryId") v);
        request ← isToken (prop (js "requestEntryId") v);
        if bool_decide (source = request) then None
        else
          let model := prop (js "model") v in
          if negb (isPlainRecord model) || negb (hasExactKeys model MODEL_KEYS) then None
          else
            prov ← isToken (prop (js "provider") model);
            mid ← isToken (prop (js "id") model);
            at_ ← isCanonicalIsoTime (prop (js "generatedAt") v);
            Some (mkRecap txt source request prov mid at_)
  | _ => None
  end.

(** The payload that is stored. *)
Definition recapValue (r : SessionRecap) : value :=
  v_object [(js "schemaVersion", v_number SESSION_RECAP_SCHEMA_VERSION); (js "text", v_string (text r)); (js "sourceEntryId", v_string (sourceEntryId r));
            (js "requestEntryId", v_string (requestEntryId r));
            (js "model", v_object [(js "provider", v_string (modelProvider r)); (js "id", v_string (modelId r))]);
            (js "generatedAt", v_string (generatedAt r))].

(** ** Entries of the branch *)

Definition NON_CONVERSATION_ENTRY_TYPES : list jstring :=
  map js ["thinking_level_change"; "model_change"; "service_tier_change"; "configured_model_chain"; "compaction"; "custom"; "label"; "ttsr_injection";
          "mcp_tool_selection"; "discovered_builtin_tool_selection"; "session_init"; "mode_change"]%string.

Record RecapLineageEntry : Type := mkLineage {
  l_id : jstring; l_type : jstring; l_customType : option jstring; l_data : value; l_role : option jstring; l_stopReason : option jstring }.

Definition KNOWN_ENTRY_TYPES : list jstring := NON_CONVERSATION_ENTRY_TYPES ++ map js ["message"; "custom_message"; "branch_summary"]%string.
Definition NON_ENTRY_RECORD_TYPES : list jstring := map js ["session"; "header_patch"; "entry_patch"]%string.

Inductive RecapRecordClassification : Type := rr_entry (e : RecapLineageEntry) (parent : option jstring) | rr_skip | rr_invalid.

(** [null] or a string *)
Definition parentField (v : value) : option (option jstring) := match v with v_null => Some None | v_string s => Some (Some s) | _ => None end.

(** A record of the transcript; arrays are no records. *)
Definition classifyRecapRecord (record : value) : RecapRecordClassification :=
  match record with
  | v_object _ =>
      match prop (js "type") record with
      | v_string t =>
          if bool_decide (t ∈ NON_ENTRY_RECORD_TYPES) then rr_skip
          else if negb (bool_decide (t ∈ KNOWN_ENTRY_TYPES)) then rr_invalid
          else
            match nonEmptyString (prop (js "id") record), parentField (prop (js "parentId") record), prop (js "timestamp") record with
            | Some i, Some parent, v_string _ =>
                if bool_decide (t = js "custom") then
                  match prop (js "customType") record with
                  | v_string ct => rr_entry (mkLineage i t (Some ct) (prop (js "data") record) None None) parent
                  | _ => rr_invalid
                  end
                else if bool_decide (t = js "message") then
                  let message := prop (js "message") record in
                  match message with
                  | v_object _ =>
                      match prop (js "role") message with
                      | v_string r =>
                          let stop := match prop (js "stopReason") message with v_string st => if bool_decide (r = js "assistant") then Some st else None | _ => None end in
                          rr_entry (mkLineage i t None v_undefined (Some r) stop) parent
                      | _ => rr_invalid
                      end
                  | _ => rr_invalid
                  end
                else rr_entry (mkLineage i t None v_undefined None None) parent
            | _, _, _ => rr_invalid
            end
      | _ => rr_invalid
      end
  | _ => rr_invalid
  end.

Definition isConversation (e : RecapLineageEntry) : bool := negb (bool_decide (l_type e ∈ NON_CONVERSATION_ENTRY_TYPES)).

Definition isFinalAssistantEntry (e : RecapLineageEntry) : bool :=
  bool_decide (l_type e = js "message") && bool_decide (l_role e = Some (js "assistant")) && bool_decide (l_stopReason e = Some (js "stop")).

Definition isRecapEntry (e : RecapLineageEntry) : bool := bool_decide (l_type e = js "custom") && bool_decide (l_customType e = Some SESSION_RECAP_ENTRY).

Definition isUserEntry (e : RecapLineageEntry) : bool := bool_decide (l_type e = js "message") && bool_decide (l_role e = Some (js "user")).

(** [scanTail]: the trailing recap entries, the nearest conversation entry and the entries still to be read. *)
Fixpoint scanTail (entries : list RecapLineageEntry) (trailing : list RecapLineageEntry)
    : list RecapLineageEntry * option (RecapLineageEntry * list RecapLineageEntry) :=
  match entries with
  | [] => (trailing, None)
  | e :: older =>
      if isConversation e then (trailing, Some (e, older))
      else scanTail older (if isRecapEntry e then trailing ++ [e] else trailing)
  end.

Definition hasUserRequest (entries : list RecapLineageEntry) (i : jstring) : bool := existsb (fun e => isUserEntry e && bool_decide (l_id e = i)) entries.

(** ** Appending *)

Inductive SessionRecapRejection : Type := invalid_payload | invalid_source | invalid_request | source_not_current | duplicate.

Definition sourceOf (v : value) : option jstring := sourceEntryId <$> validateSessionRecap v.

Definition planSessionRecapAppend (newestFirst : list RecapLineageEntry) (input : value) : result SessionRecapRejection SessionRecap :=
  match input with
  | v_object fields =>
      if m_has (js "schemaVersion") fields then Throw invalid_payload
      else
        match validateSessionRecap (v_object ((js "schemaVersion", v_number SESSION_RECAP_SCHEMA_VERSION) :: fields)) with
        | None => Throw invalid_payload
        | Some data =>
            let '(trailing, found) := scanTail newestFirst [] in
            match found with
            | None => Throw source_not_current
            | Some (anchor, older) =>
                if negb (bool_decide (l_id anchor = sourceEntryId data)) then Throw source_not_current
                else if negb (isFinalAssistantEntry anchor) then Throw invalid_source
                else if existsb (fun e => isRecapEntry e && bool_decide (sourceOf (l_data e) = Some (l_id anchor))) trailing then Throw duplicate
                else if negb (hasUserRequest older (requestEntryId data)) then Throw invalid_request
                else Ok data
            end
        end
  | _ => Throw invalid_payload
  end.

(** ** The current recap *)

Record Walker : Type := mkWalker {
  inRequestPhase : bool; w_candidates : list (SessionRecap * jstring); userIds : list jstring; isDone : bool; found : option (SessionRecap * jstring) }.

Definition newWalker : Walker := mkWalker false [] [] false None.

Definition settle (w : Walker) : Walker :=
  mkWalker (inRequestPhase w) (w_candidates w) (userIds w) true (List.find (fun c => bool_decide (requestEntryId c.1 ∈ userIds w)) (w_candidates w)).

Definition startRequestPhase (anchor : RecapLineageEntry) (w : Walker) : Walker :=
  let cs := if isFinalAssistantEntry anchor then filter (fun c => sourceEntryId c.1 = l_id anchor) (w_candidates w) else [] in
  mkWalker true cs (userIds w) (match cs with [] => true | _ => false end) (found w).

Definition push (w : Walker) (e : RecapLineageEntry) : Walker :=
  if isDone w then w
  else if negb (inRequestPhase w) then
    if isConversation e then startRequestPhase e w
    else if isRecapEntry e then
      let cs := match validateSessionRecap (l_data e) with Some d => w_candidates w ++ [(d, l_id e)] | None => w_candidates w end in
      if SESSION_RECAP_MAX_CANDIDATES <? zlength cs then mkWalker false [] (userIds w) true (found w)
      else mkWalker false cs (userIds w) false (found w)
    else w
  else if isUserEntry e then
    let ids := if existsb (fun c => bool_decide (requestEntryId c.1 = l_id e)) (w_candidates w) then s_add (userIds w) (l_id e) else userIds w in
    let w := mkWalker true (w_candidates w) ids false (found w) in
    match w_candidates w with
    | first :: _ => if bool_decide (requestEntryId first.1 ∈ ids) then settle w else w
    | [] => w
    end
  else w.

(** [finish]: the recap with the entry that stores it; [source: "model"] is added on reading. *)
Definition finish (w : Walker) : option (SessionRecap * jstring) := found (if isDone w then w else settle w).

(** The loop reads no further once the walker is done, which a walker that ignores what it is given would not notice. *)
Definition findCurrentSessionRecap (newestFirst : list RecapLineageEntry) : option (SessionRecap * jstring) := finish (foldl push newWalker newestFirst).

(** *** What the walker computes *)

(** The recap that an entry stores. *)
Definition recapOf (e : RecapLineageEntry) : option (SessionRecap * jstring) :=
  if isRecapEntry e then (fun d => (d, l_id e)) <$> validateSessionRecap (l_data e) else None.

(** The entries after the last conversation entry, that entry and those before it. *)
Fixpoint lastTurn (entries : list RecapLineageEntry) : list RecapLineageEntry * option (RecapLineageEntry * list RecapLineageEntry) :=
  match entries with
  | [] => ([], None)
  | e :: older => if isConversation e then ([], Some (e, older)) else let '(t, a) := lastTurn older in (e :: t, a)
  end.

Definition userEntryIds (entries : list RecapLineageEntry) : list jstring := map l_id (filter (fun e => isUserEntry e = true) entries).

(** The newest recap after the last conversation entry that names it as its source and a user message before it as its
    request; the entry must be a final answer. *)
Definition currentRecap (newestFirst : list RecapLineageEntry) : option (SessionRecap * jstring) :=
  let '(trailing, turn) := lastTurn newestFirst in
  match turn with
  | Some (anchor, older) =>
      if isFinalAssistantEntry anchor
      then List.find (fun c => bool_decide (sourceEntryId c.1 = l_id anchor) && bool_decide (requestEntryId c.1 ∈ userEntryIds older)) (omap recapOf trailing)
      else None
  | None => None
  end.

Lemma push_done w l : isDone w = true -> foldl push w l = w.
Proof. intros Hw. induction l as [|e l IH]; [done|]. cbn [foldl]. unfold push at 2. by rewrite Hw. Qed.

Lemma push_tail cs trailing : zlength (cs ++ omap recapOf trailing) <= SESSION_RECAP_MAX_CANDIDATES -> Forall (fun e => isConversation e = false) trailing ->
  foldl push (mkWalker false cs [] false None) trailing = mkWalker false (cs ++ omap recapOf trailing) [] false None.
Proof.
  intros Hlen Hc. revert cs Hlen. induction Hc as [|e trailing He _ IH]; intros cs Hlen; [by rewrite app_nil_r|]. cbn [foldl].
  assert (omap recapOf (e :: trailing) = option_list (recapOf e) ++ omap recapOf trailing) as Eo by (unfold omap; cbn; by destruct (recapOf e)).
  rewrite Eo, app_assoc in *.
  assert (push (mkWalker false cs [] false None) e = mkWalker false (cs ++ option_list (recapOf e)) [] false None) as ->; [|by apply IH].
  assert (zlength (cs ++ option_list (recapOf e)) <= SESSION_RECAP_MAX_CANDIDATES) as Hl by (rewrite zlength_app in Hlen; pose proof (zlength_nonneg (omap recapOf trailing)); lia).
  unfold push. cbn [isDone inRequestPhase negb w_candidates userIds found]. rewrite He. unfold recapOf in *. destruct (isRecapEntry e); [|by rewrite app_nil_r].
  destruct (validateSessionRecap (l_data e)) as [d|]; cbn [fmap option_fmap option_map option_list] in *.
  - change (option_list (Some (d, l_id e))) with [(d, l_id e)] in *. by rewrite (proj2 (Z.ltb_ge _ _) Hl).
  - change (option_list (@None (SessionRecap * jstring))) with (@nil (SessionRecap * jstring)) in *. rewrite app_nil_r in *. by rewrite (proj2 (Z.ltb_ge _ _) Hl).
Qed.

Lemma find_ext {A} (f g : A -> bool) l : (forall x, x ∈ l -> f x = g x) -> List.find f l = List.find g l.
Proof.
  induction l as [|a l IH]; intros Hfg; [done|]. cbn. rewrite (Hfg a) by (apply elem_of_cons; by left). rewrite IH; [done|].
  intros x Hx. apply Hfg, elem_of_cons. by right.
Qed.

Lemma push_request cs ids older : cs ≠ [] -> (forall c, head cs = Some c -> requestEntryId c.1 ∉ ids) ->
  finish (foldl push (mkWalker true cs ids false None) older) = List.find (fun c => bool_decide (requestEntryId c.1 ∈ ids ++ userEntryIds older)) cs.
Proof.
  intros Hne. revert ids. induction older as [|e older IH]; intros ids Hhead; cbn [foldl].
  - unfold finish. cbn. apply find_ext. intros c _. by rewrite app_nil_r.
  - unfold push at 2. cbn [isDone inRequestPhase negb w_candidates userIds found].
    assert (userEntryIds (e :: older) = (if isUserEntry e then [l_id e] else []) ++ userEntryIds older) as Eu
      by (unfold userEntryIds; rewrite filter_cons; by destruct (isUserEntry e)).
    rewrite Eu. destruct (isUserEntry e); [|by apply IH].
    set (ids' := if existsb _ cs then s_add ids (l_id e) else ids).
    assert (forall c, c ∈ cs -> requestEntryId c.1 ∈ ids' <-> requestEntryId c.1 ∈ ids ++ [l_id e]) as Hids.
    { intros c Hc. subst ids'. rewrite elem_of_app, list_elem_of_singleton. destruct (existsb _ cs) eqn:Ex; [apply elem_of_s_add|].
      split; [by left|]. intros [?|E]; [done|]. exfalso. apply not_true_iff_false in Ex. apply Ex, existsb_exists. exists c.
      split; [by apply list_elem_of_In|by apply bool_decide_eq_true]. }
    destruct cs as [|first cs]; [done|]. cbn [w_candidates]. case_bool_decide as Hf.
    + rewrite push_done by done. unfold finish, settle. cbn. rewrite bool_decide_true by done. rewrite bool_decide_true; [done|].
      apply Hids in Hf; [|apply elem_of_cons; by left]. set_solver.
    + rewrite IH; [|by intros c [= <-]]. apply find_ext. intros c Hc. apply bool_decide_ext. rewrite app_assoc, !(elem_of_app _ (userEntryIds older)), (Hids c Hc). done.
Qed.

Lemma lastTurn_spec l : let '(t, a) := lastTurn l in
  Forall (fun e => isConversation e = false) t /\ l = t ++ match a with Some (x, older) => x :: older | None => [] end /\
  match a with Some (x, _) => isConversation x = true | None => True end.
Proof.
  induction l as [|e l IH]; cbn; [done|]. destruct (isConversation e) eqn:Ec; [done|]. destruct (lastTurn l) as [t a]. destruct IH as (I1 & I2 & I3).
  split; [by constructor|]. split; [cbn; by f_equal|done].
Qed.

Lemma find_filter {A} (P : A -> Prop) `{!forall x, Decision (P x)} (g : A -> bool) l :
  List.find g (filter P l) = List.find (fun x => bool_decide (P x) && g x) l.
Proof.
  induction l as [|a l IH]; [done|]. rewrite filter_cons. cbn [List.find]. destruct (decide (P a)) as [Ha|Ha].
  - rewrite bool_decide_true by done. cbn. by rewrite IH.
  - rewrite bool_decide_false by done. cbn. apply IH.
Qed.

Lemma walker_current newestFirst :
  zlength (omap recapOf (lastTurn newestFirst).1) <= SESSION_RECAP_MAX_CANDIDATES ->
  findCurrentSessionRecap newestFirst = currentRecap newestFirst.
Proof.
  unfold findCurrentSessionRecap, currentRecap. pose proof (lastTurn_spec newestFirst) as Hl. destruct (lastTurn newestFirst) as [t a]. cbn [fst].
  destruct Hl as (Ht & -> & Ha). intros Hlen. rewrite foldl_app. unfold newWalker. rewrite push_tail by done. rewrite app_nil_l.
  destruct a as [[anchor older]|]; cbn [foldl].
  - unfold push at 2. cbn [isDone inRequestPhase negb]. rewrite Ha. unfold startRequestPhase. cbn [w_candidates userIds found].
    destruct (isFinalAssistantEntry anchor); [|by rewrite push_done].
    rewrite <- find_filter. destruct (filter _ _) as [|c cs]; [by rewrite push_done|]. rewrite push_request; [done|done|by intros ? _ ?%elem_of_nil].
  - unfold finish, settle. cbn [isDone found userIds w_candidates inRequestPhase]. clear Hlen. induction (omap recapOf t) as [|c cs IH]; [done|]. cbn [List.find].
    rewrite bool_decide_false by apply not_elem_of_nil. apply IH.
Qed.

Lemma push_overflow cs trailing : zlength cs <= SESSION_RECAP_MAX_CANDIDATES -> SESSION_RECAP_MAX_CANDIDATES < zlength (cs ++ omap recapOf trailing) ->
  Forall (fun e => isConversation e = false) trailing ->
  let w := foldl push (mkWalker false cs [] false None) trailing in isDone w = true /\ found w = None.
Proof.
  intros Hcs Hlen Hc. revert cs Hcs Hlen. induction Hc as [|e trailing He _ IH]; intros cs Hcs Hlen; [rewrite app_nil_r in Hlen; lia|]. cbn [foldl].
  unfold push at 2 4. cbn [isDone inRequestPhase negb w_candidates userIds found]. rewrite He.
  assert (omap recapOf (e :: trailing) = option_list (recapOf e) ++ omap recapOf trailing) as Eo by (unfold omap; cbn; by destruct (recapOf e)).
  rewrite Eo, app_assoc in Hlen. unfold recapOf at 1 in Hlen. destruct (isRecapEntry e); [|rewrite app_nil_r in Hlen; by apply IH].
  destruct (validateSessionRecap (l_data e)) as [d|]; cbn [fmap option_fmap option_map] in Hlen.
  - change (option_list (Some (d, l_id e))) with [(d, l_id e)] in Hlen.
    destruct (Z.ltb_spec SESSION_RECAP_MAX_CANDIDATES (zlength (cs ++ [(d, l_id e)]))); [by rewrite push_done|by apply IH].
  - change (option_list (@None (SessionRecap * jstring))) with (@nil (SessionRecap * jstring)) in Hlen. rewrite app_nil_r in Hlen.
    destruct (Z.ltb_spec SESSION_RECAP_MAX_CANDIDATES (zlength cs)); [lia|by apply IH].
Qed.

(** C32: The walker, which reads the branch once from the leaf and stops as early as it can, finds the newest recap that
    describes the last turn, and none when the branch carries more than 256 recaps after it. *)
Theorem walker_finds_the_current_recap newestFirst :
  findCurrentSessionRecap newestFirst =
    if SESSION_RECAP_MAX_CANDIDATES <? zlength (omap recapOf (lastTurn newestFirst).1) then None else currentRecap newestFirst.
Proof.
  destruct (Z.ltb_spec SESSION_RECAP_MAX_CANDIDATES (zlength (omap recapOf (lastTurn newestFirst).1))) as [Hlt|Hle]; [|by apply walker_current].
  unfold findCurrentSessionRecap. pose proof (lastTurn_spec newestFirst) as Hl. destruct (lastTurn newestFirst) as [t a]. cbn [fst] in Hlt.
  destruct Hl as (Ht & -> & _). rewrite foldl_app. destruct (push_overflow [] t) as [D F]; [done|done|done|].
  fold newWalker in D, F. rewrite push_done by done. unfold finish. by rewrite D.
Qed.

(** ** In a session *)

Lemma isToken_Some v s : isToken v = Some s -> v = v_string s.
Proof. unfold isToken. destruct v; try done. destruct (_ && _); [|done]. by intros [= ->]. Qed.

Lemma isText_Some v s : isValidSessionRecapText v = Some s -> v = v_string s.
Proof.
  unfold isValidSessionRecapText. destruct v; try done. destruct (_ || _); [done|]. destruct (FORBIDDEN_TEXT _); [done|]. destruct (_ <? _); [done|].
  destruct (_ <? _); [done|]. destruct (_ <=? _); [|done]. by intros [= ->].
Qed.

Lemma isTime_Some v s : isCanonicalIsoTime v = Some s -> v = v_string s.
Proof.
  unfold isCanonicalIsoTime. destruct v; try done. destruct (isoYear _) as [[y rest]|]; [|done]. destruct (isoRest rest) as [[[[[[mo d] h] mi] sec] ms]|]; [|done].
  destruct (_ && _); [|done]. by intros [= ->].
Qed.

(** What was validated is valid when it is read back. *)
Lemma validate_recapValue v r : validateSessionRecap v = Some r -> validateSessionRecap (recapValue r) = Some r.
Proof.
  unfold validateSessionRecap at 1. destruct (_ || _); [done|]. destruct (prop (js "schemaVersion") v) as [| | |n| | |]; try done. destruct (negb _); [done|].
  intros (txt & Ht & (src & Hs & (req & Hr & H)%bind_Some)%bind_Some)%bind_Some. case_bool_decide as Hne; [done|]. cbv zeta in H.
  destruct (_ || _) in H; [done|]. apply bind_Some in H as (prov & Hp & (mid & Hm & (t & Ha & H)%bind_Some)%bind_Some). injection H as <-.
  pose proof (isText_Some _ _ Ht) as E1. pose proof (isToken_Some _ _ Hs) as E2. pose proof (isToken_Some _ _ Hr) as E3.
  pose proof (isToken_Some _ _ Hp) as E4. pose proof (isToken_Some _ _ Hm) as E5. pose proof (isTime_Some _ _ Ha) as E6.
  rewrite E1 in Ht. rewrite E2 in Hs. rewrite E3 in Hr. rewrite E4 in Hp. rewrite E5 in Hm. rewrite E6 in Ha.
  set (w := recapValue _). unfold validateSessionRecap. change (isPlainRecord w) with true. change (hasExactKeys w RECAP_KEYS) with true.
  change (prop (js "schemaVersion") w) with (v_number 1). change (prop (js "text") w) with (v_string txt). change (prop (js "sourceEntryId") w) with (v_string src).
  change (prop (js "requestEntryId") w) with (v_string req). change (prop (js "generatedAt") w) with (v_string t).
  set (mdl := prop (js "model") w). change (isPlainRecord mdl) with true. change (hasExactKeys mdl MODEL_KEYS) with true.
  change (prop (js "provider") mdl) with (v_string prov). change (prop (js "id") mdl) with (v_string mid). cbn [negb orb Z.eqb SESSION_RECAP_SCHEMA_VERSION].
  rewrite Ht, Hs, Hr. cbn [mbind option_bind]. rewrite bool_decide_false by done. rewrite Hp, Hm, Ha. done.
Qed.

Section Session.
Context {R : Type} `{RawMessages R} (stopReasonOf : AgentMessage R -> option jstring).

Definition roleName (r : Role) : jstring :=
  match r with
  | user => js "user" | assistant => js "assistant" | toolResult => js "toolResult" | bashExecution => js "bashExecution" | hookMessage => js "hookMessage"
  | branchSummaryRole => js "branchSummary" | compactionSummaryRole => js "compactionSummary" | otherRole r => r
  end.

Definition toRecapLineageEntry (e : Entry R) : RecapLineageEntry :=
  match payload e with
  | p_custom t d => mkLineage (id e) (entryType e) (Some t) d None None
  | p_message m => mkLineage (id e) (entryType e) None v_undefined (Some (roleName (role m))) (if bool_decide (role m = assistant) then stopReasonOf m else None)
  | _ => mkLineage (id e) (entryType e) None v_undefined None None
  end.

Definition walkActiveBranchNewestFirst (m : Manager R) : list RecapLineageEntry :=
  map toRecapLineageEntry (walk (byId m) (S (length (byId m))) [] (resolveEntry (byId m) (leafId m))).

Inductive SessionRecapAppendResult : Type := recap_appended (i : jstring) | recap_rejected (reason : SessionRecapRejection).

Definition appendSessionRecap (env : Env) (input : value) (m : Manager R) : Manager R * result SessionError SessionRecapAppendResult :=
  match planSessionRecapAppend (walkActiveBranchNewestFirst m) input with
  | Throw reason => (m, Ok (recap_rejected reason))
  | Ok data => let '(m', r) := append env (appendCustomEntry SESSION_RECAP_ENTRY (recapValue data)) m in (m', recap_appended <$> r)
  end.

Definition getSessionRecap (m : Manager R) : option (SessionRecap * jstring) := findCurrentSessionRecap (walkActiveBranchNewestFirst m).

Lemma walk_reverse m : walkActiveBranchNewestFirst m = map toRecapLineageEntry (reverse (getBranch m None)).
Proof. unfold walkActiveBranchNewestFirst, getBranch, pathTo. by rewrite reverse_involutive. Qed.

Lemma walk_append env p m m' i : wf m -> usable env -> append env p m = (m', Ok i) ->
  walkActiveBranchNewestFirst m' = toRecapLineageEntry (mkEntry i (leafId m) (now env) p) :: walkActiveBranchNewestFirst m.
Proof. intros Hw Hu Ha. destruct (append_Ok env p m m' i Hw Hu Ha) as (_ & _ & _ & B). by rewrite !walk_reverse, B, reverse_snoc. Qed.

(** [scanTail] and the turn of the specification *)
Lemma scanTail_lastTurn l acc : scanTail l acc = (acc ++ filter (fun e => isRecapEntry e = true) (lastTurn l).1, (lastTurn l).2).
Proof.
  revert acc. induction l as [|e l IH]; intros acc; cbn [scanTail lastTurn]; [by rewrite app_nil_r|]. destruct (isConversation e); [by rewrite app_nil_r|].
  rewrite IH. destruct (lastTurn l) as [t a]. cbn [fst snd]. rewrite filter_cons. destruct (isRecapEntry e); [by rewrite <- app_assoc|done].
Qed.

Lemma plan_Ok l input data : planSessionRecapAppend l input = Ok data ->
  validateSessionRecap (recapValue data) = Some data /\
  exists anchor older, (lastTurn l).2 = Some (anchor, older) /\ l_id anchor = sourceEntryId data /\ isFinalAssistantEntry anchor = true /\
    requestEntryId data ∈ userEntryIds older /\
    forall c, c ∈ omap recapOf (lastTurn l).1 -> sourceEntryId c.1 ≠ l_id anchor.
Proof.
  unfold planSessionRecapAppend. destruct input as [| | | | | |fields]; try done. destruct (m_has _ fields); [done|].
  destruct (validateSessionRecap _) as [d|] eqn:Ev; [|done]. rewrite scanTail_lastTurn. destruct (lastTurn l) as [t [[anchor older]|]]; cbn [fst snd]; [|done].
  destruct (bool_decide (l_id anchor = sourceEntryId d)) eqn:Es; [|done]. destruct (isFinalAssistantEntry anchor) eqn:Ef; [|done]. cbn [negb].
  destruct (existsb _ _) eqn:Ex; [done|]. destruct (hasUserRequest older (requestEntryId d)) eqn:Eu; [|done]. cbn [negb]. intros [= <-].
  split; [by eapply validate_recapValue|]. exists anchor, older. split; [done|]. apply bool_decide_eq_true in Es. split; [done|]. split; [done|]. split.
  - unfold hasUserRequest in Eu. apply existsb_exists in Eu as (e & He & [H1 H2]%andb_true_iff). apply bool_decide_eq_true in H2. rewrite <- H2.
    apply list_elem_of_fmap. exists e. split; [done|]. apply list_elem_of_filter. split; [done|by apply list_elem_of_In].
  - intros c Hc Hsrc. apply not_true_iff_false in Ex. apply Ex, existsb_exists. apply list_elem_of_omap in Hc as (e & He & Hr).
    unfold recapOf in Hr. destruct (isRecapEntry e) eqn:Er; [|done]. exists e. split.
    + apply list_elem_of_In. rewrite app_nil_l. by apply list_elem_of_filter.
    + rewrite Er. apply bool_decide_eq_true. unfold sourceOf. destruct (validateSessionRecap (l_data e)); [|done]. injection Hr as <-. cbn in *. by rewrite Hsrc.
Qed.

(** A recap that is accepted and written is the current recap of the session, stored by the new entry; one that is
    rejected leaves the session as it was. *)
Theorem accepted_recap_is_current env input m :
  wf m -> usable env -> zlength (omap recapOf (lastTurn (walkActiveBranchNewestFirst m)).1) < SESSION_RECAP_MAX_CANDIDATES ->
  match appendSessionRecap env input m with
  | (m', Ok (recap_appended i)) => exists data, getSessionRecap m' = Some (data, i) /\ planSessionRecapAppend (walkActiveBranchNewestFirst m) input = Ok data
  | (m', Ok (recap_rejected _)) => m' = m
  | (_, Throw _) => True
  end.
Proof.
  intros Hw Hu Hlen. unfold appendSessionRecap. destruct (planSessionRecapAppend _ input) as [data|reason] eqn:Ep; [|done].
  destruct (append env _ m) as [m' [i|err]] eqn:Ea; [|done]. cbn [fmap result_fmap]. exists data. split; [|done].
  destruct (plan_Ok _ _ _ Ep) as (Hv & anchor & older & H1 & H2 & H3 & H4 & _). unfold getSessionRecap. rewrite (walk_append _ _ _ _ _ Hw Hu Ea).
  set (e := toRecapLineageEntry _). set (l := walkActiveBranchNewestFirst m) in *.
  assert (isConversation e = false) as Hc by reflexivity. assert (recapOf e = Some (data, i)) as Hr.
  { unfold recapOf. change (isRecapEntry e) with true. change (l_data e) with (recapValue data). by rewrite Hv. }
  assert (lastTurn (e :: l) = (e :: (lastTurn l).1, (lastTurn l).2)) as Hlt by (cbn [lastTurn]; rewrite Hc; by destruct (lastTurn l)).
  assert (omap recapOf (e :: (lastTurn l).1) = (data, i) :: omap recapOf (lastTurn l).1) as Hom by (unfold omap; cbn [list_omap]; by rewrite Hr).
  rewrite walker_current; unfold currentRecap; rewrite Hlt; cbn [fst].
  - rewrite H1, H3, Hom. cbn [List.find fst]. rewrite !bool_decide_true by done. done.
  - rewrite Hom. unfold zlength in *. cbn [length]. lia.
Qed.

(** A recap goes stale with the next message, custom message or branch summary. *)
Theorem recap_goes_stale env p m m' i :
  wf m -> usable env -> append env p m = (m', Ok i) ->
  isConversation (toRecapLineageEntry (mkEntry i (leafId m) (now env) p)) = true -> getSessionRecap m' = None.
Proof.
  intros Hw Hu Ha Hc. unfold getSessionRecap. rewrite (walk_append _ _ _ _ _ Hw Hu Ha). set (e := toRecapLineageEntry _) in *.
  assert (lastTurn (e :: walkActiveBranchNewestFirst m) = ([], Some (e, walkActiveBranchNewestFirst m))) as Hlt by (cbn [lastTurn]; by rewrite Hc).
  rewrite walker_current; unfold currentRecap; rewrite Hlt; [|done]. by destruct (isFinalAssistantEntry e).
Qed.

End Session.

(** ** Sessions *)

#[local] Existing Instance demoRaw.

(** Every assistant message ended normally. *)
Definition demoStop (_ : AgentMessage (Role * jstring)) : option jstring := Some (js "stop").

(** A recap of the last turn of two: message [e4] answers [e3]. *)
Definition demoRecap : value :=
  v_object [(js "text", v_string (js "did it")); (js "sourceEntryId", v_string (js "e4")); (js "requestEntryId", v_string (js "e3"));
            (js "model", v_object [(js "provider", v_string (js "p")); (js "id", v_string (js "m"))]);
            (js "generatedAt", v_string (js "2024-02-29T12:00:00.000Z"))].

Lemma accepted_recap_is_current_witness :
  exists i data, (appendSessionRecap demoStop (demoEnv 5) demoRecap twoTurns).2 = Ok (recap_appended i) /\
  getSessionRecap demoStop (appendSessionRecap demoStop (demoEnv 5) demoRecap twoTurns).1 = Some (data, i) /\ text data = js "did it".
Proof.
  pose proof (accepted_recap_is_current demoStop (demoEnv 5) demoRecap twoTurns twoTurns_wf (demoIds_usable 5)) as Hcur.
  destruct (appendSessionRecap demoStop (demoEnv 5) demoRecap twoTurns) as [m' [[i|reason]|err]] eqn:E; [|vm_compute in E; discriminate E..].
  destruct Hcur as (data & D1 & D2); [vm_compute; reflexivity|]. exists i, data. split; [reflexivity|]. split; [exact D1|].
  vm_compute in D2. injection D2 as <-. reflexivity.
Defined.

Lemma recap_goes_stale_witness : getSessionRecap demoStop (turn 6 user "next" twoTurns) = None.
Proof.
  unfold turn. destruct (append (demoEnv 6) (appendMessage (am_raw (user, js "next"))) twoTurns) as [m' [i|]] eqn:E; [|vm_compute in E; discriminate E].
  apply (recap_goes_stale demoStop (demoEnv 6) (appendMessage (am_raw (user, js "next"))) twoTurns m' i twoTurns_wf (demoIds_usable 6) E). reflexivity.
Defined.

Example iso_times :
  map (fun s => bool_decide (is_Some (isCanonicalIsoTime (v_string (js s)))))
    ["2024-02-29T12:00:00.000Z"; "2023-02-29T12:00:00.000Z"; "2024-02-29T24:00:00.000Z"; "2024-02-29T12:00:00Z"; "+275760-09-13T00:00:00.000Z"; "+275760-09-13T00:00:00.001Z";
     "-000001-12-31T23:59:59.999Z"; "+002024-02-29T12:00:00.000Z"]%string
  = [true; false; false; false; true; false; true; false].
Proof. vm_compute. reflexivity. Qed.
