(* ===== verification/WorkflowManifest.v ===== *)
(** * Workflow manifest (packages/coding-agent/src/gjc-runtime/workflow-manifest.ts, src/skill-state/canonical-skills.ts)

    The state machines of the bundled workflows, the functions that query them, and the gate that every write of a workflow
    envelope passes (the phase checks of state-writer.ts and ralplan-runtime.ts). *)
From S2P Require Import Prelude JsString.

(** ** The data *)

Inductive CanonicalGjcWorkflowSkill : Type := deep_interview | ralplan | ultragoal | autoresearch.
#[global] Instance skill_eq_dec : EqDecision CanonicalGjcWorkflowSkill.
Proof. solve_decision. Defined.

Definition CANONICAL_GJC_WORKFLOW_SKILLS : list CanonicalGjcWorkflowSkill := [deep_interview; ralplan; ultragoal; autoresearch].
Definition skillName (k : CanonicalGjcWorkflowSkill) : jstring :=
  match k with deep_interview => js "deep-interview" | ralplan => js "ralplan" | ultragoal => js "ultragoal" | autoresearch => js "autoresearch" end.
(** The skill of a name, if it is one. *)
Definition skillNamed (s : jstring) : option CanonicalGjcWorkflowSkill := List.find (fun k => bool_decide (skillName k = s)) CANONICAL_GJC_WORKFLOW_SKILLS.

Record WorkflowState : Type := mkState { s_id : jstring; s_initial : bool; s_terminal : bool }.
Record WorkflowTransition : Type := mkTransition { t_from : jstring; t_to : jstring; t_verb : jstring }.
#[global] Instance transition_eq_dec : EqDecision WorkflowTransition.
Proof. solve_decision. Defined.
Inductive VerbSurface : Type := state_action | command_positional | command_flag.
Record WorkflowVerb : Type := mkVerb { v_name : jstring; v_surface : VerbSurface; v_planned : bool }.
Inductive ArgType : Type := t_string | t_number | t_boolean | t_enum | t_object.
#[global] Instance ArgType_eq_dec : EqDecision ArgType.
Proof. solve_decision. Defined.
Record TypedArgSpec : Type := mkArg { a_name : jstring; a_type : ArgType; a_enumValues : list jstring; a_required : bool; appliesToVerbs : option (list jstring); a_planned : bool }.
Record RetentionPolicy : Type := mkRetention { category : jstring; keep : option nat; maxAgeDays : option nat }.
Record SkillManifest : Type := mkManifest {
  m_skill : jstring; states : list WorkflowState; initialState : jstring; terminalStates : list jstring; transitions : list WorkflowTransition;
  verbs : list WorkflowVerb; typedArgs : list TypedArgSpec; retention : list RetentionPolicy; hudFields : list jstring; graphLabel : jstring;
  stopReleasingPhases : list jstring; phaseLock : list jstring; canonicalOverrides : list jstring }.

Definition words (l : list string) : list jstring := map js l.
Definition edge (from to verb : string) : WorkflowTransition := mkTransition (js from) (js to) (js verb).
Definition arg (name : string) (ty : ArgType) (enum : list string) (required : bool) (vs : option (list string)) (planned : bool) : TypedArgSpec :=
  mkArg (js name) ty (words enum) required (words <$> vs) planned.

Definition STATE_RETENTION : RetentionPolicy := mkRetention (js "state") (Some 1%nat) None.
Definition ARTIFACT_RETENTION : RetentionPolicy := mkRetention (js "artifact") None None.
Definition LEDGER_RETENTION : RetentionPolicy := mkRetention (js "ledger") None None.
Definition LOG_RETENTION : RetentionPolicy := mkRetention (js "log") None (Some 30%nat).
Definition REPORT_RETENTION : RetentionPolicy := mkRetention (js "report") None (Some 30%nat).
Definition PRUNE_RETENTION : RetentionPolicy := mkRetention (js "prune/delete") None (Some 30%nat).
Definition FORCE_RETENTION : RetentionPolicy := mkRetention (js "force") None (Some 90%nat).

Open Scope string_scope.
Open Scope list_scope.
Definition STATE_VERB_NAMES : list string := ["read"; "write"; "clear"; "contract"; "handoff"; "doctor"].
Definition STATE_VERBS : list jstring := words STATE_VERB_NAMES.
Definition PLANNED_ADMIN_VERBS : list jstring := words ["graph"; "prune"; "migrate"; "force-overwrite"].
Definition SKILL_NAMES : list string := ["deep-interview"; "ralplan"; "ultragoal"; "autoresearch"].

Definition COMMON_TYPED_ARGS : list TypedArgSpec :=
  [arg "input" t_string [] false (Some ["write"; "api"]) false;
   arg "mode" t_enum SKILL_NAMES false (Some STATE_VERB_NAMES) false;
   arg "session-id" t_string [] false (Some (STATE_VERB_NAMES ++ ["kickoff"; "write-spec"; "write-artifact"; "stage"; "check"; "apply"; "discard"])) false;
   arg "thread-id" t_string [] false (Some ["write"; "clear"; "handoff"]) false;
   arg "turn-id" t_string [] false (Some ["write"; "clear"; "handoff"]) false;
   arg "to" t_string [] true (Some ["handoff"]) false;
   arg "replace" t_boolean [] false (Some ["write"]) false;
   arg "force" t_boolean [] false (Some ["write"; "clear"; "handoff"]) false;
   arg "skill" t_enum SKILL_NAMES false (Some ["doctor"]) false;
   arg "json" t_boolean [] false (Some ["doctor"]) false].

Definition stateVerbs : list WorkflowVerb := map (fun n => mkVerb n state_action false) STATE_VERBS.
Definition positionalVerbs (names : list jstring) : list WorkflowVerb := map (fun n => mkVerb n command_positional false) names.
Definition flagVerbs (names : list jstring) : list WorkflowVerb := map (fun n => mkVerb n command_flag false) names.
Definition plannedVerbs (names : list jstring) : list WorkflowVerb := map (fun n => mkVerb n state_action true) names.

Definition initialPhaseForSkill (skill : jstring) : jstring :=
  if bool_decide (skill = js "deep-interview") then js "interviewing"
  else if bool_decide (skill = js "ultragoal") then js "goal-planning"
  else if bool_decide (skill = js "ralplan") then js "planner"
  else if bool_decide (skill = js "autoresearch") then js "intake"
  else js "planning".

Definition state (initial : jstring) (terminal : list jstring) (id : jstring) : WorkflowState :=
  mkState id (bool_decide (id = initial)) (bool_decide (id ∈ terminal)).

(** The verbs of an argument that the skill has; an argument that is left with none is dropped. *)
Definition supportedArg (supported : list jstring) (a : TypedArgSpec) : option TypedArgSpec :=
  match appliesToVerbs a with
  | None => Some a
  | Some vs => match filter (fun v => v ∈ supported) vs with [] => None | vs' => Some (mkArg (a_name a) (a_type a) (a_enumValues a) (a_required a) (Some vs') (a_planned a)) end
  end.

(** [manifest]; no skill overrides the initial state or the phases that release a stop. *)
Definition manifest (skill : string) (sts terminal : list jstring) (trs : list WorkflowTransition) (vs : list WorkflowVerb) (common own : list TypedArgSpec)
    (ret : list RetentionPolicy) (hud : list jstring) (label : string) (lock overrides : list jstring) : SkillManifest :=
  let initial := initialPhaseForSkill (js skill) in
  mkManifest (js skill) (map (state initial terminal) sts) initial terminal trs vs (omap (supportedArg (map v_name vs ++ [js "api"])) (common ++ own)) ret hud (js label)
    (words ["complete"; "completed"; "failed"; "cancelled"; "canceled"; "inactive"]) lock overrides.

Definition deep_interview_manifest : SkillManifest :=
  manifest "deep-interview"
    (words ["interviewing"; "handoff"; "complete"])
    (words ["handoff"; "complete"])
    [edge "interviewing" "handoff" "write-spec";
     edge "interviewing" "handoff" "crystallize";
     edge "handoff" "complete" "clear";
     edge "interviewing" "complete" "clear"]
    (stateVerbs ++ flagVerbs (words ["kickoff"; "write-spec"; "crystallize"]) ++ positionalVerbs (words ["stage"; "check"; "apply"; "discard"; "read"; "write"; "clear"; "handoff"; "approve-execution"]) ++ plannedVerbs PLANNED_ADMIN_VERBS)
    (filter (fun a => a_name a ≠ js "input") COMMON_TYPED_ARGS)
    [arg "quick" t_boolean [] false (Some ["kickoff"]) false;
     arg "standard" t_boolean [] false (Some ["kickoff"]) false;
     arg "deep" t_boolean [] false (Some ["kickoff"]) false;
     arg "trace" t_boolean [] false (Some ["kickoff"]) false;
     arg "threshold" t_number [] false (Some ["kickoff"]) false;
     arg "threshold-source" t_string [] false (Some ["kickoff"]) false;
     arg "stage" t_enum ["final"] false (Some ["write-spec"]) false;
     arg "slug" t_string [] false (Some ["write-spec"]) false;
     arg "slug" t_string [] true (Some ["crystallize"]) false;
     arg "spec" t_string [] true (Some ["write-spec"]) false;
     arg "handoff" t_enum ["ralplan"] false (Some ["write-spec"]) false;
     arg "deliberate" t_boolean [] false (Some ["write-spec"]) false;
     arg "force" t_boolean [] false (Some ["write-spec"]) false;
     arg "json" t_boolean [] false (Some ["kickoff"; "write-spec"; "crystallize"; "stage"; "check"; "apply"; "discard"; "read"; "write"; "clear"; "handoff"; "approve-execution"]) false;
     arg "input" t_string [] false (Some ["api"]) false;
     arg "input" t_string [] true (Some ["write"; "stage"; "crystallize"]) false;
     arg "mode" t_enum ["deep-interview"] false (Some ["approve-execution"]) false;
     arg "session-id" t_string [] false (Some ["crystallize"; "approve-execution"]) false;
     arg "reset" t_boolean [] false (Some ["write"]) false;
     arg "for" t_enum ["initialize-context"; "record-round"; "update-facts"; "merge-state"] true (Some ["stage"]) false;
     arg "args" t_string [] false None true;
     arg "metadata-json" t_string [] false None true]
    [STATE_RETENTION; ARTIFACT_RETENTION; PRUNE_RETENTION; FORCE_RETENTION]
    (words ["current_phase"; "ambiguity_score"; "threshold"; "spec_slug"; "spec_path"; "topology"])
    "Deep Interview"
    (words [])
    (words []).

Definition ralplan_manifest : SkillManifest :=
  manifest "ralplan"
    (words ["planner"; "intent"; "architect"; "critic"; "disposition"; "revision"; "post-interview"; "adr"; "final"; "handoff"])
    (words ["final"; "handoff"])
    [edge "planner" "intent" "write-artifact";
     edge "planner" "architect" "write-artifact";
     edge "intent" "architect" "write-artifact";
     edge "intent" "revision" "write-artifact";
     edge "architect" "critic" "write-artifact";
     edge "critic" "disposition" "write-artifact";
     edge "architect" "disposition" "write-artifact";
     edge "disposition" "revision" "write-artifact";
     edge "critic" "revision" "write-artifact";
     edge "revision" "intent" "write-artifact";
     edge "revision" "post-interview" "write-artifact";
     edge "critic" "post-interview" "write-artifact";
     edge "disposition" "post-interview" "write-artifact";
     edge "post-interview" "revision" "write-artifact";
     edge "post-interview" "adr" "write-artifact";
     edge "revision" "adr" "write-artifact";
     edge "adr" "final" "write-artifact";
     edge "planner" "handoff" "handoff";
     edge "intent" "handoff" "handoff";
     edge "architect" "handoff" "handoff";
     edge "critic" "handoff" "handoff";
     edge "disposition" "handoff" "handoff";
     edge "revision" "handoff" "handoff";
     edge "adr" "handoff" "handoff";
     edge "post-interview" "handoff" "handoff"]
    (stateVerbs ++ flagVerbs (words ["kickoff"; "write-artifact"]) ++ plannedVerbs PLANNED_ADMIN_VERBS)
    COMMON_TYPED_ARGS
    [arg "interactive" t_boolean [] false (Some ["kickoff"]) false;
     arg "deliberate" t_boolean [] false (Some ["kickoff"]) false;
     arg "architect" t_string [] false (Some ["kickoff"]) false;
     arg "critic" t_string [] false (Some ["kickoff"]) false;
     arg "json" t_boolean [] false (Some ["kickoff"; "write-artifact"]) false;
     arg "stage" t_enum ["planner"; "intent"; "architect"; "critic"; "disposition"; "revision"; "post-interview"; "adr"; "final"] false (Some ["write-artifact"]) false;
     arg "stage_n" t_number [] false (Some ["write-artifact"]) false;
     arg "artifact" t_string [] true (Some ["write-artifact"]) false;
     arg "run-id" t_string [] false (Some ["write-artifact"]) false;
     arg "args" t_string [] false None true;
     arg "metadata-json" t_string [] false None true]
    [STATE_RETENTION; ARTIFACT_RETENTION; LEDGER_RETENTION; PRUNE_RETENTION; FORCE_RETENTION]
    (words ["current_phase"; "mode"; "run_id"; "stage"; "stage_n"; "plan_path"])
    "Ralplan"
    (words ["final"; "handoff"; "complete"; "completed"; "failed"; "cancelled"; "canceled"; "inactive"])
    (words ["final"; "handoff"; "complete"; "completed"; "failed"; "cancelled"; "canceled"; "inactive"]).

Definition ultragoal_manifest : SkillManifest :=
  manifest "ultragoal"
    (words ["missing"; "goal-planning"; "pending"; "active"; "blocked"; "failed"; "complete"; "handoff"])
    (words ["missing"; "failed"; "complete"; "handoff"])
    [edge "goal-planning" "pending" "create-goals";
     edge "pending" "active" "complete-goals";
     edge "active" "blocked" "checkpoint";
     edge "active" "failed" "checkpoint";
     edge "active" "complete" "checkpoint";
     edge "blocked" "active" "checkpoint";
     edge "failed" "active" "complete-goals";
     edge "goal-planning" "handoff" "handoff";
     edge "pending" "handoff" "handoff";
     edge "active" "handoff" "handoff";
     edge "blocked" "handoff" "handoff"]
    (stateVerbs ++ positionalVerbs (words ["status"; "create"; "create-goals"; "complete-goals"; "checkpoint"; "review"; "record-review-blockers"; "steer"; "classify-blocker"; "record-critic-verdict"; "record-critic-gate-override"; "quality-gate"; "succession"]) ++ plannedVerbs PLANNED_ADMIN_VERBS)
    COMMON_TYPED_ARGS
    [arg "brief" t_string [] false (Some ["create-goals"]) false;
     arg "brief-file" t_string [] false (Some ["create-goals"]) false;
     arg "from-stdin" t_boolean [] false (Some ["create-goals"]) false;
     arg "gjc-goal-mode" t_enum ["aggregate"; "per-story"] false (Some ["create-goals"]) false;
     arg "validation-batch-json" t_string [] false (Some ["create-goals"]) false;
     arg "retry-failed" t_boolean [] false (Some ["complete-goals"]) false;
     arg "goal-id" t_string [] true (Some ["checkpoint"; "record-review-blockers"]) false;
     arg "status" t_enum ["pending"; "active"; "complete"; "failed"; "blocked"; "review_blocked"; "superseded"] true (Some ["checkpoint"]) false;
     arg "evidence" t_string [] true (Some ["checkpoint"; "record-review-blockers"; "steer"; "classify-blocker"; "record-critic-verdict"; "record-critic-gate-override"; "quality-gate"]) false;
     arg "terminus" t_enum ["completion"; "pause"] true (Some ["record-critic-verdict"]) false;
     arg "verdict" t_enum ["OKAY"; "ITERATE"; "REJECT"] true (Some ["record-critic-verdict"]) false;
     arg "blockers-json" t_string [] false (Some ["record-critic-verdict"]) false;
     arg "goal-id" t_string [] false (Some ["record-critic-verdict"]) false;
     arg "classification-event-id" t_string [] false (Some ["record-critic-verdict"]) false;
     arg "target-repo" t_string [] false (Some ["succession"]) false;
     arg "goal-id" t_string [] false (Some ["succession"]) false;
     arg "authorize" t_string [] false (Some ["succession"]) false;
     arg "authorized-by" t_string [] false (Some ["succession"]) false;
     arg "offer" t_string [] false (Some ["succession"]) false;
     arg "gjc-goal-mode" t_enum ["aggregate"; "per-story"] false (Some ["succession"]) false;
     arg "quality-gate-json" t_string [] false (Some ["checkpoint"; "quality-gate"]) false;
     arg "goal-id" t_string [] false (Some ["quality-gate"]) false;
     arg "goal-id" t_string [] false (Some ["steer"]) false;
     arg "goal-id" t_string [] false (Some ["classify-blocker"]) false;
     arg "classification" t_enum ["human_blocked"; "resolvable"] true (Some ["classify-blocker"]) false;
     arg "kind" t_enum ["add_subgoal"; "split_subgoal"; "reorder_pending"; "revise_pending_wording"; "annotate_ledger"; "mark_blocked_superseded"] false (Some ["steer"]) false;
     arg "title" t_string [] false (Some ["record-review-blockers"; "steer"]) false;
     arg "objective" t_string [] false (Some ["record-review-blockers"; "steer"]) false;
     arg "rationale" t_string [] false (Some ["steer"]) false;
     arg "replacements-json" t_string [] false (Some ["steer"]) false;
     arg "order-json" t_string [] false (Some ["steer"]) false;
     arg "pr" t_string [] false (Some ["review"]) false;
     arg "branch" t_string [] false (Some ["review"]) false;
     arg "spec" t_string [] false (Some ["review"]) false;
     arg "executor-qa-json" t_string [] false (Some ["review"]) false;
     arg "mode" t_enum ["review-only"; "review-start"] false (Some ["review"]) false;
     arg "json" t_boolean [] false (Some ["status"; "create-goals"; "complete-goals"; "review"; "checkpoint"; "record-review-blockers"; "steer"; "classify-blocker"; "record-critic-verdict"; "record-critic-gate-override"; "succession"]) false;
     arg "directive-json" t_string [] false (Some ["steer"]) true;
     arg "args" t_string [] false None true;
     arg "metadata-json" t_string [] false None true]
    [STATE_RETENTION; ARTIFACT_RETENTION; LEDGER_RETENTION; PRUNE_RETENTION; FORCE_RETENTION]
    (words ["current_phase"; "active_goal_id"; "status"; "counts"; "ledger_path"; "brief_path"])
    "Ultragoal"
    (words [])
    (words []).

Definition autoresearch_manifest : SkillManifest :=
  manifest "autoresearch"
    (words ["intake"; "research"; "verdict"; "complete"; "failed"; "cancelled"; "handoff"])
    (words ["complete"; "failed"; "cancelled"; "handoff"])
    [edge "intake" "research" "write";
     edge "research" "verdict" "write";
     edge "verdict" "research" "write";
     edge "research" "failed" "write";
     edge "research" "cancelled" "write";
     edge "verdict" "complete" "clear";
     edge "research" "complete" "clear";
     edge "intake" "complete" "clear";
     edge "intake" "handoff" "handoff";
     edge "research" "handoff" "handoff";
     edge "verdict" "handoff" "handoff"]
    (stateVerbs ++ positionalVerbs (words ["intake"]) ++ plannedVerbs PLANNED_ADMIN_VERBS)
    COMMON_TYPED_ARGS
    [arg "spec" t_string [] true (Some ["intake"]) false;
     arg "goal" t_string [] false (Some ["write"]) false;
     arg "mode" t_enum ["web"; "mixed"; "data"] true (Some ["write"]) false;
     arg "json" t_boolean [] false (Some ["read"; "write"; "clear"; "intake"; "handoff"]) false;
     arg "args" t_string [] false None true;
     arg "metadata-json" t_string [] false None true]
    [STATE_RETENTION; ARTIFACT_RETENTION; LEDGER_RETENTION; LOG_RETENTION; REPORT_RETENTION; PRUNE_RETENTION; FORCE_RETENTION]
    (words ["current_phase"; "mode"; "intake"; "slug"; "spec_path"; "verdict"])
    "Autoresearch"
    (words [])
    (words []).

Close Scope string_scope.

Definition WORKFLOW_MANIFEST (k : CanonicalGjcWorkflowSkill) : SkillManifest :=
  match k with deep_interview => deep_interview_manifest | ralplan => ralplan_manifest | ultragoal => ultragoal_manifest | autoresearch => autoresearch_manifest end.
Definition getSkillManifest (k : CanonicalGjcWorkflowSkill) : SkillManifest := WORKFLOW_MANIFEST k.

Definition isKnownWorkflowState (k : CanonicalGjcWorkflowSkill) (s : jstring) : bool := existsb (fun e => bool_decide (s_id e = s)) (states (WORKFLOW_MANIFEST k)).
Definition isValidTransition (k : CanonicalGjcWorkflowSkill) (from to : jstring) : bool :=
  bool_decide (from = to) || existsb (fun t => bool_decide (t_from t = from) && bool_decide (t_to t = to)) (transitions (WORKFLOW_MANIFEST k)).
Definition listVerbs (k : CanonicalGjcWorkflowSkill) : list jstring := map v_name (verbs (WORKFLOW_MANIFEST k)).
Definition typedArgsFor (k : CanonicalGjcWorkflowSkill) (verb : jstring) : list TypedArgSpec :=
  List.filter (fun a => match appliesToVerbs a with None => true | Some vs => bool_decide (verb ∈ vs) end) (typedArgs (WORKFLOW_MANIFEST k)).

(** ** Writes of a workflow envelope *)

(** What the gate of [writeWorkflowEnvelopeAtomic] looks at; [auditFrom] is the phase the caller says it comes from. *)
Record EnvelopeWrite : Type := mkWrite { w_skill : CanonicalGjcWorkflowSkill; w_active : bool; w_phase : jstring; w_forced : bool; auditFrom : option jstring }.

(** The envelope on disk: whether it is active and its phase. *)
Record Persisted : Type := mkPersisted { p_active : bool; p_phase : option jstring }.
Definition readPersistedPhase (p : option Persisted) : option jstring :=
  match p with Some e => if p_active e then p_phase e else None | None => None end.

Inductive WriteError : Type := UnknownPhase (k : CanonicalGjcWorkflowSkill) (phase : jstring) | InvalidTransition (k : CanonicalGjcWorkflowSkill) (from to : jstring).

(** The phase gate: an error, or the transition that is recorded in the audit log as invalid. *)
Definition envelopeGate (disk : option Persisted) (w : EnvelopeWrite) : result WriteError (option (jstring * jstring)) :=
  if w_forced w || negb (w_active w) then Ok None
  else match trim (w_phase w) with
       | [] => Ok None
       | to =>
           if negb (isKnownWorkflowState (w_skill w) to) then Throw (UnknownPhase (w_skill w) to)
           else
             let from := trim (default [] (match auditFrom w with Some f => Some f | None => readPersistedPhase disk end)) in
             if negb (bool_decide (from = [])) && negb (bool_decide (from = to)) && isKnownWorkflowState (w_skill w) from && negb (isValidTransition (w_skill w) from to)
             then Ok (Some (from, to)) else Ok None
       end.

(** The phase gate of [gjc state write]; [sanctioned] is the hand-off of a final plan whose lineage was verified. *)
Definition commandGate (k : CanonicalGjcWorkflowSkill) (fromPhase : option jstring) (toPhase : jstring) (sanctioned forced : bool) : result WriteError unit :=
  let from := trim (default [] fromPhase) in
  if negb (isKnownWorkflowState k toPhase) && negb forced then Throw (UnknownPhase k toPhase)
  else if negb (bool_decide (from = [])) && negb (bool_decide (toPhase = [])) && isKnownWorkflowState k from && isKnownWorkflowState k toPhase
          && negb (isValidTransition k from toPhase)
          && negb (sanctioned && bool_decide (k = ralplan) && bool_decide (from = js "final") && bool_decide (toPhase = js "handoff")) && negb forced
       then Throw (InvalidTransition k from toPhase)
  else Ok tt.

Definition KNOWN_STAGES : list jstring :=
  map js ["planner"; "intent"; "architect"; "critic"; "disposition"; "revision"; "post-interview"; "adr"; "final"]%string.

(** The phase of a ralplan run after an artifact of a stage was written. *)
Definition advanceCurrentPhase (existing : option jstring) (stage : jstring) : jstring :=
  let current := trim (default [] existing) in
  if negb (bool_decide (current = [])) && bool_decide (current ∈ phaseLock (getSkillManifest ralplan)) then current else stage.

(** ** The state machines *)

Inductive moves (k : CanonicalGjcWorkflowSkill) : jstring -> jstring -> Prop :=
| move t : t ∈ transitions (WORKFLOW_MANIFEST k) -> moves k (t_from t) (t_to t).

Definition stateIds (k : CanonicalGjcWorkflowSkill) : list jstring := map s_id (states (WORKFLOW_MANIFEST k)).

(** The states from which a terminal state can be reached in at most [n] moves. *)
Fixpoint finishing (n : nat) (k : CanonicalGjcWorkflowSkill) : list jstring :=
  match n with
  | O => terminalStates (WORKFLOW_MANIFEST k)
  | S n' => let c := finishing n' k in c ++ map t_from (filter (fun t => t_to t ∈ c) (transitions (WORKFLOW_MANIFEST k)))
  end.

Lemma finishing_sound n : forall k s, s ∈ finishing n k -> exists e, e ∈ terminalStates (WORKFLOW_MANIFEST k) /\ rtc (moves k) s e.
Proof.
  induction n as [|n IH]; intros k s H; cbn [finishing] in H; [by exists s|]. apply elem_of_app in H as [H|H]; [by apply IH|].
  apply list_elem_of_fmap in H as (t & -> & [H1 H2]%list_elem_of_filter). destruct (IH _ _ H1) as (e & He & Hr). exists e. split; [done|].
  eapply rtc_l; [by apply move|done].
Qed.

Lemma all_finish k : forallb (fun s => bool_decide (s ∈ finishing 3 k)) (stateIds k) = true.
Proof. destruct k; vm_compute; reflexivity. Qed.

Lemma ends_declared k : forallb (fun t => isKnownWorkflowState k (t_from t) && isKnownWorkflowState k (t_to t)) (transitions (WORKFLOW_MANIFEST k)) = true.
Proof. destruct k; vm_compute; reflexivity. Qed.

Lemma known_iff k s : isKnownWorkflowState k s = true <-> s ∈ stateIds k.
Proof.
  unfold isKnownWorkflowState, stateIds. rewrite existsb_exists, list_elem_of_In, in_map_iff.
  split; intros (e & H1 & H2); exists e; [by apply bool_decide_eq_true in H2|]. split; [done|]. by apply bool_decide_eq_true.
Qed.

Lemma known_finishes k s : isKnownWorkflowState k s = true -> exists e, e ∈ terminalStates (WORKFLOW_MANIFEST k) /\ rtc (moves k) s e.
Proof.
  intros H%known_iff. pose proof (all_finish k) as A. rewrite forallb_forall in A.
  apply (finishing_sound 3), (bool_decide_eq_true_1 _), A. by apply list_elem_of_In.
Qed.

Lemma moves_known k s s' : moves k s s' -> isKnownWorkflowState k s = true /\ isKnownWorkflowState k s' = true.
Proof. intros [t Ht]. pose proof (ends_declared k) as A. rewrite forallb_forall in A. apply andb_true_iff, A. by apply list_elem_of_In. Qed.

Lemma valid_is_move k from to : isValidTransition k from to = true -> rtc (moves k) from to.
Proof.
  unfold isValidTransition. intros [->%bool_decide_eq_true|H]%orb_true_iff; [done|].
  apply existsb_exists in H as (t & Ht & [<-%bool_decide_eq_true <-%bool_decide_eq_true]%andb_true_iff). apply rtc_once, move. by apply list_elem_of_In.
Qed.

Lemma initial_known k : isKnownWorkflowState k (initialState (WORKFLOW_MANIFEST k)) = true.
Proof. destruct k; vm_compute; reflexivity. Qed.

(** Everything the manifest of a skill refers to is declared in it: the initial state, which is not terminal, the terminal
    states, the ends and the verb of every transition, and the verbs of every typed argument (or the API). *)
Theorem manifest_is_closed k :
  let m := WORKFLOW_MANIFEST k in
  NoDup (stateIds k) /\ initialState m ∈ stateIds k /\ initialState m ∉ terminalStates m /\ terminalStates m ⊆ stateIds k /\
  Forall (fun t => t_from t ∈ stateIds k /\ t_to t ∈ stateIds k /\ t_verb t ∈ listVerbs k) (transitions m) /\
  Forall (fun a => from_option (fun vs => vs ≠ [] /\ vs ⊆ listVerbs k ++ [js "api"]) True (appliesToVerbs a)) (typedArgs m).
Proof.
  intros m. subst m. split; [apply (bool_decide_unpack _); destruct k; vm_compute; exact I|].
  split; [apply known_iff, initial_known|]. split; [apply (bool_decide_unpack _); destruct k; vm_compute; exact I|].
  split; [|split].
  - assert (Forall (fun s => s ∈ stateIds k) (terminalStates (WORKFLOW_MANIFEST k))) as H by (apply (bool_decide_unpack _); destruct k; vm_compute; exact I).
    rewrite Forall_forall in H. exact H.
  - apply (bool_decide_unpack _). destruct k; vm_compute; exact I.
  - assert (Forall (fun a => from_option (fun vs => vs ≠ [] /\ Forall (fun v => v ∈ listVerbs k ++ [js "api"]) vs) True (appliesToVerbs a)) (typedArgs (WORKFLOW_MANIFEST k))) as H.
    { assert (forallb (fun a => from_option (fun vs => bool_decide (vs ≠ [] /\ Forall (fun v => v ∈ listVerbs k ++ [js "api"]) vs)) true (appliesToVerbs a)) (typedArgs (WORKFLOW_MANIFEST k)) = true) as B
        by (destruct k; vm_compute; reflexivity).
      rewrite forallb_forall in B. apply Forall_forall. intros a Ha%list_elem_of_In. specialize (B a Ha). destruct (appliesToVerbs a); [|done]. by apply bool_decide_eq_true in B. }
    eapply Forall_impl; [exact H|]. intros a. cbv beta. destruct (appliesToVerbs a) as [vs|]; [|done]. cbn. intros [H1 H2]. split; [done|].
    rewrite Forall_forall in H2. exact H2.
Qed.

(** C37: A workflow can always be finished: whatever phases it went through, from the one it is in now the declared transitions lead
    to a terminal phase. *)
Theorem workflow_can_always_finish k s : rtc (moves k) (initialState (WORKFLOW_MANIFEST k)) s ->
  exists e, e ∈ terminalStates (WORKFLOW_MANIFEST k) /\ rtc (moves k) s e.
Proof.
  intros H. apply known_finishes. destruct (rtc_inv_r _ _ H) as [<-|(s' & _ & Hm)]; [apply initial_known|by apply moves_known in Hm as [_ Hm]].
Qed.

(** Phases that the state command accepted one after the other, without force. *)
Inductive commanded (k : CanonicalGjcWorkflowSkill) : jstring -> list jstring -> jstring -> Prop :=
| commanded_none s : commanded k s [] s
| commanded_write s to path e : commandGate k (Some s) to false false = Ok tt -> commanded k to path e -> commanded k s (to :: path) e.

Lemma known_trimmed k s : isKnownWorkflowState k s = true -> s ≠ [] /\ trim s = s.
Proof.
  assert (forallb (fun s => bool_decide (s ≠ [] /\ trim s = s)) (stateIds k) = true) as A by (destruct k; vm_compute; reflexivity).
  intros H%known_iff%list_elem_of_In. rewrite forallb_forall in A. specialize (A s H). by apply bool_decide_eq_true in A.
Qed.

Lemma commandGate_move k s to : isKnownWorkflowState k s = true -> commandGate k (Some s) to false false = Ok tt -> isKnownWorkflowState k to = true /\ rtc (moves k) s to.
Proof.
  intros Hk. destruct (known_trimmed k s Hk) as [Hne Ht]. unfold commandGate. change (default [] (Some s)) with s. rewrite Ht.
  destruct (isKnownWorkflowState k to) eqn:E; [|done]. destruct (known_trimmed k to E) as [Hne' _]. cbn [negb andb]. rewrite Hk, !bool_decide_false by done. cbn [negb andb].
  destruct (isValidTransition k s to) eqn:Ev; [|done]. intros _. split; [done|]. by apply valid_is_move.
Qed.


(** An active envelope that is written without force has a declared phase, and a step from a declared phase that the manifest
    does not allow is recorded in the audit log. *)
Theorem envelope_writes_are_declared disk w audit :
  envelopeGate disk w = Ok audit -> w_forced w = false -> w_active w = true -> trim (w_phase w) ≠ [] ->
  isKnownWorkflowState (w_skill w) (trim (w_phase w)) = true /\
  forall from, readPersistedPhase disk = Some from -> auditFrom w = None -> isKnownWorkflowState (w_skill w) from = true ->
    isValidTransition (w_skill w) from (trim (w_phase w)) = true \/ audit = Some (from, trim (w_phase w)).
Proof.
  unfold envelopeGate. intros H Hf Ha Hne. rewrite Hf, Ha in H. cbn [negb orb] in H. destruct (trim (w_phase w)) as [|c p] eqn:Et; [done|]. clear Hne. set (to := c :: p) in *.
  destruct (isKnownWorkflowState (w_skill w) to) eqn:Ek; [|done]. split; [done|]. intros from Hp Hn Hk. destruct (known_trimmed _ _ Hk) as [Hne Htr].
  rewrite Hn, Hp in H. change (default [] (Some from)) with from in H. cbn [negb] in H. rewrite Htr, Hk, bool_decide_false in H by done. cbn [negb andb] in H.
  destruct (isValidTransition (w_skill w) from to) eqn:Ev; [by left|]. right. destruct (decide (from = to)) as [->|Hd].
  - unfold isValidTransition in Ev. by rewrite bool_decide_true in Ev.
  - rewrite bool_decide_false in H by done. cbn [negb andb] in H. by injection H as <-.
Qed.

Lemma locks_named : ([] : jstring) ∉ phaseLock (getSkillManifest ralplan).
Proof. apply (bool_decide_unpack _). vm_compute. exact I. Qed.

(** Artifact writes never reopen a ralplan run that is finished or handed off, and keep its phase declared. *)
Theorem artifacts_do_not_reopen_ralplan existing stages :
  Forall (fun s => s ∈ KNOWN_STAGES) stages ->
  let e := foldl (fun p s => advanceCurrentPhase (Some p) s) existing stages in
  (trim existing = existing -> existing ∈ phaseLock (getSkillManifest ralplan) -> e = existing) /\
  (isKnownWorkflowState ralplan existing = true -> isKnownWorkflowState ralplan e = true).
Proof.
  intros Hs e. subst e. split.
  - intros Ht Hl. induction Hs as [|s stages _ _ IH]; cbn [foldl]; [done|]. unfold advanceCurrentPhase at 2. change (default [] (Some existing)) with existing. rewrite Ht.
    rewrite (bool_decide_true (existing ∈ _)) by done. rewrite bool_decide_false by (intros ->; by destruct locks_named). done.
  - intros Hk. revert existing Hk. induction Hs as [|s stages Hin _ IH]; intros existing Hk; cbn [foldl]; [done|]. apply IH. unfold advanceCurrentPhase. change (default [] (Some existing)) with existing.
    rewrite (proj2 (known_trimmed _ _ Hk)). destruct (_ && _); [done|].
    assert (Forall (fun s => isKnownWorkflowState ralplan s = true) KNOWN_STAGES) as A by (apply (bool_decide_unpack _); vm_compute; exact I). rewrite Forall_forall in A. by apply A.
Qed.

(** ** Examples *)

Lemma workflow_can_always_finish_witness : exists e, e ∈ terminalStates (WORKFLOW_MANIFEST ultragoal) /\ rtc (moves ultragoal) (js "active") e.
Proof.
  apply (workflow_can_always_finish ultragoal (js "active")).
  apply (rtc_l _ _ (js "pending")); [apply (move ultragoal (edge "goal-planning" "pending" "create-goals"))|apply rtc_once, (move ultragoal (edge "pending" "active" "complete-goals"))];
    apply (bool_decide_unpack _); vm_compute; exact I.
Defined.


Definition demoWrite : EnvelopeWrite := mkWrite ralplan true (js " final ") false None.
Definition demoDisk : option Persisted := Some (mkPersisted true (Some (js "critic"))).

Lemma envelope_writes_are_declared_witness : isKnownWorkflowState ralplan (js "final") = true /\ envelopeGate demoDisk demoWrite = Ok (Some (js "critic", js "final")).
Proof.
  split; [|vm_compute; reflexivity].
  apply (envelope_writes_are_declared demoDisk demoWrite (Some (js "critic", js "final"))); vm_compute; done.
Defined.

Lemma artifacts_do_not_reopen_ralplan_witness : foldl (fun p s => advanceCurrentPhase (Some p) s) (js "final") [js "critic"; js "adr"] = js "final".
Proof.
  apply (artifacts_do_not_reopen_ralplan (js "final") [js "critic"; js "adr"]); apply (bool_decide_unpack _); vm_compute; exact I.
Defined.
