(* ===== verification/BashRestriction.v ===== *)
(** * Restricted bash (packages/coding-agent/src/tools/bash-allowed-prefixes.ts, src/gjc-runtime/state-argv.ts)

    Role agents and read-only sessions may run single simple commands that start with an allowed prefix.  Modelled are the
    word splitter, the checks of the words, and the rewriting of an accepted command into quoted words.  The
    lookup of executables, [JSON.parse], [node:path] and the answers of git and the file system are arguments. *)
From S2P Require Import Prelude JsString JsMap JsValue WorkflowManifest.
Open Scope N_scope.

(** ** Splitting a command into words *)

Inductive BashReason : Type :=
| CommandSubstitution
| ExpansionChar (c : N)
| BackslashEscape
| MultipleCommands
| ControlOperator (c : N)
| UnterminatedQuote
| EmptyCommand
| PrefixNotAllowed (readOnly : bool) (prefixes : list jstring)
| NotAnInspectionCommand
| RipgrepPreprocessor
| RipgrepHostname
| RipgrepCompressed
| TreeOutput
| FileMagicCompilation
| GitHostAccess
| GitExternalHelper
| RalplanWithoutWrite
| StateShape
| StateRepeatedSelectors
| StateFileInput
| StateConflictingSelectors
| StateNotCanonical
| StateActionNotAllowed (action : jstring)
| SessionNotBound
| WorktreeNotBound.

Definition SHELL_CONTROL_CHARS : list N := js ";|&<>()".
Definition UNSAFE_UNQUOTED_EXPANSION_CHARS : list N := js "$*?[]{}".

Definition mem (c : N) (l : list N) : bool := bool_decide (c ∈ l).

(** [ASSIGNMENT_NAME_PATTERN] *)
Definition isNameStart (c : N) : bool := is_lower c || is_upper c || (c =? 95).
Definition isAssignmentName (s : jstring) : bool :=
  match s with
  | c :: s' =>
      let body := match last s' with Some 43 => removelast s' | _ => s' end in
      isNameStart c && forallb is_word body
  | [] => false
  end.

Inductive quoteKind : Type := single | double.
#[global] Instance quoteKind_eq_dec : EqDecision quoteKind.
Proof. solve_decision. Defined.

Definition quoteChar (k : quoteKind) : N := match k with single => 39 | double => 34 end.

(** The variables of the loop of [parseShellWords]. *)
Record Lexer : Type := mkLexer {
  lx_words : list jstring; current : jstring; quote : option quoteKind; wordStarted : bool;
  assignmentNameCandidate : bool; sawAssignmentEquals : bool; tildeExpandable : bool }.

Definition newLexer : Lexer := mkLexer [] [] None false true false false.

(** [char === "`" || (char === "$" && next === "(")] *)
Definition substitutes (c : N) (next : option N) : bool := (c =? 96) || ((c =? 36) && bool_decide (next = Some 40)).

Definition openQuote (k : quoteKind) (l : Lexer) : Lexer :=
  mkLexer (lx_words l) (current l) (Some k) true (if sawAssignmentEquals l then assignmentNameCandidate l else false) (sawAssignmentEquals l) false.

Definition closeQuote (l : Lexer) : Lexer :=
  mkLexer (lx_words l) (current l) None (wordStarted l) (assignmentNameCandidate l) (sawAssignmentEquals l) (tildeExpandable l).

Definition addQuoted (c : N) (l : Lexer) : Lexer :=
  mkLexer (lx_words l) (current l ++ [c]) (quote l) (wordStarted l) (assignmentNameCandidate l) (sawAssignmentEquals l) (tildeExpandable l).

Definition endWord (l : Lexer) : Lexer :=
  if wordStarted l then mkLexer (lx_words l ++ [current l]) [] None false true false false
  else mkLexer (lx_words l) (current l) None false true false false.

Definition addBare (c : N) (l : Lexer) : Lexer :=
  let '(cand, saw, tilde) :=
    if (c =? 61) && negb (sawAssignmentEquals l) then
      if assignmentNameCandidate l && isAssignmentName (current l) then (assignmentNameCandidate l, true, true) else (false, false, false)
    else if (c =? 58) && sawAssignmentEquals l then (assignmentNameCandidate l, true, true)
    else (assignmentNameCandidate l, sawAssignmentEquals l, false) in
  mkLexer (lx_words l) (current l ++ [c]) None true cand saw tilde.

(** One round of the loop, with the character after this one. *)
Definition lexStep (c : N) (next : option N) (l : Lexer) : result BashReason Lexer :=
  match quote l with
  | Some single => Ok (if c =? 39 then closeQuote l else addQuoted c l)
  | Some double =>
      if c =? 34 then Ok (closeQuote l)
      else if substitutes c next then Throw CommandSubstitution
      else if c =? 36 then Throw (ExpansionChar c)
      else if c =? 92 then Throw BackslashEscape
      else Ok (addQuoted c l)
  | None =>
      if c =? 39 then Ok (openQuote single l)
      else if c =? 34 then Ok (openQuote double l)
      else if substitutes c next then Throw CommandSubstitution
      else if (c =? 10) || (c =? 13) then Throw MultipleCommands
      else if mem c SHELL_CONTROL_CHARS then Throw (ControlOperator c)
      else if mem c UNSAFE_UNQUOTED_EXPANSION_CHARS then Throw (ExpansionChar c)
      else if (c =? 126) && (negb (wordStarted l) || tildeExpandable l) then Throw (ExpansionChar c)
      else if is_ws c then Ok (endWord l)
      else if c =? 92 then Throw BackslashEscape
      else Ok (addBare c l)
  end.

Fixpoint lexLoop (s : jstring) (l : Lexer) : result BashReason Lexer :=
  match s with
  | [] => Ok l
  | c :: s' => l' ← lexStep c (head s') l; lexLoop s' l'
  end.

(** The words of a command, or why it is refused; the words read before a refusal are not used. *)
Definition parseShellWords (command : jstring) : result BashReason (list jstring) :=
  l ← lexLoop command newLexer;
  match quote l with
  | Some _ => Throw UnterminatedQuote
  | None => Ok (if wordStarted l then lx_words l ++ [current l] else lx_words l)
  end.

(** [value.replace] of every single quote by one in double quotes *)
Definition quoteUnit (c : N) : jstring := if c =? 39 then [39; 34; 39; 34; 39] else [c].
Definition shellQuote (value : jstring) : jstring := 39 :: concat (map quoteUnit value) ++ [39].

(** ** What an accepted command says *)

(** The characters of a word with the quotes around them. *)
Inductive mark : Type := Bare (c : N) | Open (k : quoteKind) | Inside (c : N) | Close (k : quoteKind).

Definition show (m : mark) : jstring := match m with Bare c | Inside c => [c] | Open k | Close k => [quoteChar k] end.
Definition content (m : mark) : jstring := match m with Bare c | Inside c => [c] | _ => [] end.
Definition textOf (w : list mark) : jstring := concat (map content w).

(** Outside quotes: no quote, substitution, operator, expansion, blank, line end or escape. *)
Definition bareSafe (c : N) : bool :=
  negb (mem c [39; 34; 96; 10; 13; 92] || mem c SHELL_CONTROL_CHARS || mem c UNSAFE_UNQUOTED_EXPANSION_CHARS || is_ws c).
(** Inside quotes: all but the closing quote; in double quotes neither substitution, expansion nor escape. *)
Definition quotedSafe (k : quoteKind) (c : N) : bool := match k with single => negb (c =? 39) | double => negb (mem c [34; 96; 36; 92]) end.

(** The quote that is open after some marks, if they are well formed. *)
Definition markStep (q : option (option quoteKind)) (m : mark) : option (option quoteKind) :=
  match q, m with
  | Some None, Bare c => if bareSafe c then Some None else None
  | Some None, Open k => Some (Some k)
  | Some (Some k), Inside c => if quotedSafe k c then Some (Some k) else None
  | Some (Some k), Close k' => if decide (k' = k) then Some None else None
  | _, _ => None
  end.
Definition quoteAfter (w : list mark) : option (option quoteKind) := foldl markStep (Some None) w.

(** A tilde is expanded at the start of a word, and in an assignment after the equals sign or a colon of the value. *)
Definition tildeOpens (before : list mark) : Prop :=
  before = [] \/
  exists name rest, isAssignmentName name = true /\ before = map Bare (name ++ [61]) ++ rest /\ (rest = [] \/ last rest = Some (Bare 58)).

(** A word that the shell takes literally. *)
Definition literalWord (w : list mark) : Prop :=
  w ≠ [] /\ quoteAfter w = Some None /\ forall before after, w = before ++ Bare 126 :: after -> ~ tildeOpens before.

(** Words separated by blanks, the last one perhaps unfinished. *)
Inductive scanned : jstring -> list (list mark) -> list mark -> Prop :=
| scanned_nil : scanned [] [] []
| scanned_mark s ws w m : scanned s ws w -> scanned (s ++ show m) ws (w ++ [m])
| scanned_blank s ws c : is_ws c = true -> scanned s ws [] -> scanned (s ++ [c]) ws []
| scanned_end s ws w c : w ≠ [] -> is_ws c = true -> scanned s ws w -> scanned (s ++ [c]) (ws ++ [w]) [].

(** A command that is a sequence of literal words. *)
Definition literalCommand (s : jstring) (ws : list (list mark)) : Prop :=
  Forall literalWord ws /\ (scanned s ws [] \/ exists ws' w, ws = ws' ++ [w] /\ scanned s ws' w).

(** *** The invariant of the loop *)

Definition assigns (w rest : list mark) : Prop := exists name, isAssignmentName name = true /\ w = map Bare (name ++ [61]) ++ rest.

Record lexed (s : jstring) (l : Lexer) (ws : list (list mark)) (w : list mark) : Prop := mkLexed {
  lexed_scanned : scanned s ws w;
  lexed_literal : Forall literalWord ws;
  lexed_words : map textOf ws = lx_words l;
  lexed_current : textOf w = current l;
  lexed_quote : quoteAfter w = Some (quote l);
  lexed_started : wordStarted l = negb (bool_decide (w = []));
  lexed_tilde : forall before after, w = before ++ Bare 126 :: after -> ~ tildeOpens before;
  lexed_assigns : forall rest, assigns w rest -> sawAssignmentEquals l = true;
  lexed_opens : forall rest, assigns w rest -> rest = [] \/ last rest = Some (Bare 58) -> tildeExpandable l = true;
  lexed_name : forall name, w = map Bare name -> 61 ∉ name -> assignmentNameCandidate l = true /\ sawAssignmentEquals l = false }.

Lemma textOf_snoc w m : textOf (w ++ [m]) = textOf w ++ content m.
Proof. unfold textOf. rewrite map_app, concat_app. cbn [map concat]. by rewrite app_nil_r. Qed.

Lemma quoteAfter_snoc w m : quoteAfter (w ++ [m]) = markStep (quoteAfter w) m.
Proof. unfold quoteAfter. by rewrite foldl_app. Qed.

Lemma assigns_snoc w m rest : assigns (w ++ [m]) rest ->
  (rest = [] /\ exists name, isAssignmentName name = true /\ m = Bare 61 /\ w = map Bare name) \/ (exists rest', rest = rest' ++ [m] /\ assigns w rest').
Proof.
  intros (name & Hn & E). destruct rest as [|m' rest _] using rev_ind.
  - left. split; [done|]. exists name. rewrite app_nil_r, map_app in E. apply app_inj_tail in E as [-> ->]. done.
  - right. exists rest. rewrite app_assoc in E. apply app_inj_tail in E as [-> ->]. split; [done|]. by exists name.
Qed.

Lemma name_no_equals name : isAssignmentName name = true -> 61 ∉ name.
Proof.
  unfold isAssignmentName. destruct name as [|c s]; [done|]. intros [Hc Hb]%andb_true_iff. rewrite not_elem_of_cons. split; [by intros <-|].
  assert (forall x, x ∈ (match last s with Some 43 => removelast s | _ => s end) -> is_word x = true) as Hw.
  { intros x Hx. rewrite forallb_forall in Hb. apply Hb. by apply list_elem_of_In. }
  intros Hin. destruct (last s) as [u|] eqn:El; [|by specialize (Hw _ Hin)].
  apply last_Some in El as [s' ->]. destruct (decide (u = 43)) as [->|Hu].
  - rewrite removelast_last in Hw. apply elem_of_app in Hin as [Hin|Hin]; [by specialize (Hw _ Hin)|]. by apply list_elem_of_singleton in Hin.
  - assert (match Some u with Some 43 => removelast (s' ++ [u]) | _ => s' ++ [u] end = s' ++ [u]) as E by (destruct u as [|p]; [done|]; by repeat (destruct p; try done)).
    rewrite E in Hw. by specialize (Hw _ Hin).
Qed.

Lemma tilde_snoc w m : (forall before after, w = before ++ Bare 126 :: after -> ~ tildeOpens before) -> (m = Bare 126 -> ~ tildeOpens w) ->
  forall before after, w ++ [m] = before ++ Bare 126 :: after -> ~ tildeOpens before.
Proof.
  intros Hw Hm before after E. destruct after as [|x after _] using rev_ind.
  - apply app_inj_tail in E as [-> ->]. by apply Hm.
  - rewrite app_comm_cons, app_assoc in E. apply app_inj_tail in E as [-> _]. by apply (Hw before after).
Qed.

Lemma map_Bare_snoc w m name : w ++ [m] = map Bare name -> exists c name', m = Bare c /\ name = name' ++ [c] /\ w = map Bare name'.
Proof.
  destruct name as [|c name' _] using rev_ind; [by destruct w|]. rewrite map_app. intros [-> ->]%app_inj_tail. by exists c, name'.
Qed.

(** A mark of a quotation. *)
Lemma lexed_quoted s l l' ws w m :
  lexed s l ws w -> (forall c, m ≠ Bare c) -> w ≠ [] \/ (exists k, m = Open k) ->
  lx_words l' = lx_words l -> current l' = current l ++ content m -> markStep (Some (quote l)) m = Some (quote l') -> wordStarted l' = true ->
  sawAssignmentEquals l' = sawAssignmentEquals l -> lexed (s ++ show m) l' ws (w ++ [m]).
Proof.
  intros [H1 H2 H3 H4 H5 H6 H7 H8 H9 H10] Hm Hne E1 E2 E3 E4 E5. split.
  - by constructor.
  - done.
  - by rewrite E1.
  - by rewrite textOf_snoc, H4, E2.
  - by rewrite quoteAfter_snoc, H5.
  - rewrite E4. rewrite bool_decide_false; [done|]. by destruct w.
  - apply tilde_snoc; [done|]. intros ->. by destruct (Hm 126).
  - intros rest [(-> & name & _ & -> & _)|(rest' & -> & Ha)]%assigns_snoc; [by destruct (Hm 61)|]. rewrite E5. by apply (H8 rest').
  - intros rest [(-> & name & _ & -> & _)|(rest' & -> & Ha)]%assigns_snoc; [by destruct (Hm 61)|]. rewrite last_snoc.
    intros [E|[= ->]]; [by destruct rest'|by destruct (Hm 58)].
  - intros name (c & name' & -> & _)%map_Bare_snoc. by destruct (Hm c).
Qed.

(** A character outside quotes. *)
Lemma lexed_bare s l ws w c :
  lexed s l ws w -> quote l = None -> bareSafe c = true -> (c = 126 -> wordStarted l = true /\ tildeExpandable l = false) ->
  lexed (s ++ [c]) (addBare c l) ws (w ++ [Bare c]).
Proof.
  intros [H1 H2 H3 H4 H5 H6 H7 H8 H9 H10] Hq Hc Ht.
  assert (lx_words (addBare c l) = lx_words l /\ current (addBare c l) = current l ++ [c] /\ quote (addBare c l) = None /\ wordStarted (addBare c l) = true) as (A1 & A2 & A3 & A4).
  { unfold addBare. destruct ((c =? 61) && _); [destruct (_ && _)|destruct (_ && _)]; done. }
  split.
  - by apply (scanned_mark s ws w (Bare c)).
  - done.
  - by rewrite A1.
  - by rewrite textOf_snoc, H4, A2.
  - rewrite quoteAfter_snoc, H5, Hq, A3. cbn. by rewrite Hc.
  - rewrite A4, bool_decide_false; [done|]. by destruct w.
  - apply tilde_snoc; [done|]. intros [= ->]. destruct (Ht eq_refl) as [T1 T2]. intros [->|(name & rest & Hn & -> & Hr)].
    + rewrite H6 in T1. done.
    + rewrite (H9 rest) in T2; [done|by exists name|done].
  - intros rest [(-> & name & Hn & [= ->] & ->)|(rest' & -> & Ha)]%assigns_snoc.
    + destruct (H10 name eq_refl (name_no_equals name Hn)) as [C1 C2]. unfold addBare. cbn [N.eqb Pos.eqb andb]. rewrite C1, C2.
      replace (current l) with name; [by rewrite Hn|]. rewrite <- H4. clear. unfold textOf. induction name as [|x name IH]; cbn; [done|by f_equal].
    + specialize (H8 _ Ha). unfold addBare. rewrite H8, andb_false_r. destruct (_ && _); done.
  - intros rest [(-> & name & Hn & [= ->] & ->)|(rest' & -> & Ha)]%assigns_snoc.
    + intros _. destruct (H10 name eq_refl (name_no_equals name Hn)) as [C1 C2]. unfold addBare. cbn [N.eqb Pos.eqb andb]. rewrite C1, C2.
      replace (current l) with name; [by rewrite Hn|]. rewrite <- H4. clear. unfold textOf. induction name as [|x name IH]; cbn; [done|by f_equal].
    + rewrite last_snoc. intros [E|[= ->]]; [by destruct rest'|]. unfold addBare. by rewrite (H8 _ Ha).
  - intros name (x & name' & [= <-] & -> & ->)%map_Bare_snoc Hno. rewrite not_elem_of_app, not_elem_of_cons in Hno. destruct Hno as (N1 & N2 & _).
    destruct (H10 name' eq_refl N1) as [C1 C2]. unfold addBare. rewrite C1, C2. rewrite (proj2 (N.eqb_neq c 61)) by congruence. cbn [andb]. rewrite andb_false_r. done.
Qed.

Lemma lexed_end s l ws w c : lexed s l ws w -> quote l = None -> is_ws c = true ->
  exists ws', lexed (s ++ [c]) (endWord l) ws' [].
Proof.
  intros [H1 H2 H3 H4 H5 H6 H7 H8 H9 H10] Hq Hc. unfold endWord. destruct (decide (w = [])) as [->|Hw].
  - rewrite bool_decide_true in H6 by done. rewrite H6. exists ws. split; try done; cbn.
    + by constructor.
    + intros rest (name & Hn & E). by destruct name.
    + intros rest (name & Hn & E). by destruct name.
  - rewrite bool_decide_false in H6 by done. rewrite H6. exists (ws ++ [w]). split; try done; cbn.
    + by constructor.
    + apply Forall_app. split; [done|]. apply Forall_singleton. split; [done|]. split; [by rewrite H5, Hq|done].
    + rewrite map_app. cbn. by rewrite H3, H4.
    + intros before after E. by destruct before.
    + intros rest (name & Hn & E). by destruct name.
    + intros rest (name & Hn & E). by destruct name.
Qed.

Lemma mem_false c l : mem c l = false <-> c ∉ l.
Proof. apply bool_decide_eq_false. Qed.

Lemma bareSafe_intro c : (c =? 39) = false -> (c =? 34) = false -> (c =? 96) = false -> (c =? 10) || (c =? 13) = false -> (c =? 92) = false ->
  mem c SHELL_CONTROL_CHARS = false -> mem c UNSAFE_UNQUOTED_EXPANSION_CHARS = false -> is_ws c = false -> bareSafe c = true.
Proof.
  intros H1 H2 H3 [H4 H5]%orb_false_iff H6 H7 H8 H9. unfold bareSafe. rewrite H7, H8, H9.
  assert (mem c [39; 34; 96; 10; 13; 92] = false) as ->; [|done]. apply mem_false. rewrite !not_elem_of_cons.
  repeat match goal with H : (c =? _) = false |- _ => apply N.eqb_neq in H end. repeat split; try done. by apply not_elem_of_nil.
Qed.

Lemma substitutes_false c next : substitutes c next = false -> (c =? 96) = false.
Proof. by intros [? _]%orb_false_iff. Qed.

Lemma lexStep_lexed s l ws w c next l' : lexed s l ws w -> lexStep c next l = Ok l' -> exists ws' w', lexed (s ++ [c]) l' ws' w'.
Proof.
  intros HL Hs. unfold lexStep in Hs. destruct (quote l) as [k|] eqn:Eq.
  - assert (w ≠ [] /\ wordStarted l = true) as [Hw Hst].
    { pose proof (lexed_quote _ _ _ _ HL) as E. rewrite Eq in E. assert (w ≠ []) as Hw by by intros ->.
      split; [done|]. rewrite (lexed_started _ _ _ _ HL). by rewrite bool_decide_false. }
    assert (forall m, (m = Close k /\ l' = closeQuote l) \/ (m = Inside c /\ quotedSafe k c = true /\ l' = addQuoted c l) -> show m = [c] ->
              exists ws' w', lexed (s ++ [c]) l' ws' w') as Hgo.
    { intros m Hm Hsh. exists ws, (w ++ [m]). rewrite <- Hsh. destruct Hm as [[-> ->]|(-> & Hsafe & ->)].
      - eapply lexed_quoted; [exact HL|done|by left|done|by rewrite app_nil_r|cbn; rewrite Eq; cbn; by rewrite decide_True|done|done].
      - eapply lexed_quoted; [exact HL|done|by left|done|done|cbn; rewrite Eq; cbn; by rewrite Hsafe|done|done]. }
    destruct k.
    + injection Hs as <-. destruct (N.eqb_spec c 39) as [->|Hne].
      * apply (Hgo (Close single)); [by left|done].
      * apply (Hgo (Inside c)); [right; split; [done|]; split; [cbn; by rewrite (proj2 (N.eqb_neq c 39) Hne)|done]|done].
    + destruct (N.eqb_spec c 34) as [->|Hne]; [injection Hs as <-; apply (Hgo (Close double)); [by left|done]|].
      destruct (substitutes c next) eqn:Esub; [done|]. destruct (N.eqb_spec c 36) as [|Hd]; [done|]. destruct (N.eqb_spec c 92) as [|Hb]; [done|].
      injection Hs as <-. apply substitutes_false, N.eqb_neq in Esub. apply (Hgo (Inside c)); [right; split; [done|]; split; [|done]|done].
      cbn. assert (mem c [34; 96; 36; 92] = false) as ->; [|done]. apply mem_false. rewrite !not_elem_of_cons. repeat split; try done. by apply not_elem_of_nil.
  - destruct (c =? 39) eqn:E1; [|destruct (c =? 34) eqn:E2].
    + injection Hs as <-. apply N.eqb_eq in E1 as ->. exists ws, (w ++ [Open single]). change [39] with (show (Open single)).
      eapply lexed_quoted; [exact HL|done|right; by exists single|done|by rewrite app_nil_r|cbn; by rewrite Eq|done|done].
    + injection Hs as <-. apply N.eqb_eq in E2 as ->. exists ws, (w ++ [Open double]). change [34] with (show (Open double)).
      eapply lexed_quoted; [exact HL|done|right; by exists double|done|by rewrite app_nil_r|cbn; by rewrite Eq|done|done].
    + destruct (substitutes c next) eqn:Esub; [done|]. destruct ((c =? 10) || (c =? 13)) eqn:E3; [done|]. destruct (mem c SHELL_CONTROL_CHARS) eqn:E4; [done|].
      destruct (mem c UNSAFE_UNQUOTED_EXPANSION_CHARS) eqn:E5; [done|]. destruct ((c =? 126) && (negb (wordStarted l) || tildeExpandable l)) eqn:E6; [done|].
      destruct (is_ws c) eqn:E7; [injection Hs as <-; destruct (lexed_end s l ws w c HL Eq E7) as [ws' H']; by exists ws', []|].
      destruct (c =? 92) eqn:E8; [done|]. injection Hs as <-. exists ws, (w ++ [Bare c]). apply lexed_bare; [done|done| |].
      * apply bareSafe_intro; try done. by eapply substitutes_false.
      * intros ->. cbn in E6. apply orb_false_iff in E6 as [E6 ->]. split; [by destruct (wordStarted l)|done].
Qed.

Lemma lexLoop_lexed t : forall s l ws w l', lexed s l ws w -> lexLoop t l = Ok l' -> exists ws' w', lexed (s ++ t) l' ws' w'.
Proof.
  induction t as [|c t IH]; intros s l ws w l' HL Ht; cbn [lexLoop] in Ht.
  - injection Ht as <-. rewrite app_nil_r. by exists ws, w.
  - destruct (lexStep c (head t) l) as [l1|] eqn:E; [|done]. cbn [mbind result_bind] in Ht.
    destruct (lexStep_lexed _ _ _ _ _ _ _ HL E) as (ws1 & w1 & H1). destruct (IH _ _ _ _ _ H1 Ht) as (ws2 & w2 & H2).
    rewrite <- app_assoc in H2. by exists ws2, w2.
Qed.

Lemma lexed_nil : lexed [] newLexer [] [].
Proof.
  split; try done; cbn.
  - constructor.
  - intros before after E. by destruct before.
  - intros rest (name & Hn & E). by destruct name.
  - intros rest (name & Hn & E). by destruct name.
Qed.

Lemma parse_literal command words : parseShellWords command = Ok words -> exists ws, literalCommand command ws /\ map textOf ws = words.
Proof.
  unfold parseShellWords. destruct (lexLoop command newLexer) as [l|] eqn:E; [|done]. cbn [mbind result_bind].
  destruct (lexLoop_lexed _ _ _ _ _ _ lexed_nil E) as (ws & w & [H1 H2 H3 H4 H5 H6 H7 _ _ _]). cbn [app] in H1.
  destruct (quote l) eqn:Eq; [done|]. intros [= <-]. destruct (decide (w = [])) as [->|Hw].
  - rewrite bool_decide_true in H6 by done. rewrite H6. exists ws. split; [|done]. split; [done|]. by left.
  - rewrite bool_decide_false in H6 by done. rewrite H6. exists (ws ++ [w]). split.
    + split; [|right; by exists ws, w]. apply Forall_app. split; [done|]. by apply Forall_singleton.
    + rewrite map_app. cbn [map]. by rewrite H3, H4.
Qed.

(** *** Quoted words are read back *)

Lemma lex_close k s l : quote l = Some k -> lexLoop (quoteChar k :: s) l = lexLoop s (closeQuote l).
Proof. intros Hq. cbn [lexLoop]. unfold lexStep. rewrite Hq. by destruct k. Qed.

Lemma lex_open k s l : quote l = None -> lexLoop (quoteChar k :: s) l = lexLoop s (openQuote k l).
Proof. intros Hq. cbn [lexLoop]. unfold lexStep. rewrite Hq. by destruct k. Qed.

Lemma lex_inside k c s l : quote l = Some k -> quotedSafe k c = true -> lexLoop (c :: s) l = lexLoop s (addQuoted c l).
Proof.
  intros Hq Hc. cbn [lexLoop]. unfold lexStep. rewrite Hq. destruct k; cbn [quotedSafe] in Hc.
  - by destruct (c =? 39).
  - apply negb_true_iff, mem_false in Hc. rewrite !not_elem_of_cons in Hc. destruct Hc as (H1 & H2 & H3 & H4 & _).
    unfold substitutes. rewrite !(proj2 (N.eqb_neq _ _)) by congruence. done.
Qed.

Lemma lex_units v : forall rest l, quote l = Some single -> wordStarted l = true ->
  exists l', lexLoop (concat (map quoteUnit v) ++ rest) l = lexLoop rest l' /\ quote l' = Some single /\ wordStarted l' = true /\
             lx_words l' = lx_words l /\ current l' = current l ++ v.
Proof.
  induction v as [|c v IH]; intros rest l Hq Hw; [exists l; by rewrite app_nil_r|]. cbn [map concat]. unfold quoteUnit at 1.
  destruct (N.eqb_spec c 39) as [->|Hc].
  - cbn [app]. rewrite (lex_close single), (lex_open double), (lex_inside double 39), (lex_close double), (lex_open single) by done.
    set (l2 := openQuote single _). destruct (IH rest l2 eq_refl eq_refl) as (l' & E & Q & W & X & C). exists l'. split; [exact E|].
    split; [done|]. split; [done|]. split; [by rewrite X|]. rewrite C. cbn. by rewrite <- app_assoc.
  - cbn [app]. rewrite (lex_inside single c) by (done || cbn; by rewrite (proj2 (N.eqb_neq c 39) Hc)).
    destruct (IH rest (addQuoted c l) Hq Hw) as (l' & E & Q & W & X & C). exists l'. do 4 (split; [done|]). rewrite C. cbn. by rewrite <- app_assoc.
Qed.

Lemma lex_quoted v rest l : quote l = None ->
  exists l', lexLoop (shellQuote v ++ rest) l = lexLoop rest l' /\ quote l' = None /\ wordStarted l' = true /\
             lx_words l' = lx_words l /\ current l' = current l ++ v.
Proof.
  intros Hq. unfold shellQuote. cbn [app]. rewrite (lex_open single) by done. rewrite <- app_assoc.
  destruct (lex_units v ([39] ++ rest) (openQuote single l) eq_refl eq_refl) as (l1 & -> & Q & W & X & C). cbn [app].
  rewrite (lex_close single) by done. by exists (closeQuote l1).
Qed.

Lemma lex_words_quoted ws : forall l, ws ≠ [] -> quote l = None -> current l = [] ->
  exists l', lexLoop (join [32] (map shellQuote ws)) l = Ok l' /\ quote l' = None /\ wordStarted l' = true /\ lx_words l' ++ [current l'] = lx_words l ++ ws.
Proof.
  induction ws as [|v ws IH]; intros l Hne Hq Hc; [done|]. destruct ws as [|v' ws].
  - cbn [map join]. destruct (lex_quoted v [] l Hq) as (l' & E & Q & W & X & C). rewrite app_nil_r in E. exists l'. rewrite E. do 3 (split; [done|]). by rewrite X, C, Hc.
  - change (join [32] (map shellQuote (v :: v' :: ws))) with (shellQuote v ++ [32] ++ join [32] (map shellQuote (v' :: ws))).
    destruct (lex_quoted v ([32] ++ join [32] (map shellQuote (v' :: ws))) l Hq) as (l1 & -> & Q & W & X & C). cbn [app lexLoop].
    unfold lexStep at 1. rewrite Q. cbn [mbind result_bind]. change (substitutes 32 _) with false. cbn [N.eqb Pos.eqb orb andb].
    change (mem 32 SHELL_CONTROL_CHARS) with false. change (mem 32 UNSAFE_UNQUOTED_EXPANSION_CHARS) with false. change (is_ws 32) with true. cbn [mbind result_bind].
    unfold endWord. rewrite W. destruct (IH (mkLexer (lx_words l1 ++ [current l1]) [] None false true false false)) as (l' & E & Q' & W' & X'); [done|done|done|].
    exists l'. do 3 (split; [done|]). rewrite X'. cbn [lx_words]. rewrite X, C, Hc. cbn [app]. by rewrite <- app_assoc.
Qed.

Lemma parse_quoted ws : ws ≠ [] -> parseShellWords (join [32] (map shellQuote ws)) = Ok ws.
Proof.
  intros Hne. unfold parseShellWords. destruct (lex_words_quoted ws newLexer Hne eq_refl eq_refl) as (l & -> & Q & W & X). cbn [mbind result_bind].
  rewrite Q, W, X. done.
Qed.

(** ** Checks of the words *)

Definition wordIs (w : jstring) (s : string) : bool := bool_decide (w = js s).
Definition firstIs (words : list jstring) (s : string) : bool := from_option (fun w => wordIs w s) false (head words).

(** [s.split(/\s+/).filter(Boolean)]: the runs of characters that are no blanks. *)
Fixpoint blankRuns (s cur : jstring) : list jstring :=
  match s with
  | [] => match cur with [] => [] | _ => [cur] end
  | c :: s' => if is_ws c then match cur with [] => blankRuns s' [] | _ => cur :: blankRuns s' [] end else blankRuns s' (cur ++ [c])
  end.
Definition prefixWords (prefix : jstring) : list jstring := blankRuns (trim prefix) [].

Fixpoint startsWithWords (words prefix : list jstring) : bool :=
  match prefix, words with
  | [], _ => true
  | p :: prefix', w :: words' => bool_decide (w = p) && startsWithWords words' prefix'
  | _, [] => false
  end.
Definition wordsStartWith (words prefix : list jstring) : bool := match prefix with [] => false | _ => startsWithWords words prefix end.

Fixpoint beforeDashes (words : list jstring) : list jstring :=
  match words with [] => [] | w :: words' => if wordIs w "--" then [] else w :: beforeDashes words' end.
Definition optionWords (words : list jstring) : list jstring := beforeDashes (drop 1 words).

Definition isLongOption (word : jstring) (option : string) : bool := wordIs word option || starts_with (js option ++ [61]) word.

Definition hasShortOption (word : jstring) (option : N) : bool :=
  starts_with (js "-") word && negb (starts_with (js "--") word) && mem option (drop 1 word).

(** [indexOf("=")] and the part before it *)
Definition gitOptionName (word : jstring) : jstring := match index_of 61 word with Some i => take i word | None => word end.

Definition FILE_VALUE_OPTIONS : list jstring :=
  map js ["--exclude"; "--exclude-quiet"; "--files-from"; "--separator"; "--magic-file"; "--parameter"]%string.

Inductive cluster : Type := cl_compiles | cl_takesNext | cl_done.
Fixpoint shortCluster (flags : jstring) : cluster :=
  match flags with
  | [] => cl_done
  | f :: rest =>
      if f =? 67 then cl_compiles
      else if mem f (js "eFfmMP") then match rest with [] => cl_takesNext | _ => cl_done end
      else shortCluster rest
  end.

(** [fileCompilesMagic] from the word after the command. *)
Fixpoint compilesMagic (words : list jstring) : bool :=
  match words with
  | [] => false
  | w :: rest =>
      let skipped := match rest with _ :: rest' => compilesMagic rest' | [] => false end in
      if wordIs w "--" then false
      else if starts_with (js "--") w then
        let name := gitOptionName w in
        if (2 <? length name)%nat && starts_with name (js "--compile") then true
        else if bool_decide (index_of 61 w = None) && (2 <? length name)%nat && existsb (starts_with name) FILE_VALUE_OPTIONS then skipped
        else compilesMagic rest
      else if starts_with (js "-") w then
        match shortCluster (drop 1 w) with cl_compiles => true | cl_takesNext => skipped | cl_done => compilesMagic rest end
      else compilesMagic rest
  end.
Definition fileCompilesMagic (words : list jstring) : bool := compilesMagic (drop 1 words).

(** Enabling forms only. *)
Definition gitEnablesExternalHelper (word : jstring) : bool :=
  starts_with (js "--") word && (bool_decide (gitOptionName word = js "--ext-diff") || bool_decide (gitOptionName word = js "--textconv")).

(** The first reason among the options, if any. *)
Definition firstReason (f : jstring -> option BashReason) (options : list jstring) : option BashReason := head (omap f options).

Definition rejectGitHostAccess (words : list jstring) : option BashReason :=
  if firstIs words "git" then
    firstReason (fun o => if isLongOption o "--output" || isLongOption o "--no-index" then Some GitHostAccess
                          else if gitEnablesExternalHelper o then Some GitExternalHelper else None) (optionWords words)
  else None.

Definition READ_ONLY_COMMANDS : list jstring := map js ["grep"; "rg"; "tree"; "ls"; "pwd"; "wc"; "du"; "file"; "stat"]%string.

Definition rgReason (o : jstring) : option BashReason :=
  if isLongOption o "--pre" || isLongOption o "--pre-glob" then Some RipgrepPreprocessor
  else if isLongOption o "--hostname-bin" then Some RipgrepHostname
  else if isLongOption o "--search-zip" || hasShortOption o 122 then Some RipgrepCompressed
  else None.
Definition treeReason (o : jstring) : option BashReason := if isLongOption o "--output" || hasShortOption o 111 then Some TreeOutput else None.

Definition check (r : option BashReason) (k : result BashReason unit) : result BashReason unit := match r with Some reason => Throw reason | None => k end.

Definition validateReadOnlyCommand (words : list jstring) : result BashReason unit :=
  match words with
  | ((_ :: _) as command) :: _ =>
      if negb (bool_decide (command ∈ READ_ONLY_COMMANDS)) then Throw NotAnInspectionCommand
      else
        check (if wordIs command "rg" then firstReason rgReason (optionWords words) else None)
          (check (if wordIs command "tree" then firstReason treeReason (optionWords words) else None)
             (check (if wordIs command "file" && fileCompilesMagic words then Some FileMagicCompilation else None)
                (check (rejectGitHostAccess words) (Ok tt))))
  | _ => Throw NotAnInspectionCommand
  end.

Definition GIT_DIFF_FAMILY_SUBCOMMANDS : list jstring := map js ["blame"; "diff"; "log"; "show"]%string.

Definition disableGitExternalHelpers (commandName : jstring) (argv : list jstring) : list jstring :=
  if wordIs commandName "git" && bool_decide (default [] (argv !! 1%nat) ∈ GIT_DIFF_FAMILY_SUBCOMMANDS)
  then take 2 argv ++ [js "--no-ext-diff"; js "--no-textconv"] ++ drop 2 argv
  else argv.

(** ** [gjc state] *)

Definition CANONICAL_STATE_TARGETS : list jstring := map skillName CANONICAL_GJC_WORKFLOW_SKILLS.
Definition STATE_ACTION_NAMES : list jstring :=
  map js ["read"; "write"; "clear"; "contract"; "approve-execution"; "handoff"; "graph"; "prune"; "gc"; "migrate"; "status"; "doctor"]%string.
Definition STATE_FLAGS_WITH_VALUES : list jstring :=
  map js ["--input"; "--mode"; "--session-id"; "--thread-id"; "--turn-id"; "--to"; "--skill"; "--format"; "--older-than"; "--status"; "--fields"; "--since"; "--limit"]%string.
Definition STATE_BOOLEAN_FLAGS : list jstring := map js ["--json"; "--replace"; "--hard"; "--dry-run"; "--migrate"; "--compact"; "--history"; "--force"]%string.
Definition ALLOWED_STATE_ACTIONS : list jstring := map js ["read"; "write"; "contract"]%string.

Inductive arity : Type := a_boolean | a_value.

(** Positions of flags and selectors in the command line are left out. *)
Record StateFlagOccurrence : Type := mkFlag { f_name : jstring; f_value : option jstring; attached : bool; malformed : bool }.

Inductive StateInputKind : Type := in_empty | in_inline (payload : value) | in_file | in_invalid.
Record StateInputClassification : Type := mkInput { i_raw : jstring; i_kind : StateInputKind }.

Record StateArgvClassification : Type := mkStateArgv {
  effectiveAction : jstring; positionals : list jstring; flags : list StateFlagOccurrence; unknownFlags : list jstring;
  inputs : list StateInputClassification; runtimeSelectorCandidates : list (option jstring); selectorCandidates : list (option jstring) }.

Definition normalizedFlagName (arg : jstring) : option jstring := if starts_with (js "--") arg then Some (gitOptionName arg) else None.

(** A non-empty string after trimming. *)
Definition trimmedOr (s : jstring) : option jstring := match trim s with [] => None | t => Some t end.
Definition normalizedSelector (v : value) : option jstring := match v with v_string s => trimmedOr s | _ => None end.

Fixpoint parseRuntimePositionals (argv : list jstring) : list jstring :=
  match argv with
  | [] => []
  | arg :: rest =>
      if bool_decide (arg ∈ STATE_FLAGS_WITH_VALUES) then match rest with _ :: rest' => parseRuntimePositionals rest' | [] => [] end
      else if starts_with (js "-") arg then parseRuntimePositionals rest else arg :: parseRuntimePositionals rest
  end.

(** A positional that is there and not empty. *)
Definition truthy (o : option jstring) : option jstring := match o with Some ((_ :: _) as s) => Some s | _ => None end.

(** The action and the skill that the positionals name. *)
Definition parseAction (ps : list jstring) : jstring * option jstring :=
  match truthy (ps !! 0%nat), truthy (ps !! 1%nat) with
  | Some first, second =>
      if bool_decide (first ∈ STATE_ACTION_NAMES) then (first, second)
      else match second with
           | Some second => if bool_decide (second ∈ STATE_ACTION_NAMES) then (second, Some first) else (js "read", None)
           | None => (js "read", Some first)
           end
  | None, _ => (js "read", None)
  end.

Section Restriction.
(** [JSON.parse], [Bun.which], [path.isAbsolute], [path.resolve], [fs.realpathSync] (nothing when it throws) and the output of
    [git rev-parse --git-common-dir] in a directory (nothing when it fails). *)
Context (parseJSON : jstring -> option value) (which : jstring -> option jstring) (isAbsolute : jstring -> bool)
  (resolvePath : jstring -> jstring -> jstring) (realpath revParse : jstring -> option jstring).

(** [stateFlagArities(...).get(name)] *)
Definition stateFlagArity (action : jstring) (skill : option jstring) (name : jstring) : option arity :=
  if bool_decide (name ∈ STATE_BOOLEAN_FLAGS) then Some a_boolean
  else if bool_decide (name ∈ STATE_FLAGS_WITH_VALUES) then Some a_value
  else
    let skills := match skill ≫= skillNamed with Some k => [k] | None => CANONICAL_GJC_WORKFLOW_SKILLS end in
    let args := concat (map (fun k => typedArgsFor k action) skills) in
    (fun a => if bool_decide (a_type a = t_boolean) then a_boolean else a_value) <$> List.find (fun a => bool_decide (js "--" ++ a_name a = name)) args.

Definition classifyInput (v : option jstring) : StateInputClassification :=
  let raw := default [] v in
  mkInput raw
    (match trim raw with
     | [] => in_empty
     | 64 :: _ => in_file
     | t => match parseJSON t with Some (v_object _ as p) => in_inline p | _ => in_invalid end
     end).

Definition inputSelectors (i : StateInputClassification) : list (option jstring) :=
  match i_kind i with in_inline p => [normalizedSelector (prop (js "mode") p); normalizedSelector (prop (js "skill") p)] | _ => [] end.

(** The loop over the flags: those that are known and the names of those that are not. *)
Fixpoint scanFlags (arityOf : jstring -> option arity) (argv : list jstring) : list StateFlagOccurrence * list jstring :=
  match argv with
  | [] => ([], [])
  | arg :: rest =>
      let '(fs, us) := scanFlags arityOf rest in
      match normalizedFlagName arg with
      | None => (fs, us)
      | Some name =>
          match arityOf name with
          | None => (fs, name :: us)
          | Some ar =>
              if negb (bool_decide (arg = name)) then (mkFlag name (Some (drop (S (length name)) arg)) true true :: fs, us)
              else match ar with
                   | a_boolean => (mkFlag name None false false :: fs, us)
                   | a_value => (mkFlag name (head rest) false (match head rest with None => true | Some v => starts_with (js "--") v end) :: fs, us)
                   end
          end
      end
  end.

(** [argv[argv.indexOf(name) + 1]] for a flag that is there *)
Fixpoint afterFlag (name : jstring) (argv : list jstring) : option (option jstring) :=
  match argv with [] => None | a :: rest => if bool_decide (a = name) then Some (head rest) else afterFlag name rest end.

Definition classifyStateArgv (argv : list jstring) : StateArgvClassification :=
  let ps := parseRuntimePositionals argv in
  let '(action, skill) := parseAction ps in
  let '(fs, us) := scanFlags (stateFlagArity action skill) argv in
  let effective := if bool_decide (action = js "read") && bool_decide (js "--migrate" ∈ argv) then js "migrate" else action in
  let separate name := filter (fun f => f_name f = js name /\ attached f = false) fs in
  let ins := map (fun f => classifyInput (f_value f)) (separate "--input"%string) in
  let positional := skill ≫= trimmedOr in
  let firstMode := match afterFlag (js "--mode") argv with Some (Some v) => trimmedOr v | _ => None end in
  let firstInput := match afterFlag (js "--input") argv with Some v => inputSelectors (classifyInput v) | None => [] end in
  mkStateArgv effective ps fs us ins ([firstMode; positional] ++ firstInput)
    ([positional] ++ map (fun f => f_value f ≫= trimmedOr) (separate "--mode"%string) ++ concat (map inputSelectors ins)).

Definition hasDocumentedStatePositionals (c : StateArgvClassification) : bool :=
  match truthy (positionals c !! 2%nat), truthy (positionals c !! 1%nat) with
  | Some _, _ => false
  | None, None => true
  | None, Some second =>
      bool_decide (default [] (positionals c !! 0%nat) ∈ STATE_ACTION_NAMES) || bool_decide (second ∈ STATE_ACTION_NAMES)
  end.

(** The action and the target of a [gjc state] command. *)
Definition classifyStateAction (words : list jstring) : result BashReason (jstring * jstring) :=
  let c := classifyStateArgv (drop 2 words) in
  let count name := length (filter (fun f => f_name f = js name) (flags c)) in
  if negb (bool_decide (unknownFlags c = [])) || existsb malformed (flags c) || negb (hasDocumentedStatePositionals c) then Throw StateShape
  else if (1 <? count "--mode"%string)%nat || (1 <? count "--input"%string)%nat then Throw StateRepeatedSelectors
  else if existsb (fun i => match i_kind i with in_file => true | _ => false end) (inputs c) then Throw StateFileInput
  else if existsb (fun i => match i_kind i with in_invalid => true | _ => false end) (inputs c) then Throw StateShape
  else
    let runtimeTarget := head (omap (fun o => o) (runtimeSelectorCandidates c)) in
    let supplied := omap (fun o => o) (selectorCandidates c) in
    if (1 <? length (foldl s_add [] supplied))%nat
       || match runtimeTarget with Some t => existsb (fun s => negb (bool_decide (s = t))) supplied | None => false end
    then Throw StateConflictingSelectors
    else match runtimeTarget with
         | Some t => if bool_decide (t ∈ CANONICAL_STATE_TARGETS) then Ok (effectiveAction c, t) else Throw StateNotCanonical
         | None => Throw StateNotCanonical
         end.

(** ** The session a command is bound to *)

Record GjcSessionBinding : Type := mkBinding {
  b_sessionId : option jstring; b_credentialSessionId : option jstring; b_worktreeRoot : jstring; b_invocationCwd : jstring }.
Record BashRestrictionOptions : Type := mkOptions { readOnly : bool; gjcSessionBinding : option GjcSessionBinding }.

Fixpoint separateFlagValues (words : list jstring) (flag : jstring) : list jstring :=
  match words with
  | [] => []
  | w :: rest =>
      if bool_decide (w = flag) then match rest with v :: rest' => v :: separateFlagValues rest' flag | [] => [[]] end
      else separateFlagValues rest flag
  end.

Definition boundSessionIds (b : GjcSessionBinding) : list jstring :=
  omap (fun o => o ≫= trimmedOr) [b_sessionId b; b_credentialSessionId b].

Definition inlineStateSessionIds (words : list jstring) : list jstring :=
  if bool_decide (words !! 1%nat = Some (js "state")) then
    omap (fun i => match i_kind i with
                   | in_inline _ => match parseJSON (i_raw i) with Some (v_object _ as p) => match prop (js "session_id") p with v_string s => Some s | _ => None end | _ => None end
                   | _ => None
                   end) (inputs (classifyStateArgv (drop 2 words)))
  else [].

Definition absoluteFrom (base p : jstring) : jstring := if isAbsolute p then p else resolvePath base p.

Definition gitCommonDir (directory : jstring) : option jstring :=
  out ← revParse directory; text ← trimmedOr out; realpath (absoluteFrom directory text).

(** Same directory, or another worktree of the same git common dir. *)
Definition sameRepository (workspace target : jstring) : bool :=
  match realpath workspace, realpath target with
  | Some w, Some t => if bool_decide (w = t) then true else match gitCommonDir w with Some c => bool_decide (gitCommonDir t = Some c) | None => false end
  | _, _ => false
  end.

Definition worktreeSelectorAllowed (b : GjcSessionBinding) (raw : jstring) : bool :=
  match trim raw with [] => false | t => sameRepository (b_worktreeRoot b) (absoluteFrom (b_invocationCwd b) t) end.

Definition sessionSelectors (words : list jstring) : list jstring := separateFlagValues words (js "--session-id") ++ inlineStateSessionIds words.

Definition rejectUnboundGjcCommand (words : list jstring) (o : BashRestrictionOptions) : option BashReason :=
  match gjcSessionBinding o with
  | None => None
  | Some b =>
      if existsb (fun v => negb (bool_decide (trim v ∈ boundSessionIds b))) (sessionSelectors words) then Some SessionNotBound
      else if existsb (fun v => negb (worktreeSelectorAllowed b v)) (separateFlagValues words (js "--worktree-root")) then Some WorktreeNotBound
      else None
  end.

Definition validateMatchedGjcCommand (words : list jstring) (o : BashRestrictionOptions) : result BashReason unit :=
  check (rejectGitHostAccess words)
    (if negb (firstIs words "gjc") then Ok tt
     else if bool_decide (words !! 1%nat = Some (js "ralplan")) then
       if negb (bool_decide (js "--write" ∈ words)) then Throw RalplanWithoutWrite else check (rejectUnboundGjcCommand words o) (Ok tt)
     else if bool_decide (words !! 1%nat = Some (js "state")) then
       match classifyStateAction words with
       | Throw r => Throw r
       | Ok (action, _) =>
           if negb (bool_decide (action ∈ ALLOWED_STATE_ACTIONS)) then Throw (StateActionNotAllowed action)
           else check (rejectUnboundGjcCommand words o) (Ok tt)
       end
     else check (rejectUnboundGjcCommand words o) (Ok tt)).

Definition normalizedPrefixes (allowed : option (list jstring)) : list jstring := omap trimmedOr (default [] allowed).

Definition checkBashAllowedPrefixes (command : jstring) (allowed : option (list jstring)) (o : BashRestrictionOptions) : result BashReason unit :=
  match normalizedPrefixes allowed with
  | [] => Ok tt
  | prefixes =>
      words ← parseShellWords (trim command);
      match words with
      | [] => Throw EmptyCommand
      | _ =>
          if negb (existsb (fun p => wordsStartWith words (prefixWords p)) prefixes) then Throw (PrefixNotAllowed (readOnly o) prefixes)
          else if readOnly o then validateReadOnlyCommand words else validateMatchedGjcCommand words o
      end
  end.

(** The command that is run instead of the one that was given. *)
Definition normalizeWorkflowBashCommand (command : jstring) (allowed : option (list jstring)) (o : BashRestrictionOptions) : option jstring :=
  if readOnly o then None
  else match checkBashAllowedPrefixes command allowed o, parseShellWords (trim command) with
       | Ok _, Ok (((_ :: _) as hd) :: rest) =>
           exe ← truthy (which hd); Some (join [32] (map shellQuote (disableGitExternalHelpers hd (exe :: rest))))
       | _, _ => None
       end.

Definition normalizeReadOnlyBashCommand (command : jstring) : option jstring :=
  match parseShellWords (trim command) with
  | Ok words =>
      match validateReadOnlyCommand words, words with
      | Ok _, ((_ :: _) as hd) :: rest => exe ← truthy (which hd); Some (join [32] (shellQuote exe :: map shellQuote rest))
      | _, _ => None
      end
  | Throw _ => None
  end.

(** ** What the checks guarantee *)

(** A guard that rejects was not taken. *)
Ltac pass_guard E := match goal with |- (if ?b then _ else _) = _ -> _ => destruct b eqn:E; [done|] end.

Lemma existsb_none {A} (f : A -> bool) l : existsb f l = false -> Forall (fun x => f x = false) l.
Proof. induction l as [|x l IH]; cbn [existsb]; [constructor|]. intros [H1 H2]%orb_false_iff. constructor; auto. Qed.

Lemma check_ok r k : check r k = Ok tt -> r = None /\ k = Ok tt.
Proof. by destruct r. Qed.

Lemma firstReason_none f options : firstReason f options = None -> Forall (fun o => f o = None) options.
Proof.
  unfold firstReason. induction options as [|o options IH]; cbn [omap list_omap head]; [constructor|].
  destruct (f o) eqn:E; [done|]. intros H. constructor; [done|]. by apply IH.
Qed.

Lemma startsWithWords_prefix prefix : forall words, startsWithWords words prefix = true -> prefix `prefix_of` words.
Proof.
  induction prefix as [|p prefix IH]; intros words H; [apply prefix_nil|]. destruct words as [|w words]; [done|].
  cbn [startsWithWords] in H. apply andb_true_iff in H as [->%bool_decide_eq_true H]. by apply prefix_cons, IH.
Qed.

(** The options of a git command that is let through. *)
Definition harmlessGitOption (o : jstring) : Prop :=
  isLongOption o "--output" = false /\ isLongOption o "--no-index" = false /\ gitEnablesExternalHelper o = false.

Lemma git_harmless words : rejectGitHostAccess words = None -> firstIs words "git" = true -> Forall harmlessGitOption (optionWords words).
Proof.
  unfold rejectGitHostAccess. intros H Hg. rewrite Hg in H. apply firstReason_none in H. eapply Forall_impl; [exact H|]. intros o. unfold harmlessGitOption.
  destruct (isLongOption o "--output"), (isLongOption o "--no-index"), (gitEnablesExternalHelper o); done.
Qed.

Lemma allowed_inv command allowed o : normalizedPrefixes allowed ≠ [] -> checkBashAllowedPrefixes command allowed o = Ok tt ->
  exists words, parseShellWords (trim command) = Ok words /\ words ≠ [] /\
    (exists p, p ∈ normalizedPrefixes allowed /\ prefixWords p ≠ [] /\ prefixWords p `prefix_of` words) /\
    (if readOnly o then validateReadOnlyCommand words else validateMatchedGjcCommand words o) = Ok tt.
Proof.
  unfold checkBashAllowedPrefixes. intros Hne. destruct (normalizedPrefixes allowed) as [|p0 ps] eqn:Ep; [done|].
  destruct (parseShellWords (trim command)) as [words|]; [|done]. cbn [mbind result_bind]. destruct words as [|w ws]; [done|].
  destruct (existsb _ (p0 :: ps)) eqn:Ex; [|done]. cbn [negb]. intros H. exists (w :: ws). do 2 (split; [done|]). split; [|done].
  apply existsb_exists in Ex as (p & Hp & Hw). exists p. split; [by apply list_elem_of_In|]. unfold wordsStartWith in Hw.
  destruct (prefixWords p) as [|q qs] eqn:Eq; [done|]. split; [done|]. by apply startsWithWords_prefix.
Qed.


Lemma matched_git words o : validateMatchedGjcCommand words o = Ok tt -> rejectGitHostAccess words = None.
Proof. unfold validateMatchedGjcCommand. by intros [H _]%check_ok. Qed.


(** What a read-only session runs: an inspection command, resolved, with exactly the words that were checked. *)
Theorem read_only_command_inspects command s : normalizeReadOnlyBashCommand command = Some s ->
  exists hd rest exe, parseShellWords (trim command) = Ok (hd :: rest) /\ hd ∈ READ_ONLY_COMMANDS /\ which hd = Some exe /\ parseShellWords s = Ok (exe :: rest).
Proof.
  unfold normalizeReadOnlyBashCommand. destruct (parseShellWords (trim command)) as [words|] eqn:Hp; [|done].
  destruct (validateReadOnlyCommand words) as [[]|] eqn:Hv; [|done]. destruct words as [|[|c w] rest]; [done|done|].
  set (hd := c :: w) in *. destruct (which hd) as [[|x y]|] eqn:Ew; [done| |done]. set (exe := x :: y) in *.
  intros Es. change (Some (join [32] (map shellQuote (exe :: rest))) = Some s) in Es. injection Es as <-.
  exists hd, rest, exe. split; [done|]. split; [|split; [done|by apply (parse_quoted (exe :: rest))]].
  destruct (decide (hd ∈ READ_ONLY_COMMANDS)) as [|Hn]; [done|]. exfalso. revert Hv. unfold validateReadOnlyCommand. subst hd.
  rewrite (bool_decide_false _ Hn). done.
Qed.

(** The selectors of a command line, all those that are given. *)
Definition suppliedTargets (c : StateArgvClassification) : list jstring := omap (fun o => o) (selectorCandidates c).

Lemma classified_target words action t : classifyStateAction words = Ok (action, t) ->
  let c := classifyStateArgv (drop 2 words) in
  action = effectiveAction c /\ t ∈ CANONICAL_STATE_TARGETS /\ Forall (fun s => s = t) (suppliedTargets c) /\
  unknownFlags c = [] /\ Forall (fun f => malformed f = false) (flags c) /\ Forall (fun i => i_kind i ≠ in_file) (inputs c).
Proof.
  unfold classifyStateAction. cbn zeta. set (c := classifyStateArgv (drop 2 words)). fold (suppliedTargets c).
  pass_guard E1. pass_guard E2. pass_guard E3. pass_guard E4. pass_guard E5.
  apply orb_false_iff in E1 as [[E1 E1']%orb_false_iff _]. apply orb_false_iff in E5 as [_ E5]. destruct (head (omap _ _)) as [t'|] eqn:Et; [|done].
  destruct (bool_decide (t' ∈ _)) eqn:E6; [|done]. intros [= <- <-]. split; [done|]. split; [by apply bool_decide_eq_true in E6|].
  apply existsb_none in E5, E1', E3. split; [|split; [|split]].
  - eapply Forall_impl; [exact E5|]. intros s Hs. by apply negb_false_iff, bool_decide_eq_true in Hs.
  - by apply negb_false_iff, bool_decide_eq_true in E1.
  - done.
  - eapply Forall_impl; [exact E3|]. intros i Hi Hk. cbv beta in Hi. by rewrite Hk in Hi.
Qed.

Lemma bound_inv words o b : gjcSessionBinding o = Some b -> rejectUnboundGjcCommand words o = None ->
  Forall (fun v => trim v ∈ boundSessionIds b) (sessionSelectors words) /\
  Forall (fun v => worktreeSelectorAllowed b v = true) (separateFlagValues words (js "--worktree-root")).
Proof.
  unfold rejectUnboundGjcCommand. intros ->. destruct (existsb _ _) eqn:E1; [done|]. destruct (existsb _ (separateFlagValues _ _)) eqn:E2; [done|]. intros _.
  apply existsb_none in E1, E2. split; (eapply Forall_impl; [eassumption|]); intros v Hv; cbn in Hv; [by apply negb_false_iff, bool_decide_eq_true in Hv|by apply negb_false_iff in Hv].
Qed.

Lemma matched_gjc words o : validateMatchedGjcCommand words o = Ok tt -> firstIs words "gjc" = true ->
  rejectUnboundGjcCommand words o = None /\
  (words !! 1%nat = Some (js "ralplan") -> js "--write" ∈ words) /\
  (words !! 1%nat = Some (js "state") -> exists action t, classifyStateAction words = Ok (action, t) /\ action ∈ ALLOWED_STATE_ACTIONS).
Proof.
  unfold validateMatchedGjcCommand. intros [_ H]%check_ok Hg. rewrite Hg in H. cbn [negb] in H.
  destruct (bool_decide (words !! 1%nat = Some (js "ralplan"))) eqn:E1; [apply bool_decide_eq_true in E1|apply bool_decide_eq_false in E1].
  - destruct (bool_decide (js "--write" ∈ words)) eqn:E2; [|done]. apply bool_decide_eq_true in E2. apply check_ok in H as [H _]. rewrite E1. done.
  - destruct (bool_decide (words !! 1%nat = Some (js "state"))) eqn:E2; [apply bool_decide_eq_true in E2|apply bool_decide_eq_false in E2].
    + destruct (classifyStateAction words) as [[action t]|]; [|done]. destruct (bool_decide (action ∈ ALLOWED_STATE_ACTIONS)) eqn:E3; [|done].
      apply bool_decide_eq_true in E3. apply check_ok in H as [H _]. split; [done|]. split; [by intros|]. intros _. by exists action, t.
    + apply check_ok in H as [H _]. done.
Qed.

End Restriction.

(** ** Example commands *)

Definition demoWhich (c : jstring) : option jstring := Some (js "/usr/bin/" ++ c).
Definition demoResolve (cwd p : jstring) : jstring := cwd ++ js "/" ++ p.
Definition demoAbsolute (p : jstring) : bool := starts_with (js "/") p.
Definition demoCommon (d : jstring) : option jstring := if starts_with (js "/repo") d then Some (js "/repo/.git") else None.
(** The payload [{"session_id":"other"}] and nothing else, since a no-break space is no JSON blank. *)
Definition demoPayload : jstring := js "{" ++ [34] ++ js "session_id" ++ [34; 58; 34] ++ js "other" ++ [34] ++ js "}".
Definition demoJSON (s : jstring) : option value := if bool_decide (s = demoPayload) then Some (v_object [(js "session_id", v_string (js "other"))]) else None.
Definition demoBinding : GjcSessionBinding := mkBinding (Some (js "mine")) None (js "/repo") (js "/repo/pkg").
Definition demoWorkflow : BashRestrictionOptions := mkOptions false (Some demoBinding).
Definition demoReadOnly : BashRestrictionOptions := mkOptions true None.
Definition demoPrefixes : option (list jstring) := Some [js "git log"; js "gjc state"; js " rg "].
Abbreviation demoCheck := (checkBashAllowedPrefixes demoJSON demoAbsolute demoResolve Some demoCommon).



Lemma read_only_command_inspects_witness :
  exists hd rest exe, parseShellWords (js "rg -n 'a b'") = Ok (hd :: rest) /\ hd ∈ READ_ONLY_COMMANDS /\ demoWhich hd = Some exe /\
    parseShellWords (js "'/usr/bin/rg' '-n' 'a b'") = Ok (exe :: rest).
Proof. apply (read_only_command_inspects demoWhich (js "rg -n 'a b'")). vm_compute; done. Defined.


(** The value of an option may itself be two dashes, as the pattern of ripgrep's [-e]; what follows them is then still an
    option, and is not checked. *)
Lemma dashes_as_value_hide_options :
  demoCheck (js "rg -e -- --pre=/tmp/run x") demoPrefixes demoReadOnly = Ok tt /\
  demoCheck (js "rg -e y --pre=/tmp/run x") demoPrefixes demoReadOnly = Throw RipgrepPreprocessor.
Proof. vm_compute. done. Qed.

(** The session id of an inline payload is looked up in the text before trimming: behind a no-break space, which [trim]
    removes and [JSON.parse] refuses, the id of another session is not noticed. *)
Lemma untrimmed_payload_escapes_binding :
  demoCheck (js "gjc state write ralplan --input '" ++ demoPayload ++ js "'") demoPrefixes demoWorkflow = Throw SessionNotBound /\
  demoCheck (js "gjc state write ralplan --input '" ++ [160] ++ demoPayload ++ js "'") demoPrefixes demoWorkflow = Ok tt /\
  demoJSON (trim ([160] ++ demoPayload)) = demoJSON demoPayload.
Proof. vm_compute. done. Qed.
