(* ===== verification/ConflictDetect.v ===== *)
(** * Merge conflicts (packages/coding-agent/src/tools/conflict-detect.ts, the [conflict://] writes of src/tools/write.ts)

    The scanner for conflict markers, the history of the conflicts that were shown, the location and replacement of a recorded
    region, and the resolution of one or of all conflicts.  Line numbers count from one.  What the write-through pipeline
    leaves on disk (formatters may rewrite it) is an argument. *)
From S2P Require Import Prelude JsString JsMap JsRegex PromptFraming EditGuards.
Open Scope nat_scope.

(** ** The scanner *)

Definition OURS_PREFIX : jstring := js "<<<<<<<".
Definition BASE_PREFIX : jstring := js "|||||||".
Definition SEPARATOR : jstring := js "=======".
Definition THEIRS_PREFIX : jstring := js ">>>>>>>".

Record ConflictBlock : Type := mkBlock {
  startLine : nat; separatorLine : nat; endLine : nat; baseLine : option nat; oursLabel : option jstring; baseLabel : option jstring;
  theirsLabel : option jstring; oursLines : list jstring; baseLines : option (list jstring); theirsLines : list jstring }.

(** The label of a marker line: the prefix alone, or the prefix, a space and the label. *)
Definition matchMarker (line prefix : jstring) : option jstring :=
  if starts_with prefix line then
    match drop (length prefix) line with [] => Some [] | c :: label => if (c =? 32)%N then Some label else None end
  else None.

(** [label || undefined] *)
Definition labelled (l : jstring) : option jstring := match l with [] => None | _ => Some l end.

Inductive ScanPhase : Type := idle | ours | base | theirs.

Record Partial : Type := mkPartial {
  p_startLine : nat; p_oursLabel : option jstring; p_oursLines : list jstring; p_base : option (nat * option jstring * list jstring);
  p_theirs : option (nat * list jstring) }.

(** The variables of the loop; the line number is that of the next line. *)
Record Scan : Type := mkScan { blocks : list ConflictBlock; phase : ScanPhase; partial : option Partial; ln : nat }.

Definition push (p : Partial) (ph : ScanPhase) (line : jstring) : Partial :=
  match ph, p_base p, p_theirs p with
  | ours, _, _ => mkPartial (p_startLine p) (p_oursLabel p) (p_oursLines p ++ [line]) (p_base p) (p_theirs p)
  | base, Some (n, lab, ls), _ => mkPartial (p_startLine p) (p_oursLabel p) (p_oursLines p) (Some (n, lab, ls ++ [line])) (p_theirs p)
  | theirs, _, Some (n, ls) => mkPartial (p_startLine p) (p_oursLabel p) (p_oursLines p) (p_base p) (Some (n, ls ++ [line]))
  | _, _, _ => p
  end.

Definition closeBlock (p : Partial) (sep : nat) (ls : list jstring) (ln : nat) (label : jstring) : ConflictBlock :=
  mkBlock (p_startLine p) sep ln (match p_base p with Some (n, _, _) => Some n | None => None end) (p_oursLabel p)
    (match p_base p with Some (_, lab, _) => lab | None => None end) (labelled label) (p_oursLines p)
    (match p_base p with Some (_, _, b) => Some b | None => None end) ls.

(** One round of the loop. *)
Definition scanLine (st : Scan) (line : jstring) : Scan :=
  let next bs ph p := mkScan bs ph p (S (ln st)) in
  match matchMarker line OURS_PREFIX with
  | Some label => next (blocks st) ours (Some (mkPartial (ln st) (labelled label) [] None None))
  | None =>
      match phase st, partial st with
      | idle, _ | _, None => next (blocks st) (phase st) (partial st)
      | ph, Some p =>
          match matchMarker line BASE_PREFIX with
          | Some label =>
              match ph with
              | ours => next (blocks st) base (Some (mkPartial (p_startLine p) (p_oursLabel p) (p_oursLines p) (Some (ln st, labelled label, [])) (p_theirs p)))
              | _ => next (blocks st) idle None
              end
          | None =>
              if bool_decide (line = SEPARATOR) then
                match ph with
                | ours | base => next (blocks st) theirs (Some (mkPartial (p_startLine p) (p_oursLabel p) (p_oursLines p) (p_base p) (Some (ln st, []))))
                | _ => next (blocks st) idle None
                end
              else match matchMarker line THEIRS_PREFIX with
                   | Some label =>
                       match ph, p_theirs p with
                       | theirs, Some (sep, ls) => next (blocks st ++ [closeBlock p sep ls (ln st) label]) idle None
                       | _, _ => next (blocks st) idle None
                       end
                   | None => next (blocks st) ph (Some (push p ph line))
                   end
          end
      end
  end.

Definition scanConflictLines (lines : list jstring) (firstLineNumber : nat) : list ConflictBlock :=
  blocks (foldl scanLine (mkScan [] idle None firstLineNumber) lines).

(** [scanFileForConflicts] on the decoded text. *)
Definition scanText (text : jstring) : list ConflictBlock := scanConflictLines (split_on c_lf text) 1.

(** ** The history *)

Record ConflictEntry : Type := mkEntry { id : nat; absolutePath : jstring; displayPath : jstring; block : ConflictBlock }.
Record ConflictHistory : Type := mkHistory { nextId : nat; h_entries : list (nat * ConflictEntry) }.
Definition newHistory : ConflictHistory := mkHistory 1 [].

Definition sameRegion (path : jstring) (b : ConflictBlock) (e : ConflictEntry) : bool :=
  bool_decide (absolutePath e = path) && bool_decide (startLine (block e) = startLine b).

Definition register (path display : jstring) (b : ConflictBlock) (h : ConflictHistory) : ConflictHistory * ConflictEntry :=
  match List.find (fun kv => sameRegion path b kv.2) (h_entries h) with
  | Some (_, existing) =>
      let merged := mkEntry (id existing) path display b in (mkHistory (nextId h) (m_set (id existing) merged (h_entries h)), merged)
  | None =>
      let entry := mkEntry (nextId h) path display b in (mkHistory (S (nextId h)) (m_set (nextId h) entry (h_entries h)), entry)
  end.

(** Registering the blocks of a file one after the other. *)
Definition registerAll (path display : jstring) (bs : list ConflictBlock) (h : ConflictHistory) : ConflictHistory :=
  foldl (fun h b => (register path display b h).1) h bs.

Definition get (i : nat) (h : ConflictHistory) : option ConflictEntry := m_get i (h_entries h).
Definition entries (h : ConflictHistory) : list ConflictEntry := map snd (h_entries h).
Definition invalidate (i : nat) (h : ConflictHistory) : ConflictHistory := mkHistory (nextId h) (m_delete i (h_entries h)).
Definition invalidatePath (path : jstring) (h : ConflictHistory) : ConflictHistory :=
  mkHistory (nextId h) (filter (fun kv => absolutePath kv.2 ≠ path) (h_entries h)).

(** ** Regions *)

Inductive ConflictError : Type :=
| NoLongerPresent (i : nat)
| NoBaseSection (i : nat)
| NothingToResolve
| NotFound (i : nat)
| TargetGone (i : nat)
| ScopeIsReadOnly
| InvalidUri (raw : jstring)
| AllFailed
| Guarded (e : GuardError).

Definition markerLine (prefix : jstring) (label : option jstring) : jstring :=
  match label with Some ((_ :: _) as l) => prefix ++ [32%N] ++ l | _ => prefix end.

Definition buildRecordedRegion (b : ConflictBlock) : list jstring :=
  [markerLine OURS_PREFIX (oursLabel b)] ++ oursLines b
  ++ match baseLines b with Some ls => markerLine BASE_PREFIX (baseLabel b) :: ls | None => [] end
  ++ [SEPARATOR] ++ theirsLines b ++ [markerLine THEIRS_PREFIX (theirsLabel b)].

Definition matchesAt (lines : list jstring) (startIdx : nat) (expected : list jstring) : bool :=
  (startIdx + length expected <=? length lines) && bool_decide (take (length expected) (drop startIdx lines) = expected).

Definition distance (a b : nat) : nat := (a - b) + (b - a).

(** The loop over all places: the closest one to the preferred place, the first of two. *)
Definition closer (lines expected : list jstring) (preferred : nat) (best : option nat) (i : nat) : option nat :=
  if matchesAt lines i expected then
    match best with Some j => if distance i preferred <? distance j preferred then Some i else best | None => Some i end
  else best.

Definition locateRegion (lines expected : list jstring) (preferredIdx : nat) : option nat :=
  if (length expected =? 0) || (length lines <? length expected) then None
  else if matchesAt lines preferredIdx expected then Some preferredIdx
  else foldl (closer lines expected preferredIdx) None (seq 0 (S (length lines - length expected))).

Definition normalizeTrailingNewline (r : jstring) : jstring :=
  match last r with
  | Some 10%N => match last (removelast r) with Some 13%N => removelast (removelast r) | _ => removelast r end
  | _ => r
  end.

Definition spliceConflict (text : jstring) (e : ConflictEntry) (replacement : jstring) : result ConflictError jstring :=
  let lines := split_on c_lf text in
  let expected := buildRecordedRegion (block e) in
  match locateRegion lines expected (startLine (block e) - 1) with
  | None => Throw (NoLongerPresent (id e))
  | Some i => Ok (join [c_lf] (take i lines ++ split_on c_lf (normalizeTrailingNewline replacement) ++ drop (i + length expected) lines))
  end.

(** A line of the content, with the sections its token stands for. *)
Definition expandLine (e : ConflictEntry) (rawLine : jstring) : result ConflictError (list jstring) :=
  let line := match last rawLine with Some 13%N => removelast rawLine | _ => rawLine end in
  let b := block e in
  if bool_decide (line = js "@ours") then Ok (oursLines b)
  else if bool_decide (line = js "@theirs") then Ok (theirsLines b)
  else if bool_decide (line = js "@base") then match baseLines b with Some ls => Ok ls | None => Throw (NoBaseSection (id e)) end
  else if bool_decide (line = js "@both") then Ok (oursLines b ++ theirsLines b)
  else Ok [rawLine].

Definition expandContentTokens (content : jstring) (e : ConflictEntry) : result ConflictError jstring :=
  out ← foldM (fun out l => ls ← expandLine e l; Ok (out ++ ls)) [] (split_on c_lf content);
  Ok (join [c_lf] out).

Inductive ConflictScope : Type := sc_ours | sc_theirs | sc_base.

(** The lines to show and the number of the first one. *)
Definition renderConflictRegion (e : ConflictEntry) (scope : option ConflictScope) : result ConflictError (list jstring * nat) :=
  let b := block e in
  match scope with
  | Some sc_ours => Ok (oursLines b, startLine b + 1)
  | Some sc_theirs => Ok (theirsLines b, separatorLine b + 1)
  | Some sc_base => match baseLines b, baseLine b with Some ls, Some n => Ok (ls, n + 1) | _, _ => Throw (NoBaseSection (id e)) end
  | None => Ok (buildRecordedRegion b, startLine b)
  end.

(** ** Conflict URIs *)

Inductive UriId : Type := all_conflicts | one_conflict (i : nat).
Record ParsedConflictUri : Type := mkUri { u_id : UriId; u_scope : option ConflictScope; recoveredPrefix : option jstring }.

Definition oneLine (s : jstring) : bool := negb (bool_decide (s = [])) && negb (existsb is_line_terminator s).

(** [CONFLICT_URI_RE]: the last [:conflict://] with something before it, or [conflict://] at the start. *)
Definition schemeAt (raw : jstring) (k : nat) : option (option jstring * jstring) :=
  let tail := drop (k + 12) raw in
  if starts_with (js ":conflict://") (drop k raw) && oneLine (take k raw) && oneLine tail then Some (Some (take k raw), tail) else None.
Definition CONFLICT_URI_RE (raw : jstring) : option (option jstring * jstring) :=
  match head (omap (schemeAt raw) (rev (seq 0 (length raw)))) with
  | Some r => Some r
  | None => if starts_with (js "conflict://") raw && oneLine (drop 11 raw) then Some (None, drop 11 raw) else None
  end.

Definition parseScope (s : jstring) : option ConflictScope :=
  if bool_decide (s = js "ours") then Some sc_ours else if bool_decide (s = js "theirs") then Some sc_theirs
  else if bool_decide (s = js "base") then Some sc_base else None.

(** The smallest integer that rounds to infinity.  Integers above 2^53, which are rounded, are kept as they are. *)
Definition INFINITE : Z := (2 ^ 1024 - 2 ^ 970)%Z.

Definition parseConflictUri (raw : jstring) : result ConflictError (option ParsedConflictUri) :=
  match CONFLICT_URI_RE raw with
  | None => Ok None
  | Some (pre, tail) =>
      let slash := index_of 47%N tail in
      let idPart := match slash with Some i => take i tail | None => tail end in
      let scopePart := match slash with Some i => Some (drop (S i) tail) | None => None end in
      if bool_decide (idPart = js "*") then match scopePart with Some _ => Throw (InvalidUri raw) | None => Ok (Some (mkUri all_conflicts None pre)) end
      else if bool_decide (idPart = []) || negb (forallb is_digit idPart) then Throw (InvalidUri raw)
      else
        let i := parse_int idPart in
        if (i <? 1)%Z || (INFINITE <=? i)%Z then Throw (InvalidUri raw)
        else match scopePart with
             | None => Ok (Some (mkUri (one_conflict (Z.to_nat i)) None pre))
             | Some s => match parseScope s with Some sc => Ok (Some (mkUri (one_conflict (Z.to_nat i)) (Some sc) pre)) | None => Throw (InvalidUri raw) end
             end
  end.

(** ** Resolution *)

(** The texts of the files and the conflicts of the session. *)
Record Store : Type := mkStore { files : list (jstring * jstring); history : ConflictHistory }.

(** The conflicts grouped by file, in the order in which the files were first met. *)
Definition addToFile (m : list (jstring * list ConflictEntry)) (e : ConflictEntry) : list (jstring * list ConflictEntry) :=
  m_set (absolutePath e) (default [] (m_get (absolutePath e) m) ++ [e]) m.
Definition byFile (es : list ConflictEntry) : list (jstring * list ConflictEntry) := foldl addToFile [] es.

Definition bottomUp (es : list ConflictEntry) : list ConflictEntry :=
  sort_by (fun a b => Z.of_nat (startLine (block b)) - Z.of_nat (startLine (block a)))%Z es.

Definition resolveStep (content text : jstring) (e : ConflictEntry) : result ConflictError jstring :=
  expanded ← expandContentTokens content e; spliceConflict text e expanded.
Definition resolveText (content : jstring) (es : list ConflictEntry) (text : jstring) : result ConflictError jstring :=
  foldM (resolveStep content) text (bottomUp es).

Record Outcome : Type := mkOutcome { store : Store; succeeded : list (jstring * nat); failed : list (jstring * nat) }.

Section Resolution.
Context `{GuardEnv} (writethrough : jstring -> jstring -> jstring).

(** A file with its conflicts in [resolveAllConflicts]: every splice succeeds and the file is written, or nothing changes. *)
Definition resolveFile (content : jstring) (o : Outcome) (f : jstring * list ConflictEntry) : Outcome :=
  let '(path, es) := f in
  let fail := mkOutcome (store o) (succeeded o) (failed o ++ [(path, length es)]) in
  match m_get path (files (store o)) with
  | None => fail
  | Some text =>
      match resolveText content es text with
      | Throw _ => fail
      | Ok text' =>
          mkOutcome (mkStore (m_set path (writethrough path text') (files (store o))) (foldl (fun h e => invalidate (id e) h) (history (store o)) es))
            (succeeded o ++ [(path, length es)]) (failed o)
      end
  end.

Definition resolveAllConflicts (content : jstring) (st : Store) : result ConflictError Outcome :=
  match entries (history st) with
  | [] => Throw NothingToResolve
  | es =>
      let o := foldl (resolveFile content) (mkOutcome st [] []) (byFile es) in
      match failed o, succeeded o with
      | _ :: _, [] => Throw AllFailed
      | _, _ => Ok o
      end
  end.

Definition resolveConflict (e : ConflictEntry) (content : jstring) (st : Store) : result ConflictError Store :=
  let path := absolutePath e in
  match enforcePlanModeWrite path None op_update with
  | Throw g => Throw (Guarded g)
  | Ok _ =>
      match m_get path (files st) with
      | None => Throw (TargetGone (id e))
      | Some text =>
          new ← resolveStep content text e;
          Ok (mkStore (m_set path (writethrough path new) (files st)) (invalidate (id e) (history st)))
      end
  end.

Definition resolveSingleConflictById (i : nat) (content : jstring) (st : Store) : result ConflictError Store :=
  match get i (history st) with None => Throw (NotFound i) | Some e => resolveConflict e content st end.

(** The branch of [execute] for a path that is a conflict URI. *)
Definition conflictWrite (uri : ParsedConflictUri) (content : jstring) (st : Store) : result ConflictError Store :=
  match u_scope uri with
  | Some _ => Throw ScopeIsReadOnly
  | None => match u_id uri with all_conflicts => o ← resolveAllConflicts content st; Ok (store o) | one_conflict i => resolveSingleConflictById i content st end
  end.
End Resolution.

(** ** The scanned blocks lie in the file *)

(** No marker has a space and nothing after it: the scanner does not keep the difference to a bare marker. *)
Definition wellLabelled (line : jstring) : bool := negb (bool_decide (line ∈ [OURS_PREFIX ++ [32%N]; BASE_PREFIX ++ [32%N]; THEIRS_PREFIX ++ [32%N]])).

(** The lines are made of other lines and the regions of the blocks, which follow each other; the first line has the number
    [f]; [out] are the lines with every region replaced. *)
Inductive laidOut (f : nat) (repl : ConflictBlock -> list jstring) : list jstring -> list ConflictBlock -> list jstring -> Prop :=
| laid_nil : laidOut f repl [] [] []
| laid_line ls bs out l : laidOut f repl ls bs out -> laidOut f repl (ls ++ [l]) bs (out ++ [l])
| laid_block ls bs out b : laidOut f repl ls bs out -> startLine b = f + length ls -> endLine b = f + length ls + length (buildRecordedRegion b) - 1 ->
    laidOut f repl (ls ++ buildRecordedRegion b) (bs ++ [b]) (out ++ repl b).

(** The lines a started block covers. *)
Definition partialRegion (p : Partial) : list jstring :=
  [markerLine OURS_PREFIX (p_oursLabel p)] ++ p_oursLines p
  ++ match p_base p with Some (_, lab, ls) => markerLine BASE_PREFIX lab :: ls | None => [] end
  ++ match p_theirs p with Some (_, ls) => SEPARATOR :: ls | None => [] end.

Definition phaseFits (ph : ScanPhase) (p : Partial) : Prop :=
  match ph with
  | idle => False
  | ours => p_base p = None /\ p_theirs p = None
  | base => is_Some (p_base p) /\ p_theirs p = None
  | theirs => is_Some (p_theirs p)
  end.

Record scanned_to (f : nat) (repl : ConflictBlock -> list jstring) (seen : list jstring) (st : Scan) : Prop := mkScanned {
  sc_ln : ln st = f + length seen;
  sc_layout : match partial st with
              | None => phase st = idle /\ exists out, laidOut f repl seen (blocks st) out
              | Some p => phaseFits (phase st) p /\
                  exists ls out, seen = ls ++ partialRegion p /\ laidOut f repl ls (blocks st) out /\ p_startLine p = f + length ls
              end }.

Lemma laid_lines f repl ls bs out more : laidOut f repl ls bs out -> laidOut f repl (ls ++ more) bs (out ++ more).
Proof.
  intros H. induction more as [|l more IH] using rev_ind; [by rewrite !app_nil_r|]. rewrite !app_assoc. by apply laid_line.
Qed.

Lemma starts_with_split p : forall s, starts_with p s = true -> exists t, s = p ++ t.
Proof.
  induction p as [|c p IH]; intros s H; [by exists s|]. destruct s as [|d s]; [done|]. cbn [starts_with] in H. apply andb_true_iff in H as [->%N.eqb_eq H].
  destruct (IH s H) as [t ->]. by exists t.
Qed.

Lemma marker_line line prefix label : prefix ∈ [OURS_PREFIX; BASE_PREFIX; THEIRS_PREFIX] -> wellLabelled line = true -> matchMarker line prefix = Some label ->
  line = markerLine prefix (labelled label).
Proof.
  unfold matchMarker. intros Hp Hw. destruct (starts_with prefix line) eqn:E; [|done]. apply starts_with_split in E as [t ->]. rewrite drop_app_length.
  destruct t as [|c t]; [intros [= <-]; by rewrite app_nil_r|]. destruct (N.eqb_spec c 32) as [->|]; [|done]. intros [= <-].
  destruct t as [|d t]; [|done]. unfold wellLabelled in Hw. apply negb_true_iff, bool_decide_eq_false in Hw. destruct Hw.
  rewrite !elem_of_cons, elem_of_nil in Hp. rewrite !elem_of_cons. destruct Hp as [->|[->|[->|[]]]]; auto.
Qed.

Lemma partial_push p ph line : phaseFits ph p -> partialRegion (push p ph line) = partialRegion p ++ [line] /\ phaseFits ph (push p ph line) /\ p_startLine (push p ph line) = p_startLine p.
Proof.
  unfold partialRegion, push. destruct ph, p as [a lab o b t]; cbn [phaseFits p_oursLabel p_oursLines p_base p_theirs p_startLine]; [done| | |].
  - intros [-> ->]. by rewrite !app_nil_r, <- app_assoc.
  - intros [[[[n l] ls] ->] ->]. cbn [phaseFits p_oursLabel p_oursLines p_base p_theirs p_startLine]. by rewrite !app_nil_r, <- !app_assoc.
  - intros [[n ls] ->]. cbn [phaseFits p_oursLabel p_oursLines p_base p_theirs p_startLine]. by rewrite <- !app_assoc.
Qed.

Lemma scan_step f repl seen st line : scanned_to f repl seen st -> wellLabelled line = true -> scanned_to f repl (seen ++ [line]) (scanLine st line).
Proof.
  intros [Hn Hl] Hw.
  assert (exists out, laidOut f repl seen (blocks st) out) as [out0 Hall].
  { destruct (partial st) as [p|]; [|by destruct Hl]. destruct Hl as (_ & ls & out & -> & Hlay & _). eexists. by apply laid_lines. }
  assert (S (ln st) = f + length (seen ++ [line])) as Hn' by (rewrite length_app; cbn; lia).
  assert (forall ph, ph = idle -> scanned_to f repl (seen ++ [line]) (mkScan (blocks st) ph None (S (ln st)))) as Hidle.
  { intros ph ->. split; [done|]. split; [done|]. eexists. by apply laid_line. }
  unfold scanLine. destruct (matchMarker line OURS_PREFIX) as [label|] eqn:E1.
  { split; [done|]. cbn [partial phase blocks]. split; [done|]. exists seen, out0. split; [|split; [done|exact Hn]].
    unfold partialRegion. cbn [p_oursLabel p_oursLines p_base p_theirs]. rewrite !app_nil_r. f_equal. f_equal. by apply (marker_line _ OURS_PREFIX); [set_solver|..]. }
  destruct (partial st) as [p|] eqn:Ep; [|destruct Hl as [Hph _]; rewrite Hph; by apply Hidle].
  destruct Hl as (Hf & ls & out & Hseen & Hlay & Hst).
  assert (forall ph p', phaseFits ph p' -> partialRegion p' = partialRegion p ++ [line] -> p_startLine p' = p_startLine p ->
            scanned_to f repl (seen ++ [line]) (mkScan (blocks st) ph (Some p') (S (ln st)))) as Hgo.
  { intros ph p' Hf' Hr Hs. split; [done|]. cbn [partial phase blocks]. split; [done|]. exists ls, out. rewrite Hr, Hs, Hseen, <- app_assoc. done. }
  assert (forall ph, phaseFits ph p -> scanned_to f repl (seen ++ [line]) (mkScan (blocks st) ph (Some (push p ph line)) (S (ln st)))) as Hpush.
  { intros ph Hf'. destruct (partial_push p ph line Hf') as (H1 & H2 & H3). by apply Hgo. }
  destruct (phase st) eqn:Eph; [done| | |];
    (destruct (matchMarker line BASE_PREFIX) as [label|] eqn:E2;
      [|case_bool_decide as E3; [|destruct (matchMarker line THEIRS_PREFIX) as [label|] eqn:E4]]); try (by apply Hidle); try (by apply Hpush).
  - apply marker_line in E2; [|set_solver|done]. destruct Hf as [F1 F2]. apply Hgo; [done| |done].
    unfold partialRegion. cbn [p_oursLabel p_oursLines p_base p_theirs]. rewrite F1, F2, !app_nil_r, <- app_assoc, <- E2. done.
  - destruct Hf as [F1 F2]. apply Hgo; [by eexists| |done]. unfold partialRegion. cbn [p_oursLabel p_oursLines p_base p_theirs]. rewrite F1, F2, E3, !app_nil_r, <- app_assoc. done.
  - destruct Hf as [[[[n lab] bl] F1] F2]. apply Hgo; [by eexists| |done]. unfold partialRegion. cbn [p_oursLabel p_oursLines p_base p_theirs]. rewrite F1, F2, E3, !app_nil_r, <- !app_assoc. done.
  - destruct Hf as [[sep tl] F]. rewrite F. apply marker_line in E4; [|set_solver|done]. split; [done|]. cbn [partial phase blocks]. split; [done|]. eexists.
    assert (buildRecordedRegion (closeBlock p sep tl (ln st) label) = partialRegion p ++ [line]) as Hr.
    { unfold buildRecordedRegion, partialRegion, closeBlock. cbn [oursLabel oursLines baseLines baseLabel theirsLines theirsLabel]. rewrite F, <- E4.
      destruct (p_base p) as [[[n lab] bl]|]; rewrite <- !app_assoc; done. }
    rewrite Hseen, <- app_assoc, <- Hr. apply laid_block; [exact Hlay|exact Hst|]. cbn [endLine closeBlock]. rewrite Hr, Hn, Hseen, !length_app. cbn [length]. lia.
Qed.

Lemma scan_laid f repl lines : Forall (fun l => wellLabelled l = true) lines -> exists out, laidOut f repl lines (scanConflictLines lines f) out.
Proof.
  intros Hw. assert (scanned_to f repl lines (foldl scanLine (mkScan [] idle None f) lines)) as [_ H].
  { induction lines as [|l lines IH] using rev_ind.
    - split; [cbn; lia|]. split; [done|]. eexists. apply laid_nil.
    - apply Forall_app in Hw as [Hw Hl]. rewrite Forall_singleton in Hl. rewrite foldl_app. cbn [foldl]. apply scan_step; [by apply IH|done]. }
  unfold scanConflictLines. destruct (partial _) as [p|]; [|exact (proj2 H)]. destruct H as (_ & ls & out & E & Hl & _). apply (laid_lines _ _ _ _ _ (partialRegion p)) in Hl. rewrite <- E in Hl. by eexists.
Qed.

(** ** Replacing a region *)

Lemma region_nonempty b : buildRecordedRegion b ≠ [].
Proof. by unfold buildRecordedRegion. Qed.

Lemma locate_in_place ls r t : r ≠ [] -> locateRegion (ls ++ r ++ t) r (length ls) = Some (length ls).
Proof.
  intros Hr. unfold locateRegion, matchesAt. rewrite !length_app, drop_app_length, take_app_length, bool_decide_true by done.
  destruct (Nat.eqb_spec (length r) 0) as [E|E]; [by destruct r|]. rewrite (proj2 (Nat.ltb_ge _ _)) by lia. cbn [orb].
  by rewrite (proj2 (Nat.leb_le _ _)) by lia.
Qed.

Lemma splice_in_place ls t e x :
  Forall (fun l => c_lf ∉ l) (ls ++ buildRecordedRegion (block e) ++ t) -> startLine (block e) = 1 + length ls ->
  spliceConflict (join [c_lf] (ls ++ buildRecordedRegion (block e) ++ t)) e x = Ok (join [c_lf] (ls ++ split_on c_lf (normalizeTrailingNewline x) ++ t)).
Proof.
  intros Hlf Hs. unfold spliceConflict. rewrite split_on_join; [|by destruct ls|done]. rewrite Hs. replace (1 + length ls - 1) with (length ls) by lia.
  rewrite locate_in_place by apply region_nonempty. rewrite take_app_length. do 4 f_equal.
  rewrite drop_app, drop_ge by lia. replace (length ls + length (buildRecordedRegion (block e)) - length ls) with (length (buildRecordedRegion (block e))) by lia.
  by rewrite drop_app_length.
Qed.

(** What the content stands for in a block. *)
Definition chosen (content : jstring) (b : ConflictBlock) : list jstring :=
  match expandContentTokens content (mkEntry 0 [] [] b) with Ok x => split_on c_lf (normalizeTrailingNewline x) | Throw _ => [] end.

Lemma expandLine_block e l ls : expandLine (mkEntry 0 [] [] (block e)) l = Ok ls -> expandLine e l = Ok ls.
Proof. unfold expandLine. cbn [block id]. repeat case_bool_decide; try done. by destruct (baseLines (block e)). Qed.

Lemma expand_block content e x : expandContentTokens content (mkEntry 0 [] [] (block e)) = Ok x -> expandContentTokens content e = Ok x.
Proof.
  unfold expandContentTokens. generalize (@nil jstring). induction (split_on c_lf content) as [|l ls IH]; intros out; cbn [foldM]; [done|].
  destruct (expandLine (mkEntry 0 [] [] (block e)) l) as [y|] eqn:E; [|done]. rewrite (expandLine_block _ _ _ E). apply IH.
Qed.

Lemma resolve_in_place content ls t e x :
  expandContentTokens content (mkEntry 0 [] [] (block e)) = Ok x ->
  Forall (fun l => c_lf ∉ l) (ls ++ buildRecordedRegion (block e) ++ t) -> startLine (block e) = 1 + length ls ->
  resolveStep content (join [c_lf] (ls ++ buildRecordedRegion (block e) ++ t)) e = Ok (join [c_lf] (ls ++ chosen content (block e) ++ t)).
Proof.
  intros Ex Hlf Hs. unfold resolveStep. rewrite (expand_block _ _ _ Ex). cbn [mbind result_bind]. rewrite splice_in_place by done. unfold chosen. by rewrite Ex.
Qed.

Lemma bulk_lines content ls bs out : laidOut 1 (chosen content) ls bs out ->
  forall es t, map block es = bs -> Forall (fun e => exists x, expandContentTokens content (mkEntry 0 [] [] (block e)) = Ok x) es -> Forall (fun l => c_lf ∉ l) (ls ++ t) ->
  foldM (resolveStep content) (join [c_lf] (ls ++ t)) (rev es) = Ok (join [c_lf] (out ++ t)).
Proof.
  induction 1 as [|ls bs out l H IH|ls bs out b H IH Hs He]; intros es t Hes Hx Hlf.
  - by destruct es.
  - rewrite <- !app_assoc in *. cbn [app] in *. by apply IH.
  - destruct es as [|e es _] using rev_ind; [by destruct bs|]. rewrite map_app in Hes. apply app_inj_tail in Hes as [Hes Heb]. cbn in Heb. subst b.
    apply Forall_app in Hx as [Hx Hx1]. rewrite Forall_singleton in Hx1. destruct Hx1 as [x Ex]. rewrite rev_app_distr. cbn [rev app foldM].
    rewrite <- !app_assoc in *. rewrite (resolve_in_place content ls t e x) by done. cbn [mbind result_bind]. apply IH; [done|done|]. apply Forall_app in Hlf as [H1 H2]. apply Forall_app in H2 as [_ H2].
    apply Forall_app. split; [done|]. apply Forall_app. split; [|done]. unfold chosen. rewrite Ex. apply split_on_pieces.
Qed.

Lemma laid_bound f repl ls bs out : laidOut f repl ls bs out ->
  StronglySorted (fun a b => startLine a < startLine b) bs /\ Forall (fun b => startLine b < f + length ls) bs.
Proof.
  induction 1 as [|ls bs out l H [IH1 IH2]|ls bs out b H [IH1 IH2] Hs He]; [by split; constructor| |].
  - split; [done|]. eapply Forall_impl; [exact IH2|]. intros b Hb. rewrite length_app. cbn in *. lia.
  - pose proof (region_nonempty b) as Hr. destruct (buildRecordedRegion b) as [|r rs]; [done|]. split.
    + clear -IH1 IH2 Hs. induction IH1 as [|x bs Hx IH Hall]; cbn; [by repeat constructor|]. apply Forall_cons in IH2 as [H1 H2]. constructor; [by apply IH|].
      apply Forall_app. split; [done|]. apply Forall_singleton. lia.
    + apply Forall_app. split; [|apply Forall_singleton; rewrite length_app; cbn; lia].
      eapply Forall_impl; [exact IH2|]. intros x Hxb. cbv beta in Hxb. rewrite length_app. lia.
Qed.

Lemma insert_by_end {A} (cmp : A -> A -> Z) x l : Forall (fun y => 0 < cmp x y)%Z l -> insert_by cmp x l = l ++ [x].
Proof. induction 1 as [|y l Hy Hl IH]; cbn [insert_by app]; [done|]. by rewrite (proj2 (Z.leb_gt _ _)), IH by lia. Qed.

Lemma bottomUp_rev es : StronglySorted (fun a b => startLine a < startLine b) (map block es) -> bottomUp es = rev es.
Proof.
  unfold bottomUp. induction es as [|e es IH]; [done|]. cbn [map sort_by rev]. intros H. inversion_clear H as [|?? H1 H2]. rewrite IH by done.
  apply insert_by_end. apply Forall_rev. rewrite Forall_map in H2. eapply Forall_impl; [exact H2|]. intros y Hy. cbv beta in Hy. lia.
Qed.

(** ** Registration *)

(** Keys are the ids of their entries and below the next one, and no two entries are the same place of the same file. *)
Record history_ok (h : ConflictHistory) : Prop := mkHistoryOk {
  ho_ids : Forall (fun kv => kv.1 = id kv.2 /\ kv.1 < nextId h) (h_entries h);
  ho_keys : NoDup (h_entries h).*1;
  ho_places : NoDup (map (fun kv => (absolutePath kv.2, startLine (block kv.2))) (h_entries h)) }.

Lemma fresh_conflict_id h : history_ok h -> nextId h ∉ (h_entries h).*1.
Proof. intros [H _ _] (kv & E & Hin)%list_elem_of_fmap. rewrite Forall_forall in H. destruct (H kv Hin). lia. Qed.

Lemma register_new path display b h : history_ok h -> Forall (fun kv => sameRegion path b kv.2 = false) (h_entries h) ->
  register path display b h = (mkHistory (S (nextId h)) (h_entries h ++ [(nextId h, mkEntry (nextId h) path display b)]), mkEntry (nextId h) path display b).
Proof.
  intros Ho Hn. unfold register. destruct (List.find _ _) as [[k e]|] eqn:E.
  - apply find_some in E as [Hin E]. rewrite Forall_forall in Hn. apply list_elem_of_In in Hin. by rewrite (Hn _ Hin) in E.
  - by rewrite m_set_fresh by by apply fresh_conflict_id.
Qed.

Lemma sameRegion_place path b e : sameRegion path b e = true <-> (absolutePath e, startLine (block e)) = (path, startLine b).
Proof. unfold sameRegion. rewrite andb_true_iff, !bool_decide_eq_true. split; [by intros [-> ->]|]. by intros [= -> ->]. Qed.

Lemma new_ok path display b h : history_ok h -> Forall (fun kv => sameRegion path b kv.2 = false) (h_entries h) ->
  history_ok (mkHistory (S (nextId h)) (h_entries h ++ [(nextId h, mkEntry (nextId h) path display b)])).
Proof.
  intros Ho Hn. split; cbn [h_entries nextId].
  - apply Forall_app. split; [|apply Forall_singleton; cbn; lia]. eapply Forall_impl; [apply (ho_ids h Ho)|]. intros kv [H1 H2]. split; [done|lia].
  - rewrite fmap_app. apply NoDup_app. split; [apply (ho_keys h Ho)|]. split; [|apply NoDup_singleton]. intros k Hk ->%list_elem_of_singleton. by apply (fresh_conflict_id h Ho).
  - rewrite map_app. apply NoDup_app. split; [apply (ho_places h Ho)|]. split; [|apply NoDup_singleton].
    intros k Hk ->%list_elem_of_singleton. apply list_elem_of_fmap in Hk as (kv & E & Hin). rewrite Forall_forall in Hn. specialize (Hn kv Hin).
    apply not_true_iff_false in Hn. apply Hn, sameRegion_place. by symmetry.
Qed.

Lemma merged_entries h k e e' : NoDup (h_entries h).*1 -> (k, e) ∈ h_entries h ->
  exists pre post, h_entries h = pre ++ (k, e) :: post /\ m_set k e' (h_entries h) = pre ++ (k, e') :: post.
Proof.
  generalize (h_entries h). intros m. induction m as [|[j w] m IH]; intros Hn Hin; [by apply elem_of_nil in Hin|]. cbn [fmap list_fmap fst] in Hn.
  apply NoDup_cons in Hn as [Hj Hn]. cbn [m_set]. apply elem_of_cons in Hin as [[= -> ->]|Hin].
  - rewrite decide_True by done. by exists [], m.
  - destruct (decide (j = k)) as [->|]; [destruct Hj; apply list_elem_of_fmap; by exists (k, e)|].
    destruct (IH Hn Hin) as (pre & post & -> & ->). by exists ((j, w) :: pre), post.
Qed.

(** Registering a block again reuses its id, so that ids stay unique and every place of a file has at most one; the returned
    entry is the one that is found under its id, and other ids keep their entries. *)
Theorem register_keeps_ids path display b h : history_ok h ->
  let '(h', e) := register path display b h in
  history_ok h' /\ get (id e) h' = Some e /\ block e = b /\ absolutePath e = path /\
  (forall i, i ≠ id e -> get i h' = get i h) /\
  (forall e0, e0 ∈ entries h -> absolutePath e0 = path -> startLine (block e0) = startLine b -> id e = id e0) /\
  (nextId h' = nextId h \/ nextId h' = S (nextId h) /\ id e = nextId h).
Proof.
  intros Ho. destruct (decide (Forall (fun kv => sameRegion path b kv.2 = false) (h_entries h))) as [Hn|Hn].
  - rewrite (register_new _ _ _ _ Ho Hn). split; [by apply new_ok|]. unfold get. cbn [h_entries id block absolutePath nextId].
    rewrite <- (m_set_fresh _ _ _ (fresh_conflict_id h Ho)). split; [apply m_get_set_eq|]. split; [done|]. split; [done|]. split; [intros i Hi; by apply m_get_set_ne|].
    split; [|by right]. intros e0 (kv & -> & Hin)%list_elem_of_fmap Hp Hs. rewrite Forall_forall in Hn. specialize (Hn kv Hin).
    apply not_true_iff_false in Hn. destruct Hn. apply sameRegion_place. by rewrite Hp, Hs.
  - unfold register. destruct (List.find _ _) as [[k e]|] eqn:E.
    2:{ destruct Hn. apply Forall_forall. intros kv Hin%list_elem_of_In. by apply (find_none _ _ E). }
    apply find_some in E as [Hin E]. apply list_elem_of_In in Hin. cbn [snd] in E. apply sameRegion_place in E. injection E as Ep Es.
    destruct (Forall_forall (fun kv => kv.1 = id kv.2 /\ kv.1 < nextId h) (h_entries h)) as [F _]. destruct (F (ho_ids h Ho) _ Hin) as [Hk Hlt]. cbn in Hk, Hlt. subst k.
    destruct (merged_entries h (id e) e (mkEntry (id e) path display b) (ho_keys h Ho) Hin) as (pre & post & E1 & E2).
    split; [|unfold get; cbn [h_entries id block absolutePath nextId]; split; [apply m_get_set_eq|]; split; [done|]; split; [done|];
      split; [intros i Hi; by apply m_get_set_ne|]; split; [|by left]].
    + destruct Ho as [H1 H2 H3]. rewrite E1 in H1, H2, H3. split; cbn [h_entries nextId]; rewrite E2.
      * apply Forall_app in H1 as [H1 H1']. apply Forall_cons in H1' as [_ H1']. apply Forall_app. split; [done|]. by apply Forall_cons.
      * rewrite fmap_app in *. exact H2.
      * rewrite map_app in *. cbn [map snd absolutePath block] in *. by rewrite <- Ep, <- Es.
    + intros e0 (kv & -> & Hin0)%list_elem_of_fmap Hp Hs.
      assert (kv = (id e, e)) as ->; [|done]. apply list_elem_of_lookup in Hin0 as [i Hi]. apply list_elem_of_lookup in Hin as [j Hj].
      assert (i = j) as ->; [|congruence]. apply (NoDup_lookup _ i j (path, startLine b) (ho_places h Ho)); change map with (@fmap list list_fmap); rewrite list_lookup_fmap;
        [rewrite Hi|rewrite Hj]; cbn; by rewrite ?Hp, ?Hs, ?Ep, ?Es.
Qed.

Lemma newHistory_ok : history_ok newHistory.
Proof. split; constructor. Qed.

(** The entries for blocks that are not known yet, with the ids from [n] on. *)
Fixpoint numbered (path display : jstring) (n : nat) (bs : list ConflictBlock) : list (nat * ConflictEntry) :=
  match bs with [] => [] | b :: bs' => (n, mkEntry n path display b) :: numbered path display (S n) bs' end.

Lemma registerAll_new path display bs : forall h, history_ok h -> StronglySorted (fun a b => startLine a < startLine b) bs ->
  Forall (fun kv => absolutePath kv.2 = path -> Forall (fun b => startLine (block kv.2) < startLine b) bs) (h_entries h) ->
  registerAll path display bs h = mkHistory (nextId h + length bs) (h_entries h ++ numbered path display (nextId h) bs).
Proof.
  induction bs as [|b bs IH]; intros h Ho Hs Hb; cbn [numbered length].
  - change (registerAll path display [] h) with h. rewrite Nat.add_0_r, app_nil_r. by destruct h.
  - inversion_clear Hs as [|?? Hs1 Hs2].
    assert (Forall (fun kv => sameRegion path b kv.2 = false) (h_entries h)) as Hn.
    { eapply Forall_impl; [exact Hb|]. intros kv Hkv. cbv beta in Hkv. unfold sameRegion. case_bool_decide as E; [|done].
      specialize (Hkv E). apply Forall_cons in Hkv as [Hlt _]. rewrite bool_decide_false; [done|]. lia. }
    change (registerAll path display (b :: bs) h) with (registerAll path display bs (register path display b h).1).
    rewrite (register_new _ _ _ _ Ho Hn). cbn [fst]. rewrite IH; [|by apply new_ok|done|].
    + cbn [nextId h_entries]. rewrite <- app_assoc. f_equal. lia.
    + cbn [h_entries]. apply Forall_app. split.
      * eapply Forall_impl; [exact Hb|]. intros kv Hkv E. specialize (Hkv E). by apply Forall_cons in Hkv as [_ ?].
      * apply Forall_singleton. cbn. done.
Qed.

Lemma numbered_entries path display bs : forall n,
  map block (map snd (numbered path display n bs)) = bs /\ Forall (fun e => absolutePath e = path) (map snd (numbered path display n bs)) /\
  Forall (fun kv => kv.1 = id kv.2) (numbered path display n bs).
Proof. induction bs as [|b bs IH]; intros n; cbn [numbered map snd]; [done|]. destruct (IH (S n)) as (H1 & H2 & H3). split; [by rewrite H1|]. by split; constructor. Qed.

Lemma byFile_one path es : es ≠ [] -> Forall (fun e => absolutePath e = path) es -> byFile es = [(path, es)].
Proof.
  intros Hne Hp. unfold byFile. destruct es as [|e es]; [done|]. clear Hne. cbn [foldl]. apply Forall_cons in Hp as [<- Hp].
  change (addToFile [] e) with [(absolutePath e, [e])]. change (e :: es) with ([e] ++ es). generalize [e] as done.
  induction es as [|x es IH]; intros done; cbn [foldl]; [by rewrite app_nil_r|]. apply Forall_cons in Hp as [Ex Hp].
  unfold addToFile at 2. cbn [m_get m_set]. rewrite Ex, !decide_True by reflexivity. change (default [] (Some done)) with done. rewrite IH by exact Hp. by rewrite <- app_assoc.
Qed.

Lemma invalidate_all es : forall h, Forall (fun kv => kv.1 ∈ map id es) (h_entries h) -> h_entries (foldl (fun h e => invalidate (id e) h) h es) = [].
Proof.
  induction es as [|e es IH]; intros h Hh; cbn [foldl map] in *.
  - destruct (h_entries h) as [|kv m]; [done|]. apply Forall_cons in Hh as [Hk _]. by apply elem_of_nil in Hk.
  - apply IH. unfold invalidate, m_delete. cbn [h_entries]. apply Forall_forall. intros kv [Hk Hin]%list_elem_of_filter. rewrite Forall_forall in Hh.
    specialize (Hh kv Hin). by apply elem_of_cons in Hh as [Hh|Hh].
Qed.


(** ** Where a region is found *)

Lemma closer_spec lines expected pref ks : forall best,
  (forall j, best = Some j -> matchesAt lines j expected = true) ->
  match foldl (closer lines expected pref) best ks with
  | Some i => matchesAt lines i expected = true /\ (forall j, best = Some j -> distance i pref <= distance j pref) /\
              Forall (fun j => matchesAt lines j expected = true -> distance i pref <= distance j pref) ks
  | None => best = None /\ Forall (fun j => matchesAt lines j expected = false) ks
  end.
Proof.
  induction ks as [|k ks IH]; intros best Hb; cbn [foldl].
  - destruct best as [j|]; [|done]. split; [by apply Hb|]. split; [by intros ? [= ->]|done].
  - assert (forall j, closer lines expected pref best k = Some j -> matchesAt lines j expected = true) as Hb'.
    { intros j. unfold closer. destruct (matchesAt lines k expected) eqn:E; [|apply Hb]. destruct best as [x|]; [|by intros [= <-]]. destruct (_ <? _); [by intros [= <-]|apply Hb]. }
    specialize (IH _ Hb'). destruct (foldl _ _ ks) as [i|].
    + destruct IH as (H1 & H2 & H3). split; [done|]. unfold closer in H2. destruct (matchesAt lines k expected) eqn:E.
      * destruct best as [x|].
        -- destruct (Nat.ltb_spec (distance k pref) (distance x pref)) as [Hd|Hd].
           ++ specialize (H2 k eq_refl). split; [intros j [= <-]; lia|]. constructor; [done|done].
           ++ specialize (H2 x eq_refl). split; [by intros j [= <-]|]. constructor; [intros _; lia|done].
        -- specialize (H2 k eq_refl). split; [done|]. by constructor.
      * split; [done|]. constructor; [by rewrite E|done].
    + destruct IH as [H1 H2]. unfold closer in H1. destruct (matchesAt lines k expected) eqn:E; [by destruct best; [destruct (_ <? _)|]|]. split; [done|]. by constructor.
Qed.

Lemma matchesAt_bound lines i expected : matchesAt lines i expected = true -> i ∈ seq 0 (S (length lines - length expected)) /\ length expected <= length lines.
Proof. unfold matchesAt. intros [H _]%andb_true_iff. apply Nat.leb_le in H. rewrite elem_of_seq. lia. Qed.

(** A recorded region is found at the place where it occurs that is closest to the recorded one, and it is reported missing
    only when it occurs nowhere. *)
Theorem located_region_is_closest lines expected pref : expected ≠ [] ->
  match locateRegion lines expected pref with
  | Some i => matchesAt lines i expected = true /\ forall j, matchesAt lines j expected = true -> distance i pref <= distance j pref
  | None => forall j, matchesAt lines j expected = false
  end.
Proof.
  intros Hne. unfold locateRegion. destruct (Nat.eqb_spec (length expected) 0) as [E|_]; [by destruct expected|].
  destruct (Nat.ltb_spec (length lines) (length expected)) as [Hlt|Hge]; cbn [orb].
  - intros j. destruct (matchesAt lines j expected) eqn:E; [|done]. apply matchesAt_bound in E as [_ E]. lia.
  - destruct (matchesAt lines pref expected) eqn:E; [split; [done|]; intros j _; unfold distance; lia|].
    pose proof (closer_spec lines expected pref (seq 0 (S (length lines - length expected))) None) as H. destruct (foldl _ _ _) as [i|].
    + destruct H as (H1 & _ & H2); [done|]. split; [done|]. intros j Hj. rewrite Forall_forall in H2. apply H2; [|done]. by apply matchesAt_bound in Hj as [Hj _].
    + destruct H as [_ H2]; [done|]. intros j. destruct (matchesAt lines j expected) eqn:Ej; [|done]. rewrite Forall_forall in H2.
      rewrite <- Ej. apply H2. by apply matchesAt_bound in Ej as [Ej _].
Qed.

(** ** Examples *)

Definition demoBlock (o t : list string) : list jstring := [js "<<<<<<< HEAD"] ++ map js o ++ [SEPARATOR] ++ map js t ++ [js ">>>>>>> topic"].
Definition demoText (ls : list jstring) : jstring := join [c_lf] ls.
Definition demoFile : jstring := demoText ([js "top"] ++ demoBlock ["a"]%string ["b"; "c"]%string ++ [js "mid"] ++ demoBlock ["d"]%string ["e"]%string ++ [js "end"; []]).
Definition demoPath : jstring := js "/w/a.txt".
Definition demoOpen : GuardEnv := demoGuards None.
Definition demoPlan : GuardEnv := demoGuards (Some {| enabled := true; planFilePath := js "/w/PLAN.md" |}).
Definition sameOnDisk (path text : jstring) : jstring := text.
Definition demoStore (text : jstring) : Store := mkStore [(demoPath, text)] (registerAll demoPath demoPath (scanText text) newHistory).

Lemma register_keeps_ids_witness : history_ok (register demoPath demoPath (mkBlock 1 2 3 None None None None [] None []) newHistory).1.
Proof. pose proof (register_keeps_ids demoPath demoPath (mkBlock 1 2 3 None None None None [] None []) newHistory newHistory_ok) as H. apply H. Defined.

Lemma located_region_is_closest_witness :
  matchesAt [js "x"; js "y"; js "x"] 2 [js "x"] = true /\ forall j, matchesAt [js "x"; js "y"; js "x"] j [js "x"] = true -> distance 2 2 <= distance j 2.
Proof. exact (located_region_is_closest [js "x"; js "y"; js "x"] [js "x"] 2 ltac:(discriminate)). Defined.


(** Writing one conflict asks the plan mode guard, writing all of them does not. *)
Lemma bulk_write_ignores_plan_mode :
  @conflictWrite demoPlan sameOnDisk (mkUri (one_conflict 1) None None) (js "@ours") (demoStore demoFile) = Throw (Guarded (PlanModeOther (js "/w/PLAN.md"))) /\
  exists st, @conflictWrite demoPlan sameOnDisk (mkUri all_conflicts None None) (js "@ours") (demoStore demoFile) = Ok st /\
    m_get demoPath (files st) = Some (demoText (map js ["top"; "a"; "mid"; "d"; "end"]%string ++ [[]])).
Proof. split; [vm_compute; reflexivity|]. eexists. split; vm_compute; reflexivity. Qed.

(** A marker with a space and no label is recorded without the space, so its region is never found again. *)
Lemma empty_label_cannot_be_resolved :
  let text := demoText [OURS_PREFIX ++ [32%N]; js "a"; SEPARATOR; js "b"; THEIRS_PREFIX] in
  length (scanText text) = 1 /\ @conflictWrite demoOpen sameOnDisk (mkUri (one_conflict 1) None None) (js "@ours") (demoStore text) = Throw (NoLongerPresent 1).
Proof. vm_compute. done. Qed.

(** Keeping a side without lines leaves an empty line; keeping a side that ends with an empty line loses that line. *)
Lemma empty_lines_of_a_side_are_miscounted :
  (exists st, @conflictWrite demoOpen sameOnDisk (mkUri (one_conflict 1) None None) (js "@ours") (demoStore (demoText ([js "x"] ++ demoBlock [] ["b"]%string ++ [js "y"]))) = Ok st /\
     m_get demoPath (files st) = Some (demoText [js "x"; []; js "y"])) /\
  (exists st, @conflictWrite demoOpen sameOnDisk (mkUri (one_conflict 1) None None) (js "@ours")
       (demoStore (demoText ([js "x"; js "<<<<<<< HEAD"; js "a"; []; SEPARATOR; js "b"; js ">>>>>>> topic"; js "y"]))) = Ok st /\
     m_get demoPath (files st) = Some (demoText [js "x"; js "a"; js "y"])).
Proof. split; eexists; split; vm_compute; reflexivity. Qed.

(** The first block is resolved, the file is read again: the second block has moved up and is registered under a new id beside
    the old one, and a write to all conflicts then fails, since the first of the two replaces the region of the other. *)
Lemma moved_block_is_registered_twice :
  exists st, @conflictWrite demoOpen sameOnDisk (mkUri (one_conflict 1) None None) (js "@ours") (demoStore demoFile) = Ok st /\
    let text := default [] (m_get demoPath (files st)) in
    let again := mkStore (files st) (registerAll demoPath demoPath (scanText text) (history st)) in
    length (scanText text) = 1 /\ map id (entries (history again)) = [2; 3] /\
    @conflictWrite demoOpen sameOnDisk (mkUri all_conflicts None None) (js "@ours") again = Throw AllFailed.
Proof. eexists. split; [vm_compute; reflexivity|]. vm_compute. done. Qed.

(** ** Files with carriage returns *)

Lemma scan_crlf lines : forall st, blocks st = [] -> p_theirs <$> partial st = None \/ p_theirs <$> partial st = Some None -> phase st ≠ theirs ->
  Forall (fun l => exists l', l = l' ++ [13%N]) lines -> blocks (foldl scanLine st lines) = [].
Proof.
  induction lines as [|l lines IH]; intros st Hb Hp Ht H; [done|]. apply Forall_cons in H as [[l' ->] H]. cbn [foldl].
  assert (l' ++ [13%N] ≠ SEPARATOR) as Hs.
  { intros E. apply (f_equal last) in E. rewrite last_snoc in E. discriminate. }
  assert (blocks (scanLine st (l' ++ [13%N])) = [] /\ (p_theirs <$> partial (scanLine st (l' ++ [13%N])) = None \/ p_theirs <$> partial (scanLine st (l' ++ [13%N])) = Some None) /\
          phase (scanLine st (l' ++ [13%N])) ≠ theirs) as (H1 & H2 & H3); [|by apply IH].
  unfold scanLine. destruct (matchMarker _ OURS_PREFIX); [cbn; auto|]. destruct (phase st) eqn:Eph; [by rewrite Hb; cbn; auto| | |done];
    (destruct (partial st) as [p|]; [|by cbn; rewrite ?Hb; auto]); destruct Hp as [Hp|[= Hp]]; try done;
    (destruct (matchMarker _ BASE_PREFIX); [cbn; rewrite ?Hb, ?Hp; auto|]); rewrite (bool_decide_false _ Hs);
    (destruct (matchMarker _ THEIRS_PREFIX); [cbn; rewrite ?Hb; auto|]); cbn [blocks partial phase fmap option_fmap option_map]; unfold push.
  - split; [done|]. split; [|done]. right. cbn. by rewrite Hp.
  - split; [done|]. split; [|done]. right. destruct (p_base p) as [[[? ?] ?]|]; cbn; by rewrite Hp.
Qed.

(** In a file whose lines end with carriage returns no conflict is ever found: the separator is compared with the bare one. *)
Lemma crlf_conflicts_are_not_detected lines f : Forall (fun l => exists l', l = l' ++ [13%N]) lines -> scanConflictLines lines f = [].
Proof. intros H. unfold scanConflictLines. apply scan_crlf; cbn; auto. Qed.

Example conflict_uris :
  parseConflictUri (js "conflict://3/theirs") = Ok (Some (mkUri (one_conflict 3) (Some sc_theirs) None)) /\
  parseConflictUri (js "a:conflict://b:conflict://*") = Ok (Some (mkUri all_conflicts None (Some (js "a:conflict://b")))) /\
  parseConflictUri (js "conflict://0") = Throw (InvalidUri (js "conflict://0")) /\ parseConflictUri (js "src/conflict.ts") = Ok None.
Proof. vm_compute. done. Qed.
