(* ===== verification/TodoWrite.v ===== *)
(** * Todo lists (packages/coding-agent/src/tools/todo-write.ts)

    The operations of the todo tool on phases of tasks, the tool call around them, and the Markdown form of a list with its
    parser.  A task that an operation names is the first one with that text; the source keeps it as an object and changes it
    in place, here the list is rebuilt with that task changed.  Error messages are values. *)
From S2P Require Import Prelude JsString.
Open Scope nat_scope.

(** ** Data *)

Inductive TodoStatus : Type := pending | in_progress | completed | abandoned.
#[global] Instance TodoStatus_eq_dec : EqDecision TodoStatus.
Proof. solve_decision. Defined.

(** No notes and an empty list of notes are the same list. *)
Record TodoItem : Type := mkTodo { content : jstring; status : TodoStatus; notes : list jstring }.
Record TodoPhase : Type := mkPhase { name : jstring; tasks : list TodoItem }.

Definition orderedTasks (ps : list TodoPhase) : list TodoItem := concat (map tasks ps).
Definition set_status (s : TodoStatus) (t : TodoItem) : TodoItem := mkTodo (content t) s (notes t).
Definition add_note (n : jstring) (t : TodoItem) : TodoItem := mkTodo (content t) (status t) (notes t ++ [n]).
Definition set_tasks (ts : list TodoItem) (p : TodoPhase) : TodoPhase := mkPhase (name p) ts.
Definition mapTasks (f : TodoItem -> TodoItem) (ps : list TodoPhase) : list TodoPhase := map (fun p => set_tasks (map f (tasks p)) p) ps.

Inductive TodoOp : Type := op_init | op_start | op_done | op_drop | op_rm | op_note | op_append.
#[global] Instance TodoOp_eq_dec : EqDecision TodoOp.
Proof. solve_decision. Defined.

(** The text of a note as it arrives: the argument may be missing or no string. *)
Inductive NoteText : Type := no_text | text_of (s : jstring) | not_a_string.
Record TodoOpEntry : Type := mkTodoOp {
  op : TodoOp; e_list : option (list (jstring * list jstring)); e_task : option jstring; e_phase : option jstring; e_items : option (list jstring); e_text : NoteText }.

Inductive TodoError : Type :=
| MissingTaskContent | TaskNotFound (c : jstring) | MissingPhaseName | PhaseNotFound (n : jstring) | MissingList | MissingItems
| TaskExists (c : jstring) | NoteNotString | MissingNoteText | MissingTarget (o : TodoOp).

(** ** Finding and changing tasks *)

Definition hasContent (c : jstring) (t : TodoItem) : bool := bool_decide (content t = c).

(** The first task of a list that passes the test, replaced by [f]. *)
Fixpoint changeFirst (test : TodoItem -> bool) (f : TodoItem -> list TodoItem) (ts : list TodoItem) : option (list TodoItem) :=
  match ts with
  | [] => None
  | t :: ts' => if test t then Some (f t ++ ts') else (fun r => t :: r) <$> changeFirst test f ts'
  end.

(** The same in the first phase that has one. *)
Fixpoint changeTask (test : TodoItem -> bool) (f : TodoItem -> list TodoItem) (ps : list TodoPhase) : option (list TodoPhase) :=
  match ps with
  | [] => None
  | p :: ps' => match changeFirst test f (tasks p) with Some ts => Some (set_tasks ts p :: ps') | None => (fun r => p :: r) <$> changeTask test f ps' end
  end.

Fixpoint changePhase (n : jstring) (f : TodoPhase -> TodoPhase) (ps : list TodoPhase) : option (list TodoPhase) :=
  match ps with
  | [] => None
  | p :: ps' => if bool_decide (name p = n) then Some (f p :: ps') else (fun r => p :: r) <$> changePhase n f ps'
  end.

Definition findTaskByContent (ps : list TodoPhase) (c : jstring) : bool := existsb (hasContent c) (orderedTasks ps).

(** A named argument that is there and not empty. *)
Definition given (o : option jstring) : option jstring := match o with Some ((_ :: _) as s) => Some s | _ => None end.

(** A phase with its first error, as the operations return them. *)
Abbreviation Applied := (list TodoPhase * list TodoError)%type.

(** [resolveTaskOrError] and the change of the task it finds. *)
Definition onTask (ps : list TodoPhase) (task : option jstring) (f : TodoItem -> list TodoItem) : Applied :=
  match given task with
  | None => (ps, [MissingTaskContent])
  | Some c => match changeTask (hasContent c) f ps with Some ps' => (ps', []) | None => (ps, [TaskNotFound c]) end
  end.

(** [resolvePhaseOrError] and the change of the phase it finds. *)
Definition onPhase (ps : list TodoPhase) (phase : option jstring) (f : TodoPhase -> TodoPhase) : Applied :=
  match given phase with
  | None => (ps, [MissingPhaseName])
  | Some n => match changePhase n f ps with Some ps' => (ps', []) | None => (ps, [PhaseNotFound n]) end
  end.

(** The targets of [done] and [drop], each changed. *)
Definition onTargets (ps : list TodoPhase) (e : TodoOpEntry) (f : TodoItem -> TodoItem) : Applied :=
  match given (e_task e), given (e_phase e) with
  | Some _, _ => onTask ps (e_task e) (fun t => [f t])
  | None, Some _ => onPhase ps (e_phase e) (fun p => set_tasks (map f (tasks p)) p)
  | None, None => (mapTasks f ps, [])
  end.

Definition removeTasks (ps : list TodoPhase) (e : TodoOpEntry) : Applied :=
  match given (e_task e), given (e_phase e) with
  | Some _, _ => onTask ps (e_task e) (fun _ => [])
  | None, Some _ => onPhase ps (e_phase e) (set_tasks [])
  | None, None => (map (set_tasks []) ps, [])
  end.

Definition newTask (c : jstring) : TodoItem := mkTodo c pending [].

Definition initPhases (e : TodoOpEntry) : Applied :=
  match e_list e with None => ([], [MissingList]) | Some l => (map (fun pi => mkPhase pi.1 (map newTask pi.2)) l, []) end.

(** The loop over the items, which stops at the first that is there already. *)
Fixpoint appendLoop (n : jstring) (ps : list TodoPhase) (items : list jstring) : Applied :=
  match items with
  | [] => (ps, [])
  | c :: items' =>
      if findTaskByContent ps c then (ps, [TaskExists c])
      else appendLoop n (default ps (changePhase n (fun p => set_tasks (tasks p ++ [newTask c]) p) ps)) items'
  end.

Definition appendItems (ps : list TodoPhase) (e : TodoOpEntry) : Applied :=
  match given (e_phase e), e_items e with
  | None, _ => (ps, [MissingPhaseName])
  | Some _, (None | Some []) => (ps, [MissingItems])
  | Some n, Some items =>
      let ps' := if existsb (fun p => bool_decide (name p = n)) ps then ps else ps ++ [mkPhase n []] in
      appendLoop n ps' items
  end.

Definition demote (t : TodoItem) : TodoItem := if bool_decide (status t = in_progress) then set_status pending t else t.

Definition applyEntry (ps : list TodoPhase) (e : TodoOpEntry) : Applied :=
  match op e with
  | op_init => initPhases e
  | op_start =>
      match given (e_task e) with
      | None => (ps, [MissingTaskContent])
      | Some c =>
          match changeTask (hasContent c) (fun t => [set_status in_progress t]) (mapTasks demote ps) with Some ps' => (ps', []) | None => (ps, [TaskNotFound c]) end
      end
  | op_done => onTargets ps e (set_status completed)
  | op_drop => onTargets ps e (set_status abandoned)
  | op_rm => removeTasks ps e
  | op_note =>
      let '(ps', errs) := onTask ps (e_task e) (fun t => [t]) in
      match errs with
      | _ :: _ => (ps', errs)
      | [] =>
          match e_text e with
          | not_a_string => (ps, [NoteNotString])
          | no_text => (ps, [MissingNoteText])
          | text_of s => match trim_end s with [] => (ps, [MissingNoteText]) | n => onTask ps (e_task e) (fun t => [add_note n t]) end
          end
      end
  | op_append => appendItems ps e
  end.

(** All in-progress tasks but the first become pending; without any, the first pending one is started. *)
Fixpoint keepFirst (seen : bool) (ts : list TodoItem) : list TodoItem :=
  match ts with
  | [] => []
  | t :: ts' => if bool_decide (status t = in_progress) then (if seen then set_status pending t else t) :: keepFirst true ts' else t :: keepFirst seen ts'
  end.
Definition hasProgress (ts : list TodoItem) : bool := existsb (fun t => bool_decide (status t = in_progress)) ts.
Fixpoint keepFirstIn (seen : bool) (ps : list TodoPhase) : list TodoPhase :=
  match ps with [] => [] | p :: ps' => set_tasks (keepFirst seen (tasks p)) p :: keepFirstIn (seen || hasProgress (tasks p)) ps' end.

Definition normalizeInProgressTask (ps : list TodoPhase) : list TodoPhase :=
  if hasProgress (orderedTasks ps) then keepFirstIn false ps
  else default ps (changeTask (fun t => bool_decide (status t = pending)) (fun t => [set_status in_progress t]) ps).

Definition applyStep (acc : Applied) (e : TodoOpEntry) : Applied := let '(ps', errs) := applyEntry acc.1 e in (ps', acc.2 ++ errs).
Definition applyParams (ps : list TodoPhase) (ops : list TodoOpEntry) : Applied :=
  let '(next, errors) := foldl applyStep (ps, []) ops in (normalizeInProgressTask next, errors).

(** The tool call: the new list of the session and the errors; a call with errors changes nothing. *)
Definition missingTarget (e : TodoOpEntry) : bool :=
  match op e, given (e_task e), given (e_phase e) with (op_done | op_drop), None, None => true | _, _, _ => false end.
Definition execute (ps : list TodoPhase) (ops : list TodoOpEntry) : Applied :=
  match List.find missingTarget ops with
  | Some e => (ps, [MissingTarget (op e)])
  | None => let '(updated, errors) := applyParams ps ops in match errors with [] => (updated, []) | _ => (ps, errors) end
  end.

(** ** One task in progress *)

Definition active (t : TodoItem) : bool := bool_decide (status t = in_progress).
Definition open (t : TodoItem) : bool := bool_decide (status t = pending) || active t.

(** Exactly one task is in progress as long as any is open. *)
Definition one_active (ts : list TodoItem) : Prop := length (List.filter active ts) = if existsb open ts then 1 else 0.

(** The texts and notes are kept, and a task that is not open keeps its status. *)
Definition only_open_moves (t t' : TodoItem) : Prop := content t' = content t /\ notes t' = notes t /\ open t' = open t /\ (open t = false -> status t' = status t).

Lemma only_open_refl ts : Forall2 only_open_moves ts ts.
Proof. apply Forall_Forall2_diag. by apply Forall_true. Qed.

Lemma orderedTasks_cons p ps : orderedTasks (p :: ps) = tasks p ++ orderedTasks ps.
Proof. done. Qed.

Lemma keepFirst_app a b seen : keepFirst seen (a ++ b) = keepFirst seen a ++ keepFirst (seen || hasProgress a) b.
Proof.
  revert seen. induction a as [|t a IH]; intros seen; cbn [app keepFirst hasProgress existsb]; [by rewrite orb_false_r|].
  case_bool_decide; rewrite IH; cbn [app orb]; [by rewrite orb_true_r|done].
Qed.

Lemma keepFirstIn_ordered ps : forall seen, orderedTasks (keepFirstIn seen ps) = keepFirst seen (orderedTasks ps).
Proof. induction ps as [|p ps IH]; intros seen; [done|]. cbn [keepFirstIn]. rewrite !orderedTasks_cons, keepFirst_app, IH. done. Qed.

Lemma keepFirst_moves ts : forall seen, Forall2 only_open_moves ts (keepFirst seen ts).
Proof.
  induction ts as [|t ts IH]; intros seen; cbn [keepFirst]; [constructor|]. case_bool_decide as E; [|constructor; [done|apply IH]]. constructor; [|apply IH].
  destruct seen; [|done]. unfold only_open_moves, open, active. cbn [set_status content notes status]. rewrite E. done.
Qed.

Lemma keepFirst_count ts : forall seen, length (List.filter active (keepFirst seen ts)) = if seen then 0 else if hasProgress ts then 1 else 0.
Proof.
  induction ts as [|t ts IH]; intros seen; cbn [keepFirst]; [by destruct seen|]. unfold hasProgress. cbn [existsb]. case_bool_decide as E.
  - destruct seen; cbn [List.filter]; unfold active at 1; cbn [set_status status]; [by rewrite bool_decide_false, IH|rewrite bool_decide_true by done; cbn [length]; by rewrite IH].
  - cbn [List.filter]. unfold active at 1. rewrite bool_decide_false by done. by rewrite IH.
Qed.

Lemma changeFirst_app test f a b : changeFirst test f (a ++ b) = match changeFirst test f a with Some a' => Some (a' ++ b) | None => (app a) <$> changeFirst test f b end.
Proof.
  induction a as [|t a IH]; cbn [app changeFirst]; [by destruct (changeFirst test f b)|]. destruct (test t); [by rewrite app_assoc|]. rewrite IH.
  destruct (changeFirst test f a); [done|]. by destruct (changeFirst test f b).
Qed.

Lemma changeTask_ordered test f ps : orderedTasks <$> changeTask test f ps = changeFirst test f (orderedTasks ps).
Proof.
  induction ps as [|p ps IH]; [done|]. cbn [changeTask]. rewrite orderedTasks_cons, changeFirst_app, <- IH. destruct (changeFirst test f (tasks p)); [done|].
  by destruct (changeTask test f ps).
Qed.

Lemma changeFirst_some test f ts ts' : changeFirst test f ts = Some ts' ->
  exists pre t post, ts = pre ++ t :: post /\ test t = true /\ existsb test pre = false /\ ts' = pre ++ f t ++ post.
Proof.
  revert ts'. induction ts as [|t ts IH]; intros ts' H; [done|]. cbn [changeFirst] in H. destruct (test t) eqn:E.
  - injection H as <-. by exists [], t, ts.
  - destruct (changeFirst test f ts) as [r|]; [|done]. injection H as <-. destruct (IH r eq_refl) as (pre & x & post & -> & H1 & H2 & ->).
    exists (t :: pre), x, post. cbn [existsb]. by rewrite E.
Qed.

Lemma changeFirst_none test f ts : changeFirst test f ts = None -> existsb test ts = false.
Proof.
  induction ts as [|t ts IH]; [done|]. cbn [changeFirst existsb]. destruct (test t); [done|]. destruct (changeFirst test f ts); [done|]. intros _. by apply IH.
Qed.

Lemma no_progress_filter ts : hasProgress ts = false -> List.filter active ts = [].
Proof.
  unfold hasProgress. induction ts as [|t ts IH]; [done|]. cbn [existsb List.filter]. unfold active at 1. intros [-> H]%orb_false_iff. by apply IH.
Qed.

Lemma hasProgress_open ts : hasProgress ts = true -> existsb open ts = true.
Proof. unfold hasProgress. rewrite !existsb_exists. intros (t & Hin & Ht). exists t. split; [done|]. unfold open, active. by rewrite Ht, orb_true_r. Qed.

Lemma moves_open ts ts' : Forall2 only_open_moves ts ts' -> existsb open ts' = existsb open ts.
Proof. induction 1 as [|t t' ts ts' (_ & _ & H & _) _ IH]; [done|]. cbn [existsb]. by rewrite H, IH. Qed.

Lemma normalize_spec ps : one_active (orderedTasks (normalizeInProgressTask ps)) /\ Forall2 only_open_moves (orderedTasks ps) (orderedTasks (normalizeInProgressTask ps)).
Proof.
  unfold normalizeInProgressTask. destruct (hasProgress (orderedTasks ps)) eqn:E.
  - rewrite keepFirstIn_ordered. split; [|apply keepFirst_moves]. unfold one_active. rewrite (moves_open _ _ (keepFirst_moves _ false)), keepFirst_count, E.
    by rewrite (hasProgress_open _ E).
  - pose proof (changeTask_ordered (fun t => bool_decide (status t = pending)) (fun t => [set_status in_progress t]) ps) as H.
    destruct (changeTask _ _ ps) as [ps'|]; cbn [fmap option_fmap option_map] in H; symmetry in H.
    + change (default ps (Some ps')) with ps'. apply changeFirst_some in H as (pre & t & post & Eo & Ht & _ & ->). rewrite Eo in *. apply bool_decide_eq_true in Ht.
      unfold hasProgress in E. rewrite existsb_app in E. cbn [existsb] in E. apply orb_false_iff in E as [E1 [_ E2]%orb_false_iff]. split.
      * unfold one_active. rewrite List.filter_app. cbn [app List.filter]. rewrite (no_progress_filter pre E1), (no_progress_filter post E2).
        rewrite existsb_app. cbn. by rewrite orb_true_r.
      * apply Forall2_app; [apply only_open_refl|]. constructor; [|apply only_open_refl]. unfold only_open_moves, open, active. cbn [set_status content notes status]. by rewrite Ht.
    + apply changeFirst_none in H. split; [|apply only_open_refl]. unfold one_active. change (default ps None) with ps. rewrite (no_progress_filter _ E).
      enough (existsb open (orderedTasks ps) = false) as -> by done. apply not_true_iff_false. rewrite existsb_exists. intros (t & Hin & Ht).
      unfold open in Ht. apply orb_true_iff in Ht as [Ht|Ht].
      * apply not_true_iff_false in H. destruct H. apply existsb_exists. by exists t.
      * apply not_true_iff_false in E. destruct E. apply existsb_exists. by exists t.
Qed.

(** C30: An accepted call leaves exactly one task in progress as long as any is open, whatever the list was; a call with an error
    leaves the list of the session as it was. *)
Theorem todo_calls_keep_one_task_active ps ops :
  let '(ps', errors) := execute ps ops in (errors = [] -> one_active (orderedTasks ps')) /\ (errors ≠ [] -> ps' = ps).
Proof.
  unfold execute. destruct (List.find missingTarget ops) as [e|]; [done|]. unfold applyParams. destruct (foldl applyStep (ps, []) ops) as [next errors].
  destruct errors; [|done]. split; [|done]. intros _. apply normalize_spec.
Qed.

(** ** Task texts stay distinct *)

Definition contents (ps : list TodoPhase) : list jstring := map content (orderedTasks ps).

Lemma contents_app a b : contents (a ++ b) = contents a ++ contents b.
Proof. unfold contents, orderedTasks. by rewrite !map_app, concat_app, map_app. Qed.

Lemma contents_cons p ps : contents (p :: ps) = map content (tasks p) ++ contents ps.
Proof. unfold contents. by rewrite orderedTasks_cons, map_app. Qed.

Lemma contents_mapTasks f ps : (forall t, content (f t) = content t) -> contents (mapTasks f ps) = contents ps.
Proof.
  intros Hf. induction ps as [|p ps IH]; [done|]. unfold mapTasks in *. cbn [map]. rewrite !contents_cons, IH. cbn [set_tasks tasks]. rewrite map_map. f_equal. by apply map_ext.
Qed.

Lemma changePhase_some n f ps ps' : changePhase n f ps = Some ps' -> exists pre p post, ps = pre ++ p :: post /\ name p = n /\ ps' = pre ++ f p :: post.
Proof.
  revert ps'. induction ps as [|p ps IH]; intros ps' H; [done|]. cbn [changePhase] in H. case_bool_decide as E; [injection H as <-; by exists [], p, ps|].
  destruct (changePhase n f ps) as [r|]; [|done]. injection H as <-. destruct (IH r eq_refl) as (pre & x & post & -> & H1 & ->). by exists (p :: pre), x, post.
Qed.

(** The texts are those of before without some. *)
Definition fewer (ps ps' : list TodoPhase) : Prop := contents ps' `sublist_of` contents ps.

Lemma fewer_refl ps : fewer ps ps.
Proof. unfold fewer. done. Qed.

Lemma changeTask_fewer test f ps ps' : (forall t, map content (f t) `sublist_of` [content t]) -> changeTask test f ps = Some ps' -> fewer ps ps'.
Proof.
  intros Hf E. unfold fewer, contents. pose proof (changeTask_ordered test f ps) as H. rewrite E in H. cbn [fmap option_fmap option_map] in H. symmetry in H.
  apply changeFirst_some in H as (pre & t & post & -> & _ & _ & ->). rewrite !map_app. apply sublist_app; [done|]. cbn [map].
  change (content t :: map content post) with ([content t] ++ map content post). by apply sublist_app.
Qed.

Lemma onTask_fewer ps task f : (forall t, map content (f t) `sublist_of` [content t]) -> fewer ps (onTask ps task f).1.
Proof.
  intros Hf. unfold onTask. destruct (given task); [|apply fewer_refl]. destruct (changeTask _ f ps) eqn:E; [|apply fewer_refl]. by eapply changeTask_fewer.
Qed.

Lemma onPhase_fewer ps phase f : (forall p, map content (tasks (f p)) `sublist_of` map content (tasks p)) -> fewer ps (onPhase ps phase f).1.
Proof.
  intros Hf. unfold onPhase. destruct (given phase) as [n|]; [|apply fewer_refl]. destruct (changePhase n f ps) as [ps'|] eqn:E; [|apply fewer_refl].
  apply changePhase_some in E as (pre & p & post & -> & _ & ->). unfold fewer. cbn [fst]. rewrite !contents_app, !contents_cons.
  apply sublist_app; [done|]. by apply sublist_app.
Qed.

Lemma onTargets_fewer ps e f : (forall t, content (f t) = content t) -> fewer ps (onTargets ps e f).1.
Proof.
  intros Hf. unfold onTargets. destruct (given (e_task e)); [apply onTask_fewer; intros t; cbn; by rewrite Hf|].
  destruct (given (e_phase e)); [apply onPhase_fewer; intros p; cbn; rewrite map_map; by rewrite (map_ext _ content)|].
  unfold fewer. cbn [fst]. by rewrite contents_mapTasks.
Qed.

Lemma cleared_fewer ps : fewer ps (map (set_tasks []) ps).
Proof. unfold fewer. induction ps as [|p ps IH]; [done|]. cbn [map]. rewrite !contents_cons. cbn [set_tasks tasks map app]. by apply sublist_inserts_l. Qed.

Lemma removeTasks_fewer ps e : fewer ps (removeTasks ps e).1.
Proof.
  unfold removeTasks. destruct (given (e_task e)); [apply onTask_fewer; intros t; apply sublist_nil_l|].
  destruct (given (e_phase e)); [apply onPhase_fewer; intros p; apply sublist_nil_l|apply cleared_fewer].
Qed.

Lemma append_distinct n items : forall ps, NoDup (contents ps) -> NoDup (contents (appendLoop n ps items).1).
Proof.
  induction items as [|c items IH]; intros ps Hd; cbn [appendLoop]; [done|]. destruct (findTaskByContent ps c) eqn:E; [done|]. apply IH.
  destruct (changePhase _ _ ps) as [ps'|] eqn:Ec; [|done]. change (default ps (Some ps')) with ps'.
  apply changePhase_some in Ec as (pre & p & post & -> & _ & ->).
  assert (c ∉ contents (pre ++ p :: post)) as Hc.
  { intros (t & -> & Hin)%list_elem_of_fmap. apply not_true_iff_false in E. destruct E. apply existsb_exists. exists t. split; [by apply list_elem_of_In|]. by apply bool_decide_eq_true. }
  rewrite contents_app, contents_cons in *. cbn [set_tasks tasks]. rewrite map_app, <- app_assoc. cbn [map newTask content app].
  assert (contents pre ++ map content (tasks p) ++ c :: contents post ≡ₚ c :: contents pre ++ map content (tasks p) ++ contents post) as -> by solve_Permutation.
  by apply NoDup_cons.
Qed.

(** The texts that an operation brings along are distinct. *)
Definition brings_distinct (e : TodoOpEntry) : Prop := op e = op_init -> forall l, e_list e = Some l -> NoDup (concat (map snd l)).

Lemma init_contents l : contents (map (fun pi => mkPhase pi.1 (map newTask pi.2)) l) = concat (map snd l).
Proof.
  induction l as [|[n items] l IH]; [done|]. cbn [map concat]. rewrite contents_cons, IH. cbn [tasks snd]. rewrite map_map. cbn [newTask content]. by rewrite map_id.
Qed.

Lemma fewer_distinct ps ps' : fewer ps ps' -> NoDup (contents ps) -> NoDup (contents ps').
Proof. unfold fewer. intros H1 H2. by eapply sublist_NoDup. Qed.

Lemma applyEntry_distinct ps e : brings_distinct e -> NoDup (contents ps) -> NoDup (contents (applyEntry ps e).1).
Proof.
  intros Hb Hd. unfold applyEntry. destruct (op e) eqn:Eo.
  - unfold initPhases. destruct (e_list e) as [l|] eqn:El; cbn [fst]; [|constructor]. rewrite init_contents. by apply Hb.
  - destruct (given (e_task e)) as [c|]; [|done]. destruct (changeTask _ _ (mapTasks demote ps)) as [ps'|] eqn:E; [|done]. cbn [fst].
    eapply fewer_distinct; [eapply changeTask_fewer; [|exact E]; done|]. rewrite contents_mapTasks; [done|]. intros t. unfold demote. by case_bool_decide.
  - eapply fewer_distinct; [by apply onTargets_fewer|done].
  - eapply fewer_distinct; [by apply onTargets_fewer|done].
  - eapply fewer_distinct; [by apply removeTasks_fewer|done].
  - pose proof (onTask_fewer ps (e_task e) (fun t => [t]) ltac:(done)) as H0. destruct (onTask ps (e_task e) (fun t => [t])) as [ps' [|err errs]]; cbn [fst] in *.
    + destruct (e_text e) as [|s|]; [done| |done]. destruct (trim_end s) as [|a b]; [done|]. eapply fewer_distinct; [by apply onTask_fewer|done].
    + by eapply fewer_distinct.
  - unfold appendItems. destruct (given (e_phase e)) as [n|]; [|done]. destruct (e_items e) as [[|i items]|]; [done| |done]. apply append_distinct.
    destruct (existsb _ ps); [done|]. rewrite contents_app. cbn. by rewrite app_nil_r.
Qed.

(** As long as the lists that calls install have distinct texts, the texts of all tasks stay distinct, so that naming a text
    always means one task. *)
Theorem task_texts_stay_distinct ps ops : Forall brings_distinct ops -> NoDup (contents ps) -> NoDup (contents (execute ps ops).1).
Proof.
  intros Hb Hd. unfold execute. destruct (List.find missingTarget ops); [done|]. unfold applyParams.
  assert (NoDup (contents (foldl applyStep (ps, []) ops).1)) as H.
  { generalize (@nil TodoError). revert ps Hd. induction Hb as [|e ops He _ IH]; intros ps Hd errs; [done|]. cbn [foldl]. unfold applyStep at 2. cbn [fst snd].
    pose proof (applyEntry_distinct ps e He Hd) as Ha. destruct (applyEntry ps e) as [ps' es]. by apply IH. }
  destruct (foldl applyStep (ps, []) ops) as [next errors]. cbn [fst] in H. destruct errors; [|done]. cbn [fst].
  destruct (normalize_spec next) as [_ Hm]. unfold contents in *. enough (map content (orderedTasks (normalizeInProgressTask next)) = map content (orderedTasks next)) as -> by done.
  induction Hm as [|t t' ts ts' (E & _) _ IH]; [done|]. cbn [map]. rewrite E. f_equal. apply IH. by inversion H.
Qed.

(** ** Markdown *)

Definition STATUS_TO_MARKER (s : TodoStatus) : N := match s with pending => 32 | in_progress => 47 | completed => 120 | abandoned => 45 end%N.

Definition noteLine (l : jstring) : jstring := match l with [] => js "  >" | _ => js "  > " ++ l end.
(** The lines of one note, and of all notes of a task. *)
Definition noteLines (n : jstring) : list jstring := map noteLine (split_on c_lf n).
Fixpoint notesLines (ns : list jstring) : list jstring :=
  match ns with [] => [] | [n] => noteLines n | n :: ns' => noteLines n ++ [js "  >"] ++ notesLines ns' end.
Definition taskLine (t : TodoItem) : jstring := js "- [" ++ [STATUS_TO_MARKER (status t)] ++ js "] " ++ content t.
Definition taskLines (t : TodoItem) : list jstring := taskLine t :: notesLines (notes t).
Definition phaseLines (p : TodoPhase) : list jstring := (js "# " ++ name p) :: concat (map taskLines (tasks p)).
Fixpoint phasesLines (ps : list TodoPhase) : list jstring :=
  match ps with [] => [] | [p] => phaseLines p | p :: ps' => phaseLines p ++ [[]] ++ phasesLines ps' end.

Definition phasesToMarkdown (ps : list TodoPhase) : jstring :=
  match ps with [] => js "# Todos" ++ [c_lf] | _ => join [c_lf] (phasesLines ps) ++ [c_lf] end.

Definition MARKER_TO_STATUS (m : option N) : option TodoStatus :=
  match m with
  | None | Some 32%N => Some pending
  | Some 120%N | Some 88%N => Some completed
  | Some 47%N | Some 62%N => Some in_progress
  | Some 45%N | Some 126%N => Some abandoned
  | _ => None
  end.

Definition noLineEnd (s : jstring) : bool := negb (existsb is_line_terminator s).

(** A line that starts, after blanks, with a bracket: what follows it, less one blank; no line end may be in it. *)
Definition noteMatch (raw : jstring) : option jstring :=
  match trim_start raw with
  | c :: t => if (c =? 62)%N then let t' := match t with d :: t' => if is_ws d then t' else t | [] => [] end in if noLineEnd t' then Some t' else None else None
  | [] => None
  end.

Fixpoint hashes (s : jstring) : nat := match s with c :: s' => if (c =? 35)%N then S (hashes s') else 0 | [] => 0 end.

(** Blanks and the text up to the end, of a trimmed line. *)
Definition afterBlanks (s : jstring) : option jstring :=
  match s with c :: _ => if is_ws c && noLineEnd (trim_start s) then Some (trim (trim_start s)) else None | [] => None end.

(** One to six hashes, blanks and the name. *)
Definition headingMatch (trimmed : jstring) : option jstring :=
  let n := hashes trimmed in if (1 <=? n) && (n <=? 6) then afterBlanks (drop n trimmed) else None.

(** A bullet, a box with at most one unit in it, blanks and the text: the marker, if any, and the text. *)
Definition taskMatch (trimmed : jstring) : option (option N * jstring) :=
  match trimmed with
  | b :: s =>
      if bool_decide (b ∈ [45; 42; 43]%N) then
        match trim_start s with
        | o :: s1 =>
            if (o =? 91)%N then
              let marked := match s1 with m :: d :: s2 => if (d =? 93)%N && negb (is_line_terminator m) then (fun c => (Some m, c)) <$> afterBlanks s2 else None | _ => None end in
              match marked with
              | Some r => Some r
              | None => match s1 with d :: s2 => if (d =? 93)%N then (fun c => (None, c)) <$> afterBlanks s2 else None | [] => None end
              end
            else None
        | [] => None
        end
      else None
  | [] => None
  end.

Inductive MarkdownError : Type := UnknownMarker (lineNum : nat) (m : option N) | Unrecognized (lineNum : nat) (line : jstring).

(** The variables of the loop: the current phase is the last one; [inTask] says that there is a current task, the last one. *)
Record Reader : Type := mkReader { r_phases : list TodoPhase; inTask : bool; noteBuf : list jstring; r_errors : list MarkdownError; lineNum : nat }.

Fixpoint onLast {A} (f : A -> A) (l : list A) : list A := match l with [] => [] | [x] => [f x] | x :: l' => x :: onLast f l' end.

Definition flushNote (r : Reader) : Reader :=
  match inTask r, noteBuf r with
  | true, (_ :: _) as buf => mkReader (onLast (fun p => set_tasks (onLast (add_note (join [c_lf] buf)) (tasks p)) p) (r_phases r)) true [] (r_errors r) (lineNum r)
  | b, _ => mkReader (r_phases r) b [] (r_errors r) (lineNum r)
  end.

Definition readLine (r : Reader) (raw : jstring) : Reader :=
  let next r := mkReader (r_phases r) (inTask r) (noteBuf r) (r_errors r) (S (lineNum r)) in
  match noteMatch raw, inTask r with
  | Some [], true => next (flushNote r)
  | Some l, true => next (mkReader (r_phases r) true (noteBuf r ++ [l]) (r_errors r) (lineNum r))
  | _, _ =>
      match trim raw with
      | [] => next r
      | trimmed =>
          let f := flushNote r in
          match headingMatch trimmed with
          | Some n => next (mkReader (r_phases f ++ [mkPhase n []]) false (noteBuf f) (r_errors f) (lineNum f))
          | None =>
              match taskMatch trimmed with
              | Some (m, c) =>
                  let ps := match r_phases f with [] => [mkPhase (js "Todos") []] | ps => ps end in
                  match MARKER_TO_STATUS m with
                  | None => next (mkReader ps false (noteBuf f) (r_errors f ++ [UnknownMarker (S (lineNum f)) m]) (lineNum f))
                  | Some s => next (mkReader (onLast (fun p => set_tasks (tasks p ++ [mkTodo c s []]) p) ps) true (noteBuf f) (r_errors f) (lineNum f))
                  end
              | None => next (mkReader (r_phases f) false (noteBuf f) (r_errors f ++ [Unrecognized (S (lineNum f)) trimmed]) (lineNum f))
              end
          end
      end
  end.

Definition markdownToPhases (md : jstring) : list TodoPhase * list MarkdownError :=
  let r := flushNote (foldl readLine (mkReader [] false [] [] 0) (split_crlf md)) in (normalizeInProgressTask (r_phases r), r_errors r).

(** *** Reading back what was printed *)

(** A text on one line, without blanks around it. *)
Definition plainText (s : jstring) : Prop := s ≠ [] /\ trim_start s = s /\ trim_end s = s /\ noLineEnd s = true.
(** A note without empty lines. *)
Definition plainNote (n : jstring) : Prop := Forall (fun l => l ≠ [] /\ noLineEnd l = true) (split_on c_lf n).
Definition plainTask (t : TodoItem) : Prop := plainText (content t) /\ Forall plainNote (notes t).
Definition plainPhase (p : TodoPhase) : Prop := plainText (name p) /\ Forall plainTask (tasks p).

(** The phases that have been read, with the note that is still open. *)
Definition effective (r : Reader) : list TodoPhase := r_phases (flushNote r).
Definition read_so_far (r : Reader) (ps : list TodoPhase) : Prop := effective r = ps /\ r_errors r = [].

Lemma flushNote_errors r : r_errors (flushNote r) = r_errors r.
Proof. unfold flushNote. destruct (inTask r); [|done]. by destruct (noteBuf r). Qed.
Lemma flushNote_buf r : noteBuf (flushNote r) = [].
Proof. unfold flushNote. destruct (inTask r); [|done]. by destruct (noteBuf r). Qed.

Lemma onLast_snoc {A} (f : A -> A) l x : onLast f (l ++ [x]) = l ++ [f x].
Proof. induction l as [|y l IH]; [done|]. cbn [app onLast]. rewrite IH. by destruct (l ++ [x]) eqn:E; [destruct l|]. Qed.

Lemma plain_snoc s : plainText s -> exists s' c, s = s' ++ [c] /\ is_ws c = false.
Proof.
  intros (Hne & _ & Ht & _). destruct s as [|c s' _] using rev_ind; [done|]. exists s', c. split; [done|]. destruct (is_ws c) eqn:E; [|done]. exfalso.
  clear Hne. assert (length (trim_end (s' ++ [c])) <= length s') as Hl.
  { clear Ht. induction s' as [|d s' IH]; cbn [app trim_end]; [by rewrite E|]. destruct (trim_end (s' ++ [c])); [destruct (is_ws d); cbn in *; lia|cbn in *; lia]. }
  rewrite Ht, length_app in Hl. cbn in Hl. lia.
Qed.

Lemma plain_head s : plainText s -> exists c s', s = c :: s' /\ is_ws c = false.
Proof.
  intros (Hne & Ht & _ & _). destruct s as [|c s]; [done|]. exists c, s. split; [done|]. destruct (is_ws c) eqn:E; [|done]. exfalso. cbn [trim_start] in Ht. rewrite E in Ht.
  assert (length (trim_start s) <= length s) as Hl. { clear. induction s as [|d s IH]; [done|]. cbn [trim_start]. destruct (is_ws d); cbn in *; lia. }
  rewrite Ht in Hl. cbn in Hl. lia.
Qed.

(** A line that starts with no blank and ends with a plain text is trimmed. *)
Lemma trim_line c pre s : is_ws c = false -> plainText s -> trim (c :: pre ++ s) = c :: pre ++ s.
Proof.
  intros Hc Hs. unfold trim. cbn [trim_start]. rewrite Hc. destruct (plain_snoc s Hs) as (s' & d & -> & Hd).
  change (c :: pre ++ s' ++ [d]) with ((c :: pre) ++ s' ++ [d]). rewrite app_assoc. by apply trim_end_app_nonws.
Qed.

Lemma afterBlanks_plain s : plainText s -> afterBlanks (32%N :: s) = Some s.
Proof. intros (Hne & H1 & H2 & H3). unfold afterBlanks, trim. cbn [trim_start]. change (is_ws 32) with true. cbn [andb]. by rewrite H1, H3, H1, H2. Qed.

Lemma heading_plain s : plainText s -> headingMatch (js "# " ++ s) = Some s.
Proof. intros Hs. unfold headingMatch. change (js "# " ++ s) with (35%N :: 32%N :: s). cbn -[afterBlanks]. by apply afterBlanks_plain. Qed.

Lemma task_plain st s : plainText s -> taskMatch (js "- [" ++ [STATUS_TO_MARKER st] ++ js "] " ++ s) = Some (Some (STATUS_TO_MARKER st), s).
Proof.
  intros Hs. change (js "- [" ++ [STATUS_TO_MARKER st] ++ js "] " ++ s) with (45%N :: 32%N :: 91%N :: STATUS_TO_MARKER st :: 93%N :: 32%N :: s).
  unfold taskMatch. change (bool_decide (45%N ∈ [45%N; 42%N; 43%N])) with true. cbn [trim_start]. change (is_ws 32) with true. change (is_ws 91) with false. cbn [N.eqb Pos.eqb andb].
  rewrite (afterBlanks_plain s Hs). by destruct st.
Qed.

Lemma marker_status st : MARKER_TO_STATUS (Some (STATUS_TO_MARKER st)) = Some st.
Proof. by destruct st. Qed.

Lemma read_heading r ps n : read_so_far r ps -> plainText n -> read_so_far (readLine r (js "# " ++ n)) (ps ++ [mkPhase n []]).
Proof.
  intros [H1 H2] Hn. assert (trim (js "# " ++ n) = js "# " ++ n) as Ht by by apply (trim_line 35%N [32%N]).
  unfold readLine. change (noteMatch (js "# " ++ n)) with (@None jstring). rewrite Ht. pose proof (heading_plain n Hn) as HH.
  change (js "# " ++ n) with (35%N :: 32%N :: n) in *. cbv iota. rewrite HH. unfold read_so_far, effective in *. unfold flushNote at 1. cbn [inTask noteBuf r_phases r_errors]. rewrite H1, flushNote_errors. done.
Qed.

Lemma read_task_line r pre n ts t : read_so_far r (pre ++ [mkPhase n ts]) -> plainText (content t) ->
  read_so_far (readLine r (taskLine t)) (pre ++ [mkPhase n (ts ++ [mkTodo (content t) (status t) []])]) /\
  inTask (readLine r (taskLine t)) = true /\ noteBuf (readLine r (taskLine t)) = [].
Proof.
  intros [H1 H2] Hn. assert (trim (taskLine t) = taskLine t) as Ht by by apply (trim_line 45%N (js " [" ++ [STATUS_TO_MARKER (status t)] ++ js "] ")).
  unfold readLine. change (noteMatch (taskLine t)) with (@None jstring). rewrite Ht. pose proof (task_plain (status t) _ Hn) as HH. fold (taskLine t) in HH.
  change (taskLine t) with (45%N :: 32%N :: 91%N :: STATUS_TO_MARKER (status t) :: 93%N :: 32%N :: content t) in *. cbv iota. rewrite HH.
  match goal with |- context [headingMatch ?x] => change (headingMatch x) with (@None jstring) end. cbv iota. rewrite marker_status.
  unfold read_so_far, effective in *. rewrite H1. destruct (pre ++ [mkPhase n ts]) as [|p ps] eqn:E; [by destruct pre|]. rewrite <- E.
  cbn [inTask noteBuf r_phases r_errors]. rewrite flushNote_buf, onLast_snoc. cbn. by rewrite flushNote_errors.
Qed.

Lemma read_blank r ps : read_so_far r ps -> read_so_far (readLine r []) ps.
Proof. intros [H1 H2]. unfold readLine. cbn. split; [|done]. unfold effective, flushNote in *. cbn [inTask noteBuf]. destruct (inTask r); [|done]. by destruct (noteBuf r). Qed.

Lemma read_note_line r l : inTask r = true -> l ≠ [] -> noLineEnd l = true ->
  readLine r (noteLine l) = mkReader (r_phases r) true (noteBuf r ++ [l]) (r_errors r) (S (lineNum r)).
Proof.
  intros Hi Hl Hn. destruct l as [|c l]; [done|]. unfold readLine.
  assert (noteMatch (noteLine (c :: l)) = Some (c :: l)) as ->; [|by rewrite Hi].
  change (noteLine (c :: l)) with (32%N :: 32%N :: 62%N :: 32%N :: c :: l). unfold noteMatch. cbn [trim_start]. change (is_ws 32) with true. change (is_ws 62) with false. cbn [N.eqb Pos.eqb].
  cbv beta iota zeta. change (is_ws 32) with true. cbv iota. by rewrite Hn.
Qed.

Lemma read_note_lines ls : forall r, inTask r = true -> Forall (fun l => l ≠ [] /\ noLineEnd l = true) ls ->
  let r' := foldl readLine r (map noteLine ls) in r_phases r' = r_phases r /\ inTask r' = true /\ noteBuf r' = noteBuf r ++ ls /\ r_errors r' = r_errors r.
Proof.
  induction ls as [|l ls IH]; intros r Hi Hls; cbn [map foldl]; [by rewrite app_nil_r|]. apply Forall_cons in Hls as [[H1 H2] Hls]. rewrite (read_note_line r l Hi H1 H2).
  destruct (IH (mkReader (r_phases r) true (noteBuf r ++ [l]) (r_errors r) (S (lineNum r))) eq_refl Hls) as (A & B & C & D). cbn zeta in *. cbn [r_phases noteBuf r_errors] in *.
  rewrite <- app_assoc in C. done.
Qed.

Lemma read_separator r : inTask r = true -> let r' := readLine r (js "  >") in r_phases r' = effective r /\ inTask r' = true /\ noteBuf r' = [] /\ r_errors r' = r_errors r.
Proof.
  intros Hi. unfold readLine. change (noteMatch (js "  >")) with (Some ([] : jstring)). rewrite Hi. cbn zeta. cbn [r_phases inTask noteBuf r_errors].
  rewrite flushNote_buf, flushNote_errors. split; [done|]. unfold flushNote. rewrite Hi. by destruct (noteBuf r).
Qed.

Lemma flush_note r pre n ts t note : r_phases r = pre ++ [mkPhase n (ts ++ [t])] -> inTask r = true -> noteBuf r = split_on c_lf note ->
  effective r = pre ++ [mkPhase n (ts ++ [add_note note t])].
Proof.
  intros H1 H2 H3. unfold effective, flushNote. rewrite H2, H3. destruct (split_on c_lf note) as [|l ls] eqn:E; [by destruct (split_on_nonempty c_lf note)|].
  cbn [r_phases]. rewrite H1, onLast_snoc. cbn [tasks]. by rewrite onLast_snoc, <- E, join_split_on.
Qed.

Lemma read_notes ns : forall r pre n ts t, r_phases r = pre ++ [mkPhase n (ts ++ [t])] -> inTask r = true -> noteBuf r = [] -> r_errors r = [] -> Forall plainNote ns ->
  read_so_far (foldl readLine r (notesLines ns)) (pre ++ [mkPhase n (ts ++ [mkTodo (content t) (status t) (notes t ++ ns)])]).
Proof.
  induction ns as [|note ns IH]; intros r pre n ts t H1 H2 H3 H4 Hp.
  - cbn. rewrite app_nil_r. split; [|done]. unfold effective, flushNote. rewrite H2, H3. cbn [r_phases]. rewrite H1. by destruct t.
  - apply Forall_cons in Hp as [Hn Hp]. destruct (read_note_lines (split_on c_lf note) r H2 Hn) as (A & B & C & D). fold (noteLines note) in A, B, C, D. rewrite H3 in C. cbn [app] in C.
    rewrite H1 in A. rewrite H4 in D. pose proof (flush_note _ pre n ts t note A B C) as HF. destruct ns as [|n2 ns].
    + cbn [notesLines]. split; [|done]. by rewrite HF.
    + change (notesLines (note :: n2 :: ns)) with (noteLines note ++ [js "  >"] ++ notesLines (n2 :: ns)). rewrite foldl_app. cbn [app foldl].
      destruct (read_separator _ B) as (A' & B' & C' & D'). rewrite HF in A'. rewrite D in D'.
      specialize (IH _ pre n ts (add_note note t) A' B' C' D' Hp). cbn [add_note content status notes] in IH. by rewrite <- app_assoc in IH.
Qed.

Lemma read_task r pre n ts t : read_so_far r (pre ++ [mkPhase n ts]) -> plainTask t -> read_so_far (foldl readLine r (taskLines t)) (pre ++ [mkPhase n (ts ++ [t])]).
Proof.
  intros Hr [Hc Hn]. unfold taskLines. cbn [foldl]. destruct (read_task_line r pre n ts t Hr Hc) as ([H1 H2] & H3 & H4).
  unfold effective, flushNote in H1. rewrite H3, H4 in H1. cbn [r_phases] in H1. pose proof (read_notes (notes t) _ pre n ts _ H1 H3 H4 H2 Hn) as H.
  cbn [content status notes app] in H. by destruct t.
Qed.

Lemma read_tasks ts : forall r pre n done, read_so_far r (pre ++ [mkPhase n done]) -> Forall plainTask ts ->
  read_so_far (foldl readLine r (concat (map taskLines ts))) (pre ++ [mkPhase n (done ++ ts)]).
Proof.
  induction ts as [|t ts IH]; intros r pre n done Hr Hp; [by rewrite app_nil_r|]. apply Forall_cons in Hp as [Ht Hp]. cbn [map concat]. rewrite foldl_app.
  pose proof (IH _ pre n (done ++ [t]) (read_task r pre n done t Hr Ht) Hp) as H. by rewrite <- app_assoc in H.
Qed.

Lemma read_phase r ps p : read_so_far r ps -> plainPhase p -> read_so_far (foldl readLine r (phaseLines p)) (ps ++ [p]).
Proof. intros Hr [Hn Ht]. unfold phaseLines. cbn [foldl]. pose proof (read_tasks (tasks p) _ ps (name p) [] (read_heading r ps (name p) Hr Hn) Ht) as H. by destruct p. Qed.

Lemma read_phases ps : forall r done, read_so_far r done -> Forall plainPhase ps -> read_so_far (foldl readLine r (phasesLines ps)) (done ++ ps).
Proof.
  induction ps as [|p ps IH]; intros r done Hr Hp; [by rewrite app_nil_r|]. apply Forall_cons in Hp as [H1 Hp]. pose proof (read_phase r done p Hr H1) as HP.
  destruct ps as [|p2 ps]; [done|]. change (phasesLines (p :: p2 :: ps)) with (phaseLines p ++ [[]] ++ phasesLines (p2 :: ps)). rewrite foldl_app. cbn [app foldl].
  pose proof (IH _ (done ++ [p]) (read_blank _ _ HP) Hp) as H. by rewrite <- app_assoc in H.
Qed.

Lemma noLineEnd_app a b : noLineEnd (a ++ b) = noLineEnd a && noLineEnd b.
Proof. unfold noLineEnd. by rewrite existsb_app, negb_orb. Qed.

Lemma noLineEnd_plain l : noLineEnd l = true -> plain_line l.
Proof.
  unfold noLineEnd. intros H%negb_true_iff%not_true_iff_false. rewrite existsb_exists in H. split.
  - intros Hin%list_elem_of_In. apply H. by exists c_lf.
  - intros [l' ->]%last_Some. apply H. exists c_cr. split; [|done]. apply in_app_iff. right. by left.
Qed.

Lemma notesLines_plain ns : Forall plainNote ns -> Forall (fun l => noLineEnd l = true) (notesLines ns).
Proof.
  assert (forall n, plainNote n -> Forall (fun l => noLineEnd l = true) (noteLines n)) as Hone.
  { intros n Hn. unfold noteLines. rewrite Forall_map. eapply Forall_impl; [exact Hn|]. intros l [Hl Hp]. destruct l as [|c l]; [done|]. cbn [noteLine]. rewrite noLineEnd_app. by rewrite Hp. }
  induction 1 as [|n ns Hn Hns IH]; [constructor|]. destruct ns as [|n2 ns]; [by apply Hone|]. change (notesLines (n :: n2 :: ns)) with (noteLines n ++ [js "  >"] ++ notesLines (n2 :: ns)).
  apply Forall_app. split; [by apply Hone|]. by constructor.
Qed.

Lemma phasesLines_plain ps : Forall plainPhase ps -> Forall (fun l => noLineEnd l = true) (phasesLines ps).
Proof.
  assert (forall p, plainPhase p -> Forall (fun l => noLineEnd l = true) (phaseLines p)) as Hone.
  { intros p [(_ & _ & _ & Hn) Ht]. unfold phaseLines. constructor; [by rewrite noLineEnd_app, Hn|]. rewrite Forall_concat, Forall_map. eapply Forall_impl; [exact Ht|].
    intros t [(_ & _ & _ & Hc) Hns]. unfold taskLines. constructor; [|by apply notesLines_plain]. unfold taskLine. rewrite !noLineEnd_app, Hc. by destruct (status t). }
  induction 1 as [|p ps Hp Hps IH]; [constructor|]. destruct ps as [|p2 ps]; [by apply Hone|]. change (phasesLines (p :: p2 :: ps)) with (phaseLines p ++ [[]] ++ phasesLines (p2 :: ps)).
  apply Forall_app. split; [by apply Hone|]. by constructor.
Qed.

Lemma markdown_lines ps : ps ≠ [] -> Forall plainPhase ps -> split_crlf (phasesToMarkdown ps) = phasesLines ps ++ [[]].
Proof.
  intros Hne Hp. assert (phasesLines ps ≠ []) as Hl by (destruct ps as [|p [|]]; done).
  replace (phasesToMarkdown ps) with (join [c_lf] (phasesLines ps ++ [[]])).
  - apply split_crlf_join; [by destruct (phasesLines ps)|]. apply Forall_app. split.
    + eapply Forall_impl; [by apply phasesLines_plain|]. intros l. apply noLineEnd_plain.
    + apply Forall_singleton. by apply noLineEnd_plain.
  - rewrite join_snoc by done. unfold phasesToMarkdown. destruct ps; [done|]. by rewrite app_nil_r.
Qed.


(** ** Examples *)

Definition demoList : list TodoPhase :=
  [mkPhase (js "Plan") [mkTodo (js "read the code") completed [js "done early"; js "two" ++ [c_lf] ++ js "lines"]; mkTodo (js "write it") in_progress []];
   mkPhase (js "Check") [mkTodo (js "run tests") pending []]].


Definition demoOp (o : TodoOp) (task : option jstring) : TodoOpEntry := mkTodoOp o None task None None no_text.
Lemma task_texts_stay_distinct_witness : NoDup (contents (execute demoList [demoOp op_done (Some (js "write it")); demoOp op_rm (Some (js "run tests"))]).1).
Proof.
  apply (task_texts_stay_distinct demoList [demoOp op_done (Some (js "write it")); demoOp op_rm (Some (js "run tests"))]).
  - repeat constructor; discriminate.
  - apply (bool_decide_unpack _). vm_compute. exact I.
Defined.

(** A note with an empty line comes back as two notes, and an empty list as a list with one phase. *)
Lemma empty_line_splits_a_note :
  let note := js "a" ++ [c_lf; c_lf] ++ js "b" in
  markdownToPhases (phasesToMarkdown [mkPhase (js "P") [mkTodo (js "t") completed [note]]]) = ([mkPhase (js "P") [mkTodo (js "t") completed [js "a"; js "b"]]], []) /\
  markdownToPhases (phasesToMarkdown []) = ([mkPhase (js "Todos") []], []).
Proof. vm_compute. done. Qed.

(** A list with the same text twice is installed, although appending a text twice is refused: the second task cannot be named,
    completing the text twice completes the first one twice. *)
Lemma init_installs_unreachable_tasks :
  let twice := mkTodoOp op_init (Some [(js "P", [js "x"; js "x"])]) None None None no_text in
  let '(ps, errors) := execute [] [twice; demoOp op_done (Some (js "x")); demoOp op_done (Some (js "x"))] in
  errors = [] /\ map status (orderedTasks ps) = [completed; in_progress].
Proof. vm_compute. done. Qed.
