(* ===== verification/ReverseLeases.v ===== *)
(** * Reverse request leases (packages/coding-agent/src/sdk/host/reverse-leases.ts)

    The registry through which a session sends requests to connected providers: a provider holds a lease on a capability, and
    only the holder may answer a request.  Every operation takes the time as an argument; new ids come with the event that
    draws them.  Promises are a log of settlements, callbacks are assumed to return.  The size of a payload, the canonical
    JSON text and the digest of a registration are arguments.  The source shares a lease object between its maps and changes
    it in place: the object has a number, and the idempotency map keeps the number. *)
From S2P Require Import Prelude JsString JsMap.
Open Scope Z_scope.

Definition REVERSE_LEASE_TTL_MS : Z := 15000.
Definition REVERSE_RECLAIM_GRACE_MS : Z := 15000.
Definition MAX_REVERSE_OUTSTANDING : nat := 64.

Inductive ReverseLeaseError : Type :=
| lease_unavailable | lease_expired | provider_lease_conflict | provider_required | not_lease_owner | payload_too_large
| too_many_outstanding | unknown_request | idempotency_conflict.

Section Runtime.
(** Definitions with their canonical text, digests, and the time a lease lives. *)
Context {D F : Type} `{EqDecision F} (canonicalJson : D -> jstring) (registrationFingerprint : jstring -> D -> option jstring -> F) (leaseTtlMs : Z).

Record ProviderLease : Type := mkLease {
  object : nat; leaseId : jstring; connectionId : jstring; capability : jstring; definitions : D; expiresAt : Z; graceUntil : option Z; active : bool }.

Record Outstanding : Type := mkOutstanding { o_connectionId : jstring; o_capability : jstring; o_leaseId : jstring }.

Inductive Settlement : Type := resolved (connection : jstring) | rejected_by_provider (connection : jstring) | cancelled | undelivered.

(** The maps of the runtime, the number of the next object, and what became of the requests. *)
Record ReverseLeaseRuntime : Type := mkRuntime {
  leases : list (jstring * ProviderLease); idempotency : list (jstring * jstring * (F * nat)); outstanding : list (jstring * Outstanding);
  installedCapabilities : list jstring; nextObject : nat; settlements : list (jstring * Settlement) }.

Definition newRuntime : ReverseLeaseRuntime := mkRuntime [] [] [] [] 0 [].

Definition set_leases l (r : ReverseLeaseRuntime) := mkRuntime l (idempotency r) (outstanding r) (installedCapabilities r) (nextObject r) (settlements r).
Definition removeDefinitions (c : jstring) (r : ReverseLeaseRuntime) : ReverseLeaseRuntime :=
  mkRuntime (leases r) (idempotency r) (outstanding r) (filter (fun x => x ≠ c) (installedCapabilities r)) (nextObject r) (settlements r).
Definition installDefinitionsFor (c : jstring) (r : ReverseLeaseRuntime) : ReverseLeaseRuntime :=
  mkRuntime (leases r) (idempotency r) (outstanding r) (s_add (installedCapabilities r) c) (nextObject r) (settlements r).

(** [takeOutstanding] and the settlement of the promise. *)
Definition settle (i : jstring) (s : Settlement) (r : ReverseLeaseRuntime) : ReverseLeaseRuntime :=
  match m_get i (outstanding r) with
  | None => r
  | Some _ => mkRuntime (leases r) (idempotency r) (m_delete i (outstanding r)) (installedCapabilities r) (nextObject r) (settlements r ++ [(i, s)])
  end.

(** A lease is put in the map; with an idempotency key its object is remembered. *)
Definition keepLease (conn : jstring) (key : option jstring) (fingerprint : F) (l : ProviderLease) (r : ReverseLeaseRuntime) : ReverseLeaseRuntime :=
  let idem := match key with Some ((_ :: _) as k) => m_set (conn, k) (fingerprint, object l) (idempotency r) | _ => idempotency r end in
  mkRuntime (m_set (capability l) l (leases r)) idem (outstanding r) (installedCapabilities r) (Nat.max (nextObject r) (S (object l))) (settlements r).

(** A registration with the same key that is still current: the lease it made. *)
Definition replayed (conn cap : jstring) (key : option jstring) (fingerprint : F) (now : Z) (r : ReverseLeaseRuntime) : result ReverseLeaseError (option ProviderLease) :=
  match key with
  | Some ((_ :: _) as k) =>
      match m_get (conn, k) (idempotency r) with
      | Some (f, obj) =>
          if negb (bool_decide (f = fingerprint)) then Throw idempotency_conflict
          else match m_get cap (leases r) with
               | Some l => Ok (if bool_decide (object l = obj) && active l && (now <? expiresAt l) then Some l else None)
               | None => Ok None
               end
      | None => Ok None
      end
  | _ => Ok None
  end.

Definition registerProvider (now : Z) (uuid conn cap : jstring) (defs : D) (expected key : option jstring) (r : ReverseLeaseRuntime) :
    result ReverseLeaseError (ReverseLeaseRuntime * ProviderLease) :=
  let fingerprint := registrationFingerprint cap defs expected in
  replay ← replayed conn cap key fingerprint now r;
  match replay with
  | Some l => Ok (r, l)
  | None =>
      let existing := m_get cap (leases r) in
      let r := match existing with Some e => if expiresAt e <=? now then removeDefinitions cap r else r | None => r end in
      let fresh lid := mkLease (nextObject r) lid conn cap defs (now + leaseTtlMs) None true in
      let install l := let r := keepLease conn key fingerprint l (installDefinitionsFor cap r) in Ok (r, l) in
      match existing with
      | None => install (fresh uuid)
      | Some e =>
          let live := now <? expiresAt e in
          if negb (active e) && live then
            if negb (bool_decide (connectionId e = conn)) || negb (bool_decide (expected = Some (leaseId e))) then Throw provider_lease_conflict
            else install (fresh (leaseId e))
          else
            let reclaiming := bool_decide (expected = Some (leaseId e)) && match graceUntil e with Some g => now <=? g | None => false end in
            let refreshing := active e && bool_decide (connectionId e = conn) && live in
            if negb reclaiming && negb refreshing && negb (bool_decide (connectionId e = conn)) && live then Throw provider_lease_conflict
            else if refreshing && bool_decide (canonicalJson (definitions e) = canonicalJson defs) then
              let l := mkLease (object e) (leaseId e) (connectionId e) (capability e) (definitions e) (now + leaseTtlMs) None true in
              Ok (keepLease conn key fingerprint l r, l)
            else install (fresh (if reclaiming || refreshing then leaseId e else uuid))
      end
  end.

(** [#owner] *)
Definition owner (conn lid : jstring) (r : ReverseLeaseRuntime) : result ReverseLeaseError ProviderLease :=
  match List.find (fun cl => bool_decide (leaseId cl.2 = lid)) (leases r) with
  | Some (_, l) => if active l && bool_decide (connectionId l = conn) then Ok l else Throw not_lease_owner
  | None => Throw not_lease_owner
  end.

(** The lease is the object in the map, changed in place. *)
Definition putLease (l : ProviderLease) (r : ReverseLeaseRuntime) : ReverseLeaseRuntime := set_leases (m_set (capability l) l (leases r)) r.

(** An expired lease loses its definitions although the call fails: the state comes with the error. *)
Definition heartbeat (now : Z) (conn lid : jstring) (r : ReverseLeaseRuntime) : ReverseLeaseRuntime * result ReverseLeaseError ProviderLease :=
  match owner conn lid r with
  | Throw e => (r, Throw e)
  | Ok l =>
      if expiresAt l <=? now then (removeDefinitions (capability l) r, Throw lease_expired)
      else let l' := mkLease (object l) (leaseId l) (connectionId l) (capability l) (definitions l) (now + leaseTtlMs) None (active l) in (putLease l' r, Ok l')
  end.

(** [#cancelForConnection] *)
Definition cancelForConnection (conn : jstring) (r : ReverseLeaseRuntime) : ReverseLeaseRuntime :=
  foldl (fun r (e : jstring * Outstanding) => if bool_decide (o_connectionId e.2 = conn) then settle e.1 cancelled r else r) r (outstanding r).

Definition release (now : Z) (conn lid : jstring) (handoffTo : option jstring) (r : ReverseLeaseRuntime) : result ReverseLeaseError (ReverseLeaseRuntime * ProviderLease) :=
  l ← owner conn lid r;
  let r := removeDefinitions (capability l) (cancelForConnection conn r) in
  match handoffTo with
  | Some ((_ :: _) as target) =>
      let l' := mkLease (object l) (leaseId l) target (capability l) (definitions l) (now + REVERSE_RECLAIM_GRACE_MS) None false in Ok (putLease l' r, l')
  | _ => Ok (set_leases (m_delete (capability l) (leases r)) r, l)
  end.

Definition expire (now : Z) (l : ProviderLease) : ProviderLease :=
  mkLease (object l) (leaseId l) (connectionId l) (capability l) (definitions l) now (Some (now + REVERSE_RECLAIM_GRACE_MS)) (active l).

Definition disconnect (now : Z) (conn : jstring) (r : ReverseLeaseRuntime) : ReverseLeaseRuntime :=
  let mine (cl : jstring * ProviderLease) := bool_decide (connectionId cl.2 = conn) in
  let r1 := mkRuntime (leases r) (filter (fun e => e.1.1 ≠ conn) (idempotency r)) (outstanding r) (installedCapabilities r) (nextObject r) (settlements r) in
  let r2 := foldl (fun r cl => removeDefinitions (capability cl.2) r) r1 (List.filter mine (leases r)) in
  cancelForConnection conn (set_leases (map (fun cl => if mine cl then (cl.1, expire now cl.2) else cl) (leases r)) r2).

(** [#liveLease], with the definitions it removes *)
Definition liveLease (now : Z) (cap : jstring) (r : ReverseLeaseRuntime) : ReverseLeaseRuntime * option ProviderLease :=
  match m_get cap (leases r) with
  | None => (r, None)
  | Some l => if active l && (now <? expiresAt l) then (r, Some l) else (if expiresAt l <=? now then removeDefinitions cap r else r, None)
  end.

Inductive Requested : Type := sent (i : jstring) | failedDelivery (i : jstring) | abortedBefore.

(** [fits]: the payload is within its limit; [aborted]: the signal was aborted before; [delivers]: the frame could be sent. *)
Definition request (now : Z) (uuid cap : jstring) (fits aborted delivers : bool) (r : ReverseLeaseRuntime) : ReverseLeaseRuntime * result ReverseLeaseError Requested :=
  if negb fits then (r, Throw payload_too_large)
  else
    let '(r', live) := liveLease now cap r in
    match live with
    | None =>
        (r', Throw (match m_get cap (leases r') with Some l => if negb (active l) && (now <? expiresAt l) then lease_unavailable else provider_required | None => provider_required end))
    | Some l =>
        if aborted then (r', Ok abortedBefore)
        else if (MAX_REVERSE_OUTSTANDING <=? length (outstanding r'))%nat then (r', Throw too_many_outstanding)
        else
          let r'' := mkRuntime (leases r') (idempotency r') (m_set uuid (mkOutstanding (connectionId l) cap (leaseId l)) (outstanding r')) (installedCapabilities r') (nextObject r') (settlements r') in
          if delivers then (r'', Ok (sent uuid)) else (settle uuid undelivered r'', Ok (failedDelivery uuid))
    end.

(** [ok]: the provider sent a result, not an error. *)
Definition respond (conn i lid : jstring) (fits ok : bool) (r : ReverseLeaseRuntime) : result ReverseLeaseError ReverseLeaseRuntime :=
  if negb fits then Throw payload_too_large
  else match m_get i (outstanding r) with
       | None => Throw unknown_request
       | Some o =>
           if negb (bool_decide (o_connectionId o = conn)) || negb (bool_decide (o_leaseId o = lid)) then Throw not_lease_owner
           else Ok (settle i (if ok then resolved conn else rejected_by_provider conn) r)
       end.

Definition getInstalledDefinitions (now : Z) (cap : jstring) (r : ReverseLeaseRuntime) : option D := definitions <$> (liveLease now cap r).2.

Definition expireStaleLeases (now : Z) (r : ReverseLeaseRuntime) : ReverseLeaseRuntime :=
  foldl (fun r cl => if expiresAt (cl.2 : ProviderLease) <=? now then removeDefinitions (capability cl.2) r else r) r (leases r).

Definition dispose (r : ReverseLeaseRuntime) : ReverseLeaseRuntime :=
  mkRuntime [] [] [] [] (nextObject r) (settlements r ++ map (fun e => (e.1, cancelled)) (outstanding r)).
End Runtime.

(** ** Runs *)

Section Runs.
Context {D F : Type} `{EqDecision F} (canonicalJson : D -> jstring) (registrationFingerprint : jstring -> D -> option jstring -> F) (leaseTtlMs : Z).
Abbreviation Runtime := (@ReverseLeaseRuntime D F).
Implicit Types r : Runtime.

(** What happens to a runtime; a failed call leaves the state that comes with it. *)
Inductive Event : Type :=
| ev_register (now : Z) (uuid conn cap : jstring) (defs : D) (expected key : option jstring)
| ev_heartbeat (now : Z) (conn lid : jstring)
| ev_release (now : Z) (conn lid : jstring) (handoffTo : option jstring)
| ev_disconnect (now : Z) (conn : jstring)
| ev_request (now : Z) (uuid cap : jstring) (fits aborted delivers : bool)
| ev_respond (conn i lid : jstring) (fits ok : bool)
| ev_abort (i : jstring)
| ev_undelivered (i : jstring)
| ev_sweep (now : Z)
| ev_dispose.

Definition apply (r : Runtime) (e : Event) : Runtime :=
  match e with
  | ev_register now uuid conn cap defs expected key =>
      match registerProvider canonicalJson registrationFingerprint leaseTtlMs now uuid conn cap defs expected key r with Ok (r', _) => r' | Throw _ => r end
  | ev_heartbeat now conn lid => (heartbeat leaseTtlMs now conn lid r).1
  | ev_release now conn lid handoffTo => match release now conn lid handoffTo r with Ok (r', _) => r' | Throw _ => r end
  | ev_disconnect now conn => disconnect now conn r
  | ev_request now uuid cap fits aborted delivers => (request now uuid cap fits aborted delivers r).1
  | ev_respond conn i lid fits ok => match respond conn i lid fits ok r with Ok r' => r' | Throw _ => r end
  | ev_abort i => settle i cancelled r
  | ev_undelivered i => settle i undelivered r
  | ev_sweep now => expireStaleLeases now r
  | ev_dispose => dispose r
  end.

(** The id an event draws for a request. *)
Definition drawn (e : Event) : option jstring := match e with ev_request _ uuid _ _ _ _ => Some uuid | _ => None end.

(** The request an event accepts, with the connection and the lease it goes to. *)
Definition accepted (r : Runtime) (e : Event) : list (jstring * (jstring * jstring)) :=
  match e with
  | ev_request now uuid cap fits aborted delivers =>
      match (request now uuid cap fits aborted delivers r).2, (liveLease now cap r).2 with
      | Ok (sent i | failedDelivery i), Some l => [(i, (connectionId l, leaseId l))]
      | _, _ => []
      end
  | _ => []
  end.

Fixpoint run (r : Runtime) (es : list Event) : Runtime * list (jstring * (jstring * jstring)) :=
  match es with [] => (r, []) | e :: es' => let '(r', log) := run (apply r e) es' in (r', accepted r e ++ log) end.

(** The requests that were accepted: still outstanding or settled. *)
Definition entered r : list jstring := (outstanding r).*1 ++ (settlements r).*1.

(** The connection that answered. *)
Definition answeredBy (s : Settlement) : option jstring := match s with resolved c | rejected_by_provider c => Some c | _ => None end.

(** Every outstanding request and every answer goes with the connection the request was sent to. *)
Record tracks r (log : list (jstring * (jstring * jstring))) : Prop := mkTracks {
  tr_distinct : NoDup (entered r);
  tr_entered : entered r ≡ₚ log.*1;
  tr_bound : (length (outstanding r) <= MAX_REVERSE_OUTSTANDING)%nat;
  tr_outstanding : Forall (fun io => (io.1, (o_connectionId io.2, o_leaseId io.2)) ∈ log) (outstanding r);
  tr_answers : Forall (fun st => forall c, answeredBy st.2 = Some c -> exists lid, (st.1, (c, lid)) ∈ log) (settlements r) }.

(** Only the requests and their settlements matter. *)
Lemma tracks_same r r' log : outstanding r' = outstanding r -> settlements r' = settlements r -> tracks r log -> tracks r' log.
Proof. intros H1 H2 [T1 T2 T3 T4 T5]. unfold entered in *. split; unfold entered; by rewrite ?H1, ?H2. Qed.

Lemma delete_perm {V} i (m : list (jstring * V)) v : NoDup m.*1 -> m_get i m = Some v -> m.*1 ≡ₚ i :: (m_delete i m).*1.
Proof.
  induction m as [|[j w] m IH]; [done|]. cbn [fmap list_fmap fst]. intros [Hj Hn]%NoDup_cons. cbn [m_get]. destruct (decide (j = i)) as [->|Hne].
  - intros _. unfold m_delete. rewrite filter_cons. cbn [fst]. rewrite decide_False by tauto. fold (m_delete i m). by rewrite m_delete_fresh.
  - intros Hg. unfold m_delete. rewrite filter_cons. cbn [fst]. rewrite decide_True by done. fold (m_delete i m). cbn [fmap list_fmap fst]. rewrite (IH Hn Hg) at 1. apply Permutation_swap.
Qed.

Lemma settle_tracks r log i s : (forall c, answeredBy s = Some c -> exists o, m_get i (outstanding r) = Some o /\ o_connectionId o = c) -> tracks r log -> tracks (settle i s r) log.
Proof.
  intros Hs [T1 T2 T3 T4 T5]. unfold settle. destruct (m_get i (outstanding r)) as [o|] eqn:E; [|by split]. unfold entered in T1, T2.
  assert (entered r ≡ₚ entered (mkRuntime (leases r) (idempotency r) (m_delete i (outstanding r)) (installedCapabilities r) (nextObject r) (settlements r ++ [(i, s)]))) as HP.
  { unfold entered. cbn [outstanding settlements]. apply NoDup_app in T1 as [T1 _]. rewrite (delete_perm i _ o T1 E), fmap_app. cbn [fmap list_fmap fst]. solve_Permutation. }
  split; cbn [outstanding settlements]; [by rewrite <- HP|by rewrite <- HP| | |].
  - unfold m_delete. etrans; [apply length_filter|done].
  - unfold m_delete. apply Forall_filter. exact T4.
  - apply Forall_app. split; [done|]. apply Forall_singleton. cbn [fst snd]. intros c Hc. destruct (Hs c Hc) as (o' & Ho & <-). injection Ho as <-.
    exists (o_leaseId o). rewrite Forall_forall in T4. apply (T4 (i, o)). by apply m_get_elem_1.
Qed.

Lemma cancel_tracks r log conn : tracks r log -> tracks (cancelForConnection conn r) log.
Proof.
  unfold cancelForConnection. generalize (outstanding r). intros l. revert r. induction l as [|e l IH]; intros r H; cbn [foldl]; [done|]. apply IH.
  case_bool_decide; [|done]. by apply settle_tracks.
Qed.

Lemma register_keeps_requests now uuid conn cap defs expected key r r' l :
  registerProvider canonicalJson registrationFingerprint leaseTtlMs now uuid conn cap defs expected key r = Ok (r', l) -> outstanding r' = outstanding r /\ settlements r' = settlements r.
Proof.
  unfold registerProvider. destruct (replayed _ _ _ _ _ _) as [[x|]|]; cbn [mbind result_bind]; [by intros [= <- _]| |done].
  destruct (m_get cap (leases r)) as [e|]; [|by intros [= <- _]].
  assert (forall b : bool, outstanding (if b then removeDefinitions cap r else r) = outstanding r /\ settlements (if b then removeDefinitions cap r else r) = settlements r) as Hb by by intros [].
  specialize (Hb (expiresAt e <=? now)). destruct Hb as [B1 B2]. destruct (negb (active e) && _); [destruct (_ || _); [done|]|destruct (_ && _ && _ && _); [done|]; destruct (_ && _)];
    intros [= <- _]; cbn [keepLease installDefinitionsFor outstanding settlements]; done.
Qed.

Lemma owner_some conn lid r l : owner conn lid r = Ok l -> exists cap, (cap, l) ∈ leases r /\ active l = true /\ connectionId l = conn /\ leaseId l = lid.
Proof.
  unfold owner. destruct (List.find _ _) as [[cap x]|] eqn:E; [|done]. destruct (_ && _) eqn:Ea; [|done]. intros [= ->]. apply find_some in E as [Hin Hl].
  apply andb_true_iff in Ea as [Ha Hc%bool_decide_eq_true]. exists cap. split; [by apply list_elem_of_In|]. split; [done|]. split; [done|]. by apply bool_decide_eq_true in Hl.
Qed.

Lemma liveLease_keeps now cap r : let r' := (liveLease now cap r).1 in outstanding r' = outstanding r /\ settlements r' = settlements r /\ leases r' = leases r.
Proof. unfold liveLease. destruct (m_get cap (leases r)) as [l|]; [|done]. destruct (_ && _); [done|]. by destruct (_ <=? _). Qed.

(** A new request in flight. *)
Lemma sent_tracks r log i o : i ∉ log.*1 -> (length (outstanding r) < MAX_REVERSE_OUTSTANDING)%nat -> tracks r log ->
  tracks (mkRuntime (leases r) (idempotency r) (m_set i o (outstanding r)) (installedCapabilities r) (nextObject r) (settlements r)) (log ++ [(i, (o_connectionId o, o_leaseId o))]).
Proof.
  intros Hi Hl [T1 T2 T3 T4 T5].
  assert (i ∉ entered r) as Hn by by rewrite T2. assert (i ∉ (outstanding r).*1) as Ho by (intros H; apply Hn, elem_of_app; by left).
  assert (entered (mkRuntime (leases r) (idempotency r) (m_set i o (outstanding r)) (installedCapabilities r) (nextObject r) (settlements r)) ≡ₚ i :: entered r) as HP.
  { unfold entered. cbn [outstanding settlements]. rewrite m_set_fresh by done. rewrite fmap_app. cbn [fmap list_fmap fst]. solve_Permutation. }
  split; [rewrite HP; by constructor|rewrite HP, fmap_app, T2; cbn [fmap list_fmap fst]; solve_Permutation| | |]; cbn [outstanding settlements].
  - rewrite m_set_fresh, length_app by done. cbn [length]. lia.
  - rewrite m_set_fresh by done. apply Forall_app. split; [|apply Forall_singleton; apply elem_of_app; right; by apply list_elem_of_singleton].
    eapply Forall_impl; [exact T4|]. intros io H. cbv beta in H. apply elem_of_app. by left.
  - eapply Forall_impl; [exact T5|]. intros st H c Hc. destruct (H c Hc) as [lid Hlid]. exists lid. apply elem_of_app. by left.
Qed.

Lemma request_tracks r log now uuid cap fits aborted delivers : uuid ∉ log.*1 -> tracks r log ->
  tracks (request now uuid cap fits aborted delivers r).1 (log ++ accepted r (ev_request now uuid cap fits aborted delivers)).
Proof.
  intros Hu HT. unfold accepted, request. destruct fits; cbn [negb]; [|cbn [fst snd]; by rewrite app_nil_r].
  pose proof (liveLease_keeps now cap r) as (L1 & L2 & L3). destruct (liveLease now cap r) as [r1 live]. cbn [fst snd] in *.
  assert (tracks r1 log) as HT1 by by apply (tracks_same r). destruct live as [l|]; [|cbn [fst snd]; by rewrite app_nil_r].
  destruct aborted; [cbn [fst snd]; by rewrite app_nil_r|]. destruct (Nat.leb_spec MAX_REVERSE_OUTSTANDING (length (outstanding r1))) as [|Hlt]; [cbn [fst snd]; by rewrite app_nil_r|].
  pose proof (sent_tracks r1 log uuid (mkOutstanding (connectionId l) cap (leaseId l)) Hu Hlt HT1) as HS. destruct delivers; cbn [fst snd]; [exact HS|]. by apply settle_tracks.
Qed.

Lemma respond_owner conn i lid fits ok r r' : respond conn i lid fits ok r = Ok r' ->
  exists o, m_get i (outstanding r) = Some o /\ o_connectionId o = conn /\ o_leaseId o = lid /\ r' = settle i (if ok then resolved conn else rejected_by_provider conn) r.
Proof.
  unfold respond. destruct fits; [|done]. cbn [negb]. destruct (m_get i (outstanding r)) as [o|]; [|done]. destruct (_ || _) eqn:E; [done|]. intros [= <-].
  apply orb_false_iff in E as [E1%negb_false_iff%bool_decide_eq_true E2%negb_false_iff%bool_decide_eq_true]. by exists o.
Qed.

Lemma removals_keep (ls : list (jstring * @ProviderLease D)) r :
  outstanding (foldl (fun r cl => removeDefinitions (capability cl.2) r) r ls) = outstanding r /\ settlements (foldl (fun r cl => removeDefinitions (capability cl.2) r) r ls) = settlements r.
Proof. revert r. induction ls as [|cl ls IH]; intros r; [done|]. cbn [foldl]. by destruct (IH (removeDefinitions (capability cl.2) r)) as [-> ->]. Qed.

Lemma apply_tracks r log e : (forall i, drawn e = Some i -> i ∉ log.*1) -> tracks r log -> tracks (apply r e) (log ++ accepted r e).
Proof.
  intros Hd HT. assert (forall x, tracks x log -> tracks x (log ++ [])) as Hsame by (intros x; by rewrite app_nil_r).
  destruct e as [now uuid conn cap defs expected key|now conn lid|now conn lid handoffTo|now conn|now uuid cap fits aborted delivers|conn i lid fits ok|i|i|now|]; cbn [apply].
  - apply Hsame. destruct (registerProvider _ _ _ _ _ _ _ _ _ _ _) as [[r' l]|] eqn:E; [|done]. apply register_keeps_requests in E as [E1 E2]. by apply (tracks_same r).
  - apply Hsame. unfold heartbeat. destruct (owner conn lid r); [|done]. destruct (_ <=? _); by apply (tracks_same r).
  - apply Hsame. unfold release. destruct (owner conn lid r) as [l|]; [|done]. cbn [mbind result_bind].
    destruct handoffTo as [[|a b]|]; apply (tracks_same (cancelForConnection conn r)); try done; by apply cancel_tracks.
  - apply Hsame. unfold disconnect. apply cancel_tracks. eapply tracks_same; [| |exact HT]; cbn [set_leases outstanding settlements].
    all: by rewrite ?(proj1 (removals_keep _ _)), ?(proj2 (removals_keep _ _)).
  - apply request_tracks; [by apply Hd|done].
  - apply Hsame. destruct (respond conn i lid fits ok r) as [r'|] eqn:E; [|done]. apply respond_owner in E as (o & Ho & Hc & _ & ->). apply settle_tracks; [|done].
    intros c Hs. exists o. split; [done|]. destruct ok; cbn in Hs; congruence.
  - apply Hsame. by apply settle_tracks.
  - apply Hsame. by apply settle_tracks.
  - apply Hsame. unfold expireStaleLeases. generalize (leases r). intros ls.
    enough (outstanding (foldl (fun r cl => if expiresAt (cl.2 : ProviderLease) <=? now then removeDefinitions (capability cl.2) r else r) r ls) = outstanding r /\
            settlements (foldl (fun r (cl : jstring * ProviderLease) => if expiresAt cl.2 <=? now then removeDefinitions (capability cl.2) r else r) r ls) = settlements r) as [E1 E2] by by apply (tracks_same r).
    clear. revert r. induction ls as [|cl ls IH]; intros r; [done|]. cbn [foldl]. destruct (IH (if expiresAt cl.2 <=? now then removeDefinitions (capability cl.2) r else r)) as [-> ->]. by destruct (_ <=? _).
  - apply Hsame. destruct HT as [T1 T2 T3 T4 T5]. unfold dispose.
    assert (entered (mkRuntime (D := D) (F := F) [] [] [] [] (nextObject r) (settlements r ++ map (fun e => (e.1, cancelled)) (outstanding r))) ≡ₚ entered r) as HP.
    { unfold entered. cbn [outstanding settlements fmap list_fmap app]. rewrite fmap_app. change map with (@fmap list list_fmap). rewrite <- list_fmap_compose. solve_Permutation. }
    split; [by rewrite HP|by rewrite HP| | |]; cbn [outstanding settlements].
    + cbn. unfold MAX_REVERSE_OUTSTANDING. lia.
    + constructor.
    + apply Forall_app. split; [done|]. apply Forall_map, Forall_forall. done.
Qed.

Lemma tracks_new : tracks newRuntime [].
Proof. split; cbn; try constructor. unfold MAX_REVERSE_OUTSTANDING. lia. Qed.

Lemma run_tracks es : forall r log, (forall i, i ∈ omap drawn es -> i ∉ log.*1) -> NoDup (omap drawn es) -> tracks r log -> tracks (run r es).1 (log ++ (run r es).2).
Proof.
  induction es as [|e es IH]; intros r log Hd Hn HT; cbn [run]; [by rewrite app_nil_r|].
  assert (tracks (apply r e) (log ++ accepted r e)) as HA.
  { apply apply_tracks; [|done]. intros i Hi. apply Hd. cbn [omap list_omap]. rewrite Hi. by left. }
  specialize (IH (apply r e) (log ++ accepted r e)). destruct (run (apply r e) es) as [r' log']. cbn [fst snd] in *. rewrite app_assoc. apply IH; [| |done].
  - intros i Hi. rewrite fmap_app, not_elem_of_app. split; [apply Hd; cbn [omap list_omap]; destruct (drawn e); [by right|done]|].
    intros Hin. destruct e as [| | | |now uuid cap fits aborted delivers| | | | |]; cbn [accepted] in Hin; try (by apply elem_of_nil in Hin). cbn [omap list_omap drawn] in Hn. apply NoDup_cons in Hn as [Hu _].
    assert (i = uuid) as ->; [|by apply Hu]. revert Hin. unfold request. destruct fits; [|by intros ?%elem_of_nil]. cbn [negb].
    destruct (liveLease now cap r) as [r1 [l|]]; cbn [snd]; [|by intros ?%elem_of_nil]. destruct aborted; [by intros ?%elem_of_nil|]. destruct (_ <=? _)%nat; [by intros ?%elem_of_nil|].
    destruct delivers; cbn; intros H%list_elem_of_singleton; done.
  - cbn [omap list_omap] in Hn. destruct (drawn e); [by apply NoDup_cons in Hn as [_ ?]|done].
Qed.

(** C22: Whatever happens, every accepted request is outstanding or settled, never both and settled at most once, at most 64 are
    outstanding, and an answer comes from the connection that the request was sent to. *)
Theorem requests_settle_once es : NoDup (omap drawn es) ->
  let '(r, log) := run newRuntime es in
  NoDup ((outstanding r).*1 ++ (settlements r).*1) /\ (outstanding r).*1 ++ (settlements r).*1 ≡ₚ log.*1 /\ (length (outstanding r) <= 64)%nat /\
  Forall (fun st => forall c, answeredBy st.2 = Some c -> exists lid, (st.1, (c, lid)) ∈ log) (settlements r).
Proof.
  intros Hn. pose proof (run_tracks es newRuntime [] ltac:(intros i _; apply not_elem_of_nil) Hn tracks_new) as H. destruct (run newRuntime es) as [r log].
  cbn [fst snd app] in H. destruct H as [T1 T2 T3 _ T5]. done.
Qed.

Lemma cancel_removes conn : forall l r, (forall io, io ∈ outstanding r -> o_connectionId io.2 = conn -> io ∈ l) ->
  Forall (fun io => o_connectionId io.2 ≠ conn)
    (outstanding (foldl (fun r (e : jstring * Outstanding) => if bool_decide (o_connectionId e.2 = conn) then settle e.1 cancelled r else r) r l)) /\
  leases (foldl (fun r (e : jstring * Outstanding) => if bool_decide (o_connectionId e.2 = conn) then settle e.1 cancelled r else r) r l) = leases r.
Proof.
  induction l as [|e l IH]; intros r Hr; cbn [foldl].
  - split; [|done]. apply Forall_forall. intros io Hin Hc. specialize (Hr io Hin Hc). by apply elem_of_nil in Hr.
  - assert (forall io, io ∈ outstanding (if bool_decide (o_connectionId e.2 = conn) then settle e.1 cancelled r else r) -> o_connectionId io.2 = conn -> io ∈ l) as Hr'.
    { intros io. case_bool_decide as E.
      - unfold settle. destruct (m_get e.1 (outstanding r)) as [o|] eqn:Eg.
        + cbn [outstanding]. unfold m_delete. intros [Hne Hin]%list_elem_of_filter Hc. by destruct (proj1 (elem_of_cons l io e) (Hr io Hin Hc)) as [->|Hl].
        + intros Hin Hc. destruct (proj1 (elem_of_cons l io e) (Hr io Hin Hc)) as [->|Hl]; [|done].
          assert (is_Some (m_get e.1 (outstanding r))) as [o Ho] by (apply m_get_Some_key, list_elem_of_fmap; by exists e). congruence.
      - intros Hin Hc. destruct (proj1 (elem_of_cons l io e) (Hr io Hin Hc)) as [->|Hl]; done. }
    destruct (IH _ Hr') as [H1 H2]. split; [done|]. rewrite H2. case_bool_decide; [|done]. unfold settle. by destruct (m_get e.1 (outstanding r)).
Qed.

(** After a connection is lost no request waits for it and it holds no live lease. *)
Theorem disconnected_provider_is_gone r now conn :
  let r' := disconnect now conn r in
  Forall (fun io => o_connectionId io.2 ≠ conn) (outstanding r') /\
  forall now' cap l, now <= now' -> (liveLease now' cap r').2 = Some l -> connectionId l ≠ conn.
Proof.
  intros r'. subst r'. unfold disconnect. set (r1 := set_leases _ _). destruct (cancel_removes conn (outstanding r1) r1 ltac:(done)) as [H1 H2]. fold (cancelForConnection conn r1) in H1, H2.
  split; [exact H1|]. intros now' cap l Hn Hl Hc. unfold liveLease in Hl. rewrite H2 in Hl. destruct (m_get cap (leases r1)) as [x|] eqn:E; [|done].
  destruct (_ && _) eqn:Ea; [|done]. injection Hl as ->. apply andb_true_iff in Ea as [_ Ea%Z.ltb_lt]. apply m_get_elem_1 in E. subst r1. cbn [set_leases leases] in E.
  apply list_elem_of_fmap in E as ([k y] & Eq & _). cbn [fst snd] in Eq. case_bool_decide as Ey; injection Eq as -> ->; [cbn [expire expiresAt] in Ea; lia|done].
Qed.

(** A capability that a provider holds cannot be taken by another connection: a registration over its live lease fails or
    changes nothing. *)
Theorem live_lease_is_exclusive r now cap l uuid conn defs expected key r' l' :
  m_get cap (leases r) = Some l -> now < expiresAt l -> graceUntil l = None -> connectionId l ≠ conn ->
  registerProvider canonicalJson registrationFingerprint leaseTtlMs now uuid conn cap defs expected key r = Ok (r', l') -> r' = r.
Proof.
  intros Hg Hlive Hgr Hc. unfold registerProvider. destruct (replayed _ _ _ _ _ _) as [[x|]|]; cbn [mbind result_bind]; [by intros [= <- _]| |done].
  rewrite Hg. rewrite (proj2 (Z.leb_gt _ _)) by lia. rewrite (proj2 (Z.ltb_lt _ _)) by lia. rewrite Hgr, (bool_decide_false (connectionId l = conn)) by done.
  rewrite !andb_false_r, !andb_true_r. cbn [negb andb orb]. destruct (active l); cbn [negb andb]; done.
Qed.

(** Definitions are visible exactly while their lease is live. *)
Theorem definitions_follow_the_lease r now cap d :
  getInstalledDefinitions now cap r = Some d <-> exists l, m_get cap (leases r) = Some l /\ active l = true /\ now < expiresAt l /\ definitions l = d.
Proof.
  unfold getInstalledDefinitions, liveLease. destruct (m_get cap (leases r)) as [l|]; [|split; [done|by intros (l & H & _)]].
  destruct (active l) eqn:Ea, (Z.ltb_spec now (expiresAt l)); cbn; split; try done; try (intros [= <-]; by exists l); try (intros (x & [= <-] & H1 & H2 & <-); (done || lia || congruence)).
Qed.
End Runs.

(** ** Examples *)

Definition demoFingerprint (cap defs : jstring) (expected : option jstring) : jstring * jstring * option jstring := (cap, defs, expected).
Abbreviation demoRun := (run (fun d : jstring => d) demoFingerprint REVERSE_LEASE_TTL_MS newRuntime).

(** One provider with two capabilities, a request for each, and the release of one lease. *)
Definition demoEvents : list Event :=
  [ev_register 0 (js "L1") (js "A") (js "files") (js "d1") None None; ev_register 0 (js "L2") (js "A") (js "shell") (js "d2") None None;
   ev_request 1 (js "r1") (js "files") true false true; ev_request 1 (js "r2") (js "shell") true false true].

Lemma requests_settle_once_witness :
  let '(r, log) := demoRun (demoEvents ++ [ev_respond (js "B") (js "r1") (js "L1") true true; ev_respond (js "A") (js "r1") (js "L1") true true]) in
  NoDup ((outstanding r).*1 ++ (settlements r).*1) /\ settlements r = [(js "r1", resolved (js "A"))].
Proof.
  pose proof (requests_settle_once (fun d : jstring => d) demoFingerprint REVERSE_LEASE_TTL_MS
    (demoEvents ++ [ev_respond (js "B") (js "r1") (js "L1") true true; ev_respond (js "A") (js "r1") (js "L1") true true])
    ltac:(apply (bool_decide_unpack _); vm_compute; exact I)) as H.
  destruct (demoRun _) as [r log] eqn:E. split; [exact (proj1 H)|]. apply (f_equal (fun x => settlements x.1)) in E. vm_compute in E. symmetry. exact E.
Defined.

Definition demoLeased : ReverseLeaseRuntime := (demoRun demoEvents).1.

Lemma second_provider_changes_nothing r' l' :
  registerProvider (fun d : jstring => d) demoFingerprint REVERSE_LEASE_TTL_MS 5 (js "L3") (js "B") (js "files") (js "d3") None None demoLeased = Ok (r', l') -> r' = demoLeased.
Proof.
  apply (live_lease_is_exclusive (fun d : jstring => d) demoFingerprint REVERSE_LEASE_TTL_MS demoLeased 5 (js "files")
           (mkLease 0 (js "L1") (js "A") (js "files") (js "d1") 15000 None true)); vm_compute; done.
Defined.

Lemma disconnect_of_the_only_provider : (liveLease 3 (js "files") (disconnect 2 (js "A") demoLeased)).2 = None /\ outstanding (disconnect 2 (js "A") demoLeased) = [].
Proof. vm_compute. done. Qed.

(** Releasing the lease on one capability cancels the requests of every capability of the connection, while the other lease
    stays live. *)
Lemma release_cancels_other_capabilities :
  exists r l, release 2 (js "A") (js "L1") None demoLeased = Ok (r, l) /\ settlements r = [(js "r1", cancelled); (js "r2", cancelled)] /\
    (leaseId <$> (liveLease 2 (js "shell") r).2) = Some (js "L2").
Proof. eexists _, _. split; [vm_compute; reflexivity|]. vm_compute. done. Qed.
