(* ===== verification/AppendOnlyContext.v ===== *)
(** * Append-only context (packages/agent/src/append-only-context.ts)

    The byte-stable prefix and message log that are sent to the model turn after turn.  Messages, tools and prompts are values
    of [JsValue] (no functions, no [toJSON]); [JSON.stringify] is modelled on them.  The 64-bit hash of the runtime and the
    normalisation of tools are arguments. *)
From S2P Require Import Prelude JsString JsMap JsValue.
Open Scope Z_scope.

(** ** JSON text *)

Definition hexDigit (n : N) : N := (if n <? 10 then 48 + n else 87 + n)%N.
Definition jsonEscape (c : N) : jstring := js "\u" ++ map (fun s => hexDigit (N.land (N.shiftr c s) 15)) [12; 8; 4; 0]%N.
Definition isHigh (c : N) : bool := ((55296 <=? c) && (c <=? 56319))%N.
Definition isLow (c : N) : bool := ((56320 <=? c) && (c <=? 57343))%N.

Definition escapeUnit (c : N) : jstring :=
  if (c =? 34)%N || (c =? 92)%N then [92%N; c]
  else if (c =? 8)%N then js "\b" else if (c =? 9)%N then js "\t" else if (c =? 10)%N then js "\n" else if (c =? 12)%N then js "\f" else if (c =? 13)%N then js "\r"
  else if (c <? 32)%N || isHigh c || isLow c then jsonEscape c
  else [c].

(** The units of a string literal; only surrogates without a partner are escaped. *)
Fixpoint quoteUnits (s : jstring) : jstring :=
  match s with
  | [] => []
  | c :: s' =>
      match s' with
      | d :: s'' => if isHigh c && isLow d then c :: d :: quoteUnits s'' else escapeUnit c ++ quoteUnits s'
      | [] => escapeUnit c
      end
  end.
Definition quote (s : jstring) : jstring := [34%N] ++ quoteUnits s ++ [34%N].

(** The text of an element, and of a property; [undefined] is written as [null], and left out. *)
Definition elementText (t : option jstring) : jstring := default (js "null") t.
Definition propertyText (k : jstring) (t : option jstring) : list jstring := match t with Some t => [quote k ++ js ":" ++ t] | None => [] end.

(** [JSON.stringify], nothing for [undefined]. *)
Fixpoint stringify (v : value) : option jstring :=
  match v with
  | v_undefined => None
  | v_null => Some (js "null")
  | v_bool b => Some (if b then js "true" else js "false")
  | v_number z => Some (z_str z)
  | v_string s => Some (quote s)
  | v_array l => Some (js "[" ++ join (js ",") (List.map (fun x => elementText (stringify x)) l) ++ js "]")
  | v_object fs => Some (js "{" ++ join (js ",") (List.flat_map (fun kv => propertyText kv.1 (stringify kv.2)) fs) ++ js "}")
  end.

(** [cloned[key] = clonedValue]: the key [__proto__] reaches the prototype and makes no property. *)
Definition isProto (k : jstring) : bool := bool_decide (k = js "__proto__").
Definition clonedElement (item : value) : value := match item with v_undefined => v_null | y => y end.
Definition clonedProperty (k : jstring) (clonedValue : value) : list (jstring * value) :=
  match clonedValue with v_undefined => [] | y => if isProto k then [] else [(k, y)] end.
(** [cloneJsonValue] *)
Fixpoint cloneJson (v : value) : value :=
  match v with
  | v_array l => v_array (List.map (fun x => clonedElement (cloneJson x)) l)
  | v_object fs => v_object (List.flat_map (fun kv => clonedProperty kv.1 (cloneJson kv.2)) fs)
  | _ => v
  end.

(** No object has a property of the name [__proto__]. *)
Fixpoint plain (v : value) : bool :=
  match v with
  | v_array l => forallb plain l
  | v_object fs => forallb (fun kv => negb (isProto kv.1) && plain kv.2) fs
  | _ => true
  end.

(** ** Fingerprints *)

Definition toInt32 (z : Z) : Z := (z + 2 ^ 31) mod 2 ^ 32 - 2 ^ 31.
(** [((hash << 5) - hash + unit) | 0] *)
Definition hashStep (hash : Z) (c : N) : Z := toInt32 (toInt32 (Z.shiftl hash 5) - hash + Z.of_N c).
(** [hash >>> 0] after the loop *)
Definition hashString32 (s : jstring) : Z := (foldl hashStep 0 s) mod 2 ^ 32.

(** [toString(36)]; eight digits are enough for 32 bits. *)
Fixpoint base36 (fuel : nat) (n : Z) (acc : jstring) : jstring :=
  match fuel with
  | O => acc
  | S fuel' => let acc' := hexDigit (Z.to_N (n mod 36)) :: acc in if n <? 36 then acc' else base36 fuel' (n / 36) acc'
  end.
Definition toString36 (n : Z) : jstring := base36 8 n [].

Definition toolValue (t : value) : value :=
  v_object [(js "n", prop (js "name") t); (js "d", prop (js "description") t); (js "p", prop (js "parameters") t); (js "s", prop (js "strict") t);
            (js "cf", prop (js "customFormat") t); (js "cw", prop (js "customWireName") t)].
Definition payload (systemPrompt : list jstring) (tools : list value) (intentTracing : bool) : jstring :=
  default [] (stringify (v_object [(js "s", v_array (map v_string systemPrompt)); (js "t", v_array (map toolValue tools)); (js "i", v_bool intentTracing)])).
Definition computeFingerprint (systemPrompt : list jstring) (tools : list value) (intentTracing : bool) : jstring :=
  toString36 (hashString32 (payload systemPrompt tools intentTracing)).

(** ** The stable prefix *)

Record StablePrefixSnapshot : Type := mkSnapshot { systemPrompt : list jstring; tools : list value; fingerprint : jstring }.
(** The arrays of the live context are objects; their numbers are compared with those of the last build. *)
Record AgentContext : Type := mkContext { c_systemPrompt : list jstring; c_promptObject : nat; c_tools : list value; c_toolsObject : nat }.
Record StablePrefix : Type := mkPrefix { snapshot : option StablePrefixSnapshot; version : nat; sources : option (nat * nat * bool) }.

Definition newPrefix : StablePrefix := mkPrefix None 0 None.
Definition prefixFingerprint (p : StablePrefix) : jstring := match snapshot p with Some s => fingerprint s | None => js "<unbuilt>" end.

(** Back to the first build. *)
Definition invalidate (p : StablePrefix) : StablePrefix := mkPrefix None (version p) None.

Definition toContext (p : StablePrefix) : option (list jstring * list value) := (fun s => (systemPrompt s, map cloneJson (tools s))) <$> snapshot p.

(** The snapshot of another manager; a snapshot whose fingerprint does not fit is refused after the sources were forgotten. *)
Definition importSnapshot (s : StablePrefixSnapshot) (intentTracing : bool) (p : StablePrefix) : StablePrefix * bool :=
  let ts := map cloneJson (tools s) in
  let f := computeFingerprint (systemPrompt s) ts intentTracing in
  if bool_decide (f = fingerprint s) then (mkPrefix (Some (mkSnapshot (systemPrompt s) ts f)) (S (version p)) None, true)
  else (mkPrefix (snapshot p) (version p) None, false).
Definition exportSnapshot (p : StablePrefix) : option StablePrefixSnapshot := (fun s => mkSnapshot (systemPrompt s) (map cloneJson (tools s)) (fingerprint s)) <$> snapshot p.

Section Manager.
Context (normalizeTools : list value -> bool -> list value) (hashSource : jstring -> Z).

Definition takeSnapshot (c : AgentContext) (intentTracing : bool) : StablePrefixSnapshot :=
  let ts := normalizeTools (c_tools c) intentTracing in
  mkSnapshot (c_systemPrompt c) ts (computeFingerprint (c_systemPrompt c) ts intentTracing).

(** The new prefix, and whether it changed. *)
Definition buildPrefix (c : AgentContext) (intentTracing : bool) (p : StablePrefix) : StablePrefix * bool :=
  let src := (c_promptObject c, c_toolsObject c, intentTracing) in
  let taken := takeSnapshot c intentTracing in
  match snapshot p with
  | Some s =>
      if bool_decide (sources p = Some src) && bool_decide (fingerprint s = fingerprint taken) then (p, false)
      else if bool_decide (fingerprint s = fingerprint taken) then (mkPrefix (Some s) (version p) (Some src), false)
      else (mkPrefix (Some taken) (S (version p)) (Some src), true)
  | None => (mkPrefix (Some taken) (S (version p)) (Some src), true)
  end.

(** ** The message log *)

Record AppendOnlyContextManager : Type := mkManager { stablePrefix : StablePrefix; log : list value; lastSyncCount : nat; syncedHashes : list Z; seededPrefixCount : nat }.
Definition newManager : AppendOnlyContextManager := mkManager newPrefix [] 0 [] 0.

Definition hashMessage (m : value) : Z := hashSource (default (js "null") (stringify m)).
Definition hashAt (l : list value) (i : nat) : Z := hashMessage (default v_undefined (l !! i)).
Definition rangeHashesEqual (a b : list value) (count : nat) : bool := forallb (fun i => hashAt a i =? hashAt b i) (seq 0 count).
Definition prefixChanged (hashes synced : list Z) (count : nat) : bool :=
  if (length synced <? count)%nat then false else existsb (fun i => negb (bool_decide (hashes !! i = synced !! i))) (seq 0 count).

(** The messages to show: a fork keeps the messages it was seeded with in front. *)
Definition messagesToSync (ns : list value) (m : AppendOnlyContextManager) : list value :=
  let seeded := seededPrefixCount m in
  let includesSeedPrefix := (0 <? seeded)%nat && (seeded <=? length ns)%nat && rangeHashesEqual ns (log m) seeded in
  if (0 <? seeded)%nat && negb includesSeedPrefix then take seeded (log m) ++ ns else ns.

Definition rebaseToBaseline (ms : list value) (hashes : list Z) (m : AppendOnlyContextManager) : AppendOnlyContextManager := mkManager (stablePrefix m) (map cloneJson ms) (length ms) hashes (seededPrefixCount m).
Definition clearLog (m : AppendOnlyContextManager) : AppendOnlyContextManager := mkManager (stablePrefix m) [] 0 [] (seededPrefixCount m).
Definition appendNew (ms : list value) (hashes : list Z) (m : AppendOnlyContextManager) : AppendOnlyContextManager :=
  mkManager (stablePrefix m) (log m ++ map cloneJson (drop (lastSyncCount m) ms)) (length ms) hashes (seededPrefixCount m).

Definition syncMessages (ns : list value) (m : AppendOnlyContextManager) : AppendOnlyContextManager :=
  let ms := messagesToSync ns m in
  let hashes := map hashMessage ms in
  let changed := (0 <? lastSyncCount m)%nat && (lastSyncCount m <=? length ms)%nat && prefixChanged hashes (syncedHashes m) (lastSyncCount m) in
  if changed && (0 <? seededPrefixCount m)%nat then rebaseToBaseline ms hashes m
  else
    let m1 := if changed then clearLog m else m in
    if (length ms <? lastSyncCount m1)%nat then
      if (0 <? seededPrefixCount m1)%nat then rebaseToBaseline ms hashes m1 else appendNew ms hashes (clearLog m1)
    else appendNew ms hashes m1.

Definition seedNormalizedMessages (ms : list value) (reset : bool) (m : AppendOnlyContextManager) : option AppendOnlyContextManager :=
  if negb (bool_decide (log m = [])) && negb reset then None
  else let cloned := map cloneJson ms in Some (mkManager (stablePrefix m) cloned (length cloned) (map hashMessage cloned) (length cloned)).

Definition resetSyncCursor (m : AppendOnlyContextManager) : AppendOnlyContextManager := mkManager (stablePrefix m) [] 0 [] 0.
Definition invalidateForModelChange (m : AppendOnlyContextManager) : AppendOnlyContextManager := mkManager (invalidate (stablePrefix m)) [] 0 [] 0.
Definition releaseAfterHistoryRewrite (preserveSeededPrefix : bool) (m : AppendOnlyContextManager) : AppendOnlyContextManager :=
  let kept := take (if preserveSeededPrefix then seededPrefixCount m else 0%nat) (log m) in
  mkManager (invalidate (stablePrefix m)) kept (length kept) (map hashMessage kept) (length kept).
Definition appendMessage (x : value) (m : AppendOnlyContextManager) : AppendOnlyContextManager := mkManager (stablePrefix m) (log m ++ [x]) (lastSyncCount m) (syncedHashes m) (seededPrefixCount m).
Definition replaceTailMessage (x : value) (m : AppendOnlyContextManager) : AppendOnlyContextManager :=
  mkManager (stablePrefix m) (<[(length (log m) - 1)%nat := x]> (log m)) (lastSyncCount m) (syncedHashes m) (seededPrefixCount m).
Definition reset (c : AgentContext) (intentTracing : bool) (m : AppendOnlyContextManager) : AppendOnlyContextManager :=
  mkManager (buildPrefix c intentTracing (invalidate (stablePrefix m))).1 [] 0 [] 0.

(** A fork of another manager; nothing where the snapshot is refused. *)
Definition forkFromSeed (prefixSnapshot : option StablePrefixSnapshot) (messages : option (list value)) (intentTracing : bool) : option AppendOnlyContextManager :=
  imported ← match prefixSnapshot with
    | Some s => let r := importSnapshot s intentTracing newPrefix in if r.2 then Some r.1 else None
    | None => Some newPrefix
    end;
  let m := mkManager imported [] 0 [] 0 in
  match messages with Some ms => seedNormalizedMessages ms false m | None => Some m end.

(** What is sent: prompt, tools and messages; with the fingerprints and the version told to [onPrefixChange]. *)
Definition build (c : AgentContext) (intentTracing : bool) (m : AppendOnlyContextManager) : AppendOnlyContextManager * option (jstring * jstring * nat) * option (list jstring * list value * list value) :=
  let r := buildPrefix c intentTracing (stablePrefix m) in
  (mkManager r.1 (log m) (lastSyncCount m) (syncedHashes m) (seededPrefixCount m),
   if r.2 then Some (prefixFingerprint (stablePrefix m), prefixFingerprint r.1, version r.1) else None,
   (fun pt => (pt.1, pt.2, log m)) <$> toContext r.1).
End Manager.

(** ** The operations between two turns *)

Inductive Op : Type := op_sync (ns : list value) | op_seed (ms : list value) (reset : bool) | op_modelChange | op_resetCursor | op_release (preserve : bool)
  | op_reset (c : AgentContext) (i : bool) | op_build (c : AgentContext) (i : bool).

Section Properties.
Context (normalizeTools : list value -> bool -> list value) (hashSource : jstring -> Z).

Definition apply (o : Op) (m : AppendOnlyContextManager) : AppendOnlyContextManager :=
  match o with
  | op_sync ns => syncMessages hashSource ns m
  | op_seed ms r => default m (seedNormalizedMessages hashSource ms r m)
  | op_modelChange => invalidateForModelChange m
  | op_resetCursor => resetSyncCursor m
  | op_release b => releaseAfterHistoryRewrite hashSource b m
  | op_reset c i => reset normalizeTools c i m
  | op_build c i => (build normalizeTools c i m).1.1
  end.

(** The text of a list of messages. *)
Definition bytes (l : list value) : list (option jstring) := map stringify l.
(** The log shows the messages [src] of the last synchronisation. *)
Definition synced (src : list value) (m : AppendOnlyContextManager) : Prop :=
  lastSyncCount m = length src /\ syncedHashes m = map (hashMessage hashSource) src /\ bytes (log m) = bytes src /\ (seededPrefixCount m <= length src)%nat.
(** A message whose text is one of [T]. *)
Definition message (T : jstring -> Prop) (v : value) : Prop := plain v = true /\ exists s, stringify v = Some s /\ T s.
Lemma value_nested_ind (P : value -> Prop) :
  P v_undefined -> P v_null -> (forall b, P (v_bool b)) -> (forall z, P (v_number z)) -> (forall s, P (v_string s)) ->
  (forall l, Forall P l -> P (v_array l)) -> (forall fs, Forall (fun kv => P kv.2) fs -> P (v_object fs)) -> forall v, P v.
Proof.
  intros Hu Hn Hb Hz Hs Ha Ho. fix IH 1. intros [| |b|z|s|l|fs]; [exact Hu|exact Hn|apply Hb|apply Hz|apply Hs| |].
  - apply Ha. induction l as [|v l IHl]; constructor; [apply (IH v)|exact IHl].
  - apply Ho. induction fs as [|[k v] fs IHfs]; constructor; [apply (IH v)|exact IHfs].
Qed.

Lemma element_text x : elementText (stringify (clonedElement x)) = elementText (stringify x).
Proof. by destruct x. Qed.

Lemma property_text k x : isProto k = false -> flat_map (fun kv => propertyText kv.1 (stringify kv.2)) (clonedProperty k x) = propertyText k (stringify x).
Proof. intros Hk. destruct x; unfold clonedProperty; rewrite ?Hk; cbn [flat_map fst snd]; rewrite ?app_nil_r; reflexivity. Qed.

(** Copying keeps the text. *)
Theorem clone_keeps_bytes v : plain v = true -> stringify (cloneJson v) = stringify v.
Proof.
  induction v as [| |b|z|s|l IH|fs IH] using value_nested_ind; try done; cbn [plain cloneJson stringify]; intros Hp; do 4 f_equal.
  - rewrite map_map. induction IH as [|x l Hx _ IHl]; [done|]. cbn [map forallb] in *. apply andb_true_iff in Hp as [Hpx Hpl].
    rewrite element_text, Hx, IHl by done. done.
  - induction IH as [|[k x] fs Hx _ IHfs]; [done|]. cbn [flat_map forallb fst snd] in *. apply andb_true_iff in Hp as [[Hk Hpx]%andb_true_iff Hpf].
    apply negb_true_iff in Hk. rewrite flat_map_app, IHfs, property_text, Hx by done. done.
Qed.

Lemma bytes_clone l : Forall (fun v => plain v = true) l -> bytes (map cloneJson l) = bytes l.
Proof. induction 1 as [|v l Hv _ IH]; [done|]. unfold bytes in *. cbn. rewrite IH. f_equal. by apply clone_keeps_bytes. Qed.

Lemma clone_plain v : plain (cloneJson v) = true.
Proof.
  induction v as [| |b|z|s|l IH|fs IH] using value_nested_ind; try done; cbn [plain cloneJson].
  - induction IH as [|x l Hx _ IHl]; [done|]. cbn [map forallb]. rewrite IHl, andb_true_r. by destruct (cloneJson x).
  - induction IH as [|[k x] fs Hx _ IHfs]; [done|]. cbn [flat_map fst snd] in *. rewrite forallb_app, IHfs, andb_true_r. unfold clonedProperty.
    destruct (cloneJson x); destruct (isProto k) eqn:Hk; cbn [forallb fst snd]; rewrite ?Hk, ?Hx; done.
Qed.

#[local] Abbreviation h := (hashMessage hashSource).

Lemma prefixChanged_spec hs ss : (length ss <= length hs)%nat -> prefixChanged hs ss (length ss) = negb (bool_decide (ss `prefix_of` hs)).
Proof.
  intros Hl. unfold prefixChanged. destruct (Nat.ltb_spec (length ss) (length ss)); [lia|]. apply eq_bool_prop_intro.
  rewrite negb_True, bool_decide_spec, !Is_true_true, existsb_exists. split.
  - intros (i & Hi%in_seq & Hne) [k ->]. rewrite lookup_app_l in Hne by lia. by rewrite bool_decide_true in Hne.
  - intros Hp. destruct (decide (Exists (fun i => hs !! i ≠ ss !! i) (seq 0 (length ss)))) as [He|He].
    + apply Exists_exists in He as (i & Hi & Hne). exists i. split; [by apply list_elem_of_In|]. by rewrite bool_decide_false.
    + exfalso. apply Hp. exists (drop (length ss) hs). rewrite <- (take_drop (length ss) hs) at 1. f_equal. apply list_eq. intros i.
      destruct (decide (i < length ss)%nat) as [Hi|Hi]; [|rewrite (lookup_ge_None_2 ss), lookup_ge_None_2; [done|rewrite length_take; lia|lia]].
      rewrite lookup_take_lt by lia. destruct (decide (hs !! i = ss !! i)) as [E|E]; [done|]. exfalso. apply He. apply Exists_exists. exists i. split; [|done].
      apply elem_of_seq. lia.
Qed.

Lemma forallb_fmap {A B} (f : A -> B) (g : B -> bool) l : forallb g (f <$> l) = forallb (g ∘ f) l.
Proof. induction l as [|x l IH]; [done|]. cbn. by rewrite IH. Qed.

Lemma rangeHashesEqual_spec a b n : (n <= length a)%nat -> (n <= length b)%nat -> rangeHashesEqual hashSource a b n = bool_decide (map h (take n b) `prefix_of` map h a).
Proof.
  revert a b. induction n as [|n IH]; intros a b Ha Hb; [by rewrite bool_decide_true by apply prefix_nil|].
  destruct a as [|x a]; [simpl in Ha; lia|]. destruct b as [|y b]; [simpl in Hb; lia|]. simpl in Ha, Hb.
  specialize (IH a b ltac:(lia) ltac:(lia)). unfold rangeHashesEqual in *. cbn [seq forallb take map]. rewrite <- fmap_S_seq, forallb_fmap.
  match goal with |- _ && ?r = _ => change r with (forallb (fun i => hashAt hashSource a i =? hashAt hashSource b i) (seq 0 n)) end. rewrite IH.
  change (hashAt hashSource (x :: a) 0) with (h x). change (hashAt hashSource (y :: b) 0) with (h y).
  apply eq_bool_prop_intro. rewrite andb_True, !bool_decide_spec, Is_true_true, Z.eqb_eq. split.
  - intros [-> Hp]. by apply prefix_cons.
  - intros Hp. split; [symmetry; by apply prefix_cons_inv_1 in Hp|by apply prefix_cons_inv_2 in Hp].
Qed.

(** The seed stays in front unless the new messages begin with it. *)
Lemma messagesToSync_spec ns m : (seededPrefixCount m <= length (log m))%nat ->
  let seed := take (seededPrefixCount m) (log m) in
  messagesToSync hashSource ns m = if bool_decide (map h seed `prefix_of` map h ns) then ns else seed ++ ns.
Proof.
  intros Hs seed. subst seed. unfold messagesToSync. destruct (Nat.ltb_spec 0 (seededPrefixCount m)) as [Hpos|Hzero]; cbn [andb].
  - destruct (Nat.leb_spec (seededPrefixCount m) (length ns)) as [Hle|Hlt]; cbn [andb].
    + rewrite rangeHashesEqual_spec by lia. by destruct (bool_decide _).
    + rewrite bool_decide_false; [done|]. intros Hp%prefix_length. rewrite !length_map, length_take in Hp. lia.
  - replace (seededPrefixCount m) with 0%nat by lia. by rewrite bool_decide_true by apply prefix_nil.
Qed.

(** Either the synchronised messages are all there and the new ones are appended, or the log is written anew. *)
Lemma sync_spec src ns m : synced src m ->
  let ms := messagesToSync hashSource ns m in
  syncMessages hashSource ns m =
    mkManager (stablePrefix m) (if bool_decide (map h src `prefix_of` map h ms) then log m ++ map cloneJson (drop (length src) ms) else map cloneJson ms)
      (length ms) (map h ms) (seededPrefixCount m).
Proof.
  intros (Hn & Hh & Hb & Hs). cbv zeta. unfold syncMessages. set (ms := messagesToSync hashSource ns m). cbv zeta. rewrite Hn, Hh.
  replace ((0 <? length src)%nat && (length src <=? length ms)%nat && prefixChanged (map h ms) (map h src) (length src))
    with ((length src <=? length ms)%nat && negb (bool_decide (map h src `prefix_of` map h ms))).
  2:{ destruct (Nat.leb_spec (length src) (length ms)) as [Hle|Hlt]; [|by rewrite andb_false_r].
      rewrite <- (length_map h src) at 2. rewrite prefixChanged_spec by (rewrite !length_map; lia). destruct src; [|done].
      by rewrite bool_decide_true by apply prefix_nil. }
  destruct (bool_decide_reflect (map h src `prefix_of` map h ms)) as [Hp|Hp].
  - pose proof (prefix_length _ _ Hp) as Hl. rewrite !length_map in Hl. rewrite andb_false_r. cbn [andb]. rewrite Hn.
    destruct (Nat.ltb_spec (length ms) (length src)); [lia|]. unfold appendNew. by rewrite Hn.
  - rewrite andb_true_r. destruct (Nat.leb_spec (length src) (length ms)) as [Hle|Hlt]; cbn [andb].
    + destruct (Nat.ltb_spec 0 (seededPrefixCount m)) as [Hpos|Hzero]; [done|]. cbn [clearLog lastSyncCount].
      by destruct (Nat.ltb_spec (length ms) 0); [lia|].
    + rewrite Hn. destruct (Nat.ltb_spec (length ms) (length src)); [|lia]. by destruct (0 <? seededPrefixCount m)%nat.
Qed.

Context (T : jstring -> Prop) (injective : forall s t, T s -> T t -> hashSource s = hashSource t -> s = t).

Lemma hashes_texts a b : Forall (message T) a -> Forall (message T) b -> map h a `prefix_of` map h b <-> bytes a `prefix_of` bytes b.
Proof.
  intros Ha. revert b. induction Ha as [|x a (_ & s & Hx & Hs) _ IH]; intros b Hb; [split; intros _; apply prefix_nil|].
  destruct Hb as [|y b (_ & t & Hy & Ht) Hb]; [split; intros Hp%prefix_nil_inv; done|]. unfold bytes, hashMessage in *. cbn [map]. rewrite Hx, Hy. cbn [from_option]. unfold id.
  split; intros Hp; pose proof (prefix_cons_inv_1 _ _ _ _ Hp) as E; apply prefix_cons_inv_2 in Hp.
  - apply injective in E as ->; [|done..]. apply prefix_cons. by apply IH.
  - injection E as ->. apply prefix_cons. by apply IH.
Qed.

Lemma clones_are_messages l : Forall (message T) l -> Forall (message T) (map cloneJson l).
Proof.
  induction 1 as [|v l (Hp & s & Hv & Hs) _ IH]; constructor; [|done]. split; [apply clone_plain|]. exists s. by rewrite clone_keeps_bytes.
Qed.

Lemma messages_plain l : Forall (message T) l -> bytes (map cloneJson l) = bytes l.
Proof. intros Hl. apply bytes_clone. eapply Forall_impl; [exact Hl|]. by intros v [Hv _]. Qed.

(** The managers of a session, and the messages they are given. *)
Definition opMessages (o : Op) : list value := match o with op_sync ns => ns | op_seed ms _ => ms | _ => [] end.
Inductive Reach : AppendOnlyContextManager -> Prop :=
| reach_fork ps ms i m : forkFromSeed hashSource ps ms i = Some m -> Forall (message T) (default [] ms) -> Reach m
| reach_op o m : Reach m -> Forall (message T) (opMessages o) -> Reach (apply o m).

Definition good (m : AppendOnlyContextManager) : Prop := exists src, synced src m /\ Forall (message T) src /\ Forall (message T) (log m).

Lemma good_empty p : good (mkManager p [] 0 [] 0).
Proof. exists []. by repeat split. Qed.

Lemma good_messagesToSync ns m : good m -> Forall (message T) ns ->
  let ms := messagesToSync hashSource ns m in
  Forall (message T) ms /\ (seededPrefixCount m <= length ms)%nat /\
  bytes ms = (let seed := bytes (take (seededPrefixCount m) (log m)) in if bool_decide (seed `prefix_of` bytes ns) then bytes ns else seed ++ bytes ns).
Proof.
  intros (src & (Hn & Hh & Hb & Hs) & Hsrc & Hlog) Hns. cbv zeta.
  assert (length (log m) = length src) as Hl by (apply (f_equal length) in Hb; unfold bytes in Hb; by rewrite !length_map in Hb).
  rewrite messagesToSync_spec by lia. set (seed := take _ _). assert (Forall (message T) seed) as Hseed by by apply Forall_take.
  assert (length seed = seededPrefixCount m) as Hlen by (unfold seed; rewrite length_take; lia).
  rewrite (bool_decide_ext _ _ (hashes_texts seed ns Hseed Hns)). destruct (bool_decide_reflect (bytes seed `prefix_of` bytes ns)) as [Hp|Hp].
  - split; [done|]. split; [|done]. apply prefix_length in Hp. unfold bytes in Hp. rewrite !length_map in Hp. lia.
  - split; [by apply Forall_app|]. split; [rewrite length_app; lia|]. unfold bytes. by rewrite map_app.
Qed.

(** The log after a synchronisation has the text of the messages that were to be synchronised. *)
Lemma good_sync ns m : good m -> Forall (message T) ns ->
  let m' := syncMessages hashSource ns m in
  good m' /\ bytes (log m') = bytes (messagesToSync hashSource ns m) /\ (bytes (log m) `prefix_of` bytes (log m') -> log m `prefix_of` log m').
Proof.
  intros Hg Hns. destruct (good_messagesToSync ns m Hg Hns) as (Hms & Hlen & _). destruct Hg as (src & Hsync & Hsrc & Hlog). cbv zeta in *.
  rewrite (sync_spec src ns m Hsync). set (ms := messagesToSync hashSource ns m) in *. destruct Hsync as (_ & _ & Hb & _).
  rewrite (bool_decide_ext _ _ (hashes_texts src ms Hsrc Hms)), <- Hb. unfold good, synced. cbn [log lastSyncCount syncedHashes seededPrefixCount].
  assert (length (log m) = length src) as Hl by (apply (f_equal length) in Hb; unfold bytes in Hb; by rewrite !length_map in Hb).
  enough (bytes (if bool_decide (bytes (log m) `prefix_of` bytes ms) then log m ++ map cloneJson (drop (length src) ms) else map cloneJson ms) = bytes ms) as Hbytes.
  { split; [|split].
    - exists ms. split; [done|]. split; [done|]. destruct (bool_decide _); [apply Forall_app; split; [done|]|]; apply clones_are_messages; [by apply Forall_drop|done].
    - exact Hbytes.
    - rewrite Hbytes. intros Hp. rewrite bool_decide_true by done. by apply prefix_app_r. }
  destruct (bool_decide_reflect (bytes (log m) `prefix_of` bytes ms)) as [Hp|Hp]; [|by apply messages_plain].
  unfold bytes in *. rewrite map_app, messages_plain by by apply Forall_drop. destruct Hp as [k Hk]. unfold bytes. rewrite Hk. f_equal.
  change (map stringify (drop (length src) ms)) with (stringify <$> drop (length src) ms). rewrite fmap_drop. change (stringify <$> ms) with (map stringify ms). rewrite Hk, <- Hl, <- (length_map stringify). by rewrite drop_app_length.
Qed.

Lemma reach_good m : Reach m -> good m.
Proof.
  induction 1 as [ps ms i m Hf Hms|o m _ IH Ho].
  - unfold forkFromSeed in Hf. destruct (match ps with Some _ => _ | None => _ end) as [p|]; [|done]. cbn in Hf. destruct ms as [ms|]; injection Hf as <-; [|apply good_empty].
    apply clones_are_messages in Hms. by exists (map cloneJson ms).
  - destruct o as [ns|ms r| | |b|c i|c i]; cbn [apply opMessages] in *; try apply good_empty.
    + by apply good_sync.
    + unfold seedNormalizedMessages. destruct (_ && _); [done|]. apply clones_are_messages in Ho. by exists (map cloneJson ms).
    + unfold releaseAfterHistoryRewrite. destruct IH as (src & _ & _ & Hlog). eexists. split; [|split; [|by apply Forall_take, Hlog]]; [|by apply Forall_take, Hlog]. done.
    + done.
Qed.


(** What the prefix is after a build: the one sent before when the fingerprints are equal, else the live one, with one more version. *)
Theorem build_reports_changes c i p :
  let r := buildPrefix normalizeTools c i p in
  (r.2 = false -> toContext r.1 = toContext p /\ version r.1 = version p) /\
  (r.2 = true -> toContext r.1 = Some (c_systemPrompt c, map cloneJson (normalizeTools (c_tools c) i)) /\ version r.1 = S (version p)) /\
  prefixFingerprint r.1 = fingerprint (takeSnapshot normalizeTools c i).
Proof.
  cbv zeta. unfold buildPrefix, toContext, prefixFingerprint. destruct (snapshot p) as [s|] eqn:Es; [|by repeat split].
  destruct (bool_decide_reflect (fingerprint s = fingerprint (takeSnapshot normalizeTools c i))) as [E|E]; [|by rewrite andb_false_r].
  rewrite andb_true_r. destruct (bool_decide _); cbn [fst snd snapshot version]; rewrite ?Es; done.
Qed.

End Properties.

(** ** Snapshots for forks *)

(** A tool: no property has the name of another one, or [__proto__]. *)
Definition isTool (t : value) : Prop := plain t = true /\ match t with v_object fs => NoDup fs.*1 | _ => True end.

Lemma cloned_fields_keys fs : (flat_map (fun kv => clonedProperty kv.1 (cloneJson kv.2)) fs).*1 `sublist_of` fs.*1.
Proof.
  induction fs as [|[k v] fs IH]; [done|]. cbn [flat_map fst snd]. rewrite fmap_app, fmap_cons. unfold clonedProperty.
  destruct (cloneJson v); destruct (isProto k); cbn; by constructor.
Qed.

Lemma clone_is_tool t : isTool t -> isTool (cloneJson t).
Proof.
  intros [_ Ht]. split; [apply clone_plain|]. destruct t as [| | | | | |fs]; try done. cbn [cloneJson]. eapply sublist_NoDup; [exact Ht|apply cloned_fields_keys].
Qed.

Lemma clones_are_tools l : Forall isTool l -> Forall isTool (map cloneJson l).
Proof. induction 1; constructor; [by apply clone_is_tool|done]. Qed.

Lemma prop_clone k t : isTool t -> isProto k = false -> prop k (cloneJson t) = cloneJson (prop k t).
Proof.
  intros [_ Ht] Hk. destruct t as [| | | | | |fs]; try done. cbn [cloneJson prop]. induction fs as [|[k' v] fs IH]; [done|].
  apply NoDup_cons in Ht as [Hni Hnd]. specialize (IH Hnd). cbn [flat_map fst snd] in *.
  rewrite m_get_app. cbn [m_get]. unfold clonedProperty at 1. destruct (decide (k' = k)) as [->|Hne].
  - assert (m_get k (flat_map (fun kv => clonedProperty kv.1 (cloneJson kv.2)) fs) = None) as Hnone.
    { destruct (m_get k _) as [w|] eqn:E; [|done]. exfalso. apply Hni. eapply elem_of_submseteq; [|apply sublist_submseteq, cloned_fields_keys].
      apply m_get_Some_key. by rewrite E. }
    rewrite Hnone, Hk. destruct v; cbn; rewrite ?decide_True by done; done.
  - rewrite <- IH. destruct (cloneJson v), (isProto k'); cbn; rewrite ?decide_False by done; done.
Qed.

Lemma prop_text k t : isTool t -> isProto k = false -> stringify (prop k (cloneJson t)) = stringify (prop k t).
Proof.
  intros Ht Hk. rewrite prop_clone by done. apply clone_keeps_bytes. destruct Ht as [Hp _], t as [| | | | | |fs]; try done. cbn [plain prop] in *.
  destruct (m_get k fs) as [v|] eqn:E; [|done]. apply m_get_elem_1 in E. rewrite forallb_forall in Hp.
  specialize (Hp (k, v) ltac:(by apply list_elem_of_In)). by apply andb_true_iff in Hp as [_ Hp].
Qed.

(** The text of an object and of an array follows from the texts of what they hold. *)
Lemma object_text fs fs' : map (fun kv => (kv.1, stringify kv.2)) fs = map (fun kv => (kv.1, stringify kv.2)) fs' -> stringify (v_object fs) = stringify (v_object fs').
Proof.
  intros E. cbn [stringify]. do 4 f_equal. revert fs' E. induction fs as [|[k v] fs IH]; intros [|[k' v'] fs'] E; try done. cbn [map fst snd flat_map] in *.
  injection E as -> -> E. f_equal. by apply IH.
Qed.
Lemma array_text l l' : bytes l = bytes l' -> stringify (v_array l) = stringify (v_array l').
Proof. intros E. cbn [stringify]. do 4 f_equal. rewrite <- (map_map stringify elementText l), <- (map_map stringify elementText l'). by f_equal. Qed.

Lemma fingerprint_clone prompt ts i : Forall isTool ts -> computeFingerprint prompt (map cloneJson ts) i = computeFingerprint prompt ts i.
Proof.
  intros Ht. unfold computeFingerprint. do 2 f_equal. unfold payload. f_equal. apply object_text. cbn [map fst snd]. do 3 f_equal.
  apply array_text. rewrite map_map. unfold bytes. rewrite !map_map. induction Ht as [|t ts Ht _ IH]; [done|]. cbn [map]. f_equal; [|done].
  apply object_text. cbn [map fst snd]. by rewrite !prop_text.
Qed.

(** What a manager that was built exports is accepted by a fork with the same setting: the fork has its prompt, the texts of its tools
    and its fingerprint. *)
Theorem fork_accepts_the_snapshot normalizeTools c i p q :
  snapshot p = Some (takeSnapshot normalizeTools c i) -> Forall isTool (normalizeTools (c_tools c) i) ->
  exists s, exportSnapshot p = Some s /\ (importSnapshot s i q).2 = true /\
    prefixFingerprint (importSnapshot s i q).1 = prefixFingerprint p /\
    (fun r => (r.1, bytes r.2)) <$> toContext (importSnapshot s i q).1 = Some (c_systemPrompt c, bytes (normalizeTools (c_tools c) i)).
Proof.
  intros Hp Ht. pose proof (clones_are_tools _ Ht) as Hc. pose proof (clones_are_tools _ Hc) as Hcc.
  assert (forall l, Forall isTool l -> bytes (map cloneJson l) = bytes l) as Hb.
  { intros l Hl. apply bytes_clone. eapply Forall_impl; [exact Hl|]. by intros t []. }
  unfold exportSnapshot, prefixFingerprint. rewrite Hp. eexists. split; [done|]. unfold importSnapshot. cbv zeta. cbn [tools systemPrompt fingerprint takeSnapshot].
  rewrite !fingerprint_clone, bool_decide_true by done. cbn [fst snd snapshot fingerprint]. split; [done|]. split; [done|]. cbn.
  by rewrite !Hb.
Qed.

Definition demoMessage (role text : string) : value := v_object [(js "role", v_string (js role)); (js "content", v_string (js text))].
Definition demoMessages : list value := [demoMessage "user" "hi"; demoMessage "assistant" "hello"].
Definition demoTexts : list jstring := map (fun m => default [] (stringify m)) demoMessages.

Lemma injective_on (f : jstring -> Z) l :
  forallb (fun s => forallb (fun t => implb (f s =? f t) (bool_decide (s = t))) l) l = true -> forall s t, s ∈ l -> t ∈ l -> f s = f t -> s = t.
Proof.
  intros H s t Hs%list_elem_of_In Ht%list_elem_of_In E. rewrite forallb_forall in H. specialize (H s Hs). rewrite forallb_forall in H. specialize (H t Ht).
  rewrite E, Z.eqb_refl in H. by apply bool_decide_eq_true in H.
Qed.

Lemma demo_messages : Forall (message (fun s => s ∈ demoTexts)) demoMessages.
Proof.
  apply Forall_forall. intros v Hv. assert (plain v = true /\ is_Some (stringify v)) as [Hp [s Hs]].
  { unfold demoMessages in Hv. rewrite !elem_of_cons, elem_of_nil in Hv. by destruct Hv as [->|[->|[]]]. }
  split; [done|]. exists s. split; [done|]. replace s with (default [] (stringify v)) by by rewrite Hs.
  apply list_elem_of_In, (in_map (fun m => default [] (stringify m))), list_elem_of_In, Hv.
Qed.


(** ** What the fingerprint and the seed let through *)

(** Two prompts with the same fingerprint: the second one is not sent. *)
Theorem changed_prompt_is_not_sent normalizeTools ts p1 p2 o i :
  let first := mkContext [js "Aa"] p1 ts o in
  let second := mkContext [js "BB"] p2 ts o in
  let p := (buildPrefix normalizeTools first i newPrefix).1 in
  (buildPrefix normalizeTools second i p).2 = false /\
  fst <$> toContext (buildPrefix normalizeTools second i p).1 = Some [js "Aa"].
Proof.
  cbv zeta. assert (forall l, computeFingerprint [js "Aa"] l i = computeFingerprint [js "BB"] l i) as E by reflexivity.
  unfold buildPrefix, newPrefix. cbn [snapshot fst]. unfold takeSnapshot. cbn [fingerprint c_systemPrompt c_tools sources]. rewrite E.
  rewrite (bool_decide_true (computeFingerprint _ _ _ = _)) by done. rewrite andb_true_r. by destruct (bool_decide _).
Qed.

(** A fork that was seeded with two messages which its history then replaced by a summary goes on sending them. *)
Theorem seed_survives_compaction :
  let a := demoMessage "user" "a" in let b := demoMessage "assistant" "b" in let c := demoMessage "user" "c" in let s := demoMessage "user" "summary" in
  match forkFromSeed hashString32 None (Some [a; b]) false with
  | Some m => log (syncMessages hashString32 [s; c] (syncMessages hashString32 [a; b; c] m)) = [a; b; s; c]
  | None => False
  end.
Proof. vm_compute. reflexivity. Qed.

(** A copy loses a property of the name [__proto__]. *)
Theorem copy_loses_proto :
  let v := v_object [(js "__proto__", v_number 1); (js "x", v_number 2)] in
  stringify (cloneJson v) ≠ stringify v.
Proof. vm_compute. discriminate. Qed.
