(* ===== verification/RunLedger.v ===== *)
(** * Run resources (packages/agent/src/run-resource-ledger.ts)

    A run owns resources until their promises settle; who waits for its end gets a proof.  Runs have a cancellation domain that is
    opened and released at a bridge: the one of the ledger itself, modelled here, or one that the session binds, whose operations are
    arguments.  A promise that settles and a timer that fires are steps of their own; what [resolve] is called with is logged. *)
From S2P Require Import Prelude JsString JsMap.

Definition MAX_TOMBSTONE_ENTRIES : nat := 256.
Inductive RunLifecycle : Type := l_open | l_sealed | l_quarantined.
Inductive RunResourceKind : Type := provider_factory | provider_iterator | k_tool | post_prompt.
#[global] Instance RunLifecycle_eq_dec : EqDecision RunLifecycle.
Proof. solve_decision. Defined.

(** The id is the text of the number. *)
Record RunResourceEntry : Type := mkEntry { e_id : nat; kind : RunResourceKind; label : jstring; registeredAt : Z }.
Inductive RunSettlementReason : Type := unknown_run | run_not_sealed | resources_pending | quarantined.
Inductive RunSettlementProof : Type := settled | unfenced (reason : RunSettlementReason) (pending : list RunResourceEntry).
(** A domain is an object. *)
Record RunCancellationDomain : Type := mkDomain { d_run : jstring; d_object : nat }.
#[global] Instance RunCancellationDomain_eq_dec : EqDecision RunCancellationDomain.
Proof. solve_decision. Defined.
Inductive ReleaseDisposition : Type := as_settled | as_quarantined.
Inductive OpenResult : Type := Opened (d : RunCancellationDomain) (created : bool) | OpenRefused (duplicate : bool).
Inductive AbortResult : Type := Aborted (newlyAborted : bool) | AbortRefused (isQuarantined : bool).

(** ** The bridge of the ledger *)

(** The domains, and the objects whose signal is aborted. *)
Record Standalone : Type := mkStandalone { domains : list (jstring * RunCancellationDomain); releasedIds : list jstring; quarantinedIds : list jstring; abortedObjects : list nat; nextObject : nat }.
Definition newStandalone : Standalone := mkStandalone [] [] [] [] 0.

Definition standaloneOpen (r : jstring) (b : Standalone) : Standalone * OpenResult :=
  if bool_decide (r ∈ quarantinedIds b) then (b, OpenRefused false)
  else match m_get r (domains b) with
       | Some d => (b, Opened d false)
       | None =>
           if bool_decide (r ∈ releasedIds b) then (b, OpenRefused true)
           else let d := mkDomain r (nextObject b) in (mkStandalone (m_set r d (domains b)) (releasedIds b) (quarantinedIds b) (abortedObjects b) (S (nextObject b)), Opened d true)
       end.
Definition standaloneLookup (r : jstring) (b : Standalone) : option RunCancellationDomain := m_get r (domains b).
Definition standaloneAbort (r : jstring) (b : Standalone) : Standalone * AbortResult :=
  match m_get r (domains b) with
  | None => (b, AbortRefused (bool_decide (r ∈ quarantinedIds b)))
  | Some d => (mkStandalone (domains b) (releasedIds b) (quarantinedIds b) (s_add (abortedObjects b) (d_object d)) (nextObject b), Aborted (negb (bool_decide (d_object d ∈ abortedObjects b))))
  end.
Definition standaloneRelease (r : jstring) (disposition : ReleaseDisposition) (b : Standalone) : Standalone :=
  match m_get r (domains b) with
  | None => b
  | Some d =>
      let rest := m_delete r (domains b) in
      match disposition with
      | as_settled => mkStandalone rest (s_add (releasedIds b) r) (quarantinedIds b) (abortedObjects b) (nextObject b)
      | as_quarantined => mkStandalone rest (s_add (releasedIds b) r) (s_add (quarantinedIds b) r) (s_add (abortedObjects b) (d_object d)) (nextObject b)
      end
  end.

(** ** Runs *)

Record SettlementWaiter : Type := mkWaiter { w_id : nat; w_timer : bool }.
(** [ownBridge] tells the bridge of the ledger from the bound one. *)
Record RunState : Type := mkRun { lifecycle : RunLifecycle; resourceRunId : jstring; domain : option RunCancellationDomain; ownBridge : bool;
  resources : list (nat * RunResourceEntry); tombstone : list RunResourceEntry; waiters : list SettlementWaiter; claimedOwners : list nat; released : bool }.

Definition snapshot (s : RunState) : list RunResourceEntry := if decide (lifecycle s = l_quarantined) then tombstone s else (resources s).*2.
Definition settlementProof (s : RunState) : option RunSettlementProof :=
  match lifecycle s with
  | l_quarantined => Some (unfenced quarantined (tombstone s))
  | l_sealed => if bool_decide (resources s = []) then Some settled else None
  | l_open => None
  end.
Definition appendTombstone (s : RunState) (e : RunResourceEntry) : RunState :=
  let t := tombstone s ++ [e] in
  mkRun (lifecycle s) (resourceRunId s) (domain s) (ownBridge s) (resources s)
    (if (MAX_TOMBSTONE_ENTRIES <? length t)%nat then drop (length t - MAX_TOMBSTONE_ENTRIES) t else t) (waiters s) (claimedOwners s) (released s).

Section Ledger.
Context {X : Type} (boundOpen : jstring -> X -> X * OpenResult) (boundAbort : jstring -> X -> X) (boundRelease : jstring -> ReleaseDisposition -> X -> X).

(** Both bridges, and the calls of [release] so far. *)
Record Bridges : Type := mkBridges { standalone : Standalone; bound : X; releases : list (jstring * ReleaseDisposition) }.
Definition openOn (own : bool) (r : jstring) (b : Bridges) : Bridges * OpenResult :=
  if own then let x := standaloneOpen r (standalone b) in (mkBridges x.1 (bound b) (releases b), x.2)
  else let x := boundOpen r (bound b) in (mkBridges (standalone b) x.1 (releases b), x.2).
Definition abortOn (own : bool) (r : jstring) (b : Bridges) : Bridges :=
  if own then mkBridges (standaloneAbort r (standalone b)).1 (bound b) (releases b) else mkBridges (standalone b) (boundAbort r (bound b)) (releases b).
Definition releaseOn (own : bool) (r : jstring) (d : ReleaseDisposition) (b : Bridges) : Bridges :=
  if own then mkBridges (standaloneRelease r d (standalone b)) (bound b) (releases b ++ [(r, d)])
  else mkBridges (standalone b) (boundRelease r d (bound b)) (releases b ++ [(r, d)]).

Definition isReleasable (s : RunState) : bool :=
  negb (released s) && bool_decide (lifecycle s = l_sealed) && bool_decide (resources s = []) && bool_decide (is_Some (domain s)).
Definition releaseIfSettled (s : RunState) (b : Bridges) : RunState * Bridges :=
  if isReleasable s then (mkRun (lifecycle s) (resourceRunId s) None (ownBridge s) (resources s) (tombstone s) (waiters s) (claimedOwners s) true,
                          releaseOn (ownBridge s) (resourceRunId s) as_settled b)
  else (s, b).

Definition setWaiters (ws : list SettlementWaiter) (s : RunState) : RunState :=
  mkRun (lifecycle s) (resourceRunId s) (domain s) (ownBridge s) (resources s) (tombstone s) ws (claimedOwners s) (released s).
Definition setResources (rs : list (nat * RunResourceEntry)) (s : RunState) : RunState :=
  mkRun (lifecycle s) (resourceRunId s) (domain s) (ownBridge s) rs (tombstone s) (waiters s) (claimedOwners s) (released s).

(** The run, the bridges and the waiters that are answered. *)
Definition notify (s : RunState) (b : Bridges) : RunState * Bridges * list (nat * RunSettlementProof) :=
  let '(s1, answers) := match settlementProof s with Some p => (setWaiters [] s, map (fun w => (w_id w, p)) (waiters s)) | None => (s, []) end in
  let '(s2, b2) := releaseIfSettled s1 b in (s2, b2, answers).

Definition detach (s : RunState) (b : Bridges) : RunState * Bridges :=
  let s1 := mkRun l_quarantined (resourceRunId s) (domain s) (ownBridge s) (resources s) [] (waiters s) (claimedOwners s) (released s) in
  let s2 := setResources [] (foldl appendTombstone s1 (resources s).*2) in
  match domain s with
  | None => (s2, b)
  | Some _ =>
      let b1 := abortOn (ownBridge s) (resourceRunId s) b in
      let b2 := if released s then b1 else releaseOn (ownBridge s) (resourceRunId s) as_quarantined b1 in
      (mkRun (lifecycle s2) (resourceRunId s2) None (ownBridge s2) (resources s2) (tombstone s2) (waiters s2) (claimedOwners s2) true, b2)
  end.
Definition quarantineState (s : RunState) (b : Bridges) : RunState * Bridges * list (nat * RunSettlementProof) :=
  let '(s1, b1) := if decide (lifecycle s = l_quarantined) then (s, b) else detach s b in notify s1 b1.

(** A quarantined run only remembers the entry. *)
Definition registerIn (e : RunResourceEntry) (s : RunState) : RunState * option nat :=
  if decide (lifecycle s = l_quarantined) then (appendTombstone s e, None) else (setResources (m_set (e_id e) e (resources s)) s, Some (e_id e)).

(** ** The ledger *)

Record Lease : Type := mkLease { l_run : jstring; l_resource : nat; l_domain : RunCancellationDomain; closed : bool }.
Record Ledger : Type := mkLedger { runs : list (jstring * RunState); bridges : Bridges; bridge : option nat; agentSessionClaimKey : option nat; sequence : nat;
  leases : list Lease; nextWaiter : nat; answers : list (jstring * nat * RunSettlementProof) }.
Definition createRunResourceLedger (x : X) : Ledger := mkLedger [] (mkBridges newStandalone x []) None None 0 [] 0 [].

(** What a transition of a run makes of the ledger. *)
Definition update (r : jstring) (t : RunState * Bridges * list (nat * RunSettlementProof)) (l : Ledger) : Ledger :=
  mkLedger (m_set r t.1.1 (runs l)) t.1.2 (bridge l) (agentSessionClaimKey l) (sequence l) (leases l) (nextWaiter l) (answers l ++ map (fun a => (r, a.1, a.2)) t.2).

Definition bindCancellationDomainBridge (o : nat) (l : Ledger) : option Ledger :=
  if bool_decide (is_Some (bridge l)) && negb (bool_decide (bridge l = Some o)) then None
  else Some (mkLedger (runs l) (bridges l) (Some o) (agentSessionClaimKey l) (sequence l) (leases l) (nextWaiter l) (answers l)).
Definition bindAgentSessionClaimKey (k : nat) (l : Ledger) : option Ledger :=
  if bool_decide (is_Some (agentSessionClaimKey l)) && negb (bool_decide (agentSessionClaimKey l = Some k)) then None
  else Some (mkLedger (runs l) (bridges l) (bridge l) (Some k) (sequence l) (leases l) (nextWaiter l) (answers l)).

Definition setBridges (b : Bridges) (l : Ledger) : Ledger :=
  mkLedger (runs l) b (bridge l) (agentSessionClaimKey l) (sequence l) (leases l) (nextWaiter l) (answers l).
Definition openRun (r : jstring) (l : Ledger) : Ledger * option RunCancellationDomain :=
  match m_get r (runs l) with
  | Some s => (l, if decide (lifecycle s = l_open) then domain s else None)
  | None =>
      let own := bool_decide (bridge l = None) in
      let x := openOn own r (bridges l) in
      match x.2 with
      | OpenRefused _ => (setBridges x.1 l, None)
      | Opened d _ => (update r (mkRun l_open r (Some d) own [] [] [] [] false, x.1, []) l, Some d)
      end
  end.
Definition lookupDomain (r : jstring) (l : Ledger) : option RunCancellationDomain := s ← m_get r (runs l); domain s.

Definition setRun (r : jstring) (s : RunState) (l : Ledger) : Ledger := update r (s, bridges l, []) l.
Definition setSequence (n : nat) (l : Ledger) : Ledger := mkLedger (runs l) (bridges l) (bridge l) (agentSessionClaimKey l) n (leases l) (nextWaiter l) (answers l).
Definition setLeases (ls : list Lease) (l : Ledger) : Ledger := mkLedger (runs l) (bridges l) (bridge l) (agentSessionClaimKey l) (sequence l) ls (nextWaiter l) (answers l).

(** [register]: the next number, and the resource with it. *)
Definition register (r : jstring) (s : RunState) (k : RunResourceKind) (text : jstring) (now : Z) (l : Ledger) : Ledger * option nat :=
  let n := S (sequence l) in
  let x := registerIn (mkEntry n k text now) s in
  (setSequence n (setRun r x.1 l), x.2).

(** [leaseFor]: the number of the new lease. *)
Definition leaseFor (r : jstring) (s : RunState) (k : RunResourceKind) (text : jstring) (now : Z) (l : Ledger) : Ledger * option nat :=
  match domain s with
  | None => (l, None)
  | Some d =>
      let x := register r s k text now l in
      match x.2 with
      | None => (x.1, None)
      | Some n => (setLeases (leases x.1 ++ [mkLease r n d false]) x.1, Some (length (leases x.1)))
      end
  end.

Inductive Refusal : Type := r_unknown_run | r_sealed | r_quarantined | r_domain_mismatch | r_already_claimed | r_handle_mismatch | r_closed | r_parent_closed.
Definition granted (x : Ledger * option nat) : Ledger * result Refusal nat := (x.1, match x.2 with Some n => Ok n | None => Throw r_quarantined end).
Definition quarantineRun (r : jstring) (s : RunState) (l : Ledger) : Ledger := update r (quarantineState s (bridges l)) l.
(** [expectedDomain && expectedDomain !== state.domain] *)
Definition mismatch (expected : option RunCancellationDomain) (s : RunState) : bool := bool_decide (is_Some expected) && negb (bool_decide (expected = domain s)).

Definition reserveProducer (r : jstring) (expected : option RunCancellationDomain) (k : RunResourceKind) (text : jstring) (now : Z) (l : Ledger) : Ledger * result Refusal nat :=
  match m_get r (runs l) with
  | None => (l, Throw r_unknown_run)
  | Some s =>
      match lifecycle s with
      | l_quarantined => (l, Throw r_quarantined)
      | l_sealed => (quarantineRun r s l, Throw r_sealed)
      | l_open => if mismatch expected s then (quarantineRun r s l, Throw r_domain_mismatch) else granted (leaseFor r s k text now l)
      end
  end.

Definition claim (key : nat) (s : RunState) : RunState :=
  mkRun (lifecycle s) (resourceRunId s) (domain s) (ownBridge s) (resources s) (tombstone s) (waiters s) (claimedOwners s ++ [key]) (released s).
Definition claimProducer (r : jstring) (expected : option RunCancellationDomain) (key : nat) (now : Z) (l : Ledger) : Ledger * result Refusal nat :=
  if negb (bool_decide (agentSessionClaimKey l = Some key)) then (l, Throw r_closed)
  else match m_get r (runs l) with
       | None => (l, Throw r_handle_mismatch)
       | Some s =>
           match lifecycle s with
           | l_quarantined => (l, Throw r_quarantined)
           | l_sealed => (quarantineRun r s l, Throw r_closed)
           | l_open =>
               if mismatch expected s then (quarantineRun r s l, Throw r_domain_mismatch)
               else if bool_decide (key ∈ claimedOwners s) then (quarantineRun r s l, Throw r_already_claimed)
               else granted (leaseFor r (claim key s) post_prompt (js "agent-session") now (setRun r (claim key s) l))
           end
       end.

Definition track (r : jstring) (k : RunResourceKind) (text : jstring) (now : Z) (l : Ledger) : Ledger :=
  match m_get r (runs l) with None => l | Some s => (register r s k text now l).1 end.
Definition pending (r : jstring) (l : Ledger) : list RunResourceEntry := match m_get r (runs l) with Some s => snapshot s | None => [] end.
Definition seal (r : jstring) (l : Ledger) : Ledger :=
  match m_get r (runs l) with
  | Some s =>
      if decide (lifecycle s = l_open) then
        update r (notify (mkRun l_sealed (resourceRunId s) (domain s) (ownBridge s) (resources s) (tombstone s) (waiters s) (claimedOwners s) (released s)) (bridges l)) l
      else l
  | None => l
  end.
Definition quarantine (r : jstring) (l : Ledger) : Ledger * list RunResourceEntry :=
  match m_get r (runs l) with
  | Some s => let t := quarantineState s (bridges l) in (update r t l, tombstone t.1.1)
  | None => (l, [])
  end.

(** The answer at once, or the number of the waiter. *)
Definition waitForSettlement (r : jstring) (graceMs : option Z) (l : Ledger) : Ledger * (RunSettlementProof + nat) :=
  match m_get r (runs l) with
  | None => (l, inl (unfenced unknown_run []))
  | Some s =>
      match settlementProof s with
      | Some p => (l, inl p)
      | None =>
          let w := mkWaiter (nextWaiter l) (bool_decide (is_Some graceMs)) in
          let l1 := setRun r (setWaiters (waiters s ++ [w]) s) l in
          (mkLedger (runs l1) (bridges l1) (bridge l1) (agentSessionClaimKey l1) (sequence l1) (leases l1) (S (nextWaiter l1)) (answers l1), inr (nextWaiter l))
      end
  end.
(** The timer of a waiter fires. *)
Definition timeoutProof (s : RunState) : RunSettlementProof :=
  default (unfenced (if decide (lifecycle s = l_open) then run_not_sealed else resources_pending) (snapshot s)) (settlementProof s).
Definition waiterTimeout (r : jstring) (w : nat) (l : Ledger) : Ledger :=
  match m_get r (runs l) with
  | Some s =>
      if existsb (fun x => (w_id x =? w)%nat && w_timer x) (waiters s) then
        let s' := setWaiters (filter (fun x => w_id x ≠ w) (waiters s)) s in update r (s', bridges l, [(w, timeoutProof s')]) l
      else l
  | None => l
  end.
(** The promise of a resource settles. *)
Definition resourceSettled (r : jstring) (n : nat) (l : Ledger) : Ledger :=
  match m_get r (runs l) with Some s => update r (notify (setResources (m_delete n (resources s)) s) (bridges l)) l | None => l end.

(** ** Leases *)

Definition leaseTrack (i : nat) (k : RunResourceKind) (text : jstring) (now : Z) (l : Ledger) : Ledger * bool :=
  match leases l !! i with
  | None => (l, false)
  | Some c =>
      match m_get (l_run c) (runs l) with
      | None => (l, false)
      | Some s =>
          if closed c || bool_decide (lifecycle s = l_quarantined) then (quarantineRun (l_run c) s l, false)
          else let x := register (l_run c) s k text now l in (x.1, bool_decide (is_Some x.2))
      end
  end.
Definition fork (i : nat) (expected : RunCancellationDomain) (k : RunResourceKind) (text : jstring) (now : Z) (l : Ledger) : Ledger * result Refusal nat :=
  match leases l !! i with
  | None => (l, Throw r_unknown_run)
  | Some c =>
      match m_get (l_run c) (runs l) with
      | None => (l, Throw r_unknown_run)
      | Some s =>
          if negb (bool_decide (expected = l_domain c)) then (quarantineRun (l_run c) s l, Throw r_domain_mismatch)
          else
            let wasQuarantined := bool_decide (lifecycle s = l_quarantined) in
            if closed c || wasQuarantined then (quarantineRun (l_run c) s l, Throw (if wasQuarantined then r_quarantined else r_parent_closed))
            else granted (leaseFor (l_run c) s k text now l)
      end
  end.
Definition closeDiscovery (i : nat) (l : Ledger) : Ledger :=
  setLeases (alter (fun c => mkLease (l_run c) (l_resource c) (l_domain c) true) i (leases l)) l.

(** ** Steps *)

Inductive Op : Type :=
| o_bindBridge (o : nat) | o_bindKey (k : nat) | o_open (r : jstring)
| o_reserve (r : jstring) (d : option RunCancellationDomain) (k : RunResourceKind) (text : jstring) (now : Z)
| o_claim (r : jstring) (d : option RunCancellationDomain) (key : nat) (now : Z)
| o_track (r : jstring) (k : RunResourceKind) (text : jstring) (now : Z)
| o_seal (r : jstring) | o_quarantine (r : jstring) | o_wait (r : jstring) (graceMs : option Z) | o_timeout (r : jstring) (w : nat)
| o_settled (r : jstring) (n : nat)
| o_leaseTrack (i : nat) (k : RunResourceKind) (text : jstring) (now : Z)
| o_fork (i : nat) (d : RunCancellationDomain) (k : RunResourceKind) (text : jstring) (now : Z)
| o_close (i : nat).

Definition apply (o : Op) (l : Ledger) : Ledger :=
  match o with
  | o_bindBridge o => default l (bindCancellationDomainBridge o l)
  | o_bindKey k => default l (bindAgentSessionClaimKey k l)
  | o_open r => (openRun r l).1
  | o_reserve r d k text now => (reserveProducer r d k text now l).1
  | o_claim r d key now => (claimProducer r d key now l).1
  | o_track r k text now => track r k text now l
  | o_seal r => seal r l
  | o_quarantine r => (quarantine r l).1
  | o_wait r g => (waitForSettlement r g l).1
  | o_timeout r w => waiterTimeout r w l
  | o_settled r n => resourceSettled r n l
  | o_leaseTrack i k text now => (leaseTrack i k text now l).1
  | o_fork i d k text now => (fork i d k text now l).1
  | o_close i => closeDiscovery i l
  end.

(** The promise of a lease settles only when the lease is closed. *)
Definition possible (o : Op) (l : Ledger) : Prop :=
  match o with o_settled r n => Forall (fun c => l_run c = r -> l_resource c = n -> closed c = true) (leases l) | _ => True end.
Inductive Reach (x : X) : Ledger -> Prop :=
| reach_start : Reach x (createRunResourceLedger x)
| reach_step o l : Reach x l -> possible o l -> Reach x (apply o l).

(** ** Invariants *)

(** A run has its domain until it is released; a quarantined one has neither domain nor resources. *)
Definition sound (s : RunState) : Prop :=
  (lifecycle s = l_open -> is_Some (domain s)) /\ (released s = true <-> domain s = None) /\
  (lifecycle s = l_quarantined -> domain s = None /\ resources s = []) /\ (length (tombstone s) <= MAX_TOMBSTONE_ENTRIES)%nat.
(** Nobody waits for a run that has a proof, and a settled run is released. *)
Definition quiet (s : RunState) : Prop := (is_Some (settlementProof s) -> waiters s = []) /\ (lifecycle s = l_sealed -> resources s = [] -> domain s = None).
(** What an open lease keeps. *)
Definition held (c : Lease) (s : RunState) : Prop := lifecycle s = l_quarantined \/ (is_Some (m_get (l_resource c) (resources s)) /\ domain s = Some (l_domain c)).
(** Numbers of the waiters that wait and of those that were answered. *)
Definition waiting (l : Ledger) : list nat := flat_map (fun e => map w_id (waiters e.2)) (runs l).
Definition answered (l : Ledger) : list nat := map (fun a => a.1.2) (answers l).

Record inv (l : Ledger) : Prop := mkInv {
  inv_runs : forall r s, m_get r (runs l) = Some s -> sound s /\ quiet s /\ resourceRunId s = r;
  inv_waiters : waiting l ++ answered l ≡ₚ seq 0 (nextWaiter l);
  inv_releases : NoDup (releases (bridges l)).*1 /\ forall r, r ∈ (releases (bridges l)).*1 -> exists s, m_get r (runs l) = Some s /\ released s = true;
  inv_leases : Forall (fun c => closed c = false -> exists s, m_get (l_run c) (runs l) = Some s /\ held c s) (leases l) }.

Lemma waiting_set r (s s' : RunState) (m : list (jstring * RunState)) : m_get r m = Some s ->
  exists a z, m_set r s' m = a ++ (r, s') :: z /\ m = a ++ (r, s) :: z.
Proof.
  induction m as [|[k v] m IH]; [done|]. cbn. destruct (decide (k = r)) as [->|Hne].
  - intros [= ->]. by exists [], m.
  - intros (a & z & -> & ->)%IH. by exists ((k, v) :: a), z.
Qed.

(** One lemma for all transitions of a run. *)
Lemma inv_change r s s' l l' :
  inv l -> m_get r (runs l) = Some s -> runs l' = m_set r s' (runs l) -> leases l' = leases l -> sound s' -> quiet s' -> resourceRunId s' = r ->
  waiting l' ++ answered l' ≡ₚ seq 0 (nextWaiter l') ->
  (releases (bridges l') = releases (bridges l) /\ (released s = true -> released s' = true) \/
   exists d, releases (bridges l') = releases (bridges l) ++ [(r, d)] /\ released s = false /\ released s' = true) ->
  (forall c, c ∈ leases l -> closed c = false -> l_run c = r -> held c s -> held c s') ->
  inv l'.
Proof.
  intros [Hr Hw [Hnd Hrel] Hl] Hg Hruns Hleases Hs Hq Hid Hp Hb Hh. constructor; rewrite ?Hruns, ?Hleases.
  - intros r' t Ht. destruct (decide (r' = r)) as [->|Hne]; [rewrite m_get_set_eq in Ht; by injection Ht as <-|rewrite m_get_set_ne in Ht by done; by apply Hr].
  - exact Hp.
  - assert (forall r', (exists t, m_get r' (runs l) = Some t /\ released t = true) -> (released s = true -> released s' = true) ->
      exists t, m_get r' (m_set r s' (runs l)) = Some t /\ released t = true) as Hkeep.
    { intros r' (t & Ht & Hrt) Hmono. destruct (decide (r' = r)) as [->|Hne]; [|exists t; by rewrite m_get_set_ne].
      exists s'. rewrite m_get_set_eq. split; [done|]. apply Hmono. congruence. }
    destruct Hb as [[-> Hmono]|(d & -> & Hf & Ht)]; [split; [done|]; intros r' Hin; by apply Hkeep; [apply Hrel|]|]. rewrite fmap_app. split.
    + apply NoDup_app. split; [done|]. split; [|apply NoDup_singleton]. intros x Hx ->%list_elem_of_singleton. cbn in *. destruct (Hrel r Hx) as (t & Ht' & Hrt). congruence.
    + intros r' [Hin| ->%list_elem_of_singleton]%elem_of_app; [by apply Hkeep; [apply Hrel|]|]. exists s'. by rewrite m_get_set_eq.
  - apply Forall_forall. intros c Hc Ho. rewrite Forall_forall in Hl. destruct (Hl c Hc Ho) as (t & Ht & Hheld).
    destruct (decide (l_run c = r)) as [E|Hne]; [|exists t; by rewrite m_get_set_ne]. exists s'. rewrite E, m_get_set_eq. split; [done|].
    apply Hh; [done..|]. rewrite E in Ht. congruence.
Qed.

(** What the waiters of the ledger become when a run changes. *)
Lemma waiting_update r s s' b' ans l : m_get r (runs l) = Some s ->
  waiting (update r (s', b', ans) l) ++ answered (update r (s', b', ans) l) ++ map w_id (waiters s) ≡ₚ (waiting l ++ answered l) ++ (map w_id (waiters s') ++ ans.*1).
Proof.
  intros Hg. unfold waiting, answered. cbn [runs answers update fst snd]. destruct (waiting_set r s s' (runs l) Hg) as (a & z & -> & ->).
  rewrite !flat_map_app. cbn [flat_map snd]. rewrite !map_app, map_map. cbn [fst snd]. change (map (fun x => x.1) ans) with (ans.*1). solve_Permutation.
Qed.

Lemma inv_update r s s' b' ans l :
  inv l -> m_get r (runs l) = Some s -> sound s' -> quiet s' -> resourceRunId s' = r ->
  map w_id (waiters s) ≡ₚ map w_id (waiters s') ++ ans.*1 ->
  (releases b' = releases (bridges l) /\ (released s = true -> released s' = true) \/
   exists d, releases b' = releases (bridges l) ++ [(r, d)] /\ released s = false /\ released s' = true) ->
  (forall c, c ∈ leases l -> closed c = false -> l_run c = r -> held c s -> held c s') ->
  inv (update r (s', b', ans) l).
Proof.
  intros Hi Hg Hs Hq Hid Hp Hb Hh. eapply (inv_change r s s' l); try done.
  pose proof (waiting_update r s s' b' ans l Hg) as H. rewrite <- Hp, app_assoc in H. apply Permutation_app_inv_r in H. rewrite H. apply (inv_waiters _ Hi).
Qed.

Definition rank (s : RunState) : nat := match lifecycle s with l_open => 0 | l_sealed => 1 | l_quarantined => 2 end.
(** The calls of [release] a transition of a run makes: at most one, and only for a run that was not released. *)
Definition releases_once (s s' : RunState) (b b' : Bridges) : Prop :=
  releases b' = releases b /\ (released s = true -> released s' = true) \/
  exists d, releases b' = releases b ++ [(resourceRunId s, d)] /\ released s = false /\ released s' = true.
(** What the transitions have in common. *)
Record moves (s : RunState) (b : Bridges) (t : RunState * Bridges * list (nat * RunSettlementProof)) : Prop := mkMoves {
  mv_sound : sound t.1.1; mv_quiet : quiet t.1.1; mv_id : resourceRunId t.1.1 = resourceRunId s;
  mv_waiters : map w_id (waiters s) ≡ₚ map w_id (waiters t.1.1) ++ t.2.*1;
  mv_releases : releases_once s t.1.1 b t.1.2;
  mv_held : forall c, held c s -> held c t.1.1;
  mv_answers : Forall (fun a => a.2 = timeoutProof t.1.1) t.2;
  mv_rank : (rank s <= rank t.1.1)%nat }.

Lemma inv_moves r s t l : inv l -> m_get r (runs l) = Some s -> moves s (bridges l) t -> inv (update r t l).
Proof.
  intros Hi Hg [Hs Hq Hid Hw Hr Hh _ _]. destruct t as [[s' b'] ans]. destruct (inv_runs _ Hi r s Hg) as (_ & _ & E). unfold releases_once in Hr. rewrite E in Hr.
  cbn [fst snd] in *. apply (inv_update r s); auto. by rewrite Hid.
Qed.

Lemma proof_is_timeout s p : settlementProof s = Some p -> p = timeoutProof s.
Proof. intros E. unfold timeoutProof. by rewrite E. Qed.

Lemma release_moves s b : sound s -> (is_Some (settlementProof s) -> waiters s = []) -> moves s b (releaseIfSettled s b, []).
Proof.
  intros Hs Hq. pose proof Hs as (Ho & Hr & Hz & Ht). unfold releaseIfSettled, isReleasable. destruct (negb (released s)) eqn:Er; cbn [andb].
  2:{ apply negb_false_iff in Er. constructor; cbn; auto; [|by rewrite app_nil_r|left; done]. split; [done|]. intros _ _. by apply Hr. }
  apply negb_true_iff in Er. destruct (bool_decide_reflect (lifecycle s = l_sealed)) as [El|El]; cbn [andb].
  2:{ constructor; cbn; auto; [|by rewrite app_nil_r|left; done]. by split. }
  destruct (bool_decide_reflect (resources s = [])) as [Ere|Ere]; cbn [andb].
  2:{ constructor; cbn; auto; [|by rewrite app_nil_r|left; done]. by split. }
  destruct (bool_decide_reflect (is_Some (domain s))) as [Ed|Ed]; cbn [andb].
  2:{ exfalso. apply Ed. destruct (domain s) eqn:E; [done|]. destruct Hr as [_ Hr]. rewrite Hr in Er by done. done. }
  constructor; cbn.
  - split; [cbn; by rewrite El|]. split; [done|]. split; [cbn; by rewrite El|done].
  - split; [exact Hq|done].
  - done.
  - by rewrite app_nil_r.
  - right. exists as_settled. split; [by destruct (ownBridge s)|done].
  - intros c [Hc|[Hc _]]; [by left|]. rewrite Ere in Hc. by destruct Hc.
  - constructor.
  - done.
Qed.

Lemma notify_moves s b : sound s -> moves s b (notify s b).
Proof.
  intros Hs. unfold notify. destruct (settlementProof s) as [p|] eqn:Ep.
  - destruct (release_moves (setWaiters [] s) b Hs (fun _ => eq_refl)) as [H1 H2 H3 H4 H5 H6 _ H8].
    destruct (releaseIfSettled (setWaiters [] s) b) as [s2 b2] eqn:E. cbn in *. constructor; cbn; auto.
    + rewrite app_nil_r in H4. rewrite <- H4. cbn. rewrite <- list_fmap_compose. done.
    + apply Forall_forall. intros a (w & -> & _)%list_elem_of_fmap. cbn. apply proof_is_timeout. rewrite <- Ep. unfold releaseIfSettled in E. by destruct (isReleasable _); injection E as <- <-.
  - pose proof (release_moves s b Hs) as H. rewrite Ep in H. specialize (H (fun F => False_ind _ (is_Some_None F))).
    by destruct (releaseIfSettled s b).
Qed.

Lemma appendTombstone_bound s e : (length (tombstone s) <= MAX_TOMBSTONE_ENTRIES)%nat -> (length (tombstone (appendTombstone s e)) <= MAX_TOMBSTONE_ENTRIES)%nat.
Proof. intros H. unfold appendTombstone. cbn [tombstone]. destruct (Nat.ltb_spec MAX_TOMBSTONE_ENTRIES (length (tombstone s ++ [e]))); [rewrite length_drop|]; lia. Qed.

(** Filling the tombstone changes nothing else. *)
Lemma fill_tombstone es s :
  exists t, foldl appendTombstone s es = mkRun (lifecycle s) (resourceRunId s) (domain s) (ownBridge s) (resources s) t (waiters s) (claimedOwners s) (released s) /\
    ((length (tombstone s) <= MAX_TOMBSTONE_ENTRIES)%nat -> (length t <= MAX_TOMBSTONE_ENTRIES)%nat).
Proof.
  revert s. induction es as [|e es IH]; intros s; [exists (tombstone s); by destruct s|]. destruct (IH (appendTombstone s e)) as (t & E & Hb). exists t.
  split; [exact E|]. intros H. by apply Hb, appendTombstone_bound.
Qed.

Lemma moves_after s s1 b b1 t :
  moves s1 b1 t -> resourceRunId s1 = resourceRunId s -> waiters s1 = waiters s -> (rank s <= rank s1)%nat ->
  (forall c, held c s -> held c s1) -> releases_once s t.1.1 b t.1.2 -> moves s b t.
Proof. intros [H1 H2 H3 H4 H5 H6 H7 H8] Hid Hw Hr Hh Ho. constructor; auto; [by rewrite H3|by rewrite <- Hw|by transitivity (rank s1)]. Qed.

Lemma notify_quarantined s b : lifecycle s = l_quarantined -> (notify s b).1 = (setWaiters [] s, b).
Proof. intros E. unfold notify, settlementProof. rewrite E. unfold releaseIfSettled, isReleasable. cbn [lifecycle setWaiters released]. rewrite E. by rewrite andb_false_r. Qed.

Lemma quarantine_moves s b : sound s -> moves s b (quarantineState s b) /\ lifecycle (quarantineState s b).1.1 = l_quarantined.
Proof.
  intros Hs. pose proof Hs as (Ho & Hr & Hz & Ht). unfold quarantineState. destruct (decide (lifecycle s = l_quarantined)) as [E|E].
  { split; [by apply notify_moves|]. by rewrite notify_quarantined. }
  unfold detach. destruct (fill_tombstone (resources s).*2 (mkRun l_quarantined (resourceRunId s) (domain s) (ownBridge s) (resources s) [] (waiters s) (claimedOwners s) (released s)))
    as (t & -> & Hb). specialize (Hb ltac:(cbn; lia)).
  assert (forall s1 b1, lifecycle s1 = l_quarantined -> resources s1 = [] -> domain s1 = None -> released s1 = true -> (length (tombstone s1) <= MAX_TOMBSTONE_ENTRIES)%nat ->
    resourceRunId s1 = resourceRunId s -> waiters s1 = waiters s -> releases_once s s1 b b1 -> moves s b (notify s1 b1) /\ lifecycle (notify s1 b1).1.1 = l_quarantined) as H.
  { intros s1 b1 H1 H2 H3 H4 H5 H6 H7 H8. rewrite notify_quarantined by done. split; [|done].
    assert (sound s1) as Hs1 by (split; [by rewrite H1|]; by rewrite H3, H4).
    apply (moves_after s s1 b b1 (notify s1 b1)); [by apply notify_moves|done|done|unfold rank; rewrite H1; destruct (lifecycle s); lia|by intros c _; left|].
    rewrite notify_quarantined by done. exact H8. }
  destruct (domain s) as [d|] eqn:Ed; cbn [setResources lifecycle resourceRunId ownBridge resources tombstone waiters claimedOwners].
  - apply H; try done. destruct (released s) eqn:Er; [destruct Hr as [Hr _]; by specialize (Hr eq_refl)|]. right. exists as_quarantined.
    split; [|done]. by destruct (ownBridge s).
  - apply H; try done; [by apply Hr|]. by left.
Qed.

Lemma register_moves e s b : sound s -> quiet s ->
  moves s b ((registerIn e s).1, b, []) /\ domain (registerIn e s).1 = domain s /\
  (forall n, (registerIn e s).2 = Some n -> is_Some (m_get n (resources (registerIn e s).1)) /\ n = e_id e).
Proof.
  intros (Ho & Hr & Hz & Ht) [Hq Hd]. unfold registerIn. destruct (decide (lifecycle s = l_quarantined)) as [E|E]; cbn [fst snd].
  - split; [|by split]. constructor; cbn [fst snd]; try done.
    + split; [done|]. split; [done|]. split; [done|]. by apply appendTombstone_bound.
    + split; [|done]. intros _. apply Hq. unfold settlementProof. by rewrite E.
    + by rewrite app_nil_r.
    + by left.
  - assert (m_set (e_id e) e (resources s) ≠ []) as Hne by (destruct (resources s) as [|[] ?]; cbn; [done|]; by case_decide).
    split; [|split; [done|]; intros n [= <-]; cbn; by rewrite m_get_set_eq]. constructor; cbn [fst snd]; try done.
    + split; [|intros _ Hnil; by destruct (Hne Hnil)]. unfold settlementProof. cbn. intros [p Hp]. destruct (lifecycle s); try done. by rewrite bool_decide_false in Hp.
    + by rewrite app_nil_r.
    + by left.
    + intros c [Hc|[Hc Hcd]]; [by left|]. right. cbn. split; [|done].
      destruct (decide (e_id e = l_resource c)) as [<-|Hn]; [by rewrite m_get_set_eq|by rewrite m_get_set_ne].
Qed.

(** The answer says what the run is now. *)
Definition describes (l : Ledger) (a : jstring * nat * RunSettlementProof) : Prop := exists s, m_get a.1.1 (runs l) = Some s /\ a.2 = timeoutProof s.
(** No run disappears or goes back. *)
Definition onward (l l' : Ledger) : Prop := forall r s, m_get r (runs l) = Some s -> exists s', m_get r (runs l') = Some s' /\ (rank s <= rank s')%nat.
Record follows (l l' : Ledger) : Prop := mkFollows {
  fw_inv : inv l'; fw_answers : exists new, answers l' = answers l ++ new /\ Forall (describes l') new; fw_onward : onward l l' }.

Lemma follows_refl l : inv l -> follows l l.
Proof. intros Hi. constructor; [done|exists []; by rewrite app_nil_r|]. intros r s Hs. by exists s. Qed.
#[local] Hint Resolve follows_refl : core.

Lemma follows_quiet l l1 l2 : answers l1 = answers l -> onward l l1 -> follows l1 l2 -> follows l l2.
Proof.
  intros Ha Ho [Hi (new & Hn & Hd) Ho2]. constructor; [done|exists new; by rewrite Hn, Ha|]. intros r s Hs. destruct (Ho r s Hs) as (s1 & Hs1 & Hle).
  destruct (Ho2 r s1 Hs1) as (s2 & Hs2 & Hle2). exists s2. split; [done|lia].
Qed.

Lemma onward_set r s s' (l l' : Ledger) : m_get r (runs l) = Some s -> runs l' = m_set r s' (runs l) -> (rank s <= rank s')%nat -> onward l l'.
Proof.
  intros Hg Hr Hle r' t Ht. rewrite Hr. destruct (decide (r = r')) as [->|Hne]; [exists s'; rewrite m_get_set_eq|exists t; by rewrite m_get_set_ne].
  split; [done|]. congruence.
Qed.

Lemma follows_moves r s t l : inv l -> m_get r (runs l) = Some s -> moves s (bridges l) t -> follows l (update r t l).
Proof.
  intros Hi Hg Hm. constructor; [by apply (inv_moves r s)| |eapply onward_set; [done|done|by apply Hm]].
  eexists. split; [done|]. apply Forall_fmap. eapply Forall_impl; [apply Hm|]. intros a Ha. exists t.1.1. cbn in *. by rewrite m_get_set_eq.
Qed.

Lemma follows_bookkeeping l l' l'' : follows l l' -> inv l'' -> runs l'' = runs l' -> answers l'' = answers l' -> follows l l''.
Proof.
  intros [_ (new & Hn & Hd) Ho] Hi Hr Ha. constructor; [done|exists new; rewrite Ha; split; [done|]; unfold describes; by rewrite Hr|unfold onward; by rewrite Hr].
Qed.

Lemma follows_register r s k text now l : inv l -> m_get r (runs l) = Some s -> follows l (register r s k text now l).1.
Proof.
  intros Hi Hg. destruct (inv_runs _ Hi r s Hg) as (Hs & Hq & _). unfold register. cbn [fst].
  assert (follows l (setRun r (registerIn (mkEntry (S (sequence l)) k text now) s).1 l)) as H by (eapply follows_moves; [done..|]; by apply register_moves).
  eapply follows_bookkeeping; [exact H| |done|done]. by destruct H as [[]].
Qed.

Lemma follows_leaseFor r s k text now l : inv l -> m_get r (runs l) = Some s -> follows l (leaseFor r s k text now l).1.
Proof.
  intros Hi Hg. unfold leaseFor. destruct (domain s) as [d|] eqn:Ed; [|by apply follows_refl]. pose proof (follows_register r s k text now l Hi Hg) as H.
  destruct (inv_runs _ Hi r s Hg) as (Hs & Hq & _). destruct (register_moves (mkEntry (S (sequence l)) k text now) s (bridges l) Hs Hq) as (_ & Hd & Hn).
  unfold register in *. cbn [fst snd] in *. destruct (registerIn _ s).2 as [n|]; [|done]. eapply follows_bookkeeping; [exact H| |done|done].
  destruct H as [[H1 H2 H3 H4] _ _]. constructor; try done.
  cbn [leases setLeases]. apply Forall_app. split; [done|]. apply Forall_singleton. intros _. cbn. eexists. rewrite m_get_set_eq. split; [done|]. right. cbn.
  split; [by apply Hn|]. by rewrite Hd.
Qed.

Lemma follows_quarantineRun r s l : inv l -> m_get r (runs l) = Some s -> follows l (quarantineRun r s l).
Proof. intros Hi Hg. eapply follows_moves; [done..|]. apply quarantine_moves. by apply (inv_runs _ Hi r s). Qed.

Lemma follows_claim r s key k text now l : inv l -> m_get r (runs l) = Some s -> follows l (leaseFor r (claim key s) k text now (setRun r (claim key s) l)).1.
Proof.
  intros Hi Hg. destruct (inv_runs _ Hi r s Hg) as (Hs & Hq & _). eapply follows_quiet; [| |apply follows_leaseFor; [|apply m_get_set_eq]].
  - cbn. apply app_nil_r.
  - by eapply (onward_set r s (claim key s)).
  - eapply inv_moves; [done..|]. constructor; cbn; try done; [by rewrite app_nil_r|by left].
Qed.
#[local] Hint Resolve follows_leaseFor follows_quarantineRun follows_claim follows_register : core.

Lemma follows_open r l : inv l -> follows l (openRun r l).1.
Proof.
  intros Hi. unfold openRun. destruct (m_get r (runs l)) as [s|] eqn:Hg; [auto|]. set (own := bool_decide _).
  assert (releases (openOn own r (bridges l)).1 = releases (bridges l)) as Hrel by (unfold openOn; by destruct own). pose proof Hi as [H1 H2 H3 H4].
  destruct (openOn own r (bridges l)) as [b [d cr|dup]]; cbn [fst snd] in *; [|constructor; [constructor; cbn; rewrite ?Hrel; done|exists []; by rewrite app_nil_r|intros r' s Hs; by exists s]].
  assert (forall r' s, m_get r' (runs l) = Some s -> m_get r' (m_set r (mkRun l_open r (Some d) own [] [] [] [] false) (runs l)) = Some s) as Hkeep
    by (intros r' s Hs; rewrite m_get_set_ne; [done|congruence]).
  constructor; [constructor; cbn [runs bridges nextWaiter leases update fst snd]| |].
  - intros r' s. destruct (decide (r = r')) as [->|Hne]; [|rewrite m_get_set_ne by done; auto]. rewrite m_get_set_eq. intros [= <-].
    split; [split; [done|split; [done|split; [done|cbn; lia]]]|]. split; [|done]. by split.
  - unfold waiting, answered. cbn [runs answers update fst snd map]. rewrite app_nil_r, m_set_fresh; [|rewrite <- m_get_Some_key, Hg; by intros [? ?]].
    rewrite flat_map_app. cbn. by rewrite app_nil_r.
  - rewrite Hrel. split; [apply H3|]. intros r' (s & Hs & Hr)%H3. exists s. auto.
  - eapply Forall_impl; [exact H4|]. intros c Hc Ho. destruct (Hc Ho) as (s & Hs & Hh). exists s. auto.
  - exists []. cbn. by rewrite app_nil_r.
  - intros r' s Hs. exists s. cbn. auto.
Qed.

Lemma follows_seal r l : inv l -> follows l (seal r l).
Proof.
  intros Hi. unfold seal. destruct (m_get r (runs l)) as [s|] eqn:Hg; [|auto]. destruct (decide _) as [E|]; [|auto]. destruct (inv_runs _ Hi r s Hg) as ((H1 & H2 & H3 & H4) & _ & _).
  set (s1 := mkRun l_sealed _ _ _ _ _ _ _ _). assert (moves s1 (bridges l) (notify s1 (bridges l))) as Hm by (apply notify_moves; by split; [|split]).
  eapply follows_moves; [done..|]. eapply (moves_after s s1); [exact Hm|done|done|unfold rank; rewrite E; cbn; lia| |].
  - intros c [Hc|Hc]; [congruence|by right].
  - exact (mv_releases _ _ _ Hm).
Qed.

Lemma follows_wait r g l : inv l -> follows l (waitForSettlement r g l).1.
Proof.
  intros Hi. unfold waitForSettlement. destruct (m_get r (runs l)) as [s|] eqn:Hg; [|auto]. destruct (settlementProof s) as [p|] eqn:Ep; [auto|].
  destruct (inv_runs _ Hi r s Hg) as (Hs & [Hq Hd] & Hid). cbv zeta. cbn [fst]. set (w := mkWaiter _ _). constructor.
  - eapply (inv_change r s (setWaiters (waiters s ++ [w]) s)); try done.
    + split; [|exact Hd]. unfold settlementProof in *. cbn in *. rewrite Ep. by intros [? ?].
    + pose proof (waiting_update r s (setWaiters (waiters s ++ [w]) s) (bridges l) [] l Hg) as H. cbn [fmap list_fmap] in H.
      rewrite app_nil_r in H. cbn [waiters setWaiters] in H. rewrite map_app, (inv_waiters _ Hi) in H. cbn [nextWaiter]. rewrite seq_S.
      change (map w_id [w]) with [nextWaiter l] in H. change (0 + nextWaiter l)%nat with (nextWaiter l).
      assert (seq 0 (nextWaiter l) ++ map w_id (waiters s) ++ [nextWaiter l] ≡ₚ (seq 0 (nextWaiter l) ++ [nextWaiter l]) ++ map w_id (waiters s)) as Hc by solve_Permutation.
      rewrite Hc, app_assoc in H. by apply Permutation_app_inv_r in H.
    + by left.
  - exists []. done.
  - by eapply onward_set.
Qed.

Lemma timeout_moves s b w : sound s -> quiet s -> NoDup (map w_id (waiters s)) -> w ∈ map w_id (waiters s) ->
  let s' := setWaiters (filter (fun x => w_id x ≠ w) (waiters s)) s in moves s b (s', b, [(w, timeoutProof s')]).
Proof.
  intros Hs [Hq Hd] Hnd Hw. cbv zeta. constructor; cbn; try done.
  - split; [|exact Hd]. intros Hp. cbn. assert (is_Some (settlementProof s)) as Hp' by exact Hp. by rewrite (Hq Hp').
  - clear Hq Hs Hd. induction (waiters s) as [|x ws IH]; [by apply not_elem_of_nil in Hw|]. cbn [map] in *. apply NoDup_cons in Hnd as [Hni Hnd].
    rewrite filter_cons. destruct (decide (w_id x ≠ w)) as [Hne|He].
    + apply elem_of_cons in Hw as [->|Hw]; [done|]. cbn. by rewrite <- IH.
    + apply dec_stable in He as <-. rewrite filter_all; [cbn; apply Permutation_cons_append|]. apply Forall_forall. intros y Hy E. apply Hni. rewrite <- E.
      by apply (list_elem_of_fmap_2 w_id).
  - by left.
  - by constructor.
Qed.

Lemma run_waiters_distinct r s l : inv l -> m_get r (runs l) = Some s -> NoDup (map w_id (waiters s)).
Proof.
  intros Hi Hg. destruct (waiting_set r s s (runs l) Hg) as (a & z & _ & E). assert (NoDup (waiting l ++ answered l)) as H by (rewrite (inv_waiters _ Hi); apply NoDup_seq).
  apply NoDup_app in H as [H _]. unfold waiting in H. rewrite E, flat_map_app in H. apply NoDup_app in H as (_ & _ & H). cbn in H. by apply NoDup_app in H as [H _].
Qed.

Lemma follows_timeout r w l : inv l -> follows l (waiterTimeout r w l).
Proof.
  intros Hi. unfold waiterTimeout. destruct (m_get r (runs l)) as [s|] eqn:Hg; [|auto]. destruct (existsb _ _) eqn:Ex; [|auto].
  destruct (inv_runs _ Hi r s Hg) as (Hs & Hq & _). eapply follows_moves; [done..|]. apply timeout_moves; [done..|by apply (run_waiters_distinct r s l)|].
  apply existsb_exists in Ex as (x & Hx & [E%Nat.eqb_eq _]%andb_true_iff). rewrite <- E. apply list_elem_of_In. by apply in_map.
Qed.

Lemma follows_settled r n l : inv l -> possible (o_settled r n) l -> follows l (resourceSettled r n l).
Proof.
  intros Hi Hp. unfold resourceSettled. destruct (m_get r (runs l)) as [s|] eqn:Hg; [|auto]. destruct (inv_runs _ Hi r s Hg) as ((H1 & H2 & H3 & H4) & _ & Hid).
  set (s1 := setResources _ s). assert (moves s1 (bridges l) (notify s1 (bridges l))) as Hm.
  { apply notify_moves. split; [done|]. split; [done|]. split; [|done]. intros E. destruct (H3 E) as [Hd Hr]. split; [done|]. cbn. by rewrite Hr. }
  assert (inv (update r (notify s1 (bridges l)) l)) as Hi'.
  { destruct (notify s1 (bridges l)) as [[s' b'] ans]. destruct Hm as [M1 M2 M3 M4 M5 M6 _ _]. cbn [fst snd] in *. apply (inv_update r s); auto; [by rewrite M3| |].
    - unfold releases_once in M5. cbn in M5. by rewrite Hid in M5.
    - intros c Hc Ho Hr [Hh|[Hh Hd]]; apply M6; [by left|]. right. cbn. split; [|done]. rewrite m_get_delete_ne; [done|]. intros ->. cbn in Hp. rewrite Forall_forall in Hp.
      specialize (Hp c Hc Hr eq_refl). congruence. }
  constructor; [exact Hi'| |eapply onward_set; [done|done|apply (mv_rank _ _ _ Hm)]].
  eexists. split; [done|]. apply Forall_fmap. eapply Forall_impl; [apply Hm|]. intros a Ha. eexists. cbn in *. by rewrite m_get_set_eq.
Qed.

Lemma apply_follows o l : inv l -> possible o l -> follows l (apply o l).
Proof.
  intros Hi Hp. destruct o; cbn [apply].
  - unfold bindCancellationDomainBridge. destruct (_ && _); cbn; [auto|]. eapply follows_bookkeeping; [by apply follows_refl| |done|done]. by destruct Hi.
  - unfold bindAgentSessionClaimKey. destruct (_ && _); cbn; [auto|]. eapply follows_bookkeeping; [by apply follows_refl| |done|done]. by destruct Hi.
  - by apply follows_open.
  - unfold reserveProducer. destruct (m_get r (runs l)) as [s|] eqn:Hg; [|by apply follows_refl]. destruct (lifecycle s); [destruct (mismatch d s)| |]; cbn; auto.
  - unfold claimProducer. destruct (negb _); [by apply follows_refl|]. destruct (m_get r (runs l)) as [s|] eqn:Hg; [|by apply follows_refl].
    destruct (lifecycle s); [destruct (mismatch d s); [|destruct (bool_decide _)]| |]; cbn; auto.
  - unfold track. destruct (m_get r (runs l)) as [s|] eqn:Hg; auto.
  - by apply follows_seal.
  - unfold quarantine. destruct (m_get r (runs l)) as [s|] eqn:Hg; [|by apply follows_refl]. by apply follows_quarantineRun.
  - by apply follows_wait.
  - by apply follows_timeout.
  - by apply follows_settled.
  - unfold leaseTrack. destruct (leases l !! i) as [c|]; [|by apply follows_refl]. destruct (m_get (l_run c) (runs l)) as [s|] eqn:Hg; [|by apply follows_refl].
    destruct (_ || _); cbn [fst]; auto.
  - unfold fork. destruct (leases l !! i) as [c|]; [|by apply follows_refl]. destruct (m_get (l_run c) (runs l)) as [s|] eqn:Hg; [|by apply follows_refl].
    destruct (negb _); [cbn; auto|]. cbv zeta. destruct (_ || _); cbn; auto.
  - eapply follows_bookkeeping; [by apply follows_refl| |done|done]. destruct Hi as [H1 H2 H3 H4]. constructor; try done. cbn.
    apply Forall_alter; [done|]. intros c _ _ Hc. done.
Qed.

Lemma reach_inv x l : Reach x l -> inv l.
Proof.
  induction 1 as [|o l _ IH Hp]; [|by apply apply_follows]. constructor; cbn; [done|done|split; [constructor|by intros r ?%not_elem_of_nil]|constructor].
Qed.

(** C21: Every waiter is either still waiting or was answered exactly once; nobody waits for a run that is settled or quarantined; and every
    answer says what the run is at that moment: settled only when it is sealed and all its resources have settled, else the resources that
    are left. *)
Theorem waiters_learn_the_truth_once x l :
  Reach x l ->
  waiting l ++ answered l ≡ₚ seq 0 (nextWaiter l) /\
  (forall r s, m_get r (runs l) = Some s -> is_Some (settlementProof s) -> waiters s = []) /\
  (forall o, possible o l -> exists new, answers (apply o l) = answers l ++ new /\ Forall (describes (apply o l)) new).
Proof.
  intros Hi%reach_inv. split; [apply (inv_waiters _ Hi)|]. split.
  - intros r s Hs. destruct (inv_runs _ Hi r s Hs) as (_ & [Hq _] & _). exact Hq.
  - intros o Ho. apply (fw_answers _ _ (apply_follows o l Hi Ho)).
Qed.

(** A lease that is not closed keeps its run from settling and keeps its domain, so that it can fork. *)
Theorem open_lease_can_fork x l i c s :
  Reach x l -> leases l !! i = Some c -> closed c = false -> m_get (l_run c) (runs l) = Some s -> lifecycle s ≠ l_quarantined ->
  settlementProof s = None /\ domain s = Some (l_domain c) /\
  forall k text now, (fork i (l_domain c) k text now l).2 = Ok (length (leases l)).
Proof.
  intros Hi%reach_inv Hc Ho Hs Hnq. pose proof (inv_leases _ Hi) as Hl. rewrite Forall_forall in Hl.
  destruct (Hl c (list_elem_of_lookup_2 _ _ _ Hc) Ho) as (s' & Hs' & Hh). rewrite Hs in Hs'. injection Hs' as <-. destruct Hh as [|[[e He] Hd]]; [done|].
  split; [unfold settlementProof; destruct (lifecycle s); [done| |done]; rewrite bool_decide_false; [done|]; by intros E; rewrite E in He|].
  split; [done|]. intros k text now. unfold fork. rewrite Hc, Hs, bool_decide_true by done. cbn [negb]. cbv zeta. rewrite Ho, bool_decide_false by done. cbn [orb].
  unfold leaseFor. rewrite Hd. unfold register, registerIn. by rewrite decide_False.
Qed.

(** The domain of a run is released at most once, and a released one is no longer given out. *)
Theorem domain_is_released_once x l :
  Reach x l -> NoDup (releases (bridges l)).*1 /\ forall r, r ∈ (releases (bridges l)).*1 -> lookupDomain r l = None.
Proof.
  intros Hi%reach_inv. destruct (inv_releases _ Hi) as [Hnd Hr]. split; [done|]. intros r (s & Hs & Hrel)%Hr. unfold lookupDomain. rewrite Hs. cbn.
  destruct (inv_runs _ Hi r s Hs) as ((_ & H & _) & _ & _). by apply H.
Qed.

(** A quarantined run stays so, without resources, and remembers at most 256 of them; no run goes back to an earlier state. *)
Theorem quarantine_is_final x l o r s :
  Reach x l -> possible o l -> m_get r (runs l) = Some s ->
  exists s', m_get r (runs (apply o l)) = Some s' /\ (rank s <= rank s')%nat /\
    (lifecycle s = l_quarantined -> lifecycle s' = l_quarantined /\ resources s' = [] /\ (length (snapshot s') <= MAX_TOMBSTONE_ENTRIES)%nat).
Proof.
  intros Hi%reach_inv Hp Hs. destruct (apply_follows o l Hi Hp) as [Hi' _ Ho]. destruct (Ho r s Hs) as (s' & Hs' & Hle). exists s'. split; [done|]. split; [done|].
  intros E. assert (lifecycle s' = l_quarantined) as E' by (unfold rank in Hle; rewrite E in Hle; destruct (lifecycle s'); [lia|lia|done]).
  destruct (inv_runs _ Hi' r s' Hs') as ((_ & _ & Hz & Ht) & _ & _). split; [done|]. split; [by apply Hz|]. unfold snapshot. by rewrite decide_True.
Qed.
End Ledger.

Definition demoOpen (r : jstring) (x : unit) : unit * OpenResult := (x, OpenRefused false).
Definition demoApply : Op -> @Ledger unit -> @Ledger unit := apply demoOpen (fun _ x => x) (fun _ _ x => x).
Definition demoLedger : @Ledger unit :=
  foldl (fun l o => demoApply o l) (createRunResourceLedger tt)
    [o_open (js "run"); o_reserve (js "run") None k_tool (js "tool") 5; o_wait (js "run") None; o_wait (js "run") (Some 25%Z); o_timeout (js "run") 1; o_seal (js "run"); o_close 0].

Lemma waiters_learn_the_truth_once_witness :
  waiting demoLedger = [0%nat] /\ answered demoLedger = [1%nat] /\
  exists new, answers (demoApply (o_settled (js "run") 1) demoLedger) = answers demoLedger ++ new /\ Forall (describes (demoApply (o_settled (js "run") 1) demoLedger)) new.
Proof.
  destruct (waiters_learn_the_truth_once demoOpen (fun _ x => x) (fun _ _ x => x) tt demoLedger) as (_ & _ & H).
  - unfold demoLedger. cbn [foldl]. repeat (apply reach_step; [|exact I]). apply reach_start.
  - split; [vm_compute; reflexivity|]. split; [vm_compute; reflexivity|]. apply (H (o_settled (js "run") 1)). vm_compute. constructor; [done|constructor].
Defined.

(** A run that is settled, whose proof was given out and whose domain is gone, takes new resources and is not settled any more. *)
Theorem settlement_is_not_final :
  let sealed := demoApply (o_seal (js "run")) (demoApply (o_open (js "run")) (createRunResourceLedger tt)) in
  let later := demoApply (o_track (js "run") k_tool (js "late") 9) sealed in
  (waitForSettlement (js "run") None sealed).2 = inl settled /\ lookupDomain (js "run") sealed = None /\
  (waitForSettlement (js "run") None later).2 = inr 0%nat /\ pending (js "run") later = [mkEntry 1 k_tool (js "late") 9].
Proof. vm_compute. done. Qed.
